(* ===== verification/_CoqProject ===== *)
-Q . S2P
Prelude.v
Unordered.v
Bitmap.v
PathTokens.v
Layout.v
JSuper.v
Codec.v
InodeLog.v
JournalEntry.v
JournalMgr.v
BlockBuf.v
FsCache.v
Alloc.v
Ownership.v
Transfer.v
Descriptors.v
Serving.v
Progress.v
OwnershipRuns.v
PathCache.v
DataPath.v
ReadIO.v
Directory.v
Rename.v
Shmipc.v
RBTree.v
FsLibMalloc.v
