(* ===== verification/Prelude.v ===== *)
(** * uFS: the user-level file system server, its journal and its client library

    This library is a verification development of uFS, a file system that runs as a
    user-level server on an NVMe device.  The sources are C and C++ under [src/cfs]; file
    names below are relative to it.  Every definition translates code and is executable;
    every theorem is proved for all inputs that its hypotheses admit.

    ** The program and where it is modelled

    An application thread calls the client library, which puts a request into a ring in
    shared memory.  A worker of the server takes it from the ring, runs it on the inodes it
    owns, and answers in the same slot.  The worker keeps blocks of the device in buffers;
    a request that misses a block stops, the read is submitted, and the request runs again
    when the read completes.  Metadata changes are collected in a log per inode, written to
    a journal, and later checkpointed in place.  Every inode in memory belongs to one worker;
    to balance the load it is given to another one, with its descriptors and its blocks, by
    messages that pass through the primary worker.

    - [Prelude]: outcomes of C code ([res]), machine integers, memory as lists of cells,
      tactics and the lemmas about them that the other files share.  [Unordered]: containers
      whose order of iteration is not specified.
    - [Shmipc]: [src/shmipc.c] with the calls of its users in [src/FsLib.cc],
      [src/FsProc_Worker.cc] and [src/FsProc.cc].  A state is the ring, the threads and the
      worker; a step is one access to the shared memory.
    - [FsLibMalloc]: [src/FsLibMalloc.cc] and [include/FsLibMalloc.h], the buffers that a
      client shares with the server, and the functions of [AppProc] and [GlobalAppShmIds]
      ([src/FsProc.cc], [include/FsProc_Fs.h]) that find them in the server.
    - [RBTree]: [src/rbtree.cc], the red-black tree that is built into the client library.
    - [PathTokens]: the tokenisers of paths in [src/util.cc].  [Bitmap]: the bit operations
      and searches of the same file.
    - [Layout]: [include/param.h] and [include/FsProc_FsInternal.h], the structures on the
      device and the computations of addresses, for the three build configurations.
    - [BlockBuf]: [src/BlockBuffer.cc], the buffer of blocks with its replacement, dirty
      sets, flushes, and the move of the blocks of an inode to another worker.
    - [FsCache]: [FsImpl::getBlock] and the pending reads of a request
      ([src/FsProc_FsImpl.cc], [src/FsProc.cc], [include/FsProc_FsReq.h]): blocks of the
      device through a buffer.
    - [ReadIO]: the submission of reads and their completions ([src/FsProc_FileMng.cc],
      [src/FsProc_Worker.cc]).
    - [Alloc], [DataPath], [Directory]: [src/FsProc_FsImpl.cc], the allocation of inodes and
      data blocks, the data of files, and the entries of directories.
    - [Ownership]: which worker serves a file, for all workers together: descriptors, the
      moves of inodes between workers, the deallocation of unlinked files, the routing of
      requests and the messages ([src/FsProc_FileMng.cc], [src/FsProc_FileMngOps.cc],
      [src/FsProc_Worker.cc], [src/FsProc.cc], [include/FsProc_Fs.h]).  [Transfer] has its
      invariant and the handlers of messages, [Descriptors] the other operations, [Serving]
      and [Progress] the theorems, [OwnershipRuns] runs of a system of three workers.
    - [PathCache]: [include/FsProc_Permission.h] and [src/FsProc_Permission.cc], the cache of
      paths that the workers read without a lock, with the collection of the maps that are
      removed from it.  [Rename]: the transaction of a rename in [src/FsProc_FileMngOps.cc],
      on the directories, the inodes and the cache of paths together.
    - [Codec], [InodeLog], [JournalEntry]: [src/FsProc_JournalBasic.cc] and
      [include/FsProc__JournalEnabled.h], byte images, the log of an inode with its
      serialisation and application, and the entries of the journal with their recovery.
    - [JSuper]: [include/FsProc_JSuper.h], the ring of journal blocks.  [JournalMgr]:
      [src/FsProc_Journal.cc], the state machine that writes entries, the super block and
      the bookkeeping of checkpoints.

    A structure of the source is a [Record], an enumeration an [Inductive], a function or
    method a [Definition] or [Fixpoint] of the same name with the object as an argument and
    in the result.  Loops whose bound is not a list are cut out as definitions of their own
    ([..._loop]).  Objects that the code refers to by pointer and changes in several places
    (slots of a buffer, requests, inodes, nodes of the tree) live in a heap that is passed
    along, so that aliasing is visible.  Reads and writes outside an object, failed
    assertions, exceptions and signed overflow are [Crash]; unsigned arithmetic is written
    with its wrap-around.

    ** What the theorems show

    - The data path ([DataPath], [Alloc], [FsCache]): a read delivers the bytes of the file,
      a write changes exactly the bytes it names, and a read after a write returns what was
      written, across any number of stops for missing blocks; an allocation records blocks
      that were free and disjoint from all others, in the inode and in its log.  The branches
      in which no progress is possible are stated with their cause: no slot of the buffer is
      free, the file cannot have so many blocks, or the search of the bitmaps met no free
      unit ([Alloc.out_of_space]).  These theorems are for the configurations whose regions
      hold whole extents ([Alloc.AlignedConfig]); the one for filebench is not of them.
    - Ownership ([Serving], [Progress]): in every interleaving of the workers in which the
      primary opens only inodes it owns ([Ownership.opens_own]) a descriptor is
      resolved by one worker at most, is never lost while its inode moves, and stays open
      until it is closed or its process ends; an unlinked file keeps its blocks while it is
      open; the primary routes requests towards the owner; messages about moves are handled
      without failing and run out, and then every inode is where the primary records it.
    - Directories ([Directory]): lookup, insertion, removal and redirection of an entry act
      on the list of entries as on a map from names.  A rename ([Rename]) moves one name
      and changes no other, in one directory or between two; where it can fail or lose the
      file is stated.
    - The cache of paths ([PathCache]): a lookup returns what the tree has for the path; in
      every interleaving of requests that end within the grace period no request follows a
      pointer to a map that was freed, and every map that is removed is freed once.
    - Requests and messages ([ReadIO], [Shmipc], [FsLibMalloc]): no wake-up is lost or
      doubled in any order of completions; the ring is a queue of requests in which no slot
      is shared and none is lost, unless a slot is granted while the thread before is still
      clearing it, byte by byte, and all requests return; buffers never overlap and in any
      history of registrations and lookups the server finds the one that the client means,
      as long as the identifiers have not wrapped around.
    - The red-black tree ([RBTree]): it is a finite map, in logarithmic time, with one node
      per key, and the checks that the file can be compiled with never fail.
    - The journal ([InodeLog], [JournalEntry], [JSuper], [JournalMgr]): what is written is
      read back; replaying a log equals applying it; a commit block is only written after
      its body is durable, and success is only reported after the commit block is, by a flush
      or by force-unit-access where the device has a volatile cache; the ring
      of journal blocks never hands out a block that is in use, in any order of the critical
      sections of transactions, super block writes and one checkpoint at a time; the handlers
      terminate.
    - The layout, the bitmaps, the paths and the buffer ([Layout], [Bitmap], [PathTokens],
      [BlockBuf]): regions of the device are adjacent and disjoint, the searches find the
      first run of free bits, the tokenisers agree with a structural definition on paths whose
      length is an [int], and a
      buffer holds, replaces, flushes and migrates blocks without losing one.

    Some theorems state what the code does where it differs from what it means to do; each
    file has them under its own heading or beside the operation.

    ** Assumptions, fuel and bounds

    Code that is not part of the repository is a parameter: the result of submitting a
    command to the device ([JournalMgr], [ReadIO]), the order of iteration of unordered
    containers ([Unordered]), the comparison function of the tree ([RBTree.CompareOk]), the
    addresses that [malloc] and [mmap] return ([FsLibMalloc.mapped]), the concurrent hash
    maps of the cache of paths ([PathCache.ConcurrentHashMap]).  Each has an instance
    in the witnesses.  Memory is sequentially consistent in [Shmipc].  The answer of the path
    cache is a parameter of the routing of requests ([Ownership.PCR]).  [PathCache] assumes
    that a request ends within the grace period ([PathCache.alive]), which the code does not
    enforce; [Rename] that the request has looked up its inodes ([Rename.ready]).  A history of
    [Ownership.reachable] assumes what [Ownership.allowed] states: [new] returns memory that is not in
    use, an inode on the device carries its own number, and no process opens more than
    10,000,000 files on one worker; and what [Ownership.opens_own] states: when the primary
    completes an [open] after a lookup on the device, it owns the inode.  The code does not test
    this, and [OwnershipRuns.reassigned_open_two_servers] is a run in which it fails and a
    descriptor gets two servers.  [JSuper.journal_history_safe] is about a journal per worker in
    the build with checkpoints; [JSuper.shared_release_twice] shows what happens when managers
    share it.

    A [Fixpoint] that is not structural has fuel, and [Crash NoFuel] is a result that the
    theorems exclude.  [DataPath.loop_fuel] is the largest number of blocks a range
    of that length touches; [Alloc.alloc_fuel] is two iterations for each of the seven extents and one to
    end; [JournalMgr.handler_fuel] is two per queued entry and four; [Ownership.exec_fuel] is
    five, more than the longest chain of handlers of a move that run at once on one worker; [RBTree.path_fuel] is
    the number of nodes, which no path exceeds; [PathCache.collect_fuel] is the number of maps
    that can be pushed; the searches of [Bitmap] and the tokenisers
    run over the length of their input.

    ** Not modelled

    The request state machines of the file manager ([src/FsProc_FileMng.cc]) that chain the
    modelled operations (create, unlink, the lookups before a rename, stat, listing, reads and
    writes with their answers, the syncs), batched moves of inodes, and the packing of arguments into requests:
    they add states of a request and no data of their own.  The page caches wrap
    caches of other libraries; the leases are built from the clock of the
    processor, the load balancing from measured times.  A sender that blocks on the full ring
    of a worker is not modelled: the rings of [Ownership] have no bound.
    The device driver, sockets, configuration,
    statistics and printing are input and output.  The buddy allocator of
    [src/FsLibMalloc.cc] and [include/lru.h] are used nowhere.  The lock-free queues of
    [include/util] and of the libraries are imported code. *)

From Stdlib Require Import ZArith Lia Bool SpecFloat.
From stdpp Require Import base option list_numbers list.

#[global] Open Scope Z_scope.

(** ** Outcomes of C code

    [Ok a]: the code returns [a].  [Crash f]: it does not, because it reads or
    writes outside an object ([OutOfRange]), overflows a signed integer
    ([Overflow]), fails an [assert] or throws ([AssertFail]), or because the
    fuel of the model is exhausted ([NoFuel], which theorems exclude). *)

Inductive fault : Type :=
| OutOfRange
| Overflow
| AssertFail
| NoFuel.

Inductive res (A : Type) : Type :=
| Ok (a : A)
| Crash (f : fault).
Arguments Ok {A} a.
Arguments Crash {A} f.

Definition res_bind {A B : Type} (m : res A) (k : A -> res B) : res B :=
  match m with
  | Ok a => k a
  | Crash f => Crash f
  end.

Declare Scope ufs_scope.
Delimit Scope ufs_scope with ufs.

Notation "'let!' x ':=' m 'in' k" := (res_bind m (fun x => k))
  (at level 10, x pattern, m at level 100, k at level 200) : ufs_scope.

#[global] Open Scope ufs_scope.

(** The code does not run out of fuel. *)
Definition runs {A : Type} (m : res A) : Prop := m <> Crash NoFuel.

(** [assert(b)]: the failing branch aborts. *)
Definition check (b : bool) : res unit := if b then Ok tt else Crash AssertFail.

(** ** Machine integers: values of Z with their width written out. *)

Definition to_u8 (z : Z) : Z := z mod 2 ^ 8.
Definition to_u32 (z : Z) : Z := z mod 2 ^ 32.
Definition to_u64 (z : Z) : Z := z mod 2 ^ 64.
Definition to_i32 (z : Z) : Z := (z + 2 ^ 31) mod 2 ^ 32 - 2 ^ 31.
Definition INT_MIN : Z := - 2 ^ 31.
Definition INT_MAX : Z := 2 ^ 31 - 1.
Definition UINT32_MAX : Z := 2 ^ 32 - 1.
Definition UINT64_MAX : Z := 2 ^ 64 - 1.

(** Addition on [int]: overflow is undefined behaviour. *)
Definition i32_add (a b : Z) : res Z :=
  let s := a + b in
  if (INT_MIN <=? s) && (s <=? INT_MAX) then Ok s else Crash Overflow.

(** Conversion of an integer to [float], rounded to nearest. *)
Definition f32_of_Z (z : Z) : spec_float := binary_normalize 24 128 z 0 false.

(** ** Memory: an object is a list of cells, accessed by index. *)

Definition load {A : Type} (m : list A) (i : Z) : res A :=
  if i <? 0 then Crash OutOfRange else
  match m !! Z.to_nat i with
  | Some v => Ok v
  | None => Crash OutOfRange
  end.

Definition store {A : Type} (m : list A) (i : Z) (v : A) : res (list A) :=
  if (0 <=? i) && (i <? Z.of_nat (length m)) then Ok (<[Z.to_nat i := v]> m)
  else Crash OutOfRange.

(** A loop over a list whose body may crash. *)
Fixpoint foldM {A B : Type} (f : A -> B -> res A) (l : list B) (a : A) : res A :=
  match l with
  | [] => Ok a
  | x :: l' => let! a := f a x in foldM f l' a
  end.

(** [memcpy(m + off, src, length src)] *)
Definition write_at {A : Type} (m : list A) (off : nat) (src : list A)
    : res (list A) :=
  if (off + length src <=? length m)%nat
  then Ok (take off m ++ src ++ drop (off + length src) m)
  else Crash OutOfRange.

(** ** Tactics *)

(** Turns the boolean comparisons of the hypotheses and the goal into
    propositions. *)
Ltac b2p :=
  repeat match goal with
  | H : (_ && _) = true |- _ => apply andb_true_iff in H; destruct H
  | H : (_ || _) = false |- _ => apply orb_false_iff in H; destruct H
  | H : (_ && _) = false |- _ => apply andb_false_iff in H
  | H : (_ || _) = true |- _ => apply orb_true_iff in H
  | H : negb _ = true |- _ => apply negb_true_iff in H
  | H : negb _ = false |- _ => apply negb_false_iff in H
  | H : (_ =? _) = true |- _ => apply Z.eqb_eq in H
  | H : (_ =? _) = false |- _ => apply Z.eqb_neq in H
  | H : (_ <? _) = true |- _ => apply Z.ltb_lt in H
  | H : (_ <? _) = false |- _ => apply Z.ltb_ge in H
  | H : (_ <=? _) = true |- _ => apply Z.leb_le in H
  | H : (_ <=? _) = false |- _ => apply Z.leb_gt in H
  end.

(** Case analysis on the condition of the first [if] of the goal. *)
Ltac case_if :=
  match goal with
  | |- context [if ?b then _ else _] =>
      lazymatch type of b with bool => destruct b eqn:?; b2p end
  end.

(** Case analysis on the condition of the first [if] of a hypothesis. *)
Ltac case_if_in H :=
  match type of H with
  | context [if ?b then _ else _] =>
      lazymatch type of b with bool => destruct b eqn:?; b2p end
  end.

(** Splits a successful [res_bind] into its two successful halves. *)
Ltac inv_bind H :=
  match type of H with
  | res_bind ?m _ = Ok _ =>
      let E := fresh "E" in
      destruct m eqn:E; cbn [res_bind] in H; [| discriminate H]
  end.

(** Linear arithmetic with the bounds of the machine integers. *)
Ltac ints :=
  unfold INT_MIN, INT_MAX, UINT32_MAX, UINT64_MAX in *; lia.

(** Closes conjunctions of comparisons between concrete integers. *)
Ltac by_compute := repeat split; vm_compute; congruence.

Create HintDb ufs.
Create HintDb ufs_rw.

(** ** Generic lemmas *)

Lemma res_bind_ok {A B} (m : res A) (k : A -> res B) b :
  res_bind m k = Ok b <-> exists a, m = Ok a /\ k a = Ok b.
Proof. destruct m; simpl; naive_solver. Qed.

Lemma runs_bind {A B} (m : res A) (k : A -> res B) :
  runs m -> (forall a, m = Ok a -> runs (k a)) -> runs (res_bind m k).
Proof. unfold runs. destruct m; cbn; [auto | congruence]. Qed.

Lemma runs_ok {A} (a : A) : runs (Ok a).
Proof. done. Qed.

Lemma runs_check b : runs (check b).
Proof. by destruct b. Qed.

Lemma runs_store {A} (m : list A) i v : runs (store m i v).
Proof. unfold runs, store. by case_match. Qed.

Lemma runs_foldM {A B} (f : A -> B -> res A) l a :
  (forall a x, runs (f a x)) -> runs (foldM f l a).
Proof.
  intros Hf. revert a. induction l as [| x l IH]; intros a; [done |].
  cbn [foldM]. apply runs_bind; auto.
Qed.

Lemma if_ok {A} (b : bool) (x y : A) :
  (if b then Ok x else Ok y) = Ok (if b then x else y).
Proof. by destruct b. Qed.

Lemma check_ok (b : bool) u : check b = Ok u <-> b = true.
Proof. destruct b, u; simpl; naive_solver. Qed.

Lemma i32_add_ok a b :
  INT_MIN <= a + b <= INT_MAX -> i32_add a b = Ok (a + b).
Proof.
  intros H. unfold i32_add. cbv zeta.
  destruct (_ && _) eqn:E; [done | b2p; lia].
Qed.

Lemma load_ok {A} (m : list A) i v :
  load m i = Ok v <-> 0 <= i /\ m !! Z.to_nat i = Some v.
Proof.
  unfold load. case_if; [naive_solver lia |].
  destruct (m !! Z.to_nat i); naive_solver.
Qed.

Lemma load_in_range {A} (m : list A) i :
  0 <= i < Z.of_nat (length m) -> exists v, load m i = Ok v.
Proof.
  intros H. destruct (lookup_lt_is_Some_2 m (Z.to_nat i)) as [v Hv]; [lia |].
  exists v. apply load_ok. split; [lia | done].
Qed.

Lemma store_ok {A} (m : list A) i v :
  0 <= i < Z.of_nat (length m) -> store m i v = Ok (<[Z.to_nat i := v]> m).
Proof.
  intros H. unfold store. destruct (_ && _) eqn:E; [done | b2p; lia].
Qed.

Lemma store_inv {A} (m m' : list A) i v :
  store m i v = Ok m' ->
  0 <= i < Z.of_nat (length m) /\ m' = <[Z.to_nat i := v]> m.
Proof. unfold store. intros H. case_if_in H; [naive_solver lia | done]. Qed.

Lemma load_store_same {A} (m m' : list A) i v :
  store m i v = Ok m' -> load m' i = Ok v.
Proof.
  intros [Hi ->]%store_inv. apply load_ok. split; [lia |].
  apply list_lookup_insert_eq. lia.
Qed.

Lemma load_store_other {A} (m m' : list A) i j v :
  store m i v = Ok m' -> i <> j -> load m' j = load m j.
Proof.
  intros [Hi ->]%store_inv Hne. unfold load.
  case_if; [done |]. rewrite list_lookup_insert_ne by lia. done.
Qed.

Lemma write_at_ok {A} (m : list A) off src :
  (off + length src <= length m)%nat ->
  write_at m off src = Ok (take off m ++ src ++ drop (off + length src) m).
Proof. intros H. unfold write_at. by rewrite (proj2 (Nat.leb_le _ _) H). Qed.

Lemma write_at_inv {A} (m m' : list A) off src :
  write_at m off src = Ok m' ->
  length m' = length m /\
  forall j, m' !! j = if decide (off <= j < off + length src)%nat then src !! (j - off)%nat else m !! j.
Proof.
  unfold write_at. case_if; [| done]. intros [= <-].
  assert (H : (off + length src <= length m)%nat) by by apply Nat.leb_le.
  split; [rewrite !length_app, length_take, length_drop; lia |].
  intros j. destruct (decide (off <= j < off + length src)%nat) as [Hj | Hj].
  - rewrite lookup_app_r, length_take, Nat.min_l by (rewrite ?length_take; lia).
    by rewrite lookup_app_l by lia.
  - destruct (decide (j < off)%nat).
    + rewrite lookup_app_l by (rewrite length_take; lia). by rewrite lookup_take_lt.
    + rewrite lookup_app_r, length_take, Nat.min_l by (rewrite ?length_take; lia).
      rewrite lookup_app_r, lookup_drop by lia. f_equal. lia.
Qed.

(** Writing at the end of the used prefix of a buffer. *)
Lemma write_at_app {A} (used src : list A) n m (z : A) :
  (length src + m = n)%nat ->
  write_at (used ++ replicate n z) (length used) src =
    Ok ((used ++ src) ++ replicate m z).
Proof.
  intros <-. rewrite write_at_ok by (rewrite length_app, length_replicate; lia).
  rewrite take_app_length, replicate_add, <- drop_drop, drop_app_length.
  rewrite drop_app_length' by (by rewrite length_replicate).
  by rewrite <- app_assoc.
Qed.

Lemma tail_drop {A} (l : list A) n : tail (drop n l) = drop (S n) l.
Proof.
  rewrite <- Nat.add_1_r, <- drop_drop. by destruct (drop n l).
Qed.

Lemma foldM_app {A B} (f : A -> B -> res A) l1 l2 a :
  foldM f (l1 ++ l2) a = (let! a := foldM f l1 a in foldM f l2 a).
Proof.
  revert a. induction l1 as [| x l1 IH]; intros a; [done |].
  cbn [app foldM]. destruct (f a x); cbn [res_bind]; auto.
Qed.

Lemma NoDup_fmap_filter {A B} (f : A -> B) (P : A -> Prop) `{!forall x, Decision (P x)} l :
  NoDup (f <$> l) -> NoDup (f <$> filter P l).
Proof.
  induction l as [| x l IH]; [done |]. rewrite fmap_cons, filter_cons.
  intros [Hx Hl]%NoDup_cons. case_decide; [| auto].
  rewrite fmap_cons. apply NoDup_cons. split; [| auto].
  intros (y & Hy & [_ Hin]%list_elem_of_filter)%list_elem_of_fmap. apply Hx.
  apply list_elem_of_fmap. eauto.
Qed.

Lemma filter_Forall_iff {A} (P1 P2 : A -> Prop)
    `{!forall x, Decision (P1 x), !forall x, Decision (P2 x)} l :
  Forall (fun x => P1 x <-> P2 x) l -> filter P1 l = filter P2 l.
Proof.
  induction 1 as [| x l Hx Hl IH]; [done |]. rewrite !filter_cons, IH.
  do 2 case_decide; naive_solver.
Qed.

Lemma to_u32_small z : 0 <= z < 2 ^ 32 -> to_u32 z = z.
Proof. intros. unfold to_u32. by rewrite Z.mod_small. Qed.

Lemma to_u64_small z : 0 <= z < 2 ^ 64 -> to_u64 z = z.
Proof. intros. unfold to_u64. by rewrite Z.mod_small. Qed.

#[export] Hint Resolve i32_add_ok store_ok runs_ok runs_check runs_store : ufs.

(** Discharges [runs] for straight-line code. *)
Ltac runs_tac :=
  repeat match goal with
  | |- runs (res_bind _ _) => apply runs_bind; [| intros ? ?]
  | |- runs (if ?b then _ else _) => destruct b
  | |- runs (match ?x with _ => _ end) => destruct x
  | |- runs _ => solve [auto with ufs | done]
  end.
