(* ===== verification/Unordered.v ===== *)
(** * Unordered containers

    The order in which [std::unordered_map] and [std::unordered_set] are visited
    is not specified.  A definition that visits one takes the order as an instance
    of a class that promises only that every element is visited once; its theorems
    hold for every order. *)

From Stdlib Require Import ZArith.
From stdpp Require Import base list gmap.

Class UIter : Type := {
  uiter : forall {V : Type}, gmap Z V -> list (Z * V);
  uiter_perm : forall {V : Type} (m : gmap Z V), uiter m ≡ₚ map_to_list m
}.

Class SIter : Type := {
  siter : gset Z -> list Z;
  siter_perm : forall X, siter X ≡ₚ elements X
}.

(** One possible order. *)
Definition sorted_iter : UIter :=
  {| uiter := fun V m => map_to_list m; uiter_perm := fun V m => Permutation_refl _ |}.

Definition sorted_siter : SIter :=
  {| siter := elements; siter_perm := fun X => Permutation_refl _ |}.

Lemma siter_elem `{SIter} X i : i ∈ siter X <-> i ∈ X.
Proof. rewrite siter_perm. apply elem_of_elements. Qed.

Lemma siter_NoDup `{SIter} X : NoDup (siter X).
Proof. rewrite siter_perm. apply NoDup_elements. Qed.

Lemma siter_length `{SIter} X : length (siter X) = size X.
Proof. by rewrite siter_perm. Qed.
