(* ===== verification/Bitmap.v ===== *)
(** * Bitmap blocks

    The bit operations and the free-bit searches of [cfs/src/util.cc], on which
    the inode bitmap and the data-block bitmaps of the file system are built.
    A bitmap block is the list of its bytes; a read or write outside it is a
    [Crash], as are the overflows of the [int] cursors of the searches.  The
    abstract view of a block is [get_bit], the truth value of each bit. *)

From Stdlib Require Import ZArith Lia Bool.
From stdpp Require Import base list option.
From S2P Require Import Prelude.

Module Bitmap.

(** ** Single bits *)

(** [1 << (nr & 0x07)] *)
Definition bit_mask (nr : Z) : Z := Z.shiftl 1 (Z.land nr 7).

Definition block_set_bit (nr : Z) (addr : list Z) : res (Z * list Z) :=
  let i := Z.shiftr nr 3 in
  let! b := load addr i in
  let! addr' := store addr i (to_u8 (Z.lor b (bit_mask nr))) in
  Ok (Z.land (bit_mask nr) b, addr').

Definition block_clear_bit (nr : Z) (addr : list Z) : res (Z * list Z) :=
  let i := Z.shiftr nr 3 in
  let! b := load addr i in
  let! addr' := store addr i (to_u8 (Z.land b (Z.lnot (bit_mask nr)))) in
  Ok (Z.land (bit_mask nr) b, addr').

Definition block_test_bit (nr : Z) (addr : list Z) : res Z :=
  let! b := load addr (Z.shiftr nr 3) in
  Ok (Z.land (bit_mask nr) b).

(** ** Searches

    Each [do ... while] is a [Fixpoint] on a fuel argument; the fuel passed by
    the function is the length of the scanned range plus one. *)

Fixpoint free_bit_loop (fuel : nat) (addr : list Z) (numBitsPerBlock : Z)
    (bit_no bit_set : Z) : res (Z * Z) :=
  match fuel with
  | O => Crash NoFuel
  | S fuel' =>
      let! bit_no := i32_add bit_no 1 in
      if bit_no =? numBitsPerBlock then Ok (bit_no, bit_set) else
      let! bit_set := block_test_bit (to_u32 bit_no) addr in
      if negb (bit_set =? 0) && (bit_no <? numBitsPerBlock)
      then free_bit_loop fuel' addr numBitsPerBlock bit_no bit_set
      else Ok (bit_no, bit_set)
  end.

Definition find_block_free_bit_no_start_from (addr : list Z)
    (start_bit_no numBitsPerBlock : Z) : res Z :=
  let! (bit_no, bit_set) :=
    free_bit_loop (S (Z.to_nat (numBitsPerBlock - start_bit_no))) addr
      numBitsPerBlock start_bit_no (-1) in
  if negb (bit_set =? 0) || (bit_no =? numBitsPerBlock)
  then Ok (-1) else Ok bit_no.

Definition find_block_free_bit_no (addr : list Z) (numBitsPerBlock : Z) : res Z :=
  find_block_free_bit_no_start_from addr (-1) numBitsPerBlock.

(** Loop state of [find_block_free_multi_bits_no]: bit_no, bit_set,
    start_bit_no, numBitsFound. *)
Fixpoint multi_bits_loop (fuel : nat) (addr : list Z)
    (numBitsPerBlock numBitsNeed : Z)
    (bit_no bit_set start_bit_no numBitsFound : Z) : res (Z * Z * Z) :=
  match fuel with
  | O => Crash NoFuel
  | S fuel' =>
      let! bit_no := i32_add bit_no 1 in
      if bit_no =? numBitsPerBlock
      then Ok (bit_set, start_bit_no, numBitsFound) else
      let! bit_set := block_test_bit (to_u32 bit_no) addr in
      if negb (bit_set =? 0) then
        if bit_no >=? numBitsPerBlock
        then Ok (bit_set, start_bit_no, numBitsFound)
        else multi_bits_loop fuel' addr numBitsPerBlock numBitsNeed
               bit_no bit_set start_bit_no 0
      else
        let! numBitsFound := i32_add numBitsFound 1 in
        if numBitsFound =? numBitsNeed
        then Ok (bit_set, start_bit_no, numBitsFound)
        else
          let start_bit_no :=
            if numBitsFound =? 1 then bit_no else start_bit_no in
          if numBitsFound <? numBitsNeed
          then multi_bits_loop fuel' addr numBitsPerBlock numBitsNeed
                 bit_no bit_set start_bit_no numBitsFound
          else Ok (bit_set, start_bit_no, numBitsFound)
  end.

Definition find_block_free_multi_bits_no (addr : list Z)
    (numBitsPerBlock numBitsNeed : Z) : res Z :=
  let! (bit_set, start_bit_no, numBitsFound) :=
    multi_bits_loop (S (Z.to_nat (numBitsPerBlock + 1))) addr
      numBitsPerBlock numBitsNeed (-1) (-1) (-1) 0 in
  if negb (bit_set =? 0) || negb (numBitsFound =? numBitsNeed)
  then Ok (-1) else Ok start_bit_no.

Fixpoint jump_bits_loop (fuel : nat) (addr : list Z)
    (numBitsPerBlock numBitsJump : Z)
    (bit_no bit_set start_bit_no : Z) : res (Z * Z) :=
  match fuel with
  | O => Crash NoFuel
  | S fuel' =>
      let! bit_no := i32_add bit_no numBitsJump in
      if bit_no >=? numBitsPerBlock then Ok (bit_set, start_bit_no) else
      let! bit_set := block_test_bit (to_u32 bit_no) addr in
      if negb (bit_set =? 0)
      then
        if bit_no <? numBitsPerBlock
        then jump_bits_loop fuel' addr numBitsPerBlock numBitsJump
               bit_no bit_set start_bit_no
        else Ok (bit_set, start_bit_no)
      else Ok (bit_set, bit_no)
  end.

Definition find_block_free_jump_bits_no_start_from (addr : list Z)
    (start_bit_no numBitsPerBlock numBitsJump : Z) : res Z :=
  let bit_no := if start_bit_no >? 0 then start_bit_no else - numBitsJump in
  let! (bit_set, start_bit_no) :=
    jump_bits_loop (S (S (Z.to_nat (numBitsPerBlock - bit_no)))) addr
      numBitsPerBlock numBitsJump bit_no (-1) start_bit_no in
  if negb (bit_set =? 0) || (numBitsPerBlock - start_bit_no <? numBitsJump)
  then Ok (-1) else Ok start_bit_no.

(** ** Abstract view *)

(** The truth value of bit [nr]; false outside the block. *)
Definition get_bit (addr : list Z) (nr : Z) : bool :=
  match addr !! Z.to_nat (nr / 8) with
  | Some b => Z.testbit b (nr mod 8)
  | None => false
  end.

Definition bytes_ok (addr : list Z) : Prop :=
  Forall (fun b => 0 <= b < 256) addr.

(** [nr] names a bit of the block. *)
Definition in_block (addr : list Z) (nr : Z) : Prop :=
  0 <= nr < 8 * Z.of_nat (length addr).

(** All bits of the half-open range are set, respectively free. *)
Definition all_set (addr : list Z) (lo hi : Z) : Prop :=
  forall i, lo <= i < hi -> get_bit addr i = true.

Definition all_free (addr : list Z) (lo hi : Z) : Prop :=
  forall i, lo <= i < hi -> get_bit addr i = false.

(** [r] is the first free bit of [lo, hi), or -1 when there is none. *)
Definition first_free (addr : list Z) (lo hi r : Z) : Prop :=
  (r = -1 /\ all_set addr lo hi) \/
  (lo <= r < hi /\ get_bit addr r = false /\ all_set addr lo r).

(** What it means that a call changed exactly bit [nr] to [v]. *)
Definition bit_written (addr addr' : list Z) (nr : Z) (v : bool) : Prop :=
  length addr' = length addr /\ bytes_ok addr' /\
  forall j, 0 <= j -> get_bit addr' j = if j =? nr then v else get_bit addr j.

(** [r] is the first start of a run of [need] free bits below [num], or -1
    when there is no such run. *)
Definition first_run (addr : list Z) (num need r : Z) : Prop :=
  (r = -1 /\ forall s, 0 <= s -> s + need <= num -> ~ all_free addr s (s + need)) \/
  (0 <= r /\ r + need <= num /\ all_free addr r (r + need) /\
   forall s, 0 <= s < r -> ~ all_free addr s (s + need)).

(** [r] is the first free bit among [first, first + jump, ...] that leaves room
    for [jump] bits below [num], or -1 when there is none. *)
Definition first_jump (addr : list Z) (first num jump r : Z) : Prop :=
  (r = -1 /\ forall k, 0 <= k -> first + k * jump + jump <= num ->
     get_bit addr (first + k * jump) = true) \/
  (exists k, 0 <= k /\ r = first + k * jump /\ r + jump <= num /\
     get_bit addr r = false /\
     forall k', 0 <= k' < k -> get_bit addr (first + k' * jump) = true).

(** ** Lemmas on single bits *)

Lemma land_pow2 b k :
  0 <= k -> Z.land (2 ^ k) b = if Z.testbit b k then 2 ^ k else 0.
Proof.
  intros Hk. apply Z.bits_inj'. intros n Hn.
  rewrite Z.land_spec, Z.pow2_bits_eqb by done.
  destruct (Z.eqb_spec k n) as [-> | Hne].
  - destruct (Z.testbit b n) eqn:E; simpl.
    + by rewrite Z.pow2_bits_true.
    + by rewrite Z.bits_0.
  - simpl. destruct (Z.testbit b k).
    + by rewrite Z.pow2_bits_false by lia.
    + by rewrite Z.bits_0.
Qed.

Lemma bit_mask_pow2 nr : bit_mask nr = 2 ^ (nr mod 8).
Proof.
  unfold bit_mask. change 7 with (Z.ones 3). rewrite Z.land_ones by lia.
  rewrite Z.shiftl_1_l. done.
Qed.

Lemma bit_index nr : Z.shiftr nr 3 = nr / 8.
Proof. by rewrite Z.shiftr_div_pow2 by lia. Qed.

Lemma in_block_byte addr nr :
  in_block addr nr ->
  exists b, load addr (nr / 8) = Ok b /\ addr !! Z.to_nat (nr / 8) = Some b.
Proof.
  intros H. destruct (load_in_range addr (nr / 8)) as [b Hb].
  { unfold in_block in H. Z.to_euclidean_division_equations; lia. }
  exists b. split; [done |]. by apply load_ok in Hb as [_ ?].
Qed.

Lemma block_test_bit_eq addr nr :
  in_block addr nr ->
  block_test_bit nr addr =
    Ok (if get_bit addr nr then 2 ^ (nr mod 8) else 0).
Proof.
  intros H. destruct (in_block_byte _ _ H) as (b & Hl & Hb).
  unfold block_test_bit, get_bit. rewrite bit_index, Hl, Hb, bit_mask_pow2.
  cbn [res_bind]. rewrite land_pow2; [done |].
  apply Z.mod_pos_bound. lia.
Qed.

(** Writing byte [b'] over the byte of bit [nr], where [b'] differs from the
    old byte in that bit at most, changes no other bit of the block. *)
Lemma get_bit_update addr nr b b' v j :
  in_block addr nr -> 0 <= j ->
  addr !! Z.to_nat (nr / 8) = Some b ->
  (forall k, 0 <= k < 8 ->
     Z.testbit b' k = if k =? nr mod 8 then v else Z.testbit b k) ->
  get_bit (<[Z.to_nat (nr / 8) := b']> addr) j =
    if j =? nr then v else get_bit addr j.
Proof.
  intros [Hnr _] Hj Hb Hb'. unfold get_bit.
  pose proof (Z.div_mod j 8). pose proof (Z.div_mod nr 8).
  pose proof (Z.mod_pos_bound j 8). pose proof (Z.mod_pos_bound nr 8).
  pose proof (Z.div_pos j 8). pose proof (Z.div_pos nr 8).
  destruct (decide (j / 8 = nr / 8)) as [E | E].
  - rewrite E, list_lookup_insert_eq by eauto using lookup_lt_Some.
    rewrite Hb', Hb by lia.
    destruct (Z.eqb_spec (j mod 8) (nr mod 8)), (Z.eqb_spec j nr); lia || done.
  - rewrite list_lookup_insert_ne by lia.
    destruct (Z.eqb_spec j nr); [congruence | done].
Qed.

Lemma testbit_to_u8 z k : 0 <= k < 8 -> Z.testbit (to_u8 z) k = Z.testbit z k.
Proof. intros. unfold to_u8. by rewrite Z.mod_pow2_bits_low by lia. Qed.

Lemma to_u8_range z : 0 <= to_u8 z < 256.
Proof. apply (Z.mod_pos_bound z 256). lia. Qed.

Lemma bytes_ok_insert addr i b :
  bytes_ok addr -> 0 <= b < 256 -> bytes_ok (<[i := b]> addr).
Proof. intros. by apply Forall_insert. Qed.

#[local] Hint Resolve to_u8_range bytes_ok_insert : ufs.

Lemma mask_bits nr b k :
  0 <= k < 8 ->
  Z.testbit (to_u8 (Z.lor b (bit_mask nr))) k =
    (if k =? nr mod 8 then true else Z.testbit b k) /\
  Z.testbit (to_u8 (Z.land b (Z.lnot (bit_mask nr)))) k =
    (if k =? nr mod 8 then false else Z.testbit b k).
Proof.
  intros Hk. rewrite !testbit_to_u8, bit_mask_pow2 by done.
  rewrite Z.lor_spec, Z.land_spec, Z.lnot_spec by lia.
  rewrite Z.pow2_bits_eqb by (apply Z.mod_pos_bound; lia).
  rewrite (Z.eqb_sym (nr mod 8) k).
  destruct (k =? nr mod 8), (Z.testbit b k); done.
Qed.

Lemma block_set_bit_spec addr nr :
  bytes_ok addr -> in_block addr nr ->
  exists addr',
    block_set_bit nr addr =
      Ok (if get_bit addr nr then 2 ^ (nr mod 8) else 0, addr') /\
    bit_written addr addr' nr true.
Proof.
  intros Hok H. destruct (in_block_byte _ _ H) as (b & Hl & Hb).
  pose proof (lookup_lt_Some _ _ _ Hb).
  eexists. split.
  - pose proof (block_test_bit_eq _ _ H) as Ht.
    unfold block_set_bit, block_test_bit in *. rewrite bit_index, Hl in *.
    cbn [res_bind] in *. rewrite store_ok.
    + cbn [res_bind]. by injection Ht as ->.
    + destruct H. pose proof (Z.div_pos nr 8). lia.
  - split_and!; [apply length_insert | auto with ufs |].
    intros j Hj. eapply get_bit_update; eauto. intros k Hk. by apply mask_bits.
Qed.

Lemma block_clear_bit_spec addr nr :
  bytes_ok addr -> in_block addr nr ->
  exists addr',
    block_clear_bit nr addr =
      Ok (if get_bit addr nr then 2 ^ (nr mod 8) else 0, addr') /\
    bit_written addr addr' nr false.
Proof.
  intros Hok H. destruct (in_block_byte _ _ H) as (b & Hl & Hb).
  pose proof (lookup_lt_Some _ _ _ Hb).
  eexists. split.
  - pose proof (block_test_bit_eq _ _ H) as Ht.
    unfold block_clear_bit, block_test_bit in *. rewrite bit_index, Hl in *.
    cbn [res_bind] in *. rewrite store_ok.
    + cbn [res_bind]. by injection Ht as ->.
    + destruct H. pose proof (Z.div_pos nr 8). lia.
  - split_and!; [apply length_insert | auto with ufs |].
    intros j Hj. eapply get_bit_update; eauto. intros k Hk. by apply mask_bits.
Qed.

Lemma byte_ext a b :
  0 <= a < 256 -> 0 <= b < 256 ->
  (forall k, 0 <= k < 8 -> Z.testbit a k = Z.testbit b k) -> a = b.
Proof.
  intros Ha Hb H. apply Z.bits_inj'. intros n Hn.
  destruct (decide (n < 8)); [apply H; lia |].
  rewrite <- (Z.mod_small a (2 ^ 8)), <- (Z.mod_small b (2 ^ 8)) by lia.
  by rewrite !Z.mod_pow2_bits_high by lia.
Qed.

(** A block of bytes is determined by its bits. *)
Lemma block_ext a b :
  bytes_ok a -> bytes_ok b -> length a = length b ->
  (forall j, 0 <= j -> get_bit a j = get_bit b j) -> a = b.
Proof.
  intros Ha Hb Hlen H. apply list_eq_same_length with (length b); [done.. |].
  intros i x y Hi Hx Hy.
  unfold bytes_ok in *. rewrite Forall_lookup in Ha, Hb.
  apply byte_ext; [by eapply Ha | by eapply Hb |]. intros k Hk.
  specialize (H (8 * Z.of_nat i + k)). unfold get_bit in H.
  assert (E : (8 * Z.of_nat i + k) / 8 = Z.of_nat i)
    by (Z.to_euclidean_division_equations; lia).
  assert (M : (8 * Z.of_nat i + k) mod 8 = k)
    by (Z.to_euclidean_division_equations; lia).
  rewrite E, M, Nat2Z.id, Hx, Hy in H. apply H. lia.
Qed.

#[export] Hint Resolve block_set_bit_spec block_clear_bit_spec : ufs.

(** ** Lemmas on the searches *)

(** Testing bit [i] inside a scanned range that fits the block. *)
Lemma test_scanned addr num i :
  num <= INT_MAX -> num <= 8 * Z.of_nat (length addr) -> 0 <= i < num ->
  exists v, block_test_bit (to_u32 i) addr = Ok v /\
            (v =? 0) = negb (get_bit addr i).
Proof.
  intros Hm Hl Hi. unfold INT_MAX in Hm.
  rewrite to_u32_small, block_test_bit_eq by (unfold in_block; lia).
  eexists. split; [done |]. destruct (get_bit addr i); [| done].
  apply Z.eqb_neq. apply Z.pow_nonzero; [lia |]. apply Z.mod_pos_bound. lia.
Qed.

Lemma all_set_nil addr lo hi : hi <= lo -> all_set addr lo hi.
Proof. intros ? i Hi. lia. Qed.

Lemma all_set_cons addr lo hi :
  get_bit addr lo = true -> all_set addr (lo + 1) hi -> all_set addr lo hi.
Proof.
  intros H Ha i Hi. destruct (decide (i = lo)) as [-> | ]; [done |].
  apply Ha. lia.
Qed.

#[local] Hint Resolve all_set_nil all_set_cons : ufs.

Lemma i32_step b num :
  -1 <= b < num -> num <= INT_MAX -> i32_add b 1 = Ok (b + 1).
Proof. intros. apply i32_add_ok. ints. Qed.

Section Search.
Context (addr : list Z) (num : Z).
Context (Hmax : num <= INT_MAX) (Hlen : num <= 8 * Z.of_nat (length addr)).

Lemma free_bit_loop_spec fuel b s :
  -1 <= b < num -> s <> 0 -> num - b <= Z.of_nat fuel ->
  exists b' s', free_bit_loop fuel addr num b s = Ok (b', s') /\
    b < b' <= num /\ all_set addr (b + 1) b' /\
    (b' = num /\ s' <> 0 \/ b' < num /\ s' = 0 /\ get_bit addr b' = false).
Proof.
  revert b s. induction fuel as [| fuel IH]; intros b s Hb Hs Hf; [lia |].
  cbn [free_bit_loop]. rewrite (i32_step _ num) by lia. cbn [res_bind].
  case_if; [eauto 12 with ufs lia |].
  destruct (test_scanned addr num (b + 1)) as (v & -> & Hv); [lia.. |].
  cbn [res_bind]. rewrite Hv, negb_involutive.
  destruct (get_bit addr (b + 1)) eqn:Hg; cbn [andb].
  - destruct (Z.ltb_spec (b + 1) num); [| lia].
    destruct (IH (b + 1) v) as (b' & s' & -> & Hr & Ha & Hc); [b2p; lia.. |].
    eauto 12 with ufs lia.
  - b2p. subst. eauto 12 with ufs lia.
Qed.

Lemma find_block_free_bit_no_start_from_ok start :
  -1 <= start < num ->
  exists r, find_block_free_bit_no_start_from addr start num = Ok r /\
            first_free addr (start + 1) num r.
Proof.
  intros Hs. unfold find_block_free_bit_no_start_from.
  destruct (free_bit_loop_spec (S (Z.to_nat (num - start))) start (-1))
    as (b & s & -> & Hr & Ha & Hc); [lia.. |].
  cbn [res_bind]. eexists. split; [| unfold first_free].
  - instantiate (1 := if b =? num then -1 else b).
    destruct (Z.eqb_spec s 0), (Z.eqb_spec b num); simpl; (done || lia).
  - case_if; [left; by subst | right; naive_solver lia].
Qed.

(** Loop invariant of the multi-bit search: the last [found] bits up to [b] are
    free and no run of [need] free bits starts before them. *)
Definition run_inv (need b s st found : Z) : Prop :=
  -1 <= b < num /\ 0 <= found < need /\ found <= b + 1 /\
  (s = 0 -> 0 < found) /\ (0 < found -> st = b + 1 - found) /\
  all_free addr (b + 1 - found) (b + 1) /\
  forall t, 0 <= t < b + 1 - found -> ~ all_free addr t (t + need).

Lemma run_inv_set need b s st found v :
  run_inv need b s st found -> b + 1 < num ->
  get_bit addr (b + 1) = true -> v <> 0 -> run_inv need (b + 1) v st 0.
Proof.
  intros (Hb & Hf & Hfb & Hs & Hst & Hfr & Hno) Hlt Hg Hv.
  split_and!; try lia.
  - intros i Hi. lia.
  - intros t Ht Hall. destruct (decide (t < b + 1 - found)) as [Hlt' | Hge].
    + apply (Hno t); [lia | done].
    + rewrite Hall in Hg; [done | lia].
Qed.

Lemma run_inv_free need b s st found :
  run_inv need b s st found -> b + 1 < num -> found + 1 <> need ->
  get_bit addr (b + 1) = false ->
  run_inv need (b + 1) 0 (if found + 1 =? 1 then b + 1 else st) (found + 1).
Proof.
  intros (Hb & Hf & Hfb & Hs & Hst & Hfr & Hno) Hlt Hn Hg.
  split_and!; try lia.
  - case_if; lia.
  - intros i Hi. destruct (decide (i = b + 1)) as [-> | ]; [done |].
    apply Hfr. lia.
  - intros t Ht. apply Hno. lia.
Qed.

Lemma multi_bits_loop_spec need fuel b s st found :
  2 <= need -> run_inv need b s st found -> num - b <= Z.of_nat fuel ->
  exists s' st' f',
    multi_bits_loop fuel addr num need b s st found = Ok (s', st', f') /\
    first_run addr num need
      (if negb (s' =? 0) || negb (f' =? need) then -1 else st').
Proof.
  intros Hneed. revert b s st found.
  induction fuel as [| fuel IH]; intros b s st found Hinv Hfu.
  { destruct Hinv. lia. }
  pose proof Hinv as (Hb & Hf & Hfb & Hs & Hst & Hfr & Hno).
  cbn [multi_bits_loop]. rewrite (i32_step _ num) by lia. cbn [res_bind].
  case_if.
  { eexists _, _, _. split; [done |]. left.
    destruct (Z.eqb_spec found need); [lia |]. rewrite orb_true_r.
    split; [done |]. intros t Ht Hn. apply Hno. lia. }
  destruct (test_scanned addr num (b + 1)) as (v & -> & Hv); [lia.. |].
  cbn [res_bind]. rewrite Hv, negb_involutive.
  destruct (get_bit addr (b + 1)) eqn:Hg; cbn [negb] in Hv.
  - destruct (Z.geb_spec (b + 1) num); [lia |]. b2p.
    apply IH; [eapply run_inv_set; eauto; lia | lia].
  - b2p. subst v. rewrite i32_add_ok by ints.
    cbn [res_bind]. case_if.
    + eexists _, _, _. split; [done |]. right. subst need.
      rewrite !Z.eqb_refl. cbn [negb orb]. rewrite Hst by lia.
      split_and!; [lia.. | |]; [| intros t Ht; apply Hno; lia].
      intros i Hi. destruct (decide (i = b + 1)) as [-> | ]; [done |].
      apply Hfr. lia.
    + destruct (Z.ltb_spec (found + 1) need); [| lia].
      apply IH; [eapply run_inv_free; eauto; lia | lia].
Qed.

(** With [need = 1] the loop never records a start. *)
Lemma multi_bits_loop_one fuel b s :
  -1 <= b < num -> num - b <= Z.of_nat fuel ->
  exists s' f', multi_bits_loop fuel addr num 1 b s (-1) 0 = Ok (s', -1, f').
Proof.
  revert b s. induction fuel as [| fuel IH]; intros b s Hb Hf; [lia |].
  cbn [multi_bits_loop]. rewrite (i32_step _ num) by lia. cbn [res_bind].
  case_if; [eauto |].
  destruct (test_scanned addr num (b + 1)) as (v & -> & _); [lia.. |].
  cbn [res_bind]. case_if; [| rewrite i32_add_ok by ints; eauto].
  destruct (Z.geb_spec (b + 1) num); [lia |]. apply IH; lia.
Qed.

Lemma jump_bits_loop_spec jump fuel b s st :
  0 < jump -> num + jump <= INT_MAX -> - jump <= b < num -> s <> 0 ->
  num - b < Z.of_nat fuel ->
  exists s' st', jump_bits_loop fuel addr num jump b s st = Ok (s', st') /\
    (s' <> 0 /\ (forall k, 0 < k -> b + k * jump < num ->
                   get_bit addr (b + k * jump) = true) \/
     s' = 0 /\ exists k, 0 < k /\ st' = b + k * jump /\ st' < num /\
       get_bit addr st' = false /\
       forall k', 0 < k' < k -> get_bit addr (b + k' * jump) = true).
Proof.
  intros Hj Hi. revert b s.
  induction fuel as [| fuel IH]; intros b s Hb Hs Hf; [lia |].
  cbn [jump_bits_loop].
  rewrite i32_add_ok by ints. cbn [res_bind].
  rewrite Z.geb_leb. case_if.
  { eexists _, _. split; [done |]. left. split; [done |]. intros k ? ?. nia. }
  destruct (test_scanned addr num (b + jump)) as (v & -> & Hv); [lia.. |].
  cbn [res_bind]. rewrite Hv, negb_involutive.
  destruct (get_bit addr (b + jump)) eqn:Hg; cbn [negb] in Hv.
  - destruct (Z.ltb_spec (b + jump) num); [| lia]. b2p.
    destruct (IH (b + jump) v) as (s' & st' & -> & Hc); [lia.. |].
    eexists _, _. split; [done |].
    assert (Hstep : forall k, b + jump + k * jump = b + (k + 1) * jump) by lia.
    assert (Hone : get_bit addr (b + 1 * jump) = true)
      by (by replace (b + 1 * jump) with (b + jump) by lia).
    destruct Hc as [[Hne Hall] | (-> & k & Hk & -> & Hlt & Hfree & Hall)].
    + left. split; [done |]. intros k Hk Hkn.
      destruct (decide (k = 1)) as [-> | ]; [done |].
      replace k with (k - 1 + 1) by lia. rewrite <- Hstep. apply Hall; lia.
    + right. split; [done |]. exists (k + 1). rewrite <- Hstep.
      split_and!; try done; [lia |]. intros k' Hk'.
      destruct (decide (k' = 1)) as [-> | ]; [done |].
      replace k' with (k' - 1 + 1) by lia. rewrite <- Hstep. apply Hall. lia.
  - eexists _, _. split; [done |]. right. b2p. split; [done |].
    exists 1. split_and!; done || lia.
Qed.

(** The final test of the strided search turns the result of the loop into the
    first unit with enough room. *)
Lemma jump_result jump b s st :
  0 < jump ->
  (s <> 0 /\ (forall k, 0 < k -> b + k * jump < num ->
                 get_bit addr (b + k * jump) = true) \/
   s = 0 /\ exists k, 0 < k /\ st = b + k * jump /\ st < num /\
     get_bit addr st = false /\
     forall k', 0 < k' < k -> get_bit addr (b + k' * jump) = true) ->
  first_jump addr (b + jump) num jump
    (if negb (s =? 0) || (num - st <? jump) then -1 else st).
Proof.
  intros Hj Hc.
  assert (Hstep : forall k, b + jump + k * jump = b + (k + 1) * jump) by lia.
  destruct Hc as [[Hs Hall] | (-> & k & Hk & -> & Hlt & Hfree & Hall)].
  - left. split; [by rewrite (proj2 (Z.eqb_neq s 0) Hs) |].
    intros k Hk Hle. rewrite Hstep in *. apply Hall; lia.
  - rewrite Z.eqb_refl. cbn [negb orb]. case_if.
    + left. split; [done |]. intros k' Hk' Hle. rewrite Hstep in *.
      apply Hall. nia.
    + right. exists (k - 1). rewrite Hstep. replace (k - 1 + 1) with k by lia.
      split_and!; try (done || lia). intros k' Hk'. rewrite Hstep.
      apply Hall. lia.
Qed.

End Search.

Lemma find_jump_ok addr start num jump :
  0 < num -> 0 < jump -> num + jump <= INT_MAX ->
  num <= 8 * Z.of_nat (length addr) -> start < num ->
  exists r, find_block_free_jump_bits_no_start_from addr start num jump = Ok r /\
            first_jump addr (if start >? 0 then start + jump else 0) num jump r.
Proof.
  intros Hn Hj Hi Hl Hs. unfold find_block_free_jump_bits_no_start_from.
  cbv zeta. set (b := if start >? 0 then start else - jump).
  replace (if start >? 0 then start + jump else 0) with (b + jump)
    by (subst b; case_if; lia).
  assert (Hb : - jump <= b < num) by (subst b; rewrite Z.gtb_ltb; case_if; lia).
  destruct (jump_bits_loop_spec addr num ltac:(lia) Hl jump
              (S (S (Z.to_nat (num - b)))) b (-1) start)
    as (s & st & -> & Hc); [lia.. |].
  cbn [res_bind]. rewrite if_ok. eexists. split; [done |].
  by apply jump_result.
Qed.

(** ** Properties *)

(** Freeing an allocated bit undoes its allocation: on a free bit of a block,
    [block_set_bit] reports 0 and [block_clear_bit] after it reports the bit as
    set and restores the block byte for byte. *)
Theorem block_set_clear_roundtrip addr nr :
  bytes_ok addr -> in_block addr nr -> get_bit addr nr = false ->
  exists addr' v,
    block_set_bit nr addr = Ok (0, addr') /\
    get_bit addr' nr = true /\
    block_clear_bit nr addr' = Ok (v, addr) /\ v <> 0.
Proof.
  intros Hok Hin Hfree.
  destruct (block_set_bit_spec addr nr) as (a1 & E1 & L1 & Ok1 & B1); [done.. |].
  assert (Hin1 : in_block a1 nr) by (unfold in_block in *; lia).
  destruct (block_clear_bit_spec a1 nr) as (a2 & E2 & L2 & Ok2 & B2); [done.. |].
  assert (Hset : get_bit a1 nr = true)
    by (rewrite B1 by apply Hin; by rewrite Z.eqb_refl).
  assert (a2 = addr) as ->.
  { apply block_ext; [done.. | congruence |]. intros j Hj.
    rewrite B2, B1 by done. destruct (Z.eqb_spec j nr); congruence. }
  rewrite Hfree in E1. rewrite Hset in E2.
  eexists _, _. split_and!; eauto.
  apply Z.pow_nonzero; [lia |]. apply Z.mod_pos_bound. lia.
Qed.

Lemma block_set_clear_roundtrip_witness :
  exists addr' v,
    block_set_bit 9 [5; 1] = Ok (0, addr') /\ get_bit addr' 9 = true /\
    block_clear_bit 9 addr' = Ok (v, [5; 1]) /\ v <> 0.
Proof.
  apply (block_set_clear_roundtrip [5; 1] 9);
    [repeat constructor; lia | by_compute | done].
Defined.

(** The free-bit search terminates without reading outside the block, and
    returns the first free bit after [start_bit_no] below [numBitsPerBlock],
    or -1 exactly when every bit of that range is set. *)
Theorem find_block_free_bit_no_start_from_first addr start num :
  num <= INT_MAX -> num <= 8 * Z.of_nat (length addr) -> -1 <= start < num ->
  exists r, find_block_free_bit_no_start_from addr start num = Ok r /\
            first_free addr (start + 1) num r.
Proof. intros. by apply find_block_free_bit_no_start_from_ok. Qed.

Lemma find_block_free_bit_no_start_from_first_witness :
  exists r, find_block_free_bit_no_start_from [255; 127] 3 16 = Ok r /\
            first_free [255; 127] 4 16 r.
Proof.
  apply (find_block_free_bit_no_start_from_first [255; 127] 3 16);
    by_compute.
Defined.

(** The search for a run of [numBitsNeed] free bits, for two bits or more,
    terminates inside the block and returns the start of the first such run, or
    -1 exactly when the block has none. *)
Theorem find_block_free_multi_bits_no_first addr num need :
  0 < num <= INT_MAX -> num <= 8 * Z.of_nat (length addr) -> 2 <= need ->
  exists r, find_block_free_multi_bits_no addr num need = Ok r /\
            first_run addr num need r.
Proof.
  intros Hn Hl H2. unfold find_block_free_multi_bits_no.
  destruct (multi_bits_loop_spec addr num (proj2 Hn) Hl need
              (S (Z.to_nat (num + 1))) (-1) (-1) (-1) 0)
    as (s & st & f & -> & Hr); [done | | lia |].
  { split_and!; try lia; intros i Hi; lia. }
  cbn [res_bind]. rewrite if_ok. eauto.
Qed.

Lemma find_block_free_multi_bits_no_first_witness :
  exists r, find_block_free_multi_bits_no [251; 7] 16 3 = Ok r /\
            first_run [251; 7] 16 3 r.
Proof.
  apply (find_block_free_multi_bits_no_first [251; 7] 16 3);
    by_compute.
Defined.

(** A request for one single bit is never served by the multi-bit search:
    it stops at the first free bit before recording where it starts. *)
Theorem find_block_free_multi_bits_no_one addr num :
  0 < num <= INT_MAX -> num <= 8 * Z.of_nat (length addr) ->
  find_block_free_multi_bits_no addr num 1 = Ok (-1).
Proof.
  intros Hn Hl. unfold find_block_free_multi_bits_no.
  destruct (multi_bits_loop_one addr num (proj2 Hn) Hl
              (S (Z.to_nat (num + 1))) (-1) (-1)) as (s & f & ->); [lia.. |].
  cbn [res_bind]. by destruct (_ || _).
Qed.

Lemma find_block_free_multi_bits_no_one_witness :
  find_block_free_multi_bits_no [0; 0] 16 1 = Ok (-1).
Proof.
  apply (find_block_free_multi_bits_no_one [0; 0] 16);
    by_compute.
Defined.

(** The strided search, used to allocate units of [numBitsJump] blocks,
    terminates inside the block and returns the first unit boundary whose bit is
    free and that leaves a whole unit below [numBitsPerBlock], or -1 when there is
    none; it starts at the unit after [start_bit_no], or at 0 when that is not
    positive. *)
Theorem find_block_free_jump_bits_no_start_from_first addr start num jump :
  0 < num -> 0 < jump -> num + jump <= INT_MAX ->
  num <= 8 * Z.of_nat (length addr) -> start < num ->
  exists r, find_block_free_jump_bits_no_start_from addr start num jump = Ok r /\
            first_jump addr (if start >? 0 then start + jump else 0) num jump r.
Proof. apply find_jump_ok. Qed.

Lemma find_block_free_jump_bits_no_start_from_first_witness :
  exists r, find_block_free_jump_bits_no_start_from [255; 1; 0] 8 24 8 = Ok r /\
            first_jump [255; 1; 0] 16 24 8 r.
Proof.
  apply (find_block_free_jump_bits_no_start_from_first [255; 1; 0] 8 24 8);
    by_compute.
Defined.

End Bitmap.
