(* ===== verification/PathTokens.v ===== *)
(** * Path tokenizers

    The functions of [cfs/src/util.cc] that split a path into its components:
    [filepath2TokensSlow] and [splitStr] on a [std::stringstream],
    [filepath2Tokens] by scanning with two indices, and
    [filepath2TokensStandardized], which also writes the standard form of the
    path (components joined by one slash) and the offset of each component.
    A C string is the list of its characters before the terminating NUL.  The
    lengths, indices and depths are the [int]s of the code: [strlen] is
    truncated to 32 bits and an overflowing increment is undefined behaviour
    (a [Crash]).  The reference is [tokens], a structural recursion on the
    path. *)

From Stdlib Require Import ZArith Lia Bool Ascii.
From stdpp Require Import base list option strings.
From S2P Require Import Prelude.

Module PathTokens.

Abbreviation path_t := (list ascii).

Definition slash : ascii := "/"%char.
Definition NUL : ascii := zero.

Definition is_slash (c : ascii) : bool := Ascii.eqb c slash.

(** ** Stream-based splitting *)

(** [std::getline(ss, item, delim)]: [None] when the stream is at its end. *)
Fixpoint take_until (delim : ascii) (s : path_t) : path_t * path_t :=
  match s with
  | [] => ([], [])
  | c :: r =>
      if Ascii.eqb c delim then ([], r)
      else let (t, r') := take_until delim r in (c :: t, r')
  end.

Definition getline (delim : ascii) (ss : path_t) : option (path_t * path_t) :=
  match ss with
  | [] => None
  | _ => Some (take_until delim ss)
  end.

Fixpoint slow_loop (fuel : nat) (ssm : path_t) (tokenVec : list path_t)
    : res (list path_t) :=
  match fuel with
  | O => Crash NoFuel
  | S fuel' =>
      match getline slash ssm with
      | None => Ok tokenVec
      | Some (intermediate, ssm') =>
          slow_loop fuel' ssm'
            (if (0 <? length intermediate)%nat
             then tokenVec ++ [intermediate] else tokenVec)
      end
  end.

(** Returns the size of the vector and the vector. *)
Definition filepath2TokensSlow (path : path_t) (tokenVec : list path_t)
    : res (Z * list path_t) :=
  let! tokenVec := slow_loop (S (length path)) path tokenVec in
  Ok (to_i32 (Z.of_nat (length tokenVec)), tokenVec).

Fixpoint split_loop (fuel : nat) (delim : ascii) (ss : path_t)
    (elems : list path_t) : res (list path_t) :=
  match fuel with
  | O => Crash NoFuel
  | S fuel' =>
      match getline delim ss with
      | None => Ok elems
      | Some (item, ss') => split_loop fuel' delim ss' (elems ++ [item])
      end
  end.

Definition splitStr (input : path_t) (delim : ascii) : res (list path_t) :=
  split_loop (S (length input)) delim input [].

(** ** Index-based splitting *)

(** [int len = strlen(path)] *)
Definition strlen_int (path : path_t) : Z := to_i32 (Z.of_nat (length path)).

(** [while (j < len) { if (path[j] == '/') break; j++; }] *)
Fixpoint scan_item (fuel : nat) (path : path_t) (len j : Z) : res Z :=
  match fuel with
  | O => Crash NoFuel
  | S fuel' =>
      if j <? len then
        let! c := load path j in
        if is_slash c then Ok j
        else let! j := i32_add j 1 in scan_item fuel' path len j
      else Ok j
  end.

(** [std::string(path, i, n)] *)
Definition substr (path : path_t) (i n : Z) : path_t :=
  take (Z.to_nat n) (drop (Z.to_nat i) path).

Fixpoint tokens_loop (fuel : nat) (path : path_t) (len i depth : Z)
    (tokenVec : list path_t) : res (Z * list path_t) :=
  match fuel with
  | O => Crash NoFuel
  | S fuel' =>
      if i <? len then
        let! c := load path i in
        if is_slash c then
          let! i := i32_add i 1 in tokens_loop fuel' path len i depth tokenVec
        else
          let! j := scan_item (S (length path)) path len i in
          let! depth := i32_add depth 1 in
          let! i' := i32_add j 1 in
          tokens_loop fuel' path len i' depth (tokenVec ++ [substr path i (j - i)])
      else Ok (depth, tokenVec)
  end.

(** Returns the depth and the vector. *)
Definition filepath2Tokens (path : path_t) (tokenVec : list path_t)
    : res (Z * list path_t) :=
  let len := strlen_int path in
  tokens_loop (S (length path)) path len 0 0 tokenVec.

(** State of the standardizing loop. *)
Record std_state : Type := mk_std {
  standardPath : path_t;
  standardPathIdx : Z;
  pathDelimIdxArr : list Z;
  depth : Z
}.

Definition std_item (path : path_t) (i j : Z) (st : std_state) : res std_state :=
  let! arr := store (pathDelimIdxArr st) (depth st) (standardPathIdx st) in
  let! buf := write_at (standardPath st) (Z.to_nat (standardPathIdx st))
                (substr path i (j - i)) in
  let! idx := i32_add (standardPathIdx st) (j - i) in
  let! buf := store buf idx slash in
  let! idx := i32_add idx 1 in
  let! d := i32_add (depth st) 1 in
  Ok (mk_std buf idx arr d).

Fixpoint std_loop (fuel : nat) (path : path_t) (len i : Z) (st : std_state)
    : res std_state :=
  match fuel with
  | O => Crash NoFuel
  | S fuel' =>
      if i <? len then
        let! c := load path i in
        if is_slash c then
          let! i := i32_add i 1 in std_loop fuel' path len i st
        else
          let! j := scan_item (S (length path)) path len i in
          let! st := std_item path i j st in
          let! i := i32_add j 1 in
          std_loop fuel' path len i st
      else Ok st
  end.

(** The caller passes [pathDelimIdxArr]; the result is the buffer of
    [len + 1] characters, the array and the depth ([malloc] succeeding). *)
Definition filepath2TokensStandardized (path : path_t) (arr : list Z)
    : res (path_t * list Z * Z) :=
  let! arr := store arr 0 (-1) in
  let len := strlen_int path in
  let! size := i32_add len 1 in
  let! st := std_loop (S (length path)) path len 0
               (mk_std (replicate (Z.to_nat (to_u64 size)) NUL) 0 arr 0) in
  let idx := standardPathIdx st in
  let! _ := check (idx - 1 <=? size - 1) in
  if 0 <? idx then
    let! c := load (standardPath st) (idx - 1) in
    if is_slash c then
      let! buf := store (standardPath st) (idx - 1) NUL in
      Ok (buf, pathDelimIdxArr st, depth st)
    else Ok (standardPath st, pathDelimIdxArr st, depth st)
  else Ok (standardPath st, pathDelimIdxArr st, depth st).

(** ** Reference *)

Definition flush (cur : path_t) : list path_t :=
  match cur with [] => [] | _ => [cur] end.

(** The non-empty maximal slash-free runs, [cur] being the run read so far. *)
Fixpoint tokens_aux (cur path : path_t) : list path_t :=
  match path with
  | [] => flush cur
  | c :: r => if is_slash c then flush cur ++ tokens_aux [] r
              else tokens_aux (cur ++ [c]) r
  end.

Definition tokens (path : path_t) : list path_t := tokens_aux [] path.

(** Components joined by one slash. *)
Fixpoint join (ts : list path_t) : path_t :=
  match ts with
  | [] => []
  | [t] => t
  | t :: ts' => t ++ slash :: join ts'
  end.

(** The offset of each component in [join]. *)
Fixpoint offsets (from : Z) (ts : list path_t) : list Z :=
  match ts with
  | [] => []
  | t :: ts' => from :: offsets (from + Z.of_nat (length t) + 1) ts'
  end.

(** A component: non-empty and slash-free. *)
Definition component (t : path_t) : Prop :=
  t <> [] /\ Forall (fun c => is_slash c = false) t.

(** What follows a component: the end of the path or a slash. *)
Definition at_break (r : path_t) : Prop :=
  r = [] \/ exists r', r = slash :: r'.

(** The written prefix of the buffer: every component followed by a slash. *)
Definition joined (ts : list path_t) : path_t := concat (map (fun t => t ++ [slash]) ts).

(** The state of the standardizing loop after the components [ts], for a path
    of length [len] and the caller's array [arr]. *)
Definition std_of (len : nat) (arr : list Z) (ts : list path_t) : std_state :=
  mk_std (joined ts ++ replicate (len + 1 - length (joined ts)) NUL)
    (Z.of_nat (length (joined ts))) (offsets 0 ts ++ drop (length ts) arr)
    (Z.of_nat (length ts)).

(** The paths whose length, and the index one past it, are [int]s. *)
Definition fits (path : path_t) : Prop := Z.of_nat (length path) < INT_MAX.

(** ** Lemmas on the reference *)

Lemma is_slash_true c : is_slash c = true <-> c = slash.
Proof. apply Ascii.eqb_eq. Qed.

Lemma tokens_aux_app cur t r :
  Forall (fun c => is_slash c = false) t ->
  tokens_aux cur (t ++ r) = tokens_aux (cur ++ t) r.
Proof.
  intros H. revert cur. induction H as [| c t Hc Ht IH]; intros cur; simpl.
  - by rewrite app_nil_r.
  - by rewrite Hc, IH, <- app_assoc.
Qed.

Lemma tokens_slash c r : is_slash c = true -> tokens (c :: r) = tokens r.
Proof. intros H. unfold tokens. simpl. by rewrite H. Qed.

Lemma flush_component t : component t -> flush t = [t].
Proof. intros [H _]. by destruct t. Qed.

Lemma tokens_item t r :
  component t -> at_break r -> tokens (t ++ r) = t :: tokens (tail r).
Proof.
  intros Ht Hr. unfold tokens. rewrite tokens_aux_app by apply Ht.
  rewrite app_nil_l. destruct Hr as [-> | [r' ->]]; simpl.
  - by rewrite flush_component.
  - by rewrite flush_component.
Qed.

Lemma tokens_components path : Forall component (tokens path).
Proof.
  unfold tokens. assert (H : Forall (fun c => is_slash c = false) []) by done.
  revert H. generalize (@nil ascii) as cur.
  assert (Hf : forall cur, Forall (fun c => is_slash c = false) cur ->
            Forall component (flush cur)).
  { intros [| c cur] H; [constructor |].
    by constructor. }
  induction path as [| c r IH]; intros cur H; simpl; [auto |].
  destruct (is_slash c) eqn:E.
  - apply Forall_app. auto.
  - apply IH. apply Forall_app. auto.
Qed.

(** ** Lemmas on the loops *)

Lemma load_nat {A} (m : list A) i v : m !! i = Some v -> load m (Z.of_nat i) = Ok v.
Proof. intros H. apply load_ok. rewrite Nat2Z.id. split; [lia | done]. Qed.

Lemma to_i32_small z : INT_MIN <= z <= INT_MAX -> to_i32 z = z.
Proof. unfold to_i32. intros. rewrite Z.mod_small; ints. Qed.

Lemma strlen_fits path : fits path -> strlen_int path = Z.of_nat (length path).
Proof. unfold fits, strlen_int. intros. apply to_i32_small. ints. Qed.

(** Incrementing an index of a path that fits. *)
Lemma next_index path i :
  fits path -> (i <= length path)%nat -> i32_add (Z.of_nat i) 1 = Ok (Z.of_nat (S i)).
Proof.
  unfold fits. intros. rewrite i32_add_ok by ints. f_equal. lia.
Qed.

Lemma ltb_nat i j : (Z.of_nat i <? Z.of_nat j) = (i <? j)%nat.
Proof. destruct (Z.ltb_spec (Z.of_nat i) (Z.of_nat j)), (Nat.ltb_spec i j); lia. Qed.

Lemma substr_nat path i j :
  substr path (Z.of_nat i) (Z.of_nat j - Z.of_nat i) = take (j - i) (drop i path).
Proof. unfold substr. rewrite Nat2Z.id. do 2 f_equal. lia. Qed.

Lemma scan_item_spec path fuel j :
  fits path -> (j <= length path)%nat -> (length path - j < fuel)%nat ->
  exists j', scan_item fuel path (Z.of_nat (length path)) (Z.of_nat j) = Ok (Z.of_nat j') /\
    (j <= j' <= length path)%nat /\ at_break (drop j' path) /\
    Forall (fun c => is_slash c = false) (take (j' - j) (drop j path)).
Proof.
  intros Hfit. revert j. induction fuel as [| fuel IH]; intros j Hj Hf; [lia |].
  cbn [scan_item]. rewrite ltb_nat. destruct (Nat.ltb_spec j (length path)) as [Hlt | Hge].
  - destruct (lookup_lt_is_Some_2 path j Hlt) as [c Hc].
    rewrite (load_nat _ _ _ Hc). cbn [res_bind].
    destruct (is_slash c) eqn:E.
    + exists j. split_and!; [done | lia.. | |].
      * apply is_slash_true in E. subst. right. eexists.
        by apply drop_S.
      * rewrite Nat.sub_diag. constructor.
    + rewrite (next_index path) by done. cbn [res_bind].
      destruct (IH (S j)) as (j' & -> & Hr & Hb & Hall); [lia.. |].
      exists j'. split_and!; [done | lia.. | done |].
      rewrite (drop_S _ _ _ Hc).
      replace (j' - j)%nat with (S (j' - S j)) by lia. by constructor.
  - exists j. split_and!; [done | lia.. | |].
    + left. by apply drop_ge.
    + rewrite Nat.sub_diag. constructor.
Qed.

(** The body of the three index loops at a character that is not a slash. *)
Lemma item_at path i c :
  fits path -> path !! i = Some c -> is_slash c = false ->
  exists j, scan_item (S (length path)) path (Z.of_nat (length path)) (Z.of_nat i) =
      Ok (Z.of_nat j) /\
    (i < j <= length path)%nat /\ component (take (j - i) (drop i path)) /\
    tokens (drop i path) = take (j - i) (drop i path) :: tokens (drop (S j) path).
Proof.
  intros Hfit Hc E. pose proof (lookup_lt_Some _ _ _ Hc) as Hlt.
  destruct (scan_item_spec path (S (length path)) i) as (j & -> & Hr & Hb & Hall);
    [done | lia.. |].
  assert (Hij : (i < j)%nat).
  { destruct (decide (i = j)) as [<- | ]; [| lia].
    rewrite (drop_S _ _ _ Hc) in Hb. destruct Hb as [? | [r' Hr']]; [done |].
    injection Hr' as -> _. done. }
  assert (Hcomp : component (take (j - i) (drop i path))).
  { split; [| done]. rewrite (drop_S _ _ _ Hc).
    destruct (j - i)%nat eqn:?; [lia | done]. }
  exists j. split_and!; [done | lia.. | done |].
  rewrite <- (take_drop (j - i) (drop i path)) at 1. rewrite drop_drop.
  replace (i + (j - i))%nat with j by lia.
  rewrite tokens_item by done. do 2 f_equal.
  by rewrite tail_drop.
Qed.

Lemma tokens_loop_spec path fuel i d vec :
  fits path -> (d <= i)%nat -> (length path - i < fuel)%nat ->
  tokens_loop fuel path (Z.of_nat (length path)) (Z.of_nat i) (Z.of_nat d) vec =
    Ok (Z.of_nat (d + length (tokens (drop i path))), vec ++ tokens (drop i path)).
Proof.
  intros Hfit. revert i d vec. induction fuel as [| fuel IH]; intros i d vec Hd Hf; [lia |].
  cbn [tokens_loop]. rewrite ltb_nat. destruct (Nat.ltb_spec i (length path)) as [Hlt | Hge].
  - destruct (lookup_lt_is_Some_2 path i Hlt) as [c Hc].
    rewrite (load_nat _ _ _ Hc). cbn [res_bind]. destruct (is_slash c) eqn:E.
    + rewrite (next_index path) by (done || lia). cbn [res_bind].
      rewrite IH, (drop_S _ _ _ Hc), tokens_slash by (done || lia). done.
    + destruct (item_at _ _ _ Hfit Hc E) as (j & -> & Hj & _ & ->). cbn [res_bind].
      rewrite !(next_index path) by (done || lia). cbn [res_bind].
      rewrite IH by lia. rewrite <- app_assoc, substr_nat. simpl. do 2 f_equal. lia.
  - rewrite drop_ge by done. simpl. by rewrite app_nil_r, Nat.add_0_r.
Qed.

(** [getline] on a slash removes one component, empty or not. *)
Lemma take_until_spec s :
  tokens s = flush (fst (take_until slash s)) ++ tokens (snd (take_until slash s)) /\
  (s <> [] -> (length (snd (take_until slash s)) < length s)%nat).
Proof.
  enough (H : forall cur, tokens_aux cur s =
            flush (cur ++ fst (take_until slash s)) ++
            tokens (snd (take_until slash s))).
  { split; [apply (H []) |]. intros Hs. clear H.
    assert (forall s', (length (snd (take_until slash s')) <= length s')%nat) as Hle.
    { induction s' as [| c r IH]; simpl; [done |].
      destruct (Ascii.eqb c slash); simpl; [lia |].
      destruct (take_until slash r); simpl in *; lia. }
    destruct s as [| c r]; [done |]. simpl. destruct (Ascii.eqb c slash); simpl; [lia |].
    specialize (Hle r). destruct (take_until slash r); simpl in *; lia. }
  induction s as [| c r IH]; intros cur; simpl.
  - by rewrite !app_nil_r.
  - unfold is_slash. destruct (Ascii.eqb c slash); simpl.
    + by rewrite app_nil_r.
    + rewrite IH. destruct (take_until slash r). simpl. by rewrite <- app_assoc.
Qed.

Lemma slow_loop_spec fuel ssm vec :
  (length ssm < fuel)%nat -> slow_loop fuel ssm vec = Ok (vec ++ tokens ssm).
Proof.
  revert ssm vec. induction fuel as [| fuel IH]; intros ssm vec Hf; [lia |].
  destruct (take_until_spec ssm) as [Ht Hlen].
  destruct ssm as [| c r]; [simpl; by rewrite app_nil_r |].
  cbn [slow_loop getline]. rewrite Ht. specialize (Hlen ltac:(done)).
  destruct (take_until slash (c :: r)) as [t r']. simpl in *.
  rewrite IH by lia. f_equal. destruct t; simpl; by rewrite <- ?app_assoc.
Qed.

(** ** Lemmas on the standard form *)

Lemma joined_app ts t : joined (ts ++ [t]) = joined ts ++ t ++ [slash].
Proof. unfold joined. rewrite map_app, concat_app. simpl. by rewrite app_nil_r. Qed.

Lemma joined_join ts : ts <> [] -> joined ts = join ts ++ [slash].
Proof.
  induction ts as [| t ts IH]; [done |]. intros _. destruct ts as [| t' ts].
  - unfold joined. simpl. by rewrite app_nil_r.
  - change (joined (t :: t' :: ts)) with ((t ++ [slash]) ++ joined (t' :: ts)).
    rewrite IH by done. simpl. by rewrite <- !app_assoc.
Qed.

Lemma offsets_app from ts t :
  offsets from (ts ++ [t]) =
    offsets from ts ++ [from + Z.of_nat (length (joined ts))].
Proof.
  revert from. induction ts as [| t' ts IH]; intros from; simpl.
  - by rewrite Z.add_0_r.
  - rewrite IH. do 3 f_equal. unfold joined. simpl.
    rewrite !length_app. simpl. lia.
Qed.

Lemma length_offsets from ts : length (offsets from ts) = length ts.
Proof. revert from. induction ts; intros; simpl; congruence. Qed.

(** The components of the rest of the path need at most its length plus one. *)
Lemma joined_length path :
  (length (joined (tokens path)) <= length path + 1)%nat.
Proof.
  unfold tokens.
  enough (forall cur, (length (joined (tokens_aux cur path)) <=
            length cur + length path + 1)%nat) as H by apply (H []).
  assert (Hf : forall cur, (length (joined (flush cur)) <= length cur + 1)%nat).
  { intros [| c cur]; simpl; [lia |]. rewrite !length_app. simpl. lia. }
  induction path as [| c r IH]; intros cur; simpl; [specialize (Hf cur); lia |].
  destruct (is_slash c).
  - unfold joined in *. rewrite map_app, concat_app, length_app.
    specialize (IH []). destruct cur; simpl in *; [lia |].
    rewrite !length_app. simpl. lia.
  - specialize (IH (cur ++ [c])). rewrite length_app in IH. simpl in IH. lia.
Qed.

Lemma store_app {A} (l : list A) x v r :
  store (l ++ x :: r) (Z.of_nat (length l)) v = Ok (l ++ v :: r).
Proof.
  rewrite store_ok by (rewrite length_app; simpl; lia). f_equal.
  rewrite Nat2Z.id. by rewrite insert_app_r_alt, Nat.sub_diag by lia.
Qed.

Lemma std_item_spec path arr ts i j :
  fits path -> (length ts <= length path)%nat ->
  (i < j <= length path)%nat -> (length ts < length arr)%nat ->
  (length (joined ts) + (j - i) + 1 <= length path + 1)%nat ->
  std_item path (Z.of_nat i) (Z.of_nat j) (std_of (length path) arr ts) =
    Ok (std_of (length path) arr (ts ++ [take (j - i) (drop i path)])).
Proof.
  intros Hfit Hts Hij Harr Hroom. unfold std_item, std_of.
  cbn [standardPath standardPathIdx pathDelimIdxArr depth].
  rewrite substr_nat, Nat2Z.id. set (t := take (j - i) (drop i path)).
  assert (Ht : length t = (j - i)%nat)
    by (unfold t; rewrite length_take, length_drop; lia).
  destruct (drop (length ts) arr) as [| x r] eqn:Ed.
  { apply (f_equal length) in Ed. rewrite length_drop in Ed. simpl in Ed. lia. }
  rewrite <- (length_offsets 0 ts) at 1. rewrite store_app. cbn [res_bind].
  set (m := (length path + 1 - length (joined ts) - (j - i) - 1)%nat).
  rewrite (write_at_app _ _ _ (S m)) by (unfold m; lia). cbn [res_bind replicate].
  rewrite i32_add_ok by (unfold fits in Hfit; ints). cbn [res_bind].
  replace (Z.of_nat (length (joined ts)) + (Z.of_nat j - Z.of_nat i))
    with (Z.of_nat (length (joined ts ++ t))) by (rewrite length_app; lia).
  rewrite store_app. cbn [res_bind].
  rewrite !(next_index path) by (rewrite ?length_app; done || lia). cbn [res_bind].
  rewrite joined_app, offsets_app. f_equal. f_equal.
  - rewrite <- !app_assoc. simpl. do 3 f_equal. unfold m.
    rewrite !length_app. simpl. f_equal. lia.
  - rewrite !length_app. simpl. lia.
  - rewrite <- app_assoc. simpl. do 2 f_equal.
    rewrite length_app. simpl. by rewrite <- drop_drop, Ed.
  - rewrite length_app. simpl. lia.
Qed.

Lemma joined_prefix ts t ts' :
  (length (joined ts) + length t + 1 <= length (joined (ts ++ t :: ts')))%nat.
Proof.
  unfold joined. rewrite map_app, concat_app. simpl. rewrite !length_app. simpl. lia.
Qed.

(** Every component takes at least two characters of the written prefix. *)
Lemma joined_components ts :
  Forall component ts -> (2 * length ts <= length (joined ts))%nat.
Proof.
  induction 1 as [| t ts [Ht _] _ IH]; [done |].
  change (joined (t :: ts)) with ((t ++ [slash]) ++ joined ts).
  rewrite !length_app. destruct t; [done |]. simpl in *. lia.
Qed.

Lemma std_loop_spec path arr fuel i ts :
  fits path -> (length path - i < fuel)%nat -> ts ++ tokens (drop i path) = tokens path ->
  (length (tokens path) <= length arr)%nat ->
  std_loop fuel path (Z.of_nat (length path)) (Z.of_nat i) (std_of (length path) arr ts) =
    Ok (std_of (length path) arr (tokens path)).
Proof.
  intros Hfit. revert i ts. induction fuel as [| fuel IH]; intros i ts Hf Hts Harr; [lia |].
  cbn [std_loop]. rewrite ltb_nat. destruct (Nat.ltb_spec i (length path)) as [Hlt | Hge].
  - destruct (lookup_lt_is_Some_2 path i Hlt) as [c Hc].
    rewrite (load_nat _ _ _ Hc). cbn [res_bind]. destruct (is_slash c) eqn:E.
    + rewrite (next_index path) by (done || lia). cbn [res_bind]. apply IH; [lia | | done].
      by rewrite <- Hts, (drop_S _ _ _ Hc), tokens_slash.
    + destruct (item_at _ _ _ Hfit Hc E) as (j & -> & Hj & _ & Ht). cbn [res_bind].
      rewrite Ht in Hts. pose proof (joined_length path) as Hl.
      pose proof (joined_components _ (tokens_components path)) as Hn.
      rewrite <- Hts in Hl, Harr, Hn.
      pose proof (joined_prefix ts (take (j - i) (drop i path)) (tokens (drop (S j) path))).
      assert (length (take (j - i) (drop i path)) = (j - i)%nat)
        by (rewrite length_take, length_drop; lia).
      rewrite length_app in Harr, Hn. simpl in Harr, Hn.
      rewrite std_item_spec by (done || lia). cbn [res_bind].
      rewrite (next_index path) by (done || lia). cbn [res_bind].
      apply IH; [lia | by rewrite <- app_assoc |].
      rewrite <- Hts, length_app. simpl. lia.
  - rewrite drop_ge in Hts by done. change (tokens []) with (@nil path_t) in Hts.
    rewrite app_nil_r in Hts. by subst.
Qed.

(** The last slash written becomes the terminating NUL. *)
Lemma std_finish {B} ts len (r : B) (d : Z) :
  (length (joined ts) <= len + 1)%nat ->
  (let buf := joined ts ++ replicate (len + 1 - length (joined ts)) NUL in
   if 0 <? Z.of_nat (length (joined ts)) then
     let! c := load buf (Z.of_nat (length (joined ts)) - 1) in
     if is_slash c then
       let! buf := store buf (Z.of_nat (length (joined ts)) - 1) NUL in
       Ok (buf, r, d)
     else Ok (buf, r, d)
   else Ok (buf, r, d)) =
  Ok (join ts ++ replicate (len + 1 - length (join ts)) NUL, r, d).
Proof.
  intros Hlen. cbv zeta. destruct ts as [| t ts]; [done |].
  rewrite (joined_join (t :: ts)) in * by done.
  set (s := join (t :: ts)) in *. rewrite length_app in *.
  change (length [slash]) with 1%nat in *.
  destruct (Z.ltb_spec 0 (Z.of_nat (length s + 1))); [| lia].
  replace (Z.of_nat (length s + 1) - 1) with (Z.of_nat (length s)) by lia.
  rewrite <- app_assoc. simpl ([slash] ++ _).
  erewrite load_nat by (rewrite lookup_app_r, Nat.sub_diag by lia; done).
  cbn [res_bind]. rewrite (proj2 (is_slash_true slash) eq_refl), store_app.
  cbn [res_bind]. do 4 f_equal.
  replace (len + 1 - length s)%nat with (S (len + 1 - (length s + 1))) by lia. done.
Qed.

(** Each component is found in the standard form at its offset. *)
Lemma offsets_correct ts k t :
  ts !! k = Some t ->
  exists o, offsets 0 ts !! k = Some (Z.of_nat o) /\
            take (length t) (drop o (join ts)) = t.
Proof.
  enough (H : forall from, ts !! k = Some t ->
    exists o, offsets from ts !! k = Some (from + Z.of_nat o) /\
              take (length t) (drop o (join ts)) = t) by apply (H 0).
  revert k. induction ts as [| t' ts IH]; intros k from Hk; [done |].
  destruct k as [| k]; simpl in Hk.
  - injection Hk as ->. exists 0%nat. split; [simpl; f_equal; lia |].
    rewrite drop_0. destruct ts; simpl.
    + by apply take_ge.
    + by rewrite take_app_length.
  - destruct (IH k (from + Z.of_nat (length t') + 1) Hk) as (o & Ho & Hs).
    exists (length t' + 1 + o)%nat. simpl. rewrite Ho. split; [f_equal; lia |].
    destruct ts as [| t'' ts]; [done |].
    rewrite <- drop_drop. change (t' ++ slash :: join (t'' :: ts))
      with (t' ++ [slash] ++ join (t'' :: ts)).
    rewrite app_assoc, drop_app_length' by (rewrite length_app; simpl; lia). done.
Qed.

Lemma tokens_join ts : Forall component ts -> tokens (join ts) = ts.
Proof.
  induction 1 as [| t ts Ht Hts IH]; [done |]. destruct ts as [| t' ts].
  - simpl. rewrite <- (app_nil_r t) at 1. rewrite tokens_item by (done || by left).
    done.
  - change (join (t :: t' :: ts)) with (t ++ slash :: join (t' :: ts)).
    rewrite tokens_item; [| done | right; eauto].
    cbn [tail]. by rewrite IH.
Qed.

Lemma filepath2Tokens_tokens path :
  fits path -> filepath2Tokens path [] = Ok (Z.of_nat (length (tokens path)), tokens path).
Proof.
  intros Hfit. unfold filepath2Tokens. rewrite strlen_fits by done.
  apply (tokens_loop_spec path _ 0 0 []); [done | lia..].
Qed.

Lemma filepath2TokensSlow_tokens path :
  fits path ->
  filepath2TokensSlow path [] = Ok (Z.of_nat (length (tokens path)), tokens path).
Proof.
  intros Hfit. unfold filepath2TokensSlow. rewrite slow_loop_spec by lia. cbn [res_bind app].
  rewrite to_i32_small; [done |]. unfold fits in Hfit.
  pose proof (joined_components _ (tokens_components path)).
  pose proof (joined_length path). ints.
Qed.

(** A path of at least two and less than four gigabytes has a negative [len]:
    the loop is not entered and the path has no component. *)
Lemma filepath2Tokens_truncated path :
  2 ^ 31 <= Z.of_nat (length path) < 2 ^ 32 -> filepath2Tokens path [] = Ok (0, []).
Proof.
  intros H. unfold filepath2Tokens, strlen_int, to_i32.
  replace ((Z.of_nat (length path) + 2 ^ 31) mod 2 ^ 32)
    with (Z.of_nat (length path) - 2 ^ 31).
  2: { apply (Z.mod_unique_pos _ _ 1); lia. }
  cbn [tokens_loop]. destruct (Z.ltb_spec 0 (Z.of_nat (length path) - 2 ^ 31 - 2 ^ 31));
    [lia | done].
Qed.

(** ** Properties *)

(** C40. The index-scanning tokenizer is equivalent to the stream-based one: on an
    empty vector, and for every path shorter than INT_MAX characters (the range
    in which [int len] and the indices do not overflow), both terminate with the
    same components and the same count, and these are the components of the
    reference [tokens]: the non-empty runs between slashes. *)
Theorem filepath2Tokens_equiv_slow path :
  Z.of_nat (length path) < INT_MAX ->
  filepath2Tokens path [] = filepath2TokensSlow path [] /\
  filepath2Tokens path [] = Ok (Z.of_nat (length (tokens path)), tokens path) /\
  Forall component (tokens path).
Proof.
  intros Hfit. rewrite filepath2Tokens_tokens, filepath2TokensSlow_tokens by done.
  split_and!; [done.. | apply tokens_components].
Qed.

Lemma filepath2Tokens_equiv_slow_witness :
  let p := String.list_ascii_of_string "//a/bc/" in
  Z.of_nat (length p) < INT_MAX /\
  filepath2Tokens p [] = filepath2TokensSlow p [] /\
  filepath2Tokens p [] =
    Ok (2, [String.list_ascii_of_string "a"; String.list_ascii_of_string "bc"]).
Proof.
  intros p. assert (H : Z.of_nat (length p) < INT_MAX) by (vm_compute; reflexivity).
  destruct (filepath2Tokens_equiv_slow p H) as (H1 & H2 & _).
  split; [exact H |]. split; [exact H1 | exact H2].
Defined.

(** The standardizing tokenizer stays inside its buffer and the caller's
    array whenever the array has room for the components, and returns the
    components joined by single slashes (padded with NULs), their number, and in
    the array the offset at which each of them starts in that string. *)
Theorem filepath2TokensStandardized_spec path arr :
  fits path -> (0 < length arr)%nat -> (length (tokens path) <= length arr)%nat ->
  let ts := tokens path in
  exists buf arr',
    filepath2TokensStandardized path arr = Ok (buf, arr', Z.of_nat (length ts)) /\
    buf = join ts ++ replicate (length path + 1 - length (join ts)) NUL /\
    forall k t, ts !! k = Some t ->
      exists o, arr' !! k = Some (Z.of_nat o) /\
                take (length t) (drop o (join ts)) = t.
Proof.
  intros Hfit Hpos Harr ts. unfold filepath2TokensStandardized.
  rewrite store_ok by lia. cbn [res_bind].
  assert (Hlen : length (<[Z.to_nat 0:=-1]> arr) = length arr) by apply length_insert.
  pose proof (std_loop_spec path (<[Z.to_nat 0:=-1]> arr) (S (length path)) 0 []
    Hfit ltac:(lia) eq_refl ltac:(lia)) as Hloop.
  change (std_of (length path) ?a [])
    with (mk_std (replicate (length path + 1 - 0) NUL) 0 a 0) in Hloop.
  rewrite strlen_fits, (next_index path) by done. cbn [res_bind].
  rewrite to_u64_small, Nat2Z.id by (unfold fits in Hfit; ints).
  rewrite Nat.sub_0_r, Nat.add_1_r in Hloop. change (Z.of_nat 0) with 0 in Hloop.
  rewrite Hloop. cbn [res_bind]. clear Hloop.
  pose proof (joined_length path) as Hj. fold ts in Hj |- *.
  unfold std_of. cbn [standardPath standardPathIdx pathDelimIdxArr depth].
  unfold check. destruct (Z.leb_spec (Z.of_nat (length (joined ts)) - 1)
                            (Z.of_nat (S (length path)) - 1)); [| lia].
  cbn [res_bind].
  rewrite std_finish by done. eexists _, _. split_and!; [done.. |].
  intros k t Hk. destruct (offsets_correct _ _ _ Hk) as (o & Ho & Hs).
  exists o. split; [| done]. rewrite lookup_app_l; [done |].
  by eapply lookup_lt_Some.
Qed.

Lemma filepath2TokensStandardized_spec_witness :
  let p := String.list_ascii_of_string "//a/bc/" in
  let ts := tokens p in
  exists buf arr',
    filepath2TokensStandardized p [0; 0; 0] = Ok (buf, arr', Z.of_nat (length ts)) /\
    buf = join ts ++ replicate (length p + 1 - length (join ts)) NUL /\
    forall k t, ts !! k = Some t ->
      exists o, arr' !! k = Some (Z.of_nat o) /\
                take (length t) (drop o (join ts)) = t.
Proof.
  apply (filepath2TokensStandardized_spec
           (String.list_ascii_of_string "//a/bc/") [0; 0; 0]); [vm_compute; reflexivity | vm_compute; lia..].
Defined.

(** Printing and reading back a path is the identity: the components of the
    standard form are the components of the original path, for both tokenizers,
    so standardizing is idempotent. *)
Theorem standard_path_roundtrip path :
  fits path ->
  filepath2Tokens (join (tokens path)) [] = filepath2Tokens path [] /\
  filepath2TokensSlow (join (tokens path)) [] = filepath2TokensSlow path [] /\
  join (tokens (join (tokens path))) = join (tokens path).
Proof.
  intros Hfit. assert (Hj : fits (join (tokens path))).
  { pose proof (joined_length path). unfold fits in *.
    destruct (tokens path) as [| t ts] eqn:E; [simpl; ints |].
    rewrite joined_join, length_app in * by done. simpl in *. lia. }
  rewrite !filepath2Tokens_tokens, !filepath2TokensSlow_tokens by done.
  rewrite tokens_join by apply tokens_components. done.
Qed.

End PathTokens.
