(* ===== verification/Layout.v ===== *)
(** * On-disk layout

    The constants of [cfs/include/param.h] and the structures and address
    computations of [cfs/include/FsProc_FsInternal.h]: super block, inode
    bitmap, journals, data-block bitmaps, inodes and data blocks, the division
    of the data bitmap among workers and extent sizes, and the conversion
    between block numbers.  Unsigned C arithmetic is written with [to_u32] and
    [to_u64].  The extent configuration, chosen by macros at build time, is the
    class [ExtentConfig] with one instance per choice. *)

From Stdlib Require Import ZArith Lia Bool.
From stdpp Require Import base list option.
From S2P Require Import Prelude.

Module Layout.

(** ** Constants *)

Definition SSD_SEC_SIZE : Z := 512.
Definition BSIZE : Z := 4096.
Definition DEV_SIZE : Z := 858993459200.
Definition NINODES : Z := 125000.
Definition IMAPBLOCK_NUM : Z := 4.
Definition DIRSIZE : Z := 28.
Definition NEXTENT_ARR : Z := 7.
Definition NMAX_FSP_WORKER : Z := 10.
Definition NMEM_BMAP_BLOCK : Z := 8192.
Definition LOCAL_JOURNAL_SIZE : Z := 4 * (1024 * (1024 * 1024)).
Definition GLOBAL_JOURNAL_SIZE : Z := LOCAL_JOURNAL_SIZE * NMAX_FSP_WORKER.
Definition LOCAL_JOURNAL_NBLOCKS : Z := LOCAL_JOURNAL_SIZE / BSIZE.
Definition GLOBAL_JOURNAL_NBLOCKS : Z := GLOBAL_JOURNAL_SIZE / BSIZE.
Definition ROOTINO : Z := 1.
Definition SB_BLOCK_NO : Z := 1.
Definition ISEC_SIZE : Z := SSD_SEC_SIZE.
Definition sizeof_cfs_dinode : Z := 512.
Definition IPB : Z := BSIZE / sizeof_cfs_dinode.
Definition BPB : Z := BSIZE * 8.

(** ** Structures *)

Record cfs_extent : Type := mk_extent {
  i_block_offset : Z;
  num_blocks : Z;
  block_no : Z
}.

Record timeval : Type := mk_timeval { tv_sec : Z; tv_usec : Z }.

Record cfs_dinode : Type := mk_dinode {
  nlink : Z;
  i_dentry_count : Z;
  type : Z;
  i_no : Z;
  i_uid : Z;
  i_gid : Z;
  i_block_count : Z;
  size : Z;
  syncID : Z;
  atime : timeval;
  ctime : timeval;
  mtime : timeval;
  ext_array : list cfs_extent
}.

#[global] Instance cfs_extent_eq_dec : EqDecision cfs_extent.
Proof. solve_decision. Defined.
#[global] Instance timeval_eq_dec : EqDecision timeval.
Proof. solve_decision. Defined.
#[global] Instance cfs_dinode_eq_dec : EqDecision cfs_dinode.
Proof. solve_decision. Defined.

(** ** Extents of a file *)

(** The build-time choices [_EXTENT_FOR_LDB_], [_EXTENT_FOR_FILEBENCH_] and the
    default. *)
Class ExtentConfig : Type := {
  LAST_EXTENT_ALLOC_UNIT_BYTE : Z;
  kFsPerExtShareArr : list Z
}.

Definition cfg_default : ExtentConfig :=
  {| LAST_EXTENT_ALLOC_UNIT_BYTE := 4294967296;
     kFsPerExtShareArr := [1; 1; 4; 8; 16; 20] |}.

Definition cfg_filebench : ExtentConfig :=
  {| LAST_EXTENT_ALLOC_UNIT_BYTE := 4294967296;
     kFsPerExtShareArr := [20; 200; 10; 10; 10; 10] |}.

Definition cfg_ldb : ExtentConfig :=
  {| LAST_EXTENT_ALLOC_UNIT_BYTE := 32768;
     kFsPerExtShareArr := [1; 639; 0; 0; 0; 0] |}.

Section Extents.
Context {cfg : ExtentConfig}.

Definition extentArrIdx2BlockAllocUnit (extentArrIdx : Z) : Z :=
  if (extentArrIdx >=? NEXTENT_ARR) || (extentArrIdx <? 0) then 0
  else if extentArrIdx =? 0 then 1
  else if extentArrIdx =? 1 then 2048
  else if extentArrIdx =? NEXTENT_ARR - 1 then
    to_u32 (LAST_EXTENT_ALLOC_UNIT_BYTE / BSIZE)
  else to_u32 (BPB * 2 ^ (extentArrIdx - 2)).

Definition MAX_LARGE_FILE_NUM : Z := NMAX_FSP_WORKER.

Definition LAST_EXTENT_MAX_BMAP_BLOCK_NUM : Z :=
  (LAST_EXTENT_ALLOC_UNIT_BYTE / (BPB * BSIZE)) * MAX_LARGE_FILE_NUM.

Definition kFsExtArrShareSum : Z := foldr Z.add 0 kFsPerExtShareArr.

(** [for (int i = 0; i < extentArrIdx; i++) totalPreShare += ...] *)
Fixpoint total_pre_share (n : nat) : res Z :=
  match n with
  | O => Ok 0
  | S n' =>
      let! acc := total_pre_share n' in
      let! share := load kFsPerExtShareArr (Z.of_nat n') in
      i32_add acc share
  end.

(** Returns the start and the number of bitmap blocks (the reference
    parameter [maxBmapBlockNum]). *)
Definition getDataBMapStartBlockNoForExtentArrIdx
    (extentArrIdx totalBmapBlockNum : Z) : res (Z * Z) :=
  let perShare :=
    to_u64 (totalBmapBlockNum - LAST_EXTENT_MAX_BMAP_BLOCK_NUM)
      / kFsExtArrShareSum in
  let! maxBmapBlockNum :=
    if extentArrIdx + 1 =? NEXTENT_ARR
    then Ok (to_u32 LAST_EXTENT_MAX_BMAP_BLOCK_NUM)
    else
      let! share := load kFsPerExtShareArr extentArrIdx in
      Ok (to_u32 (to_u64 (perShare * share))) in
  let! totalPreShare := total_pre_share (Z.to_nat extentArrIdx) in
  Ok (to_u32 (to_u64 (totalPreShare * perShare)), maxBmapBlockNum).

(** Returns the index, [inside_extent_idx] and [extent_max_block_num]; [n]
    counts the iterations left of the loop over the extents. *)
Fixpoint extent_loop (n : nat) (i i_block_idx blockNum : Z) : Z * Z * Z :=
  match n with
  | O => (-1, 0, extentArrIdx2BlockAllocUnit (i - 1))
  | S n' =>
      let extent_max := extentArrIdx2BlockAllocUnit i in
      let blockNum := to_u32 (blockNum + extent_max) in
      if i_block_idx <? blockNum
      then (i, to_u32 (i_block_idx - (blockNum - extent_max)), extent_max)
      else extent_loop n' (i + 1) i_block_idx blockNum
  end.

Definition getCurrentExtentArrIdx (i_block_idx : Z) : Z * Z * Z :=
  extent_loop (Z.to_nat NEXTENT_ARR) 0 i_block_idx 0.

End Extents.

(** ** Regions of the device *)

Definition get_imap_start_block : Z := 1 + 1.
Definition get_dev_imap_num_blocks : Z := NINODES / BPB + 1.
Definition get_dev_bmap_num_blocks_in_total : Z := (DEV_SIZE / BSIZE) / BPB + 1.

Definition get_dev_bmap_num_blocks_for_worker (widIdx : Z) : Z :=
  get_dev_bmap_num_blocks_in_total / NMAX_FSP_WORKER.

Definition get_dev_inode_num_blocks : Z := NINODES / IPB + 1.

Definition get_dev_data_num_blocks_for_worker (widIdx : Z) : Z :=
  get_dev_bmap_num_blocks_for_worker widIdx * BPB.

Definition get_worker_journal_sb (widIdx : Z) : Z :=
  let journal_start_idx := get_imap_start_block + get_dev_imap_num_blocks in
  to_u64 (journal_start_idx + widIdx * LOCAL_JOURNAL_NBLOCKS).

Definition get_bmap_start_block : Z := get_worker_journal_sb NMAX_FSP_WORKER.

(** The loops add [n] times the same number of blocks. *)
Fixpoint add_times (n : nat) (x acc : Z) : Z :=
  match n with
  | O => acc
  | S n' => add_times n' x (to_u64 (acc + x))
  end.

Definition get_bmap_start_block_for_worker (widIdx : Z) : Z :=
  let bmap_num_blocks :=
    add_times (Z.to_nat widIdx) (get_dev_bmap_num_blocks_for_worker widIdx) 0 in
  to_u64 (get_bmap_start_block + bmap_num_blocks).

Definition get_inode_start_block : Z :=
  to_u64 (get_bmap_start_block_for_worker 0 + get_dev_bmap_num_blocks_in_total).

Definition get_data_start_block : Z :=
  to_u64 (get_inode_start_block + get_dev_inode_num_blocks).

Definition get_data_new_alloc_start_block_for_worker (widIdx : Z) : Z :=
  let num_blocks :=
    add_times (Z.to_nat widIdx) (get_dev_data_num_blocks_for_worker widIdx) 0 in
  to_u64 (get_inode_start_block + get_dev_inode_num_blocks + num_blocks).

(** ** Addresses *)

Definition to_i32 (z : Z) : Z := (z + 2 ^ 31) mod 2 ^ 32 - 2 ^ 31.

Definition getWidForBitmapBlock (bitmap_block_no : Z) : Z :=
  to_i32 (to_u64 (bitmap_block_no - get_bmap_start_block)
            / get_dev_bmap_num_blocks_for_worker 0).

Definition isBitmapBlock (block_no : Z) : bool :=
  (block_no >=? get_bmap_start_block_for_worker 0) &&
  (block_no <? get_inode_start_block).

Definition isInodeBitmap (block_no : Z) : bool :=
  let start := get_imap_start_block in
  let end_ := start + get_dev_imap_num_blocks in
  (block_no >=? start) && (block_no <=? end_).

Definition calcSectorForInode (ino : Z) : Z :=
  to_u32 (to_u64 (ino + (BSIZE / ISEC_SIZE) * get_inode_start_block)).

Definition conv_lba_to_pba (lba : Z) : Z := to_u64 (lba + get_data_start_block).
Definition conv_pba_to_lba (pba : Z) : Z := to_u64 (pba - get_data_start_block).

Definition get_bmap_block_for_lba (lba : Z) : Z :=
  to_u32 (to_u64 (to_u32 lba / BPB + get_bmap_start_block_for_worker 0)).

Definition get_bmap_block_for_pba (pba : Z) : Z :=
  get_bmap_block_for_lba (to_u32 (conv_pba_to_lba (to_u32 pba))).

Definition get_imap_for_inode (inode : Z) : Z :=
  to_u32 (to_u64 (inode / BPB + get_imap_start_block)).

(** ** What a configuration must satisfy *)

(** First file block of extent [i]. *)
Fixpoint ext_base {cfg : ExtentConfig} (i : nat) : Z :=
  match i with
  | O => 0
  | S i' => ext_base i' + extentArrIdx2BlockAllocUnit (Z.of_nat i')
  end.

Definition sum_shares (l : list Z) : Z := foldr Z.add 0 l.

(** The bitmap blocks of one share when [total] blocks are divided. *)
Definition per_share {cfg : ExtentConfig} (total : Z) : Z :=
  (total - LAST_EXTENT_MAX_BMAP_BLOCK_NUM) / kFsExtArrShareSum.

(** Start and size of the region of extent [i]. *)
Definition region_start {cfg : ExtentConfig} (total : Z) (i : nat) : Z :=
  sum_shares (take i kFsPerExtShareArr) * per_share total.

Definition region_size {cfg : ExtentConfig} (total : Z) (i : nat) : Z :=
  match kFsPerExtShareArr !! i with
  | Some share => per_share total * share
  | None => LAST_EXTENT_MAX_BMAP_BLOCK_NUM
  end.

Class ExtentConfigOk (cfg : ExtentConfig) : Prop := {
  ok_shares_length : length kFsPerExtShareArr = 6%nat;
  ok_shares_nonneg : Forall (fun x => 0 <= x) kFsPerExtShareArr;
  ok_shares_sum : 0 < kFsExtArrShareSum <= INT_MAX;
  ok_last : 0 <= LAST_EXTENT_MAX_BMAP_BLOCK_NUM < 2 ^ 32;
  ok_file_blocks : ext_base 7 < 2 ^ 32
}.

#[global] Instance cfg_default_ok : ExtentConfigOk cfg_default.
Proof. split; [done | repeat constructor; by_compute | by_compute..]. Qed.
#[global] Instance cfg_filebench_ok : ExtentConfigOk cfg_filebench.
Proof. split; [done | repeat constructor; by_compute | by_compute..]. Qed.
#[global] Instance cfg_ldb_ok : ExtentConfigOk cfg_ldb.
Proof. split; [done | repeat constructor; by_compute | by_compute..]. Qed.

(** ** Lemmas on extents *)

Section ExtentLemmas.
Context {cfg : ExtentConfig} {Hcfg : ExtentConfigOk cfg}.

Lemma unit_nonneg i : 0 <= extentArrIdx2BlockAllocUnit i.
Proof.
  unfold extentArrIdx2BlockAllocUnit.
  repeat case_if; try lia; apply Z.mod_pos_bound; lia.
Qed.

Lemma ext_base_mono i j : (i <= j)%nat -> 0 <= ext_base i <= ext_base j.
Proof.
  intros H. split.
  - clear H. induction i; simpl; [lia |]. pose proof (unit_nonneg (Z.of_nat i)). lia.
  - induction H as [| j H IH]; [lia |]. simpl.
    pose proof (unit_nonneg (Z.of_nat j)). lia.
Qed.

Lemma extent_loop_spec n k idx :
  (k + n = 7)%nat -> ext_base k <= idx < 2 ^ 32 ->
  let '(i, inside, mx) := extent_loop n (Z.of_nat k) idx (ext_base k) in
  (idx < ext_base 7 ->
     exists e, i = Z.of_nat e /\ (e < 7)%nat /\ mx = extentArrIdx2BlockAllocUnit i /\
       0 <= inside < mx /\ idx = ext_base e + inside) /\
  (ext_base 7 <= idx -> i = -1).
Proof.
  revert k. induction n as [| n IH]; intros k Hk Hidx; cbn [extent_loop].
  { replace k with 7%nat in * by lia. split; [lia | done]. }
  pose proof (ext_base_mono (S k) 7 ltac:(lia)) as Hm.
  pose proof (ext_base_mono k k ltac:(lia)) as Hm'.
  pose proof ok_file_blocks as Hfb. pose proof (unit_nonneg (Z.of_nat k)).
  change (ext_base (S k)) with
    (ext_base k + extentArrIdx2BlockAllocUnit (Z.of_nat k)) in Hm.
  rewrite (to_u32_small (_ + _)) by lia. case_if.
  - rewrite to_u32_small by lia. split; [| lia].
    intros _. exists k. split_and!; done || lia.
  - specialize (IH (S k) ltac:(lia)).
    change (ext_base (S k)) with
      (ext_base k + extentArrIdx2BlockAllocUnit (Z.of_nat k)) in IH.
    rewrite Nat2Z.inj_succ, <- Z.add_1_r in IH. apply IH. lia.
Qed.

Lemma sum_shares_app a b : sum_shares (a ++ b) = sum_shares a + sum_shares b.
Proof. unfold sum_shares. induction a; simpl; lia. Qed.

Lemma sum_shares_nonneg l : Forall (fun x => 0 <= x) l -> 0 <= sum_shares l.
Proof. unfold sum_shares. induction 1; simpl; lia. Qed.

Lemma sum_shares_take n :
  0 <= sum_shares (take n kFsPerExtShareArr) <= kFsExtArrShareSum.
Proof.
  pose proof ok_shares_nonneg as H. change kFsExtArrShareSum with (sum_shares kFsPerExtShareArr).
  rewrite <- (take_drop n kFsPerExtShareArr) in H. apply Forall_app in H as [H1 H2].
  pose proof (sum_shares_nonneg _ H1). pose proof (sum_shares_nonneg _ H2).
  assert (E : sum_shares kFsPerExtShareArr = sum_shares (take n kFsPerExtShareArr) +
            sum_shares (drop n kFsPerExtShareArr))
    by (by rewrite <- sum_shares_app, take_drop).
  lia.
Qed.

Lemma total_pre_share_ok n :
  (n <= 6)%nat ->
  total_pre_share n = Ok (sum_shares (take n kFsPerExtShareArr)).
Proof.
  induction n as [| n IH]; intros Hn; [done |]. cbn [total_pre_share].
  rewrite IH by lia. cbn [res_bind].
  destruct (lookup_lt_is_Some_2 kFsPerExtShareArr n) as [x Hx];
    [rewrite ok_shares_length; lia |].
  rewrite (proj2 (load_ok _ (Z.of_nat n) x)) by (rewrite Nat2Z.id; split; [lia | done]).
  cbn [res_bind]. pose proof (sum_shares_take (S n)) as Hs.
  pose proof ok_shares_sum. pose proof ok_shares_sum.
  rewrite (take_S_r _ _ _ Hx), sum_shares_app in *. simpl in *.
  rewrite Z.add_0_r in *. apply i32_add_ok. ints.
Qed.

Lemma region_bounds total i :
  LAST_EXTENT_MAX_BMAP_BLOCK_NUM <= total < 2 ^ 32 ->
  0 <= per_share total /\ 0 <= region_start total i /\
  region_start total i + LAST_EXTENT_MAX_BMAP_BLOCK_NUM <= total.
Proof.
  intros Ht. pose proof ok_shares_sum as Hs. pose proof (sum_shares_take i) as Hi.
  assert (Hp : 0 <= per_share total) by (apply Z.div_pos; lia).
  pose proof (Z.mul_div_le (total - LAST_EXTENT_MAX_BMAP_BLOCK_NUM) _ (proj1 Hs)) as Hd.
  fold (per_share total) in Hd. unfold region_start. nia.
Qed.

(** Regions of consecutive extents are adjacent. *)
Lemma region_next total i :
  (i < 6)%nat ->
  region_start total (S i) = region_start total i + region_size total i /\
  exists share, kFsPerExtShareArr !! i = Some share /\ 0 <= share.
Proof.
  intros Hi. destruct (lookup_lt_is_Some_2 kFsPerExtShareArr i) as [x Hx];
    [rewrite ok_shares_length; lia |].
  unfold region_start, region_size. rewrite (take_S_r _ _ _ Hx), sum_shares_app, Hx.
  simpl. split; [lia |]. exists x. split; [done |].
  by apply (proj1 (Forall_lookup _ _) ok_shares_nonneg i).
Qed.

Lemma getDataBMapStart_ok total i :
  LAST_EXTENT_MAX_BMAP_BLOCK_NUM <= total < 2 ^ 32 -> (i < 7)%nat ->
  getDataBMapStartBlockNoForExtentArrIdx (Z.of_nat i) total =
    Ok (region_start total i, region_size total i).
Proof.
  intros Ht Hi. pose proof ok_last as Hl.
  pose proof (region_bounds total i Ht) as (Hp & Hs0 & Hs).
  unfold getDataBMapStartBlockNoForExtentArrIdx.
  rewrite (to_u64_small (total - _)) by lia. fold (per_share total).
  rewrite Nat2Z.id, total_pre_share_ok by lia.
  destruct (decide (i = 6%nat)) as [-> | Hne].
  - change (_ =? NEXTENT_ARR) with true. cbn [res_bind].
    fold (region_start total 6). rewrite to_u64_small by lia.
    rewrite !to_u32_small by lia. unfold region_size.
    rewrite (proj2 (lookup_ge_None _ _)); [done | by rewrite ok_shares_length].
  - destruct (Z.eqb_spec (Z.of_nat i + 1) NEXTENT_ARR) as [E | E];
      [change NEXTENT_ARR with 7 in E; lia |].
    destruct (region_next total i ltac:(lia)) as (Hn & x & Hx & Hx0).
    pose proof (region_bounds total (S i) Ht) as (_ & _ & Hs').
    rewrite Hn in Hs'. unfold region_size in *. rewrite Hx in *.
    rewrite (proj2 (load_ok _ (Z.of_nat i) x)) by (rewrite Nat2Z.id; split; [lia | done]).
    cbn [res_bind]. fold (region_start total i).
    rewrite !to_u64_small, !to_u32_small by nia. done.
Qed.

Lemma region_order total i j :
  LAST_EXTENT_MAX_BMAP_BLOCK_NUM <= total < 2 ^ 32 -> (i < j <= 6)%nat ->
  region_start total i + region_size total i <= region_start total j.
Proof.
  intros Ht [Hij Hj]. destruct (region_bounds total i Ht) as (Hp & _).
  induction Hij as [| j Hij IH].
  - destruct (region_next total i) as [-> _]; lia.
  - destruct (region_next total j ltac:(lia)) as (-> & x & Hx & Hx0).
    unfold region_size at 2. rewrite Hx. specialize (IH ltac:(lia)). nia.
Qed.

Lemma region_size_nonneg total i :
  LAST_EXTENT_MAX_BMAP_BLOCK_NUM <= total < 2 ^ 32 -> 0 <= region_size total i.
Proof.
  intros Ht. unfold region_size. pose proof ok_last.
  destruct (kFsPerExtShareArr !! i) as [x |] eqn:E; [| lia].
  pose proof (proj1 (Forall_lookup _ _) ok_shares_nonneg i x E).
  destruct (region_bounds total i Ht). simpl in *. nia.
Qed.

Lemma region_end total i :
  LAST_EXTENT_MAX_BMAP_BLOCK_NUM <= total < 2 ^ 32 -> (i < 7)%nat ->
  region_start total i + region_size total i <= total.
Proof.
  intros Ht Hi. destruct (region_bounds total 6 Ht) as (_ & _ & H6).
  pose proof ok_last. destruct (decide (i = 6%nat)) as [-> | ].
  - unfold region_size.
    rewrite (proj2 (lookup_ge_None _ _)); [lia | by rewrite ok_shares_length].
  - pose proof (region_order total i 6 Ht ltac:(lia)). lia.
Qed.

End ExtentLemmas.

(** ** Lemmas on regions and addresses *)

Lemma add_times_ok n x acc :
  0 <= x -> 0 <= acc -> acc + Z.of_nat n * x < 2 ^ 64 ->
  add_times n x acc = acc + Z.of_nat n * x.
Proof.
  revert acc. induction n as [| n IH]; intros acc Hx Ha Hb; cbn [add_times]; [lia |].
  rewrite to_u64_small by nia. rewrite IH; lia.
Qed.

(** The values of the layout, block numbers of the default device. *)
Lemma layout_values :
  BPB = 32768 /\ get_imap_start_block = 2 /\ get_dev_imap_num_blocks = 4 /\
  LOCAL_JOURNAL_NBLOCKS = 1048576 /\ get_bmap_start_block = 10485766 /\
  get_dev_bmap_num_blocks_in_total = 6401 /\ get_inode_start_block = 10492167 /\
  get_dev_inode_num_blocks = 15626 /\ get_data_start_block = 10507793 /\
  get_bmap_start_block_for_worker 0 = 10485766.
Proof. by_compute. Qed.

Lemma bmap_worker_blocks w : get_dev_bmap_num_blocks_for_worker w = 640.
Proof. done. Qed.

Ltac layout_vals :=
  destruct layout_values as
    (HBPB & HimS & HimN & HjN & HbS & HbT & HiS & HiN & HdS & Hb0).

Lemma journal_sb_ok w :
  0 <= w <= NMAX_FSP_WORKER -> get_worker_journal_sb w = 6 + w * 1048576.
Proof.
  intros H. change NMAX_FSP_WORKER with 10 in H. unfold get_worker_journal_sb.
  layout_vals. rewrite HimS, HimN, HjN. rewrite to_u64_small by lia. lia.
Qed.

Lemma bmap_start_ok w :
  0 <= w <= NMAX_FSP_WORKER ->
  get_bmap_start_block_for_worker w = 10485766 + w * 640.
Proof.
  intros H. change NMAX_FSP_WORKER with 10 in H.
  unfold get_bmap_start_block_for_worker. layout_vals.
  rewrite bmap_worker_blocks, add_times_ok, HbS by lia.
  rewrite to_u64_small by lia. lia.
Qed.

Lemma bmap_block_for_lba_ok lba :
  0 <= lba < 2 ^ 32 -> get_bmap_block_for_lba lba = 10485766 + lba / 32768.
Proof.
  intros H. unfold get_bmap_block_for_lba. layout_vals. rewrite HBPB, Hb0.
  rewrite (to_u32_small lba) by done.
  assert (0 <= lba / 32768 < 131072)
    by (Z.to_euclidean_division_equations; lia).
  rewrite to_u64_small, to_u32_small by lia. lia.
Qed.

Lemma conv_roundtrip lba :
  0 <= lba < 2 ^ 63 -> conv_pba_to_lba (conv_lba_to_pba lba) = lba.
Proof.
  intros H. unfold conv_pba_to_lba, conv_lba_to_pba. layout_vals. rewrite HdS.
  rewrite (to_u64_small (lba + _)) by lia.
  replace (lba + 10507793 - 10507793) with lba by lia. apply to_u64_small. lia.
Qed.

Lemma wid_of_bitmap_block_ok b :
  0 <= b < get_dev_bmap_num_blocks_in_total ->
  getWidForBitmapBlock (10485766 + b) = b / 640.
Proof.
  intros H. unfold getWidForBitmapBlock. layout_vals. rewrite HbT in H.
  rewrite HbS, bmap_worker_blocks, to_u64_small by lia.
  replace (10485766 + b - 10485766) with b by lia. unfold to_i32.
  assert (0 <= b / 640 < 11) by (Z.to_euclidean_division_equations; lia).
  rewrite Z.mod_small by lia. lia.
Qed.

(** ** Properties *)

(** Finding the extent of a file block is exact, for every extent
    configuration: a block below the maximal file size lies in exactly the
    extent returned, at the offset returned, inside the extent's allocation unit;
    a block beyond it is refused with -1. *)
Theorem getCurrentExtentArrIdx_correct (cfg : ExtentConfig) (i_block_idx : Z) :
  ExtentConfigOk cfg -> 0 <= i_block_idx < 2 ^ 32 ->
  let '(i, inside, mx) := getCurrentExtentArrIdx i_block_idx in
  (i_block_idx < ext_base 7 ->
     exists e, i = Z.of_nat e /\ (e < 7)%nat /\ mx = extentArrIdx2BlockAllocUnit i /\
       0 <= inside < mx /\ i_block_idx = ext_base e + inside) /\
  (ext_base 7 <= i_block_idx -> i = -1).
Proof. intros Hc H. by apply (extent_loop_spec 7 0 i_block_idx). Qed.

Lemma getCurrentExtentArrIdx_correct_witness :
  let '(i, inside, mx) := getCurrentExtentArrIdx (cfg := cfg_default) 70000 in
  (70000 < ext_base (cfg := cfg_default) 7 ->
     exists e, i = Z.of_nat e /\ (e < 7)%nat /\
       mx = extentArrIdx2BlockAllocUnit (cfg := cfg_default) i /\
       0 <= inside < mx /\ 70000 = ext_base (cfg := cfg_default) e + inside) /\
  (ext_base (cfg := cfg_default) 7 <= 70000 -> i = -1).
Proof.
  apply (getCurrentExtentArrIdx_correct cfg_default 70000);
    [apply cfg_default_ok | lia].
Defined.

(** For every extent configuration and any number of bitmap blocks that can
    hold the last extent, the bitmap regions of the seven extent sizes are
    computed without overflow, do not overlap, and lie within the bitmap. *)
Theorem extent_regions_disjoint (cfg : ExtentConfig) total (i j : nat) :
  ExtentConfigOk cfg ->
  LAST_EXTENT_MAX_BMAP_BLOCK_NUM <= total < 2 ^ 32 -> (i < j < 7)%nat ->
  exists si ni sj nj,
    getDataBMapStartBlockNoForExtentArrIdx (Z.of_nat i) total = Ok (si, ni) /\
    getDataBMapStartBlockNoForExtentArrIdx (Z.of_nat j) total = Ok (sj, nj) /\
    0 <= si /\ 0 <= ni /\ si + ni <= sj /\ 0 <= nj /\ sj + nj <= total.
Proof.
  intros Hc Ht Hij. rewrite !getDataBMapStart_ok by (done || lia).
  eexists _, _, _, _. split_and!; [done | done | | | | |].
  - apply region_bounds. done.
  - by apply region_size_nonneg.
  - apply region_order; [done | lia].
  - by apply region_size_nonneg.
  - apply region_end; [done | lia].
Qed.

Lemma extent_regions_disjoint_witness :
  exists si ni sj nj,
    getDataBMapStartBlockNoForExtentArrIdx (cfg := cfg_default) 1 640 = Ok (si, ni) /\
    getDataBMapStartBlockNoForExtentArrIdx (cfg := cfg_default) 6 640 = Ok (sj, nj) /\
    0 <= si /\ 0 <= ni /\ si + ni <= sj /\ 0 <= nj /\ sj + nj <= 640.
Proof.
  apply (extent_regions_disjoint cfg_default 640 1 6);
    [apply cfg_default_ok | by_compute | lia].
Defined.

(** The regions of the device follow each other without gap or overlap: the
    inode bitmap, the journal of each worker, the data bitmap of each worker, the
    inodes and the data blocks. *)
Theorem device_regions_adjacent (w : Z) :
  0 <= w < NMAX_FSP_WORKER ->
  SB_BLOCK_NO < get_imap_start_block /\
  get_imap_start_block + get_dev_imap_num_blocks = get_worker_journal_sb 0 /\
  get_worker_journal_sb w + LOCAL_JOURNAL_NBLOCKS = get_worker_journal_sb (w + 1) /\
  get_worker_journal_sb NMAX_FSP_WORKER = get_bmap_start_block_for_worker 0 /\
  get_bmap_start_block_for_worker w + get_dev_bmap_num_blocks_for_worker w =
    get_bmap_start_block_for_worker (w + 1) /\
  get_bmap_start_block_for_worker (w + 1) <= get_inode_start_block /\
  get_inode_start_block + get_dev_inode_num_blocks = get_data_start_block.
Proof.
  intros H. change NMAX_FSP_WORKER with 10 in *.
  rewrite !(journal_sb_ok), !bmap_start_ok, bmap_worker_blocks
    by (change NMAX_FSP_WORKER with 10; lia).
  layout_vals. rewrite HimS, HimN, HjN, HiS, HiN, HdS.
  change SB_BLOCK_NO with 1. lia.
Qed.

Lemma device_regions_adjacent_witness :
  get_worker_journal_sb 3 + LOCAL_JOURNAL_NBLOCKS = get_worker_journal_sb 4.
Proof. apply (device_regions_adjacent 3). by_compute. Defined.

(** Every data block of a worker's share is accounted for in that worker's
    own bitmap blocks: the bitmap block computed for the block, from its logical
    or its physical address, is a bitmap block of the worker, and the worker
    computed back from it is that worker. *)
Theorem lba_bitmap_owner (w lba : Z) :
  0 <= w < NMAX_FSP_WORKER ->
  w * get_dev_data_num_blocks_for_worker w <= lba <
    (w + 1) * get_dev_data_num_blocks_for_worker w ->
  let b := get_bmap_block_for_lba lba in
  isBitmapBlock b = true /\ getWidForBitmapBlock b = w /\
  get_bmap_start_block_for_worker w <= b < get_bmap_start_block_for_worker (w + 1) /\
  get_bmap_block_for_pba (conv_lba_to_pba lba) = b /\
  conv_pba_to_lba (conv_lba_to_pba lba) = lba.
Proof.
  intros Hw Hl b. change NMAX_FSP_WORKER with 10 in Hw.
  change (get_dev_data_num_blocks_for_worker w) with 20971520 in Hl.
  assert (Hlba : 0 <= lba < 209715200) by lia. subst b.
  rewrite !bmap_start_ok by (change NMAX_FSP_WORKER with 10; lia).
  assert (Hdiv : w * 640 <= lba / 32768 < (w + 1) * 640)
    by (Z.to_euclidean_division_equations; lia).
  layout_vals. unfold get_bmap_block_for_pba, conv_lba_to_pba, conv_pba_to_lba, isBitmapBlock.
  rewrite HdS, (to_u64_small (lba + _)), (to_u32_small (lba + _)) by lia.
  replace (lba + 10507793 - 10507793) with lba by lia.
  rewrite (to_u64_small lba), (to_u32_small lba) by lia.
  rewrite bmap_block_for_lba_ok, wid_of_bitmap_block_ok, Hb0, HiS by (rewrite ?HbT; lia).
  rewrite Z.geb_leb. split_and!; try lia; Z.to_euclidean_division_equations; lia.
Qed.

Lemma lba_bitmap_owner_witness :
  getWidForBitmapBlock (get_bmap_block_for_lba 50000000) = 2.
Proof. apply (lba_bitmap_owner 2 50000000); by_compute. Defined.

(** The sector of every inode lies in the inode blocks, distinct inodes have
    distinct sectors, and the inode's bit lies in an inode bitmap block. *)
Theorem inode_sector_in_region (ino ino' : Z) :
  0 <= ino < NINODES -> 0 <= ino' < NINODES ->
  get_inode_start_block <= calcSectorForInode ino / (BSIZE / ISEC_SIZE) <
    get_data_start_block /\
  (calcSectorForInode ino = calcSectorForInode ino' -> ino = ino') /\
  get_imap_start_block <= get_imap_for_inode ino <
    get_imap_start_block + IMAPBLOCK_NUM /\
  isInodeBitmap (get_imap_for_inode ino) = true.
Proof.
  change NINODES with 125000. intros H H'. unfold calcSectorForInode, get_imap_for_inode.
  unfold isInodeBitmap. layout_vals. rewrite HBPB, HiS, HdS, HimS, HimN.
  change (BSIZE / ISEC_SIZE) with 8. change IMAPBLOCK_NUM with 4.
  assert (0 <= ino / 32768 < 4) by (Z.to_euclidean_division_equations; lia).
  rewrite !to_u64_small, !to_u32_small, Z.geb_leb by lia.
  split_and!; try lia; Z.to_euclidean_division_equations; lia.
Qed.

Lemma inode_sector_in_region_witness :
  get_inode_start_block <= calcSectorForInode 124999 / (BSIZE / ISEC_SIZE) <
    get_data_start_block.
Proof. apply (inode_sector_in_region 124999 0); by_compute. Defined.

(** The test for inode bitmap blocks also accepts the first block after them,
    the super block of the first journal. *)
Theorem isInodeBitmap_accepts_journal :
  isInodeBitmap (get_worker_journal_sb 0) = true.
Proof. done. Qed.

(** The last bitmap block belongs to no worker. *)
Theorem last_bitmap_block_unowned :
  getWidForBitmapBlock (get_inode_start_block - 1) = NMAX_FSP_WORKER.
Proof. done. Qed.

(** The bitmaps of the workers account for more data blocks than the device has
    after the metadata: a block of the last worker's share lies beyond the end. *)
Theorem data_share_beyond_device :
  let lba := 10 * get_dev_data_num_blocks_for_worker 9 - 1 in
  getWidForBitmapBlock (get_bmap_block_for_lba lba) = 9 /\
  DEV_SIZE / BSIZE <= conv_lba_to_pba lba.
Proof. by_compute. Qed.

End Layout.
