(* ===== verification/JSuper.v ===== *)
(** * Journal super block

    [cfs/include/FsProc_JSuper.h]: the ring of journal blocks, the counter of
    blocks written since the super block was last stored, and the flag of a
    super-block write in flight.  Every method runs under the spin lock, so a
    concurrent history is a sequence of method calls; [do_op] and [run] are such
    sequences.  An operation is one critical section of a caller in
    [JournalManager] ([tryNextTransaction], [populateCheckpointInput],
    [onCheckpointSuccess], [WriteJSuper] and its completion), so that the
    sections of one caller may be separated by those of others.  One checkpoint
    is under way at a time, as with a journal per worker, and the build is the
    one with checkpoints ([CFS_JOURNAL(CHECKPOINTING)]).  [Ring] is the abstract
    ring the super block implements. *)

From Stdlib Require Import ZArith Lia Bool.
From stdpp Require Import base list option.
From S2P Require Import Prelude Layout.

Module JSuper.
Import Layout.

Definition MAX_JOURNAL_ENTRY_SIZE : Z := 128 * 1024.
Definition MAX_UNACCOUNTED_JOURNAL_BYTES : Z := 200 * (1024 * 1024).
Definition kMaxUnaccountedBlocks : Z := MAX_UNACCOUNTED_JOURNAL_BYTES / BSIZE.
(** [0.8 * kMaxUnaccountedBlocks] *)
Definition kSoftMaxUnaccountedBlocks : Z := 8 * kMaxUnaccountedBlocks / 10.
Definition max_blocks : Z := MAX_JOURNAL_ENTRY_SIZE / BSIZE.

Record JSuperOnDisk : Type := mk_disk {
  jmagic : Z;
  jsuper_blockno : Z;
  jstart_blockno : Z;
  jend_blockno : Z;
  capacity : Z;
  n_used : Z;
  head : Z;
  tail : Z;
  last_chkpt_ts : Z
}.

Record JSuper : Type := mk_jsuper {
  djsuper_ : JSuperOnDisk;
  nblocks_unaccounted_ : Z;
  write_in_progress_ : bool
}.

(** Fields that the code leaves uninitialised are [None]. *)
Record Slot : Type := mk_slot {
  start_idx : option Z;
  no_space : bool;
  write_jsuper : option bool;
  retry_after_jsuper_written : bool
}.

Definition set_ring (d : JSuperOnDisk) (used hd tl : Z) : JSuperOnDisk :=
  mk_disk (jmagic d) (jsuper_blockno d) (jstart_blockno d) (jend_blockno d)
    (capacity d) used hd tl (last_chkpt_ts d).

Definition add_unaccounted (n : Z) (js : JSuper) : JSuper :=
  mk_jsuper (djsuper_ js) (to_u64 (nblocks_unaccounted_ js + n))
    (write_in_progress_ js).

(** [JSuper(const struct JSuperOnDisk *j)] *)
Definition new_JSuper (j : JSuperOnDisk) : JSuper := mk_jsuper j 0 false.

Definition GetDiskRepr (js : JSuper) : JSuperOnDisk := djsuper_ js.
Definition Empty (js : JSuper) : bool := n_used (djsuper_ js) =? 0.
Definition Size (js : JSuper) : Z := n_used (djsuper_ js).
Definition GetLastCheckpoint (js : JSuper) : Z := last_chkpt_ts (djsuper_ js).

Definition SetDiskRepr (j : JSuperOnDisk) (js : JSuper) : JSuper :=
  mk_jsuper j (nblocks_unaccounted_ js) (write_in_progress_ js).

Definition IdxToBlockNo (d : JSuperOnDisk) (idx : Z) : Z :=
  to_u64 (jstart_blockno d + idx mod capacity d).

Definition NoLoopArounds (d : JSuperOnDisk) (start nblocks : Z) : bool :=
  let start_block := IdxToBlockNo d start in
  let end_idx := to_u64 (start + nblocks - 1) in
  let end_block := IdxToBlockNo d end_idx in
  start_block <? end_block.

Definition UnsafeCanAllocateNSlots (d : JSuperOnDisk) (n : Z) : bool :=
  to_u64 (n_used d + n) <=? capacity d.

Definition UnsafeShouldWriteJSuper (js : JSuper) : bool :=
  (nblocks_unaccounted_ js >? kSoftMaxUnaccountedBlocks) &&
  negb (write_in_progress_ js).

Definition ShouldWriteJSuper (js : JSuper) : bool := UnsafeShouldWriteJSuper js.

Definition UnsafeShouldWaitTillJSuperWritten (js : JSuper) : bool :=
  nblocks_unaccounted_ js >=? kMaxUnaccountedBlocks.

Definition UnsafeNItemsEnqueued (n : Z) (js : JSuper) : res JSuper :=
  let d := djsuper_ js in
  let! _ := check (to_u64 (n_used d + n) <=? capacity d) in
  Ok (mk_jsuper
        (set_ring d (to_u64 (n_used d + n))
           (to_u64 (head d + n) mod capacity d) (tail d))
        (nblocks_unaccounted_ js) (write_in_progress_ js)).

Definition UnsafeNItemsDequeued (n : Z) (js : JSuper) : res JSuper :=
  let d := djsuper_ js in
  let! _ := check (n <=? n_used d) in
  Ok (mk_jsuper
        (set_ring d (to_u64 (n_used d - n)) (head d)
           (to_u64 (tail d + n) mod capacity d))
        (nblocks_unaccounted_ js) (write_in_progress_ js)).

(** Returns the number of blocks filled. *)
Definition UnsafeEnsureNextContiguousRegion (js : JSuper) : res (Z * JSuper) :=
  let d := djsuper_ js in
  let nblocks_till_end := to_u64 (jend_blockno d - IdxToBlockNo d (head d) + 1) in
  if nblocks_till_end >? max_blocks then Ok (0, js)
  else if UnsafeCanAllocateNSlots d nblocks_till_end then
    let! js := UnsafeNItemsEnqueued nblocks_till_end js in
    Ok (nblocks_till_end, js)
  else Ok (0, js).

Definition AcquireNextNSlots (n : Z) (js : JSuper) : res (Slot * JSuper) :=
  let retry := UnsafeShouldWaitTillJSuperWritten js in
  let no_sp := negb (UnsafeCanAllocateNSlots (djsuper_ js) n) in
  if no_sp || retry then Ok (mk_slot None no_sp None retry, js)
  else
    let start := head (djsuper_ js) in
    let! js := UnsafeNItemsEnqueued n js in
    let js := add_unaccounted n js in
    let! (pad, js) := UnsafeEnsureNextContiguousRegion js in
    let js := add_unaccounted pad js in
    Ok (mk_slot (Some start) no_sp (Some (UnsafeShouldWriteJSuper js)) retry, js).

Definition ReleaseFirstNSlots (n : Z) (js : JSuper) : res JSuper :=
  let! js := UnsafeNItemsDequeued n js in
  Ok (add_unaccounted n js).

(** [None] when a write is already in progress; otherwise the copy [j] and
    [old_nblocks_unaccounted]. *)
Definition TrySetWriteInProgress (js : JSuper) : option (JSuperOnDisk * Z) * JSuper :=
  if write_in_progress_ js then (None, js)
  else (Some (djsuper_ js, nblocks_unaccounted_ js),
        mk_jsuper (djsuper_ js) (nblocks_unaccounted_ js) true).

Definition OnWriteComplete (old_nblocks_unaccounted : Z) (js : JSuper) : res JSuper :=
  let! _ := check (write_in_progress_ js) in
  let! _ := check (old_nblocks_unaccounted <=? nblocks_unaccounted_ js) in
  Ok (mk_jsuper (djsuper_ js)
        (to_u64 (nblocks_unaccounted_ js - old_nblocks_unaccounted)) false).

Definition SetLastCheckpoint (ts : Z) (js : JSuper) : JSuper :=
  let d := djsuper_ js in
  add_unaccounted kSoftMaxUnaccountedBlocks
    (mk_jsuper
       (mk_disk (jmagic d) (jsuper_blockno d) (jstart_blockno d) (jend_blockno d)
          (capacity d) (n_used d) (head d) (tail d) ts)
       (nblocks_unaccounted_ js) (write_in_progress_ js)).

(** ** Histories *)

(** How far a checkpoint is: prepared with the size it recorded, or its slots
    released and the time stamp not set yet. *)
Inductive ckpt_stage : Type :=
| NoCheckpoint
| Prepared (n_used : Z)
| Released.

(** The super block with the values its users hold: the checkpoint under way,
    the unaccounted count of the write in flight, and the slots acquired by
    transactions that have yet to check them. *)
Record jrun : Type := mk_run {
  jsuper : JSuper;
  ckpt : ckpt_stage;
  inflight : option Z;
  pending : list (Z * Z)
}.

Inductive op : Type :=
| OpAcquire (n : Z)
| OpCheckSlots (k : nat)
| OpPrepareCheckpoint
| OpRelease
| OpSetLastCheckpoint (ts : Z)
| OpCheckpointFailure
| OpWriteJSuper
| OpWriteDone.

(** [JournalManager::WriteJSuper] up to the submission. *)
Definition write_jsuper_op (r : jrun) : jrun :=
  match TrySetWriteInProgress (jsuper r) with
  | (None, js) => mk_run js (ckpt r) (inflight r) (pending r)
  | (Some (_, old), js) => mk_run js (ckpt r) (Some old) (pending r)
  end.

(** A call that its caller would not make in the state is skipped.
    [tryNextTransaction] acquires slots, writes the super block when it is told
    to ([OpWriteJSuper]) and checks the slots; [onCheckpointSuccess] releases
    the recorded number of slots, sets the time and writes the super block. *)
Definition do_op (o : op) (r : jrun) : res jrun :=
  match o with
  | OpAcquire n =>
      if (2 <=? n) && (n <=? max_blocks) then
        let! (slot, js) := AcquireNextNSlots n (jsuper r) in
        match start_idx slot with
        | Some start => Ok (mk_run js (ckpt r) (inflight r) (pending r ++ [(start, n)]))
        | None => Ok (mk_run js (ckpt r) (inflight r) (pending r))
        end
      else Ok r
  | OpCheckSlots k =>
      match pending r !! k with
      | Some (start, n) =>
          let! _ := check (NoLoopArounds (djsuper_ (jsuper r)) start n) in
          Ok (mk_run (jsuper r) (ckpt r) (inflight r) (delete k (pending r)))
      | None => Ok r
      end
  | OpPrepareCheckpoint =>
      match ckpt r with
      | NoCheckpoint =>
          Ok (mk_run (jsuper r) (Prepared (Size (jsuper r))) (inflight r) (pending r))
      | _ => Ok r
      end
  | OpRelease =>
      match ckpt r with
      | Prepared n =>
          let! js := ReleaseFirstNSlots n (jsuper r) in
          Ok (mk_run js Released (inflight r) (pending r))
      | _ => Ok r
      end
  | OpSetLastCheckpoint ts =>
      match ckpt r with
      | Released =>
          Ok (mk_run (SetLastCheckpoint ts (jsuper r)) NoCheckpoint (inflight r) (pending r))
      | _ => Ok r
      end
  | OpCheckpointFailure =>
      match ckpt r with
      | Prepared _ => Ok (mk_run (jsuper r) NoCheckpoint (inflight r) (pending r))
      | _ => Ok r
      end
  | OpWriteJSuper => Ok (write_jsuper_op r)
  | OpWriteDone =>
      match inflight r with
      | Some old =>
          let! js := OnWriteComplete old (jsuper r) in
          Ok (mk_run js (ckpt r) None (pending r))
      | None => Ok r
      end
  end.

Fixpoint run (ops : list op) (r : jrun) : res jrun :=
  match ops with
  | [] => Ok r
  | o :: ops' => let! r := do_op o r in run ops' r
  end.

(** A freshly formatted journal. *)
Definition empty_journal (start cap : Z) : JSuperOnDisk :=
  mk_disk 0 (start - 1) start (start + cap - 1) cap 0 0 0 0.

Definition init_run (start cap : Z) : jrun :=
  mk_run (new_JSuper (empty_journal start cap)) NoCheckpoint None [].

(** ** Abstract ring

    Two counters that only grow: positions [r_tail, r_head) are in use. *)
Record Ring : Type := mk_ring { r_tail : Z; r_head : Z }.


Definition ring_release (n : Z) (r : Ring) : option Ring :=
  if n <=? r_head r - r_tail r
  then Some (mk_ring (r_tail r + n) (r_head r)) else None.


(** The block of a position. *)
Definition block_of (d : JSuperOnDisk) (p : Z) : Z :=
  jstart_blockno d + p mod capacity d.

(** ** Invariants *)

(** Geometry of a formatted journal. *)
Definition geometry (d : JSuperOnDisk) : Prop :=
  max_blocks < capacity d < 2 ^ 62 /\
  0 <= jstart_blockno d < 2 ^ 62 /\
  jend_blockno d = jstart_blockno d + capacity d - 1.

Definition wf (d : JSuperOnDisk) : Prop :=
  geometry d /\ 0 <= n_used d <= capacity d /\
  0 <= tail d < capacity d /\ 0 <= head d < capacity d /\
  head d = (tail d + n_used d) mod capacity d.

(** The ring of the super block is the abstract one. *)
Definition refines (d : JSuperOnDisk) (r : Ring) : Prop :=
  wf d /\ 0 <= r_tail r /\
  tail d = r_tail r mod capacity d /\ n_used d = r_head r - r_tail r.

(** Both ends leave room for a whole entry before the end of the journal. *)
Definition roomy (d : JSuperOnDisk) (idx : Z) : Prop :=
  idx + max_blocks < capacity d.

Definition run_inv (bound : Z) (r : jrun) : Prop :=
  let d := djsuper_ (jsuper r) in
  wf d /\ roomy d (head d) /\ roomy d (tail d) /\
  match ckpt r with
  | Prepared s => 0 <= s <= n_used d /\ roomy d ((tail d + s) mod capacity d)
  | NoCheckpoint | Released => True
  end /\
  Forall (fun '(start, n) => 0 <= start /\ roomy d start /\ 2 <= n <= max_blocks)
    (pending r) /\
  0 <= nblocks_unaccounted_ (jsuper r) <= bound /\
  match inflight r with
  | Some old => write_in_progress_ (jsuper r) = true /\
                0 <= old <= nblocks_unaccounted_ (jsuper r)
  | None => write_in_progress_ (jsuper r) = false
  end.

(** The disk image after [n] more blocks are in use. *)
Definition enqueued (n : Z) (d : JSuperOnDisk) : JSuperOnDisk :=
  set_ring d (n_used d + n) ((head d + n) mod capacity d) (tail d).

Definition dequeued (n : Z) (d : JSuperOnDisk) : JSuperOnDisk :=
  set_ring d (n_used d - n) (head d) ((tail d + n) mod capacity d).

(** The blocks filled to reach the end of the journal when [head] is too close
    to it. *)
Definition pad_of (d : JSuperOnDisk) : Z :=
  if capacity d - head d >? max_blocks then 0
  else if n_used d + (capacity d - head d) <=? capacity d
  then capacity d - head d else 0.

(** When a request for [n] blocks is served. *)
Definition granted (n : Z) (js : JSuper) : bool :=
  (n_used (djsuper_ js) + n <=? capacity (djsuper_ js)) &&
  (nblocks_unaccounted_ js <? kMaxUnaccountedBlocks).

(** The state after a served request. *)
Definition acquired (n : Z) (js : JSuper) : JSuper :=
  let d := enqueued n (djsuper_ js) in
  mk_jsuper (enqueued (pad_of d) d)
    (to_u64 (to_u64 (nblocks_unaccounted_ js + n) + pad_of d))
    (write_in_progress_ js).

(** The most one operation adds to the unaccounted blocks. *)
Definition op_growth (cap : Z) : Z := cap + kSoftMaxUnaccountedBlocks + 2 * max_blocks.

(** ** Lemmas on the ring *)

Lemma ring_mod a c :
  0 <= a < 2 * c -> a mod c = if a <? c then a else a - c.
Proof.
  intros H. case_if; [apply Z.mod_small; lia |].
  rewrite <- (Z.mod_small (a - c) c) by lia.
  rewrite <- (Z_mod_plus_full (a - c) 1 c). f_equal. lia.
Qed.

Lemma max_blocks_val : max_blocks = 32.
Proof. done. Qed.

Lemma idx_block d idx :
  geometry d -> IdxToBlockNo d idx = block_of d idx.
Proof.
  intros (Hc & Hs & _). unfold IdxToBlockNo, block_of. rewrite max_blocks_val in Hc.
  pose proof (Z.mod_pos_bound idx (capacity d)). apply to_u64_small. lia.
Qed.

Lemma can_allocate_iff d n :
  wf d -> 0 <= n < 2 ^ 62 ->
  UnsafeCanAllocateNSlots d n = (n_used d + n <=? capacity d).
Proof.
  intros (Hg & Hu & _) Hn. destruct Hg as (Hc & _).
  unfold UnsafeCanAllocateNSlots. by rewrite to_u64_small by lia.
Qed.

Lemma enqueue_ok n js :
  wf (djsuper_ js) -> 0 <= n -> n_used (djsuper_ js) + n <= capacity (djsuper_ js) ->
  UnsafeNItemsEnqueued n js =
    Ok (mk_jsuper (enqueued n (djsuper_ js)) (nblocks_unaccounted_ js)
          (write_in_progress_ js)) /\
  wf (enqueued n (djsuper_ js)).
Proof.
  intros Hwf Hn Hle. pose proof Hwf as (Hg & Hu & Ht & Hh & He).
  pose proof Hg as (Hc & _).
  unfold UnsafeNItemsEnqueued. rewrite !to_u64_small by lia.
  rewrite (proj2 (Z.leb_le _ _) Hle). cbn [check res_bind]. split; [done |].
  unfold enqueued. split_and!; cbn; try lia; try done.
  - apply Z.mod_pos_bound. lia.
  - apply Z.mod_pos_bound. lia.
  - rewrite He, Zplus_mod_idemp_l. f_equal. lia.
Qed.

Lemma dequeue_ok n js :
  wf (djsuper_ js) -> 0 <= n <= n_used (djsuper_ js) ->
  UnsafeNItemsDequeued n js =
    Ok (mk_jsuper (dequeued n (djsuper_ js)) (nblocks_unaccounted_ js)
          (write_in_progress_ js)) /\
  wf (dequeued n (djsuper_ js)).
Proof.
  intros Hwf Hn. pose proof Hwf as (Hg & Hu & Ht & Hh & He).
  pose proof Hg as (Hc & _).
  unfold UnsafeNItemsDequeued. rewrite !to_u64_small by lia.
  rewrite (proj2 (Z.leb_le _ _) (proj2 Hn)). cbn [check res_bind]. split; [done |].
  unfold dequeued. split_and!; cbn; try lia; try done.
  - apply Z.mod_pos_bound. lia.
  - apply Z.mod_pos_bound. lia.
  - rewrite He, Zplus_mod_idemp_l. f_equal. lia.
Qed.

Lemma pad_range d :
  wf d -> 0 <= pad_of d <= max_blocks /\ n_used d + pad_of d <= capacity d.
Proof.
  intros (Hg & Hu & Ht & Hh & He). unfold pad_of. rewrite max_blocks_val, Z.gtb_ltb.
  repeat case_if; lia.
Qed.

Lemma enqueued_zero d : wf d -> enqueued 0 d = d.
Proof.
  intros (Hg & Hu & Ht & Hh & He). unfold enqueued, set_ring.
  rewrite !Z.add_0_r, Z.mod_small by lia. by destruct d.
Qed.

Lemma ensure_ok js :
  wf (djsuper_ js) ->
  UnsafeEnsureNextContiguousRegion js =
    Ok (pad_of (djsuper_ js),
        mk_jsuper (enqueued (pad_of (djsuper_ js)) (djsuper_ js))
          (nblocks_unaccounted_ js) (write_in_progress_ js)) /\
  wf (enqueued (pad_of (djsuper_ js)) (djsuper_ js)).
Proof.
  intros Hwf. pose proof (pad_range _ Hwf) as [Hp Hp'].
  destruct (enqueue_ok (pad_of (djsuper_ js)) js) as [He Hw]; [done | lia.. |].
  split; [| done]. pose proof (enqueued_zero _ Hwf) as Hz.
  pose proof Hwf as (Hg & Hu & Ht & Hh & _). pose proof Hg as (Hc & Hs & Hend).
  unfold UnsafeEnsureNextContiguousRegion. cbv zeta.
  rewrite idx_block by done. unfold block_of.
  rewrite Z.mod_small, Hend by lia.
  replace (jstart_blockno _ + _ - 1 - _ + 1) with
    (capacity (djsuper_ js) - head (djsuper_ js)) by lia.
  rewrite to_u64_small by lia. unfold pad_of in *.
  destruct (_ >? max_blocks); [rewrite Hz; by destruct js |].
  rewrite can_allocate_iff by (done || lia).
  destruct (_ <=? capacity _); [by rewrite He | rewrite Hz; by destruct js].
Qed.

Lemma acquire_ok n js :
  wf (djsuper_ js) -> 0 <= n < 2 ^ 62 ->
  AcquireNextNSlots n js =
    (if granted n js
     then Ok (mk_slot (Some (head (djsuper_ js))) false
                (Some (UnsafeShouldWriteJSuper (acquired n js))) false,
              acquired n js)
     else Ok (mk_slot None
                (negb (n_used (djsuper_ js) + n <=? capacity (djsuper_ js))) None
                (negb (nblocks_unaccounted_ js <? kMaxUnaccountedBlocks)), js)) /\
  (granted n js = true ->
     wf (enqueued n (djsuper_ js)) /\ wf (djsuper_ (acquired n js))).
Proof.
  intros Hwf Hn. unfold AcquireNextNSlots, granted, UnsafeShouldWaitTillJSuperWritten.
  rewrite can_allocate_iff, Z.geb_leb, Z.ltb_antisym by done. rewrite negb_involutive.
  destruct (_ + n <=? _) eqn:Ea; cbn [negb orb andb]; [| by split].
  destruct (kMaxUnaccountedBlocks <=? _) eqn:Eb; cbn [negb orb andb]; [by split |].
  b2p. destruct (enqueue_ok n js) as [-> Hw1]; [done | lia.. |].
  cbn [res_bind]. set (js1 := add_unaccounted n _).
  destruct (ensure_ok js1) as [-> Hw2]; [done |]. split; done.
Qed.

Lemma enqueued_geometry n d : geometry (enqueued n d) <-> geometry d.
Proof. done. Qed.

(** Starting from roomy ends, an entry fits before the end of the journal and
    the head is roomy again, because filling up the rest never fails. *)
Lemma acquired_roomy n js :
  let d := djsuper_ js in
  wf d -> roomy d (head d) -> roomy d (tail d) -> 2 <= n <= max_blocks ->
  granted n js = true ->
  roomy d (head (djsuper_ (acquired n js))) /\
  tail (djsuper_ (acquired n js)) = tail d /\
  n_used d <= n_used (djsuper_ (acquired n js)).
Proof.
  intros d Hwf Hh Ht Hn Hg. unfold granted in Hg. b2p. fold d in H.
  pose proof Hwf as (Hge & Hu & Htl & Hhd & He). unfold roomy in *.
  rewrite max_blocks_val in *.
  rewrite ring_mod in He by lia. unfold acquired. fold d. cbn.
  assert (Hh1 : (head d + n) mod capacity d = head d + n)
    by (apply Z.mod_small; lia).
  unfold pad_of. cbn. rewrite Hh1, max_blocks_val, Z.gtb_ltb. split_and!; try done.
  - case_if; [rewrite Z.add_0_r, Z.mod_small; lia |]. case_if.
    + replace (head d + n + (capacity d - (head d + n))) with (capacity d) by lia.
      rewrite Z.mod_same by lia. destruct Hge. rewrite max_blocks_val in *. lia.
    + exfalso. case_if_in He; lia.
  - repeat case_if; lia.
Qed.

Lemma no_loop_arounds d start n :
  geometry d -> 0 <= start -> 2 <= n <= max_blocks -> roomy d start ->
  NoLoopArounds d start n = true.
Proof.
  intros Hg Hs Hn Hr. unfold roomy in Hr. pose proof Hg as (Hc & _).
  rewrite max_blocks_val in *. unfold NoLoopArounds.
  rewrite to_u64_small, !idx_block by (done || lia). unfold block_of.
  rewrite !Z.mod_small by lia. apply Z.ltb_lt. lia.
Qed.

(** ** Lemmas on histories *)

Lemma write_jsuper_op_inv bound r :
  run_inv bound r ->
  run_inv bound (write_jsuper_op r) /\
  djsuper_ (jsuper (write_jsuper_op r)) = djsuper_ (jsuper r).
Proof.
  intros (Hwf & Hh & Ht & Hs & Hp & Hb & Hi). unfold write_jsuper_op, TrySetWriteInProgress.
  destruct (write_in_progress_ (jsuper r)) eqn:E; cbn; (split; [| done]).
  - split_and!; try done; cbn; try lia. by rewrite E.
  - split_and!; try done; cbn; lia.
Qed.

Lemma op_growth_val cap : op_growth cap = cap + 41024.
Proof. unfold op_growth. change kSoftMaxUnaccountedBlocks with 40960. rewrite max_blocks_val. lia. Qed.

Lemma acquired_unaccounted n js bound :
  wf (enqueued n (djsuper_ js)) -> 2 <= n <= max_blocks ->
  0 <= nblocks_unaccounted_ js <= bound ->
  bound + op_growth (capacity (djsuper_ js)) < 2 ^ 64 ->
  nblocks_unaccounted_ js <= nblocks_unaccounted_ (acquired n js) <=
    bound + op_growth (capacity (djsuper_ js)).
Proof.
  intros Hwf Hn Hb Hlt. destruct (pad_range _ Hwf) as [Hp _].
  pose proof Hwf as ((Hc & _) & _). cbn in Hc.
  rewrite op_growth_val in *. rewrite max_blocks_val in *.
  unfold acquired. cbv zeta. cbn [nblocks_unaccounted_].
  rewrite (to_u64_small (_ + n)), to_u64_small by lia. lia.
Qed.

Lemma acquire_step bound n r :
  run_inv bound r -> bound + op_growth (capacity (djsuper_ (jsuper r))) < 2 ^ 64 ->
  exists r', do_op (OpAcquire n) r = Ok r' /\
    capacity (djsuper_ (jsuper r')) = capacity (djsuper_ (jsuper r)) /\
    run_inv (bound + op_growth (capacity (djsuper_ (jsuper r)))) r'.
Proof.
  intros Hinv Hlt. pose proof Hinv as (Hwf & Hh & Ht & Hs & Hp & Hb & Hi).
  pose proof Hwf as ((Hcap & _) & _ & _ & Hhd & _).
  assert (Hweak : run_inv (bound + op_growth (capacity (djsuper_ (jsuper r)))) r).
  { rewrite op_growth_val. split_and!; try done; rewrite ?max_blocks_val in *; lia. }
  cbn [do_op]. destruct (_ && _) eqn:En; [| eauto]. b2p.
  destruct (acquire_ok n (jsuper r)) as [-> Hok]; [done | rewrite max_blocks_val in *; lia |].
  destruct (granted n (jsuper r)) eqn:Hg; cbn [res_bind start_idx].
  2: { exists r. split_and!; try done. by destruct r. }
  destruct (Hok eq_refl) as [Hw1 Hw2].
  destruct (acquired_roomy n (jsuper r)) as (Hr1 & Htl & Hu); [done.. |].
  pose proof (acquired_unaccounted n (jsuper r) bound Hw1 ltac:(lia) Hb Hlt) as Hub.
  eexists. split; [done |]. split; [done |].
  unfold run_inv. cbn [jsuper ckpt inflight pending]. rewrite Htl.
  split_and!; try done; try lia.
  - destruct (ckpt r); [done | | done]. destruct Hs. split; [lia | done].
  - apply Forall_app. split; [done |]. apply Forall_singleton. split_and!; [lia | done | lia..].
  - destruct (inflight r); [| done]. destruct Hi. split; [done | lia].
Qed.

Lemma release_step bound r :
  run_inv bound r -> bound + op_growth (capacity (djsuper_ (jsuper r))) < 2 ^ 64 ->
  exists r', do_op OpRelease r = Ok r' /\
    capacity (djsuper_ (jsuper r')) = capacity (djsuper_ (jsuper r)) /\
    run_inv (bound + op_growth (capacity (djsuper_ (jsuper r)))) r'.
Proof.
  intros (Hwf & Hh & Ht & Hs & Hp & Hb & Hi) Hlt. cbn [do_op]. rewrite op_growth_val in *.
  pose proof Hwf as ((Hcap & _) & Hu & _). rewrite max_blocks_val in Hcap.
  destruct (ckpt r) as [| s |] eqn:Es;
    [exists r; split_and!; try done; unfold run_inv; rewrite Es; split_and!; (done || lia) |
    | exists r; split_and!; try done; unfold run_inv; rewrite Es; split_and!; (done || lia)].
  destruct Hs as [Hs Hr].
  unfold ReleaseFirstNSlots. destruct (dequeue_ok s (jsuper r)) as [-> Hw]; [done.. |].
  cbn [res_bind]. eexists. split_and!; [done | done |].
  unfold run_inv. cbn [jsuper ckpt inflight pending add_unaccounted djsuper_
    nblocks_unaccounted_ write_in_progress_].
  rewrite !to_u64_small by lia. split_and!; try done; try lia.
  destruct (inflight r); [| done]. destruct Hi. split; [done | lia].
Qed.

Lemma stamp_step bound ts r :
  run_inv bound r -> bound + op_growth (capacity (djsuper_ (jsuper r))) < 2 ^ 64 ->
  run_inv (bound + op_growth (capacity (djsuper_ (jsuper r))))
    (mk_run (SetLastCheckpoint ts (jsuper r)) NoCheckpoint (inflight r) (pending r)).
Proof.
  intros (Hwf & Hh & Ht & Hs & Hp & Hb & Hi) Hlt. rewrite op_growth_val in *.
  pose proof Hwf as ((Hcap & _) & Hu & _). rewrite max_blocks_val in Hcap.
  unfold run_inv. cbn [jsuper ckpt inflight pending SetLastCheckpoint add_unaccounted
      djsuper_ nblocks_unaccounted_ write_in_progress_].
  change kSoftMaxUnaccountedBlocks with 40960. rewrite !to_u64_small by lia.
  split_and!; try done; try lia.
  destruct (inflight r); [| done]. destruct Hi. split; [done | lia].
Qed.

Lemma do_op_step bound o r :
  run_inv bound r -> bound + op_growth (capacity (djsuper_ (jsuper r))) < 2 ^ 64 ->
  exists r', do_op o r = Ok r' /\
    capacity (djsuper_ (jsuper r')) = capacity (djsuper_ (jsuper r)) /\
    run_inv (bound + op_growth (capacity (djsuper_ (jsuper r)))) r'.
Proof.
  intros Hinv Hlt.
  assert (Hmono : forall r', run_inv bound r' ->
            run_inv (bound + op_growth (capacity (djsuper_ (jsuper r)))) r').
  { pose proof Hinv as ((_ & Hu & _) & _). rewrite op_growth_val.
    intros r' (? & ? & ? & ? & ? & ? & ?). split_and!; try done; lia. }
  pose proof Hinv as (Hwf & Hh & Ht & Hs & Hp & Hb & Hi).
  destruct o as [n | k | | | ts | | |];
    [by apply acquire_step | | | by apply release_step | | | |]; cbn [do_op].
  - destruct (pending r !! k) as [[start n] |] eqn:Ek; [| eauto 6].
    pose proof (Forall_lookup_1 _ _ _ _ Hp Ek) as (Hst & Hr & Hn).
    rewrite no_loop_arounds by (done || apply Hwf). cbn [check res_bind].
    eexists. split_and!; [done | done | apply Hmono].
    split_and!; try done; cbn; try lia. by apply Forall_delete.
  - destruct (ckpt r) eqn:Es; [| eauto 6..].
    eexists. split_and!; [done | done | apply Hmono].
    pose proof Hwf as (_ & Hu & _ & _ & He).
    split_and!; try done; cbn; try lia. split; [unfold Size; lia |].
    unfold Size. by rewrite <- He.
  - destruct (ckpt r) eqn:Es; [eauto 6 | eauto 6 |].
    eexists. split_and!; [done | done | by apply stamp_step].
  - destruct (ckpt r) eqn:Es; [eauto 6 | | eauto 6].
    eexists. split_and!; [done | done | apply Hmono].
    split_and!; try done; cbn; lia.
  - destruct (write_jsuper_op_inv _ _ Hinv) as [Hi' Hd].
    eexists. split_and!; [done | by rewrite Hd | by apply Hmono].
  - destruct (inflight r) as [old |] eqn:Ei; [| eauto 6].
    destruct Hi as [Hw Ho]. unfold OnWriteComplete. rewrite Hw.
    rewrite (proj2 (Z.leb_le _ _) (proj2 Ho)). cbn [check res_bind].
    eexists. split_and!; [done | done | apply Hmono].
    pose proof Hwf as ((Hcap & _) & _). rewrite op_growth_val, max_blocks_val in *.
    split_and!; try done; cbn; rewrite ?to_u64_small by lia; lia.
Qed.

Lemma run_never_crashes ops bound r :
  run_inv bound r ->
  bound + Z.of_nat (length ops) * op_growth (capacity (djsuper_ (jsuper r))) < 2 ^ 64 ->
  exists r' bound', run ops r = Ok r' /\ run_inv bound' r'.
Proof.
  revert bound r. induction ops as [| o ops IH]; intros bound r Hinv Hlt; cbn [run].
  { eauto. }
  assert (0 <= op_growth (capacity (djsuper_ (jsuper r)))).
  { destruct Hinv as ((_ & Hu & _) & _). rewrite op_growth_val. lia. }
  cbn [length] in Hlt. destruct (do_op_step bound o r) as (r' & -> & Hc & Hinv'); [done | nia |].
  cbn [res_bind]. eapply IH; [done |]. rewrite Hc. nia.
Qed.

Lemma empty_wf start cap :
  0 <= start < 2 ^ 62 -> max_blocks < cap < 2 ^ 62 -> wf (empty_journal start cap).
Proof.
  intros Hs Hc. unfold wf, geometry, empty_journal.
  cbn [n_used head tail capacity jstart_blockno jend_blockno].
  rewrite Z.mod_0_l by (rewrite max_blocks_val in *; lia).
  rewrite max_blocks_val in *. lia.
Qed.

(** ** Lemmas on the refinement *)




(** ** Properties *)

(** C34. No history of a formatted journal fails an assertion, in the build with
    checkpoints and with one checkpoint at a time releasing slots (a journal per
    worker; [shared_release_twice] shows the failure of two managers releasing the
    same journal), for histories of fewer than [2^64 / op_growth cap] critical
    sections.  The ring never overflows or underflows, a completed super-block
    write finds its flag set and its count covered, and every extent handed to a
    transaction of 2 to [max_blocks] blocks is contiguous on the device when the
    transaction checks it ([NoLoopArounds]), whatever the interleaving of the
    critical sections of transactions, the checkpoint and super-block writes; the
    ring invariant holds at the end. *)
Theorem journal_history_safe start cap ops :
  0 <= start < 2 ^ 62 -> max_blocks < cap < 2 ^ 62 ->
  Z.of_nat (length ops) * op_growth cap < 2 ^ 64 ->
  exists r, run ops (init_run start cap) = Ok r /\ wf (djsuper_ (jsuper r)).
Proof.
  intros Hs Hc Hlen.
  destruct (run_never_crashes ops 0 (init_run start cap)) as (r & b & Hr & Hi); [| done |].
  - pose proof (empty_wf start cap Hs Hc). rewrite max_blocks_val in *.
    split_and!; try done; unfold roomy; cbn; rewrite ?max_blocks_val; lia.
  - exists r. split; [done | apply Hi].
Qed.

Lemma journal_history_safe_witness :
  exists r, run [OpAcquire 32; OpPrepareCheckpoint; OpAcquire 17; OpRelease;
                 OpCheckSlots 1; OpSetLastCheckpoint 5; OpWriteJSuper; OpWriteDone;
                 OpAcquire 20; OpCheckSlots 0]
              (init_run 7 70) = Ok r /\ wf (djsuper_ (jsuper r)).
Proof. apply (journal_history_safe 7 70); by_compute. Defined.



(** Releasing slots implements the abstract ring: at most the slots in use are
    released from its tail, and releasing more than that is an assertion
    failure. *)
Theorem release_refines_ring js r n :
  refines (djsuper_ js) r -> 0 <= n ->
  match ring_release n r with
  | Some r' => exists js', ReleaseFirstNSlots n js = Ok js' /\
                 refines (djsuper_ js') r'
  | None => ReleaseFirstNSlots n js = Crash AssertFail
  end.
Proof.
  intros (Hwf & Ht & Htl & Hu) Hn. unfold ring_release. rewrite <- Hu.
  unfold ReleaseFirstNSlots. case_if.
  - destruct (dequeue_ok n js) as [-> Hw]; [done | lia |]. cbn [res_bind].
    eexists. split; [done |]. split_and!; cbn; try done; try lia.
    by rewrite Htl, Zplus_mod_idemp_l.
  - unfold UnsafeNItemsDequeued. by rewrite (proj2 (Z.leb_gt _ _)).
Qed.

Lemma release_refines_ring_witness :
  match ring_release 3 (mk_ring 0 5) with
  | Some r' => exists js',
      ReleaseFirstNSlots 3 (mk_jsuper (enqueued 5 (empty_journal 7 70)) 0 false) = Ok js' /\
      refines (djsuper_ js') r'
  | None => ReleaseFirstNSlots 3 (mk_jsuper (enqueued 5 (empty_journal 7 70)) 0 false)
              = Crash AssertFail
  end.
Proof.
  apply (release_refines_ring
           (mk_jsuper (enqueued 5 (empty_journal 7 70)) 0 false) (mk_ring 0 5) 3);
    by_compute.
Defined.

(** ** Divergences from the comments *)

(** The region skipped at the end of the journal can be as long as a whole
    entry, which would have fitted. *)
Theorem skips_a_whole_entry :
  pad_of (enqueued 20 (enqueued 18 (empty_journal 7 70))) = max_blocks.
Proof. done. Qed.

(** Just below the hard limit a request is still served, after which more
    blocks are unaccounted for than the limit allows. *)
Theorem unaccounted_beyond_limit :
  let js := mk_jsuper (empty_journal 7 1000) (kMaxUnaccountedBlocks - 1) false in
  granted 32 js = true /\
  kMaxUnaccountedBlocks < nblocks_unaccounted_ (acquired 32 js).
Proof. by_compute. Qed.

(** Two journal managers that share one super block and both prepared the same
    checkpoint release its slots twice: the second release fails. *)
Theorem shared_release_twice :
  exists js n, Size js = n /\ n = 5 /\
    (let! js := ReleaseFirstNSlots n js in ReleaseFirstNSlots n js) = Crash AssertFail.
Proof.
  exists (mk_jsuper (enqueued 5 (empty_journal 7 70)) 0 false), 5. by_compute.
Qed.

End JSuper.
