(* ===== verification/Codec.v ===== *)
(** * Byte images

    How the journal code lays values out in memory: little-endian integers of a
    given width, and structures with padding bytes.  An image is a list of
    [cell]s, [Some b] for a byte that is written and [None] for a padding byte
    whose value is unspecified; [matches] says that memory holds an image.  A
    reader consumes the memory from a pointer on and crashes when it leaves it.
    A [codec] is the pair of both with the values it applies to; [CodecLaws] is
    the interface the serialised structures are proved against. *)

From Stdlib Require Import ZArith Lia Bool.
From stdpp Require Import base list option.
From S2P Require Import Prelude.

Module Codec.

Definition cell : Type := option Z.

Definition cell_holds (c : cell) (b : Z) : Prop := c = None \/ c = Some b.

(** The bytes [bs] hold the image. *)
Definition matches (img : list cell) (bs : list Z) : Prop :=
  Forall2 cell_holds img bs.

(** Writing an image over a buffer at [off]; padding keeps the old byte. *)
Fixpoint overlay (img : list cell) (old : list Z) : list Z :=
  match img, old with
  | c :: img', b :: old' => default b c :: overlay img' old'
  | _, _ => old
  end.

Definition blit (buf : list Z) (off : nat) (img : list cell) : res (list Z) :=
  if (off + length img <=? length buf)%nat
  then Ok (take off buf ++ overlay img (drop off buf))
  else Crash OutOfRange.

(** ** Little-endian integers *)

Fixpoint le_split (n : nat) (v : Z) : list Z :=
  match n with
  | O => []
  | S n' => v mod 256 :: le_split n' (v / 256)
  end.

Fixpoint le_combine (bs : list Z) : Z :=
  match bs with
  | [] => 0
  | b :: bs' => b + 256 * le_combine bs'
  end.

Definition reader (A : Type) : Type := list Z -> res (A * list Z).

Definition read_bytes (n : nat) : reader (list Z) := fun m =>
  if (length m <? n)%nat then Crash OutOfRange else Ok (take n m, drop n m).

Definition read_uint (n : nat) : reader Z := fun m =>
  let! (bs, m) := read_bytes n m in Ok (le_combine bs, m).

(** ** Codecs *)

Record codec (A : Type) : Type := mk_codec {
  csize : nat;
  enc : A -> list cell;
  dec : reader A;
  valid : A -> Prop
}.
Arguments mk_codec {A}.
Arguments csize {A}.
Arguments enc {A}.
Arguments dec {A}.
Arguments valid {A}.

Class CodecLaws {A : Type} (c : codec A) : Prop := {
  length_enc : forall a, length (enc c a) = csize c;
  dec_enc : forall a bs rest,
    valid c a -> matches (enc c a) bs -> dec c (bs ++ rest) = Ok (a, rest)
}.

(** Unsigned integer of [n] bytes. *)
Definition uint (n : nat) : codec Z :=
  mk_codec n (fun v => Some <$> le_split n v) (read_uint n)
    (fun v => 0 <= v < 256 ^ Z.of_nat n).

Definition u8 : codec Z := uint 1.
Definition u16 : codec Z := uint 2.
Definition u32 : codec Z := uint 4.
Definition u64 : codec Z := uint 8.

(** Signed 64-bit integer, two's complement. *)
Definition signed64 (v : Z) : Z := if v <? 2 ^ 63 then v else v - 2 ^ 64.

Definition i64 : codec Z :=
  mk_codec 8 (fun v => enc u64 (v mod 2 ^ 64))
    (fun m => let! (v, m) := dec u64 m in Ok (signed64 v, m))
    (fun v => - 2 ^ 63 <= v < 2 ^ 63).

(** [bool]: a byte that is 0 or 1; any other representation is invalid. *)
Definition cbool : codec bool :=
  mk_codec 1 (fun b : bool => [Some (if b then 1 else 0)])
    (fun m => let! (v, m) := dec u8 m in
              if v =? 0 then Ok (false, m)
              else if v =? 1 then Ok (true, m) else Crash AssertFail)
    (fun _ => True).

(** [n] padding bytes. *)
Definition padding (n : nat) : codec unit :=
  mk_codec n (fun _ => replicate n None)
    (fun m => let! (_, m) := read_bytes n m in Ok (tt, m)) (fun _ => True).

(** Two fields in sequence. *)
Definition cpair {A B : Type} (a : codec A) (b : codec B) : codec (A * B) :=
  mk_codec (csize a + csize b)
    (fun v => enc a (fst v) ++ enc b (snd v))
    (fun m => let! (x, m) := dec a m in let! (y, m) := dec b m in Ok ((x, y), m))
    (fun v => valid a (fst v) /\ valid b (snd v)).

(** Reading [n] items one after the other. *)
Fixpoint dec_list {A : Type} (c : codec A) (n : nat) : reader (list A) := fun m =>
  match n with
  | O => Ok ([], m)
  | S n' => let! (x, m) := dec c m in
            let! (xs, m) := dec_list c n' m in Ok (x :: xs, m)
  end.

Definition enc_list {A : Type} (c : codec A) (xs : list A) : list cell :=
  concat (enc c <$> xs).

(** ** Lemmas *)

Lemma matches_app a b bs :
  matches (a ++ b) bs -> exists x y, bs = x ++ y /\ matches a x /\ matches b y.
Proof. intros H. apply Forall2_app_inv_l in H. naive_solver. Qed.

Lemma matches_length img bs : matches img bs -> length bs = length img.
Proof. intros H. symmetry. by eapply Forall2_length. Qed.

Lemma matches_some vs bs : matches (Some <$> vs) bs -> bs = vs.
Proof.
  unfold matches. revert bs. induction vs as [| v vs IH]; intros bs H; inversion H; subst; [done |].
  f_equal; [| by apply IH]. match goal with Hc : cell_holds _ _ |- _ => destruct Hc end; congruence.
Qed.

Lemma length_overlay img old : length (overlay img old) = length old.
Proof. revert old. induction img; intros [| b old]; simpl; congruence. Qed.

Lemma overlay_spec img old :
  (length img <= length old)%nat ->
  exists bs, overlay img old = bs ++ drop (length img) old /\ matches img bs.
Proof.
  revert old. induction img as [| c img IH]; intros old H; simpl.
  { exists []. split; [by destruct old | constructor]. }
  destruct old as [| b old]; simpl in H; [lia |].
  destruct (IH old) as (bs & -> & Hm); [lia |].
  exists (default b c :: bs). split; [done |]. constructor; [| done].
  unfold cell_holds. destruct c; auto.
Qed.

Lemma overlay_matches img old :
  length img = length old -> matches img (overlay img old).
Proof.
  intros H. destruct (overlay_spec img old) as (bs & -> & Hm); [lia |].
  by rewrite H, drop_all, app_nil_r.
Qed.

(** A write that fits leaves memory holding the image, and nothing else
    changed. *)
Lemma blit_ok buf off img :
  (off + length img <= length buf)%nat ->
  exists bs, blit buf off img = Ok (take off buf ++ bs ++ drop (off + length img) buf) /\
             matches img bs.
Proof.
  intros H. unfold blit. rewrite (proj2 (Nat.leb_le _ _) H).
  destruct (overlay_spec img (drop off buf)) as (bs & -> & Hm);
    [rewrite length_drop; lia |].
  exists bs. by rewrite drop_drop.
Qed.

Lemma length_le_split n v : length (le_split n v) = n.
Proof. revert v. induction n; intros; simpl; congruence. Qed.

Lemma le_combine_split n v :
  0 <= v < 256 ^ Z.of_nat n -> le_combine (le_split n v) = v.
Proof.
  revert v. induction n as [| n IH]; intros v Hv; cbn [le_split le_combine].
  - simpl in Hv. lia.
  - rewrite IH; [pose proof (Z.div_mod v 256); lia |].
    rewrite Nat2Z.inj_succ, Z.pow_succ_r in Hv by lia.
    split; [apply Z.div_pos; lia | apply Z.div_lt_upper_bound; lia].
Qed.

Lemma read_bytes_app n bs rest :
  length bs = n -> read_bytes n (bs ++ rest) = Ok (bs, rest).
Proof.
  intros <-. unfold read_bytes. rewrite length_app.
  destruct (Nat.ltb_spec (length bs + length rest) (length bs)); [lia |].
  by rewrite take_app_length, drop_app_length.
Qed.

#[global] Instance uint_laws n : CodecLaws (uint n).
Proof.
  split.
  - intros v. simpl. by rewrite length_fmap, length_le_split.
  - intros v bs rest Hv Hm. simpl in *. apply matches_some in Hm as ->.
    unfold read_uint. rewrite read_bytes_app by apply length_le_split.
    cbn [res_bind]. by rewrite le_combine_split.
Qed.

#[global] Instance u8_laws : CodecLaws u8 := uint_laws 1.
#[global] Instance u16_laws : CodecLaws u16 := uint_laws 2.
#[global] Instance u32_laws : CodecLaws u32 := uint_laws 4.
#[global] Instance u64_laws : CodecLaws u64 := uint_laws 8.

Lemma signed64_mod v : - 2 ^ 63 <= v < 2 ^ 63 -> signed64 (v mod 2 ^ 64) = v.
Proof.
  intros Hv. unfold signed64. destruct (decide (0 <= v)).
  - rewrite Z.mod_small by lia. case_if; lia.
  - replace (v mod 2 ^ 64) with (v + 2 ^ 64).
    + case_if; lia.
    + rewrite <- (Z_mod_plus_full v 1 (2 ^ 64)). symmetry. apply Z.mod_small. lia.
Qed.

#[global] Instance i64_laws : CodecLaws i64.
Proof.
  split.
  - intros v. apply (length_enc (c := u64)).
  - intros v bs rest Hv Hm. cbn [dec i64].
    rewrite (dec_enc (c := u64) (v mod 2 ^ 64)); [| | exact Hm].
    + cbn [res_bind]. by rewrite signed64_mod.
    + apply (Z.mod_pos_bound v (2 ^ 64)). lia.
Qed.

#[global] Instance cbool_laws : CodecLaws cbool.
Proof.
  split; [by intros [] |]. intros b bs rest _ Hm.
  apply (matches_some [if b then 1 else 0]) in Hm as ->. by destruct b.
Qed.

#[global] Instance padding_laws n : CodecLaws (padding n).
Proof.
  split; [intros; apply length_replicate |]. intros [] bs rest _ Hm.
  cbn [dec padding]. rewrite read_bytes_app; [done |].
  apply matches_length in Hm. rewrite Hm. apply length_replicate.
Qed.

#[global] Instance cpair_laws {A B} (a : codec A) (b : codec B) :
  CodecLaws a -> CodecLaws b -> CodecLaws (cpair a b).
Proof.
  intros Ha Hb. split.
  - intros [x y]. simpl. by rewrite length_app, !length_enc.
  - intros [x y] bs rest [Hx Hy] Hm.
    apply matches_app in Hm as (bx & by_ & -> & Hmx & Hmy). simpl in *.
    rewrite <- app_assoc, (dec_enc x) by done. cbn [res_bind].
    by rewrite (dec_enc y).
Qed.

Lemma length_enc_list {A} (c : codec A) `{!CodecLaws c} xs :
  length (enc_list c xs) = (length xs * csize c)%nat.
Proof.
  unfold enc_list. induction xs as [| x xs IH]; [done |].
  rewrite fmap_cons. cbn [concat length].
  rewrite length_app, length_enc, IH. lia.
Qed.

Lemma dec_enc_list {A} (c : codec A) `{!CodecLaws c} xs bs rest :
  Forall (valid c) xs -> matches (enc_list c xs) bs ->
  dec_list c (length xs) (bs ++ rest) = Ok (xs, rest).
Proof.
  intros Hv. revert bs. induction Hv as [| x xs Hx Hxs IH]; intros bs Hm.
  - inversion Hm; subst. done.
  - unfold enc_list in Hm. rewrite fmap_cons in Hm.
    apply matches_app in Hm as (b1 & b2 & -> & H1 & H2).
    cbn [length dec_list]. rewrite <- app_assoc, (dec_enc x) by done.
    cbn [res_bind]. by rewrite IH.
Qed.

(** Consumes the next field of a serialised structure. *)
Ltac take_field :=
  match goal with
  | H : matches (_ ++ _) _ |- _ =>
      let b := fresh "b" in let r := fresh "r" in let Hb := fresh "Hb" in
      apply matches_app in H as (b & r & -> & Hb & H); rewrite <- ?app_assoc
  end.

Ltac read_field :=
  match goal with
  | |- context [dec ?c (?b ++ ?r)] =>
      match goal with
      | H : matches (enc c ?a) b |- _ =>
          rewrite (dec_enc (c := c) a b r) by assumption; cbn [res_bind]
      end
  end.

End Codec.
