(* ===== verification/InodeLog.v ===== *)
(** * Inode log entries

    [InodeLogEntry] of [cfs/include/FsProc__JournalEnabled.h] and
    [cfs/src/FsProc_JournalBasic.cc]: the pending metadata changes of one inode,
    their serialised form in a journal entry, the constructor that reads them
    back at recovery, and [applyChangesTo], which applies them to an inode.
    Fields carry the prefix [l_].  A [std::unordered_map] is a [gmap]; the order
    in which a loop visits it is unspecified, so the loops take their order from
    the class [UIter], of which only "each entry once" is known. *)

From Stdlib Require Import ZArith Lia Bool.
From stdpp Require Import base list option gmap sets.
From S2P Require Import Prelude Unordered Layout Codec.

Module InodeLog.
Import Codec.

(** Assigning [m[k] = v] for each pair in turn. *)
Definition insert_all {V : Type} (l : list (Z * V)) (m : gmap Z V) : gmap Z V :=
  foldl (fun m kv => <[fst kv := snd kv]> m) m l.

(** ** Data *)

Record ExtMapVal : Type := mk_ext_val {
  seq_no : Z;
  v_i_block_offset : Z;
  v_num_blocks : Z;
  bmap_modified : bool
}.

Record InodeLogEntry : Type := mk_log {
  l_inode : Z;
  l_syncID : Z;
  l_optfield_bitarr : Z;
  l_mode : Z;
  l_uid : Z;
  l_gid : Z;
  l_block_count : Z;
  l_bitmap_op : Z;
  l_dentry_count : Z;
  l_nlink : Z;
  l_size : Z;
  l_atime : Layout.timeval;
  l_mtime : Layout.timeval;
  l_ctime : Layout.timeval;
  l_extent_seq_no : Z;
  l_ext_add : gmap Z ExtMapVal;
  l_ext_del : gmap Z ExtMapVal;
  l_depends_on : gmap Z Z
}.

Definition mode_IDX : Z := 0x1.
Definition uid_IDX : Z := 0x2.
Definition gid_IDX : Z := 0x4.
Definition atime_IDX : Z := 0x8.
Definition mtime_IDX : Z := 0x10.
Definition ctime_IDX : Z := 0x20.
Definition size_IDX : Z := 0x40.
Definition block_count_IDX : Z := 0x80.
Definition bitmap_op_IDX : Z := 0x100.
Definition dentry_count_IDX : Z := 0x200.
Definition nlink_IDX : Z := 0x400.

(** ** Building a log entry *)

(** The constructor; the optional fields keep whatever the memory held. *)
Definition new_InodeLogEntry (inode syncID : Z) (junk : InodeLogEntry)
    : InodeLogEntry :=
  mk_log inode syncID 0 (l_mode junk) (l_uid junk) (l_gid junk)
    (l_block_count junk) (l_bitmap_op junk) (l_dentry_count junk) (l_nlink junk)
    (l_size junk) (l_atime junk) (l_mtime junk) (l_ctime junk) 0 ∅ ∅ ∅.

(** A new value for each of the scalar fields, as the setters assign them. *)
Inductive field_set : Type :=
| SetMode (v : Z)
| SetUid (v : Z)
| SetGid (v : Z)
| SetBlockCount (v : Z)
| SetBitmapOp (v : Z)
| SetAtime (v : Layout.timeval)
| SetMtime (v : Layout.timeval)
| SetCtime (v : Layout.timeval)
| SetSize (v : Z)
| SetDentryCount (v : Z)
| SetNlink (v : Z).

Definition field_IDX (f : field_set) : Z :=
  match f with
  | SetMode _ => mode_IDX
  | SetUid _ => uid_IDX
  | SetGid _ => gid_IDX
  | SetBlockCount _ => block_count_IDX
  | SetBitmapOp _ => bitmap_op_IDX
  | SetAtime _ => atime_IDX
  | SetMtime _ => mtime_IDX
  | SetCtime _ => ctime_IDX
  | SetSize _ => size_IDX
  | SetDentryCount _ => dentry_count_IDX
  | SetNlink _ => nlink_IDX
  end.

Definition with_flags (flags : Z) (e : InodeLogEntry) : InodeLogEntry :=
  mk_log (l_inode e) (l_syncID e) flags (l_mode e) (l_uid e) (l_gid e)
    (l_block_count e) (l_bitmap_op e) (l_dentry_count e) (l_nlink e) (l_size e)
    (l_atime e) (l_mtime e) (l_ctime e) (l_extent_seq_no e) (l_ext_add e)
    (l_ext_del e) (l_depends_on e).

Definition with_maps (seq : Z) (add del : gmap Z ExtMapVal) (dep : gmap Z Z)
    (e : InodeLogEntry) : InodeLogEntry :=
  mk_log (l_inode e) (l_syncID e) (l_optfield_bitarr e) (l_mode e) (l_uid e)
    (l_gid e) (l_block_count e) (l_bitmap_op e) (l_dentry_count e) (l_nlink e)
    (l_size e) (l_atime e) (l_mtime e) (l_ctime e) seq add del dep.

Definition assign_field (f : field_set) (e : InodeLogEntry) : InodeLogEntry :=
  let '(mk_log ino sid fl mo ui gi bc bo dc nl sz at_ mt ct sq ad de dp) := e in
  match f with
  | SetMode v => mk_log ino sid fl v ui gi bc bo dc nl sz at_ mt ct sq ad de dp
  | SetUid v => mk_log ino sid fl mo v gi bc bo dc nl sz at_ mt ct sq ad de dp
  | SetGid v => mk_log ino sid fl mo ui v bc bo dc nl sz at_ mt ct sq ad de dp
  | SetBlockCount v => mk_log ino sid fl mo ui gi v bo dc nl sz at_ mt ct sq ad de dp
  | SetBitmapOp v => mk_log ino sid fl mo ui gi bc v dc nl sz at_ mt ct sq ad de dp
  | SetAtime v => mk_log ino sid fl mo ui gi bc bo dc nl sz v mt ct sq ad de dp
  | SetMtime v => mk_log ino sid fl mo ui gi bc bo dc nl sz at_ v ct sq ad de dp
  | SetCtime v => mk_log ino sid fl mo ui gi bc bo dc nl sz at_ mt v sq ad de dp
  | SetSize v => mk_log ino sid fl mo ui gi bc bo dc nl v at_ mt ct sq ad de dp
  | SetDentryCount v => mk_log ino sid fl mo ui gi bc bo v nl sz at_ mt ct sq ad de dp
  | SetNlink v => mk_log ino sid fl mo ui gi bc bo dc v sz at_ mt ct sq ad de dp
  end.

(** [set_mode], [set_uid], ... of the macro [DEFINE_SIMPLE_SETTER]. *)
Definition set_field (f : field_set) (e : InodeLogEntry) : InodeLogEntry :=
  with_flags (Z.lor (l_optfield_bitarr e) (field_IDX f)) (assign_field f e).

Definition empty (e : InodeLogEntry) : bool :=
  (l_optfield_bitarr e =? 0) &&
  (bool_decide (l_ext_add e = ∅) && bool_decide (l_ext_del e = ∅) &&
   bool_decide (l_depends_on e = ∅)).

(** [try_emplace] and, when the key exists, the overwrite that keeps
    [bmap_modified]. *)
Definition put_extent (block_no : Z) (v : ExtMapVal) (m : gmap Z ExtMapVal)
    : gmap Z ExtMapVal :=
  match m !! block_no with
  | None => <[block_no := v]> m
  | Some old =>
      <[block_no := mk_ext_val (seq_no v) (v_i_block_offset v) (v_num_blocks v)
                      (bmap_modified old || bmap_modified v)]> m
  end.

Definition update_extent (extent : Layout.cfs_extent) (add_or_del bmap_mod : bool)
    (e : InodeLogEntry) : InodeLogEntry :=
  let ts := l_extent_seq_no e in
  let block_no := Layout.conv_lba_to_pba (Layout.block_no extent) in
  let v := mk_ext_val ts (Layout.i_block_offset extent)
             (Layout.num_blocks extent) bmap_mod in
  let seq := to_u32 (ts + 1) in
  if add_or_del
  then with_maps seq (put_extent block_no v (l_ext_add e)) (l_ext_del e)
         (l_depends_on e) e
  else with_maps seq (l_ext_add e) (put_extent block_no v (l_ext_del e))
         (l_depends_on e) e.

Definition add_dependency (inode syncID : Z) (e : InodeLogEntry) : InodeLogEntry :=
  with_maps (l_extent_seq_no e) (l_ext_add e) (l_ext_del e)
    (<[inode := syncID]> (l_depends_on e)) e.

(** ** Serialised form *)

Definition sizeof_timeval : Z := 16.
Definition sizeof_ExtMapVal : Z := 16.

Definition calcSize (e : InodeLogEntry) : Z :=
  let dsize := 8 * 3 + 4 * 6 + sizeof_timeval * 3 + 2 + 1 + 8 * 4 in
  let entry_size := 8 + sizeof_ExtMapVal in
  dsize + Z.of_nat (size (l_ext_add e)) * entry_size
        + Z.of_nat (size (l_ext_del e)) * entry_size
        + Z.of_nat (size (l_depends_on e)) * 16.

Definition timeval_codec : codec (Z * Z) := cpair i64 i64.

Definition pair_of_timeval (t : Layout.timeval) : Z * Z :=
  (Layout.tv_sec t, Layout.tv_usec t).
Definition timeval_of_pair (p : Z * Z) : Layout.timeval :=
  Layout.mk_timeval (fst p) (snd p).

(** A map entry: the key and the structure with its three padding bytes. *)
Definition ext_codec : codec (Z * (Z * (Z * (Z * (bool * unit))))) :=
  cpair u64 (cpair u32 (cpair u32 (cpair u32 (cpair cbool (padding 3))))).

Definition tuple_of_ext (kv : Z * ExtMapVal) : Z * (Z * (Z * (Z * (bool * unit)))) :=
  let v := snd kv in
  (fst kv, (seq_no v, (v_i_block_offset v, (v_num_blocks v, (bmap_modified v, tt))))).
Definition ext_of_tuple (t : Z * (Z * (Z * (Z * (bool * unit))))) : Z * ExtMapVal :=
  let '(k, (s, (o, (n, (b, _))))) := t in (k, mk_ext_val s o n b).

Definition dep_codec : codec (Z * Z) := cpair u64 u64.

Section Serialize.
Context {it : UIter}.

(** Everything after the leading entry size, in the order of the writes. *)
Definition body_image (e : InodeLogEntry) : list cell :=
  enc u64 (l_inode e) ++ enc u64 (l_syncID e) ++
  enc u32 (l_optfield_bitarr e) ++ enc u32 (l_mode e) ++ enc u32 (l_uid e) ++
  enc u32 (l_gid e) ++ enc u32 (l_block_count e) ++ enc u32 (l_bitmap_op e) ++
  enc timeval_codec (pair_of_timeval (l_atime e)) ++
  enc timeval_codec (pair_of_timeval (l_mtime e)) ++
  enc timeval_codec (pair_of_timeval (l_ctime e)) ++
  enc u16 (l_dentry_count e) ++ enc u8 (l_nlink e) ++ enc u64 (l_size e) ++
  enc u64 (Z.of_nat (size (l_ext_add e))) ++
  enc_list ext_codec (tuple_of_ext <$> uiter (l_ext_add e)) ++
  enc u64 (Z.of_nat (size (l_ext_del e))) ++
  enc_list ext_codec (tuple_of_ext <$> uiter (l_ext_del e)) ++
  enc u64 (Z.of_nat (size (l_depends_on e))) ++
  enc_list dep_codec (uiter (l_depends_on e)).

(** The bytes written and their number, which is also stored first. *)
Definition serialize_image (e : InodeLogEntry) : list cell * Z :=
  let body := body_image e in
  let entry_size := 8 + Z.of_nat (length body) in
  (enc u64 entry_size ++ body, entry_size).

Definition serialize (e : InodeLogEntry) (buf : list Z) (off : nat)
    : res (list Z * Z) :=
  let (img, entry_size) := serialize_image e in
  let! buf := blit buf off img in
  Ok (buf, entry_size).

End Serialize.

(** The constructor that deserialises the memory [m] at the buffer pointer;
    [extent_seq_no] keeps the value [junk] of the uninitialised field. *)
Definition InodeLogEntry_of_buf (junk : Z) (m : list Z) (buf_size : Z)
    : res InodeLogEntry :=
  let! _ := check (negb (buf_size <? 8)) in
  let! (entry_size, m) := dec u64 m in
  let! _ := check (negb (entry_size >? buf_size)) in
  let! (inode, m) := dec u64 m in
  let! (syncID, m) := dec u64 m in
  let! (optfield, m) := dec u32 m in
  let! (mode, m) := dec u32 m in
  let! (uid, m) := dec u32 m in
  let! (gid, m) := dec u32 m in
  let! (block_count, m) := dec u32 m in
  let! (bitmap_op, m) := dec u32 m in
  let! (atime, m) := dec timeval_codec m in
  let! (mtime, m) := dec timeval_codec m in
  let! (ctime, m) := dec timeval_codec m in
  let! (dentry_count, m) := dec u16 m in
  let! (nlink, m) := dec u8 m in
  let! (size, m) := dec u64 m in
  let! (n_ext_add, m) := dec u64 m in
  let! (adds, m) := dec_list ext_codec (Z.to_nat n_ext_add) m in
  let! (n_ext_del, m) := dec u64 m in
  let! (dels, m) := dec_list ext_codec (Z.to_nat n_ext_del) m in
  let! (ndepends_on, m) := dec u64 m in
  let! (deps, _) := dec_list dep_codec (Z.to_nat ndepends_on) m in
  Ok (mk_log inode syncID optfield mode uid gid block_count bitmap_op
        dentry_count nlink size (timeval_of_pair atime) (timeval_of_pair mtime)
        (timeval_of_pair ctime) junk (insert_all (ext_of_tuple <$> adds) ∅)
        (insert_all (ext_of_tuple <$> dels) ∅) (insert_all deps ∅)).

(** ** Applying a log entry to an inode *)

Definition has_flag (flags idx : Z) : bool := negb (Z.land flags idx =? 0).

(** The assignments of the scalar fields. *)
Definition apply_fields (e : InodeLogEntry) (dst : Layout.cfs_dinode)
    : Layout.cfs_dinode :=
  let flags := l_optfield_bitarr e in
  let pick {A : Type} (idx : Z) (new old : A) : A :=
    if has_flag flags idx then new else old in
  Layout.mk_dinode
    (pick nlink_IDX (l_nlink e) (Layout.nlink dst))
    (pick dentry_count_IDX (l_dentry_count e) (Layout.i_dentry_count dst))
    (pick mode_IDX (l_mode e) (Layout.type dst))
    (Layout.i_no dst)
    (pick uid_IDX (l_uid e) (Layout.i_uid dst))
    (pick gid_IDX (l_gid e) (Layout.i_gid dst))
    (pick block_count_IDX (l_block_count e) (Layout.i_block_count dst))
    (pick size_IDX (l_size e) (Layout.size dst))
    (l_syncID e)
    (pick atime_IDX (l_atime e) (Layout.atime dst))
    (pick ctime_IDX (l_ctime e) (Layout.ctime dst))
    (pick mtime_IDX (l_mtime e) (Layout.mtime dst))
    (Layout.ext_array dst).

Definition with_ext_array (a : list Layout.cfs_extent) (d : Layout.cfs_dinode)
    : Layout.cfs_dinode :=
  Layout.mk_dinode (Layout.nlink d) (Layout.i_dentry_count d) (Layout.type d)
    (Layout.i_no d) (Layout.i_uid d) (Layout.i_gid d) (Layout.i_block_count d)
    (Layout.size d) (Layout.syncID d) (Layout.atime d) (Layout.ctime d)
    (Layout.mtime d) a.

Section Apply.
Context {it : UIter} {cfg : Layout.ExtentConfig}.

Definition extent_idx (off : Z) : Z :=
  let '(idx, _, _) := Layout.getCurrentExtentArrIdx off in idx.

(** State of the two loops: the extents, [blocks_add_or_del], [block_to_ts]. *)
Definition ext_state : Type :=
  (list Layout.cfs_extent * gmap Z bool * gmap Z Z)%type.

Definition apply_add (st : ext_state) (kv : Z * ExtMapVal) : res ext_state :=
  let '(arr, blocks, ts) := st in
  let '(block_no, v) := kv in
  let ts := <[block_no := seq_no v]> ts in
  let! arr := store arr (extent_idx (v_i_block_offset v))
                (Layout.mk_extent (v_i_block_offset v) (v_num_blocks v)
                   (Layout.conv_pba_to_lba block_no)) in
  Ok (arr, if bmap_modified v then <[block_no := true]> blocks else blocks, ts).

Definition apply_del (st : ext_state) (kv : Z * ExtMapVal) : res ext_state :=
  let '(arr, blocks, ts) := st in
  let '(block_no, v) := kv in
  let newer := match ts !! block_no with
               | None => true
               | Some t => seq_no v >? t
               end in
  if newer then
    let! arr := store arr (extent_idx (v_i_block_offset v))
                  (Layout.mk_extent 0 0 (Layout.conv_pba_to_lba block_no)) in
    Ok (arr, if bmap_modified v then <[block_no := false]> blocks else blocks, ts)
  else Ok (arr, blocks, ts).

(** Returns the inode and [blocks_add_or_del]. *)
Definition applyChangesTo (e : InodeLogEntry) (dst : Layout.cfs_dinode)
    (blocks : gmap Z bool) : res (Layout.cfs_dinode * gmap Z bool) :=
  let dst := apply_fields e dst in
  let! st := foldM apply_add (uiter (l_ext_add e)) (Layout.ext_array dst, blocks, ∅) in
  let! (arr, blocks, _) := foldM apply_del (uiter (l_ext_del e)) st in
  Ok (with_ext_array arr dst, blocks).

(** The bitmap blocks of worker [wid] in which the entry frees a block. *)
Definition get_bitmap_for_dealloc_blocks_for_wid (wid : Z) (e : InodeLogEntry)
    (bmap_blocks : gset Z) : gset Z :=
  foldl (fun acc kv =>
    if negb (bmap_modified (snd kv)) then acc
    else
      let bmap_disk_bno := Layout.get_bmap_block_for_pba (fst kv) in
      if Layout.getWidForBitmapBlock bmap_disk_bno =? wid
      then {[bmap_disk_bno]} ∪ acc else acc) bmap_blocks (uiter (l_ext_del e)).

End Apply.

(** ** The effect on the extents as a sequence of writes *)

Definition ext_write : Type := (nat * Layout.cfs_extent)%type.

Definition do_writes (ws : list ext_write) (arr : list Layout.cfs_extent)
    : list Layout.cfs_extent :=
  foldl (fun a w => <[fst w := snd w]> a) arr ws.

Fixpoint last_write (i : nat) (ws : list ext_write) : option Layout.cfs_extent :=
  match ws with
  | [] => None
  | (j, x) :: ws' =>
      match last_write i ws' with
      | Some y => Some y
      | None => if decide (i = j) then Some x else None
      end
  end.

Section Writes.
Context {it : UIter} {cfg : Layout.ExtentConfig}.

Definition slot (v : ExtMapVal) : nat := Z.to_nat (extent_idx (v_i_block_offset v)).

Definition add_write (kv : Z * ExtMapVal) : ext_write :=
  (slot (snd kv),
   Layout.mk_extent (v_i_block_offset (snd kv)) (v_num_blocks (snd kv))
     (Layout.conv_pba_to_lba (fst kv))).

Definition del_write (kv : Z * ExtMapVal) : ext_write :=
  (slot (snd kv), Layout.mk_extent 0 0 (Layout.conv_pba_to_lba (fst kv))).

(** The deletion is later than the addition of the same block. *)
Definition newer (e : InodeLogEntry) (kv : Z * ExtMapVal) : bool :=
  match l_ext_add e !! fst kv with
  | None => true
  | Some a => seq_no (snd kv) >? seq_no a
  end.

Definition live_dels (e : InodeLogEntry) : list (Z * ExtMapVal) :=
  filter (fun kv => newer e kv = true) (uiter (l_ext_del e)).

Definition writes (e : InodeLogEntry) : list ext_write :=
  (add_write <$> uiter (l_ext_add e)) ++ (del_write <$> live_dels e).

Definition changed_blocks (b : bool) (l : list (Z * ExtMapVal)) : list (Z * bool) :=
  (fun kv => (fst kv, b)) <$> filter (fun kv => bmap_modified (snd kv) = true) l.

(** Every extent the entry touches is one of the seven. *)
Definition in_range (e : InodeLogEntry) : Prop :=
  map_Forall (fun _ v => 0 <= extent_idx (v_i_block_offset v) < 7) (l_ext_add e) /\
  map_Forall (fun _ v => 0 <= extent_idx (v_i_block_offset v) < 7) (l_ext_del e).

(** No two blocks added, and no two blocks deleted, for the same extent. *)
Definition slots_distinct (e : InodeLogEntry) : Prop :=
  (forall k1 v1 k2 v2, l_ext_add e !! k1 = Some v1 -> l_ext_add e !! k2 = Some v2 ->
     slot v1 = slot v2 -> k1 = k2) /\
  (forall k1 v1 k2 v2, l_ext_del e !! k1 = Some v1 -> l_ext_del e !! k2 = Some v2 ->
     slot v1 = slot v2 -> k1 = k2).

End Writes.

(** The same assignment made directly to an inode. *)
Definition direct_set (f : field_set) (d : Layout.cfs_dinode) : Layout.cfs_dinode :=
  let '(Layout.mk_dinode nl dc ty ino ui gi bc sz sid at_ ct mt ext) := d in
  match f with
  | SetMode v => Layout.mk_dinode nl dc v ino ui gi bc sz sid at_ ct mt ext
  | SetUid v => Layout.mk_dinode nl dc ty ino v gi bc sz sid at_ ct mt ext
  | SetGid v => Layout.mk_dinode nl dc ty ino ui v bc sz sid at_ ct mt ext
  | SetBlockCount v => Layout.mk_dinode nl dc ty ino ui gi v sz sid at_ ct mt ext
  | SetBitmapOp _ => d
  | SetAtime v => Layout.mk_dinode nl dc ty ino ui gi bc sz sid v ct mt ext
  | SetMtime v => Layout.mk_dinode nl dc ty ino ui gi bc sz sid at_ ct v ext
  | SetCtime v => Layout.mk_dinode nl dc ty ino ui gi bc sz sid at_ v mt ext
  | SetSize v => Layout.mk_dinode nl dc ty ino ui gi bc v sid at_ ct mt ext
  | SetDentryCount v => Layout.mk_dinode nl v ty ino ui gi bc sz sid at_ ct mt ext
  | SetNlink v => Layout.mk_dinode v dc ty ino ui gi bc sz sid at_ ct mt ext
  end.

(** ** Well-formed entries *)

Definition timeval_ok (t : Layout.timeval) : Prop :=
  valid timeval_codec (pair_of_timeval t).

(** Every field within its C type. *)
Definition log_ok (e : InodeLogEntry) : Prop :=
  valid u64 (l_inode e) /\ valid u64 (l_syncID e) /\
  valid u32 (l_optfield_bitarr e) /\ valid u32 (l_mode e) /\ valid u32 (l_uid e) /\
  valid u32 (l_gid e) /\ valid u32 (l_block_count e) /\ valid u32 (l_bitmap_op e) /\
  valid u16 (l_dentry_count e) /\ valid u8 (l_nlink e) /\ valid u64 (l_size e) /\
  timeval_ok (l_atime e) /\ timeval_ok (l_mtime e) /\ timeval_ok (l_ctime e) /\
  map_Forall (fun k v => valid ext_codec (tuple_of_ext (k, v))) (l_ext_add e) /\
  map_Forall (fun k v => valid ext_codec (tuple_of_ext (k, v))) (l_ext_del e) /\
  map_Forall (fun k v => valid dep_codec (k, v)) (l_depends_on e) /\
  calcSize e < 2 ^ 64.

(** ** Lemmas on unordered maps *)

Section Iter.
Context {it : UIter}.

Lemma length_uiter {V} (m : gmap Z V) : length (uiter m) = size m.
Proof. rewrite (uiter_perm m). apply length_map_to_list. Qed.

Lemma elem_of_uiter {V} (m : gmap Z V) kv : kv ∈ uiter m <-> m !! fst kv = Some (snd kv).
Proof. rewrite (uiter_perm m). destruct kv. apply elem_of_map_to_list. Qed.

Lemma NoDup_uiter {V} (m : gmap Z V) : NoDup (uiter m).*1.
Proof. rewrite (uiter_perm m). apply NoDup_fst_map_to_list. Qed.

Lemma Forall_uiter {V} (P : Z * V -> Prop) (m : gmap Z V) :
  map_Forall (fun k v => P (k, v)) m -> Forall P (uiter m).
Proof.
  intros H. apply Forall_forall. intros [k v] Hkv%elem_of_uiter. by apply H.
Qed.

Lemma insert_all_rev {V} (l : list (Z * V)) m :
  insert_all l m = list_to_map (reverse l) ∪ m.
Proof.
  revert m. induction l as [| [k v] l IH]; intros m.
  - symmetry. apply (map_empty_union m).
  - unfold insert_all in *. simpl. rewrite IH, reverse_cons.
    rewrite list_to_map_app. rewrite <- map_union_assoc. f_equal. simpl.
    rewrite <- insert_union_l, map_empty_union. done.
Qed.

Lemma insert_all_perm {V} (l : list (Z * V)) (m : gmap Z V) :
  l ≡ₚ map_to_list m -> insert_all l ∅ = m.
Proof.
  intros Hp. rewrite insert_all_rev, map_union_empty.
  rewrite <- (list_to_map_to_list m). apply list_to_map_proper.
  - rewrite reverse_Permutation, Hp. apply NoDup_fst_map_to_list.
  - by rewrite reverse_Permutation.
Qed.

Lemma insert_all_uiter {V} (m : gmap Z V) : insert_all (uiter m) ∅ = m.
Proof. apply insert_all_perm, uiter_perm. Qed.

(** A loop that records [f] of every value. *)
Lemma insert_all_fmap {V W} (f : V -> W) (m : gmap Z V) :
  insert_all ((fun kv => (fst kv, f (snd kv))) <$> uiter m) ∅ = f <$> m.
Proof.
  apply insert_all_perm. rewrite map_to_list_fmap, (uiter_perm m).
  done.
Qed.

End Iter.

Lemma ext_of_tuple_of kv : ext_of_tuple (tuple_of_ext kv) = kv.
Proof. by destruct kv as [k []]. Qed.

Lemma timeval_of_pair_of t : timeval_of_pair (pair_of_timeval t) = t.
Proof. by destruct t. Qed.

(** ** Lemmas on the serialised form *)

#[global] Instance timeval_laws : CodecLaws timeval_codec.
Proof. apply _. Qed.
#[global] Instance ext_laws : CodecLaws ext_codec.
Proof. apply _. Qed.
#[global] Instance dep_laws : CodecLaws dep_codec.
Proof. apply _. Qed.

Section SerializeLemmas.
Context {it : UIter}.

Lemma length_body_image e : 8 + Z.of_nat (length (body_image e)) = calcSize e.
Proof.
  unfold body_image, calcSize, sizeof_timeval, sizeof_ExtMapVal.
  rewrite !length_app, !length_enc, !length_enc_list, !length_fmap, !length_uiter
    by apply _.
  change (csize timeval_codec) with 16%nat. change (csize ext_codec) with 24%nat.
  change (csize dep_codec) with 16%nat. change (csize u64) with 8%nat.
  change (csize u32) with 4%nat. change (csize u16) with 2%nat.
  change (csize u8) with 1%nat. lia.
Qed.

Lemma length_serialize_image e :
  Z.of_nat (length (fst (serialize_image e))) = calcSize e /\
  snd (serialize_image e) = calcSize e.
Proof.
  rewrite <- length_body_image. unfold serialize_image. cbn [fst snd].
  rewrite length_app, (length_enc (c := u64)). change (csize u64) with 8%nat. lia.
Qed.

Lemma size_valid_u64 {V} (m : gmap Z V) e :
  Z.of_nat (size m) <= calcSize e -> log_ok e -> valid u64 (Z.of_nat (size m)).
Proof.
  intros H Hok. destruct Hok as (_ & _ & _ & _ & _ & _ & _ & _ & _ & _ & _ & _ & _ & _ & _ & _ & _ & Hs).
  simpl. lia.
Qed.

Lemma calcSize_bounds e :
  8 <= calcSize e /\ Z.of_nat (size (l_ext_add e)) <= calcSize e /\
  Z.of_nat (size (l_ext_del e)) <= calcSize e /\
  Z.of_nat (size (l_depends_on e)) <= calcSize e.
Proof. unfold calcSize, sizeof_timeval, sizeof_ExtMapVal. lia. Qed.

(** Reading a map back: its size, then that many entries. *)
Lemma dec_ext_map (m : gmap Z ExtMapVal) bs rest :
  map_Forall (fun k v => valid ext_codec (tuple_of_ext (k, v))) m ->
  matches (enc_list ext_codec (tuple_of_ext <$> uiter m)) bs ->
  dec_list ext_codec (Z.to_nat (Z.of_nat (size m))) (bs ++ rest) =
    Ok (tuple_of_ext <$> uiter m, rest).
Proof.
  intros Hv Hm. rewrite Nat2Z.id, <- length_uiter.
  rewrite <- (length_fmap tuple_of_ext (uiter m)). apply (dec_enc_list ext_codec); [| done].
  apply Forall_fmap. by apply (Forall_uiter (fun kv => valid ext_codec (tuple_of_ext kv))).
Qed.

Lemma dec_dep_map (m : gmap Z Z) bs rest :
  map_Forall (fun k v => valid dep_codec (k, v)) m ->
  matches (enc_list dep_codec (uiter m)) bs ->
  dec_list dep_codec (Z.to_nat (Z.of_nat (size m))) (bs ++ rest) = Ok (uiter m, rest).
Proof.
  intros Hv Hm. rewrite Nat2Z.id, <- length_uiter. apply (dec_enc_list dep_codec); [| done].
  by apply (Forall_uiter (fun kv => valid dep_codec kv)).
Qed.

End SerializeLemmas.

Lemma dec_log_image {it : UIter} junk e bs rest buf_size :
  log_ok e -> calcSize e <= buf_size ->
  matches (fst (serialize_image e)) bs ->
  InodeLogEntry_of_buf junk (bs ++ rest) buf_size =
    Ok (with_maps junk (l_ext_add e) (l_ext_del e) (l_depends_on e) e).
Proof.
  intros Hok Hsz Hm. pose proof (calcSize_bounds e) as (H8 & Ha & Hd & Hp).
  pose proof (size_valid_u64 _ e Ha Hok) as Va.
  pose proof (size_valid_u64 _ e Hd Hok) as Vd.
  pose proof (size_valid_u64 _ e Hp Hok) as Vp.
  destruct Hok as (V1 & V2 & V3 & V4 & V5 & V6 & V7 & V8 & V9 & V10 & V11 & T1 & T2 & T3 & M1 & M2 & M3 & Hs).
  unfold serialize_image in Hm. cbn [fst] in Hm. rewrite length_body_image in Hm.
  assert (V0 : valid u64 (calcSize e)) by (simpl; lia).
  unfold InodeLogEntry_of_buf.
  destruct (Z.ltb_spec buf_size 8); [lia |]. cbn [negb check res_bind].
  unfold body_image in Hm. repeat take_field. 
  read_field. rewrite Z.gtb_ltb.
  destruct (Z.ltb_spec buf_size (calcSize e)); [lia |]. cbn [negb check res_bind].
  do 15 read_field.
  rewrite dec_ext_map by done. cbn [res_bind]. read_field.
  rewrite dec_ext_map by done. cbn [res_bind]. read_field.
  rewrite dec_dep_map by done. cbn [res_bind].
  rewrite <- !list_fmap_compose.
  rewrite !(list_fmap_ext (ext_of_tuple ∘ tuple_of_ext) id) by (intros; apply ext_of_tuple_of).
  by rewrite !list_fmap_id, !insert_all_uiter, !timeval_of_pair_of.
Qed.

(** ** Lemmas on applying *)

Lemma length_do_writes ws arr : length (do_writes ws arr) = length arr.
Proof.
  revert arr. induction ws as [| w ws IH]; intros arr; [done |].
  unfold do_writes in *. simpl. by rewrite IH, length_insert.
Qed.

Lemma do_writes_app w1 w2 arr : do_writes (w1 ++ w2) arr = do_writes w2 (do_writes w1 arr).
Proof. apply foldl_app. Qed.

Lemma lookup_do_writes ws arr i :
  do_writes ws arr !! i =
    match last_write i ws with
    | Some x => if decide (i < length arr)%nat then Some x else None
    | None => arr !! i
    end.
Proof.
  revert arr. induction ws as [| [j x] ws IH]; intros arr; [done |].
  change (do_writes ((j, x) :: ws) arr) with (do_writes ws (<[j := x]> arr)).
  rewrite IH, length_insert. cbn [last_write]. destruct (last_write i ws); [done |].
  case_decide as E; [subst j |].
  - case_decide; [by apply list_lookup_insert_eq |].
    rewrite list_insert_ge by lia. by apply lookup_ge_None_2; lia.
  - by apply list_lookup_insert_ne.
Qed.

Lemma last_write_app i w1 w2 :
  last_write i (w1 ++ w2) =
    match last_write i w2 with Some x => Some x | None => last_write i w1 end.
Proof.
  induction w1 as [| [j x] w1 IH]; simpl; [by destruct (last_write i w2) |].
  rewrite IH. by destruct (last_write i w2).
Qed.

(** Without two writes to one slot, the last write is the only one. *)
Lemma last_write_unique i x ws :
  NoDup ws.*1 -> (last_write i ws = Some x <-> (i, x) ∈ ws).
Proof.
  revert x. induction ws as [| [j y] ws IH]; simpl; intros x Hnd.
  { split; [done | by intros ?%elem_of_nil]. }
  apply NoDup_cons in Hnd as [Hj Hnd]. rewrite elem_of_cons, <- (IH x Hnd).
  destruct (last_write i ws) as [z |] eqn:E.
  - split; [naive_solver |]. intros [[= -> ->] | ?]; [| done].
    exfalso. apply Hj. apply list_elem_of_fmap. exists (j, z). by rewrite <- (IH z Hnd).
  - case_decide; naive_solver.
Qed.

Lemma last_write_perm i w1 w2 :
  NoDup w1.*1 -> w1 ≡ₚ w2 -> last_write i w1 = last_write i w2.
Proof.
  intros Hnd Hp. assert (NoDup w2.*1) by (by rewrite <- Hp).
  apply option_eq. intros x. rewrite !last_write_unique by done. by rewrite Hp.
Qed.

Lemma do_writes_ext w1 w2 arr :
  (forall i, last_write i w1 = last_write i w2) -> do_writes w1 arr = do_writes w2 arr.
Proof. intros H. apply list_eq. intros i. by rewrite !lookup_do_writes, H. Qed.

Lemma do_writes_idem ws arr : do_writes ws (do_writes ws arr) = do_writes ws arr.
Proof.
  apply list_eq. intros i. rewrite !lookup_do_writes, length_do_writes.
  by destruct (last_write i ws).
Qed.

Section ApplyLemmas.
Context {it : UIter} {cfg : Layout.ExtentConfig}.

Definition idx_ok (len : nat) (kv : Z * ExtMapVal) : Prop :=
  0 <= extent_idx (v_i_block_offset (snd kv)) < Z.of_nat len.

Lemma apply_add_loop l arr blocks ts :
  Forall (idx_ok (length arr)) l ->
  foldM apply_add l (arr, blocks, ts) =
    Ok (do_writes (add_write <$> l) arr, insert_all (changed_blocks true l) blocks,
        insert_all ((fun kv => (fst kv, seq_no (snd kv))) <$> l) ts).
Proof.
  revert arr blocks ts. induction l as [| [k v] l IH]; intros arr blocks ts H; [done |].
  apply Forall_cons in H as [Hk Hl]. cbn [foldM apply_add].
  rewrite store_ok by done. cbn [res_bind].
  rewrite IH by (by rewrite length_insert). f_equal. f_equal. f_equal.
  unfold changed_blocks. rewrite filter_cons. simpl.
  destruct (bmap_modified v); by simpl.
Qed.

Definition newer_ts (ts : gmap Z Z) (kv : Z * ExtMapVal) : bool :=
  match ts !! fst kv with
  | None => true
  | Some t => seq_no (snd kv) >? t
  end.

Lemma apply_del_loop l arr blocks ts :
  Forall (idx_ok (length arr)) l ->
  let live := filter (fun kv => newer_ts ts kv = true) l in
  foldM apply_del l (arr, blocks, ts) =
    Ok (do_writes (del_write <$> live) arr,
        insert_all (changed_blocks false live) blocks, ts).
Proof.
  revert arr blocks. induction l as [| [k v] l IH]; intros arr blocks H; [done |].
  apply Forall_cons in H as [Hk Hl]. cbn [foldM apply_del]. cbv zeta.
  rewrite filter_cons. change (match ts !! k with Some t => seq_no v >? t | None => true end)
    with (newer_ts ts (k, v)).
  destruct (newer_ts ts (k, v)) eqn:E; cbn [decide].
  - rewrite decide_True by done. rewrite store_ok by done. cbn [res_bind].
    rewrite IH by (by rewrite length_insert). f_equal. f_equal. f_equal.
    unfold changed_blocks. rewrite filter_cons. simpl.
    destruct (bmap_modified v); by simpl.
  - rewrite decide_False by done. cbn [res_bind]. by apply IH.
Qed.

Lemma applyChangesTo_eq e dst blocks :
  in_range e -> length (Layout.ext_array dst) = 7%nat ->
  applyChangesTo e dst blocks =
    Ok (with_ext_array (do_writes (writes e) (Layout.ext_array dst)) (apply_fields e dst),
        insert_all (changed_blocks false (live_dels e))
          (insert_all (changed_blocks true (uiter (l_ext_add e))) blocks)).
Proof.
  intros [Ha Hd] Hlen. unfold applyChangesTo. cbn [Layout.ext_array apply_fields].
  assert (Hok : forall m, map_Forall (fun _ v => 0 <= extent_idx (v_i_block_offset v) < 7) m ->
            forall arr : list Layout.cfs_extent, length arr = 7%nat -> Forall (idx_ok (length arr)) (uiter m)).
  { intros m Hm arr Harr. rewrite Harr. apply (Forall_uiter (idx_ok 7)). exact Hm. }
  rewrite apply_add_loop by auto. cbn [res_bind].
  rewrite apply_del_loop by (apply Hok; [done | by rewrite length_do_writes]).
  cbn [res_bind]. rewrite insert_all_fmap. unfold writes, live_dels.
  rewrite do_writes_app.
  rewrite (list_filter_iff (fun kv => newer_ts (seq_no <$> l_ext_add e) kv = true)
             (fun kv => newer e kv = true)); [done |].
  intros [k v]. unfold newer_ts, newer. simpl. rewrite lookup_fmap.
  by destruct (l_ext_add e !! k).
Qed.

Lemma NoDup_changed b l : NoDup l.*1 -> NoDup (changed_blocks b l).*1.
Proof.
  intros H. unfold changed_blocks. rewrite <- list_fmap_compose.
  by apply NoDup_fmap_filter.
Qed.

Lemma changed_blocks_snoc b l kv :
  changed_blocks b (l ++ [kv]) =
    changed_blocks b l ++ (if bmap_modified (snd kv) then [(fst kv, b)] else []).
Proof.
  unfold changed_blocks. rewrite filter_app, fmap_app, filter_cons.
  by destruct (bmap_modified (snd kv)).
Qed.

Lemma insert_all_app {V} (l1 l2 : list (Z * V)) m :
  insert_all (l1 ++ l2) m = insert_all l2 (insert_all l1 m).
Proof. apply foldl_app. Qed.

Lemma insert_changed_perm b l1 l2 m :
  NoDup l1.*1 -> l1 ≡ₚ l2 ->
  insert_all (changed_blocks b l1) m = insert_all (changed_blocks b l2) m.
Proof.
  intros Hnd Hp. rewrite !insert_all_rev. f_equal. apply list_to_map_proper.
  - rewrite reverse_Permutation. by apply NoDup_changed.
  - rewrite !reverse_Permutation. unfold changed_blocks. by rewrite Hp.
Qed.

Lemma NoDup_live_dels e : NoDup (live_dels e).*1.
Proof. apply NoDup_fmap_filter, NoDup_uiter. Qed.

(** Writes made for distinct slots. *)
Lemma NoDup_slots (f : Z * ExtMapVal -> ext_write) l (m : gmap Z ExtMapVal) :
  (forall kv, fst (f kv) = slot (snd kv)) ->
  (forall k1 v1 k2 v2, m !! k1 = Some v1 -> m !! k2 = Some v2 ->
     slot v1 = slot v2 -> k1 = k2) ->
  NoDup l.*1 -> (forall kv, kv ∈ l -> m !! fst kv = Some (snd kv)) ->
  NoDup (f <$> l).*1.
Proof.
  intros Hf Hinj. induction l as [| [k v] l IH]; intros Hnd Hin; [constructor |].
  apply NoDup_cons in Hnd as [Hk Hnd]. rewrite !fmap_cons. apply NoDup_cons. split.
  - intros (w & Hw & ([k' v'] & -> & Hl)%list_elem_of_fmap)%list_elem_of_fmap.
    rewrite !Hf in Hw. apply Hk. apply list_elem_of_fmap. exists (k', v'). split; [| done].
    simpl in *. eapply Hinj; [apply (Hin (k, v)); left | apply (Hin (k', v')); by right | done].
  - apply IH; [done |]. intros kv Hkv. apply Hin. by right.
Qed.

End ApplyLemmas.

(** The effect does not depend on the order in which the maps are visited. *)
Lemma apply_order_irrelevant (it1 it2 : UIter) (cfg : Layout.ExtentConfig) e dst blocks :
  in_range e -> slots_distinct e -> length (Layout.ext_array dst) = 7%nat ->
  applyChangesTo (it := it1) e dst blocks = applyChangesTo (it := it2) e dst blocks.
Proof.
  intros Hr [Ha Hd] Hlen. rewrite !applyChangesTo_eq by done.
  assert (Hp : forall V (m : gmap Z V), uiter (UIter := it1) m ≡ₚ uiter (UIter := it2) m)
    by (intros; by rewrite !uiter_perm).
  assert (Hl : live_dels (it := it1) e ≡ₚ live_dels (it := it2) e)
    by (unfold live_dels; by rewrite (Hp _ (l_ext_del e))).
  do 2 f_equal.
  - f_equal. apply do_writes_ext. intros i. unfold writes. rewrite !last_write_app.
    rewrite (last_write_perm i (del_write <$> live_dels (it := it1) e)
               (del_write <$> live_dels (it := it2) e)); [| | by rewrite Hl].
    + destruct (last_write _ _); [done |]. apply last_write_perm; [| by rewrite Hp].
      eapply (NoDup_slots add_write); [done | exact Ha | apply NoDup_uiter |].
      intros kv. apply (elem_of_uiter (it := it1)).
    + eapply (NoDup_slots del_write); [done | exact Hd | apply NoDup_live_dels |].
      intros kv [_ Hkv]%list_elem_of_filter. by apply (elem_of_uiter (it := it1)).
  - rewrite (insert_changed_perm false _ _ _ (NoDup_live_dels (it := it1) e) Hl).
    f_equal. apply insert_changed_perm; [apply NoDup_uiter | apply Hp].
Qed.

Lemma union_idem {V} (d a b : gmap Z V) : d ∪ (a ∪ (d ∪ (a ∪ b))) = d ∪ (a ∪ b).
Proof.
  apply map_eq. intros k. rewrite !lookup_union.
  by destruct (d !! k), (a !! k), (b !! k).
Qed.

Lemma apply_fields_idem e dst : apply_fields e (apply_fields e dst) = apply_fields e dst.
Proof.
  unfold apply_fields. cbn. by repeat (destruct (has_flag _ _)).
Qed.

Lemma has_flag_lor flags idx idx' :
  has_flag (Z.lor flags idx) idx' = has_flag flags idx' || has_flag idx idx'.
Proof.
  unfold has_flag. rewrite Z.land_lor_distr_l, <- negb_andb. f_equal.
  apply eq_true_iff_eq. rewrite andb_true_iff, !Z.eqb_eq. apply Z.lor_eq_0_iff.
Qed.

(** Writing one more flagged field to the log and applying it. *)
Lemma apply_fields_set f e dst :
  apply_fields (set_field f e) dst = direct_set f (apply_fields e dst).
Proof.
  destruct e, dst, f; unfold apply_fields, set_field, direct_set;
    cbn -[has_flag Z.lor]; rewrite !has_flag_lor;
    repeat match goal with
    | |- context [has_flag ?a ?b] =>
        is_const a; is_const b;
        let v := eval vm_compute in (has_flag a b) in
        change (has_flag a b) with v
    end; rewrite ?orb_true_r, ?orb_false_r; done.
Qed.

(** ** Lemmas on logging a new extent *)

(** The log has no entry for block [k] and none for the extent of [v]. *)
Definition fresh_extent {cfg : Layout.ExtentConfig} (k : Z) (v : ExtMapVal)
    (e : InodeLogEntry) : Prop :=
  l_ext_add e !! k = None /\ l_ext_del e !! k = None /\
  map_Forall (fun _ v' => slot v' <> slot v) (l_ext_add e) /\
  map_Forall (fun _ v' => slot v' <> slot v) (l_ext_del e).

Section NewExtent.
Context {it : UIter} {cfg : Layout.ExtentConfig}.
Context (e e' : InodeLogEntry) (k : Z) (v : ExtMapVal).
Context (Hadd : l_ext_add e' = <[k := v]> (l_ext_add e)).
Context (Hdel : l_ext_del e' = l_ext_del e).
Context (Hfresh : fresh_extent k v e) (Hdist : slots_distinct e).

Lemma uiter_add_new : uiter (l_ext_add e') ≡ₚ (k, v) :: uiter (l_ext_add e).
Proof.
  destruct Hfresh as (Hk & _). rewrite !uiter_perm, Hadd. by apply map_to_list_insert.
Qed.

Lemma live_dels_new : live_dels e' = live_dels e.
Proof.
  destruct Hfresh as (_ & Hk & _). unfold live_dels. rewrite Hdel.
  apply filter_Forall_iff, Forall_forall. intros [k' v'] Hin%elem_of_uiter.
  unfold newer. simpl in *. rewrite Hadd, lookup_insert_ne; [done | congruence].
Qed.

Lemma NoDup_add_writes : NoDup (add_write <$> uiter (l_ext_add e)).*1.
Proof.
  apply (NoDup_slots add_write _ (l_ext_add e)); [done | apply Hdist | apply NoDup_uiter |].
  intros kv Hkv. by apply elem_of_uiter.
Qed.

Lemma slot_not_written l (f : Z * ExtMapVal -> ext_write) :
  (forall kv, fst (f kv) = slot (snd kv)) ->
  (forall kv, kv ∈ l -> slot (snd kv) <> slot v) ->
  slot v ∉ (f <$> l).*1.
Proof.
  intros Hf Hl (w & Hw & (kv & -> & Hin)%list_elem_of_fmap)%list_elem_of_fmap.
  rewrite Hf in Hw. by apply (Hl kv).
Qed.

Lemma last_write_absent i ws : i ∉ ws.*1 -> last_write i ws = None.
Proof.
  induction ws as [| [j x] ws IH]; simpl; [done |].
  intros [Hj Hws]%not_elem_of_cons. rewrite IH by done. by rewrite decide_False.
Qed.

Lemma writes_new i :
  last_write i (writes e') =
    if decide (i = slot v) then Some (snd (add_write (k, v))) else last_write i (writes e).
Proof.
  destruct Hfresh as (Hk & Hkd & Hsa & Hsd).
  assert (Ha : slot v ∉ (add_write <$> uiter (l_ext_add e)).*1).
  { apply slot_not_written; [done |]. intros [k' v'] Hin%elem_of_uiter. by apply (Hsa k'). }
  assert (Hd : slot v ∉ (del_write <$> live_dels e).*1).
  { apply slot_not_written; [done |].
    intros [k' v'] [_ Hin%elem_of_uiter]%list_elem_of_filter. by apply (Hsd k'). }
  unfold writes. rewrite !last_write_app, live_dels_new.
  rewrite (last_write_perm i (add_write <$> uiter (l_ext_add e'))
             (add_write (k, v) :: (add_write <$> uiter (l_ext_add e)))).
  - cbn [last_write add_write fst snd]. case_decide; [subst i |].
    + by rewrite (last_write_absent _ _ Ha), (last_write_absent _ _ Hd).
    + by destruct (last_write i (add_write <$> uiter (l_ext_add e))), (last_write i _).
  - rewrite uiter_add_new. rewrite fmap_cons. apply NoDup_cons.
    split; [done | apply NoDup_add_writes].
  - by rewrite uiter_add_new.
Qed.

Lemma do_writes_new arr :
  (slot v < length arr)%nat ->
  do_writes (writes e') arr =
    <[slot v := snd (add_write (k, v))]> (do_writes (writes e) arr).
Proof.
  intros Hs. apply list_eq. intros i.
  rewrite list_lookup_insert, !lookup_do_writes, length_do_writes, writes_new.
  destruct (decide (i = slot v)) as [-> | Hne].
  - rewrite !decide_True by done. done.
  - rewrite (decide_False (P := slot v = i /\ _)) by naive_solver. done.
Qed.

Lemma blocks_new blocks :
  insert_all (changed_blocks false (live_dels e'))
    (insert_all (changed_blocks true (uiter (l_ext_add e'))) blocks) =
  let b := insert_all (changed_blocks false (live_dels e))
             (insert_all (changed_blocks true (uiter (l_ext_add e))) blocks) in
  if bmap_modified v then <[k := true]> b else b.
Proof.
  destruct Hfresh as (Hk & Hkd & _).
  rewrite live_dels_new.
  rewrite (insert_changed_perm true (uiter (l_ext_add e')) (uiter (l_ext_add e) ++ [(k, v)]));
    [| apply NoDup_uiter | by rewrite uiter_add_new, Permutation_cons_append].
  rewrite changed_blocks_snoc, insert_all_app. cbv zeta. cbn [fst snd].
  destruct (bmap_modified v); [| done].
  change (insert_all [(k, true)] ?m) with (<[k := true]> m).
  rewrite !(insert_all_rev (changed_blocks false _)).
  rewrite insert_union_r; [done |].
  apply not_elem_of_list_to_map. rewrite reverse_Permutation. unfold changed_blocks.
  rewrite <- list_fmap_compose. intros (kv & -> & [_ Hin]%list_elem_of_filter)%list_elem_of_fmap.
  apply list_elem_of_filter in Hin as [_ Hin%elem_of_uiter]. cbn in Hkd. congruence.
Qed.

End NewExtent.

(** ** A concrete entry *)

(** Inode 5 grew to one block: a size and an extent. *)
Definition sample_log : InodeLogEntry :=
  mk_log 5 1 size_IDX 0 0 0 0 0 0 0 4096 (Layout.mk_timeval 0 0)
    (Layout.mk_timeval 0 0) (Layout.mk_timeval (-1) 0) 1
    {[10507800 := mk_ext_val 0 0 1 true]} ∅ ∅.

Definition zero_inode : Layout.cfs_dinode :=
  Layout.mk_dinode 1 0 2 5 0 0 0 0 0 (Layout.mk_timeval 0 0) (Layout.mk_timeval 0 0)
    (Layout.mk_timeval 0 0) (replicate 7 (Layout.mk_extent 0 0 0)).

Lemma sample_log_ok : log_ok sample_log.
Proof.
  unfold log_ok. split_and!;
    lazymatch goal with
    | |- map_Forall _ (l_ext_add _) => apply map_Forall_singleton; by_compute
    | |- map_Forall _ _ => apply map_Forall_empty
    | _ => by_compute
    end.
Qed.

Lemma sample_in_range : in_range (cfg := Layout.cfg_default) sample_log.
Proof. split; [apply map_Forall_singleton; by_compute | apply map_Forall_empty]. Qed.

Lemma sample_slots : slots_distinct (cfg := Layout.cfg_default) sample_log.
Proof.
  split; cbn [l_ext_add l_ext_del sample_log]; intros k1 v1 k2 v2 H1 H2 _.
  - apply lookup_singleton_Some in H1 as [<- _], H2 as [<- _]. done.
  - by rewrite lookup_empty in H1.
Qed.

(** ** Properties *)

(** A serialised log entry takes exactly [calcSize] bytes, changes no other
    byte of the buffer, and is read back by the deserialising constructor with
    every field and every map as it was logged, whatever the padding bytes, the
    order of the maps and the bytes that follow. *)
Theorem serialize_roundtrip (it : UIter) e buf off junk buf_size :
  log_ok e -> Z.of_nat off + calcSize e <= Z.of_nat (length buf) ->
  calcSize e <= buf_size ->
  exists buf', serialize e buf off = Ok (buf', calcSize e) /\
    length buf' = length buf /\ take off buf' = take off buf /\
    drop (off + Z.to_nat (calcSize e)) buf' = drop (off + Z.to_nat (calcSize e)) buf /\
    InodeLogEntry_of_buf junk (drop off buf') buf_size =
      Ok (with_maps junk (l_ext_add e) (l_ext_del e) (l_depends_on e) e).
Proof.
  intros Hok Hroom Hsz. unfold serialize.
  pose proof (length_serialize_image e) as [Himg Hn].
  destruct (serialize_image e) as [img n] eqn:E. cbn [fst snd] in *. subst n.
  destruct (blit_ok buf off img) as (bs & -> & Hm); [lia |]. cbn [res_bind].
  pose proof (matches_length _ _ Hm) as Hlen.
  assert (Hoff : length (take off buf) = off) by (rewrite length_take; lia).
  eexists. split; [done |]. replace (Z.to_nat (calcSize e)) with (length img) by lia.
  split_and!.
  - rewrite !length_app, length_drop, Hoff. lia.
  - by rewrite take_app_length'.
  - rewrite app_assoc, drop_app_length'; [done | rewrite length_app; lia].
  - rewrite drop_app_length' by done. apply dec_log_image; [done.. |]. by rewrite E.
Qed.

Lemma serialize_roundtrip_witness :
  exists buf', serialize (it := sorted_iter) sample_log (replicate 200 9) 3 =
      Ok (buf', calcSize sample_log) /\
    length buf' = 200%nat /\ take 3 buf' = [9; 9; 9] /\
    drop (3 + Z.to_nat (calcSize sample_log)) buf' =
      drop (3 + Z.to_nat (calcSize sample_log)) (replicate 200 9) /\
    InodeLogEntry_of_buf 0 (drop 3 buf') 180 =
      Ok (with_maps 0 (l_ext_add sample_log) ∅ ∅ sample_log).
Proof.
  apply (serialize_roundtrip sorted_iter sample_log (replicate 200 9) 3 0 180);
    [apply sample_log_ok | by_compute..].
Defined.

(** C33. Replaying a recovered log entry gives the same inode and the same block
    allocations as applying the entry that was logged, although the recovering
    process may visit the maps in another order, provided no two blocks are
    logged for the same extent ([slots_distinct]) and the blocks are logged at
    places that an inode has ([in_range]). *)
Theorem replay_equals_apply (it1 it2 : UIter) (cfg : Layout.ExtentConfig)
    e bs rest junk buf_size dst blocks :
  log_ok e -> calcSize e <= buf_size ->
  matches (fst (serialize_image (it := it1) e)) bs ->
  in_range e -> slots_distinct e -> length (Layout.ext_array dst) = 7%nat ->
  (let! e' := InodeLogEntry_of_buf junk (bs ++ rest) buf_size in
   applyChangesTo (it := it2) e' dst blocks) =
  applyChangesTo (it := it1) e dst blocks.
Proof.
  intros Hok Hsz Hm Hr Hd Hlen. rewrite (dec_log_image (it := it1) junk e) by done.
  cbn [res_bind]. transitivity (applyChangesTo (it := it2) e dst blocks); [done |].
  symmetry. by apply apply_order_irrelevant.
Qed.

Lemma replay_equals_apply_witness :
  (let! e' := InodeLogEntry_of_buf 0
      (overlay (fst (serialize_image (it := sorted_iter) sample_log))
         (replicate (Z.to_nat (calcSize sample_log)) 0) ++ [1; 2]) 200 in
   applyChangesTo (it := sorted_iter) (cfg := Layout.cfg_default) e' zero_inode ∅) =
  applyChangesTo (it := sorted_iter) (cfg := Layout.cfg_default) sample_log zero_inode ∅.
Proof.
  apply (replay_equals_apply sorted_iter sorted_iter Layout.cfg_default sample_log);
    [apply sample_log_ok | by_compute | | apply sample_in_range | apply sample_slots | done].
  by apply overlay_matches.
Defined.

(** Applying a log entry is idempotent: applying it again to the resulting
    inode changes neither the inode nor the recorded block allocations, so that
    a recovery interrupted and repeated ends in the same state. *)
Theorem apply_idempotent (it : UIter) (cfg : Layout.ExtentConfig) e dst blocks :
  in_range e -> length (Layout.ext_array dst) = 7%nat ->
  exists dst' blocks', applyChangesTo e dst blocks = Ok (dst', blocks') /\
    applyChangesTo e dst' blocks' = Ok (dst', blocks').
Proof.
  intros Hr Hlen. rewrite applyChangesTo_eq by done. eexists _, _. split; [done |].
  rewrite applyChangesTo_eq; [| done | cbn; by rewrite length_do_writes]. do 2 f_equal.
  - cbn [Layout.ext_array with_ext_array]. rewrite do_writes_idem.
    rewrite <- (apply_fields_idem e dst) at 2. done.
  - rewrite !insert_all_rev. apply union_idem.
Qed.

Lemma apply_idempotent_witness :
  exists dst' blocks',
    applyChangesTo (it := sorted_iter) (cfg := Layout.cfg_default)
      sample_log zero_inode ∅ = Ok (dst', blocks') /\
    applyChangesTo (it := sorted_iter) (cfg := Layout.cfg_default)
      sample_log dst' blocks' = Ok (dst', blocks').
Proof.
  apply (apply_idempotent sorted_iter Layout.cfg_default sample_log zero_inode ∅);
    [apply sample_in_range | done].
Defined.

(** Logging an assignment and applying the log is the same as making the
    assignment to the inode the log produces, for each of the eleven setters
    ([bitmap_op], which describes the inode bitmap, leaves the inode alone). *)
Theorem log_setter_correct (it : UIter) (cfg : Layout.ExtentConfig) f e dst blocks :
  in_range e -> length (Layout.ext_array dst) = 7%nat ->
  exists dst' blocks', applyChangesTo e dst blocks = Ok (dst', blocks') /\
    applyChangesTo (set_field f e) dst blocks = Ok (direct_set f dst', blocks').
Proof.
  intros Hr Hlen. rewrite applyChangesTo_eq by done. eexists _, _. split; [done |].
  assert (Hm : l_ext_add (set_field f e) = l_ext_add e /\
               l_ext_del (set_field f e) = l_ext_del e) by (by destruct e, f).
  destruct Hm as [Ha Hd]. rewrite applyChangesTo_eq; [| unfold in_range; by rewrite Ha, Hd | done].
  rewrite apply_fields_set. unfold writes, live_dels, newer. rewrite Ha, Hd.
  by destruct e, f, dst.
Qed.

Lemma log_setter_correct_witness :
  exists dst' blocks',
    applyChangesTo (it := sorted_iter) (cfg := Layout.cfg_default)
      sample_log zero_inode ∅ = Ok (dst', blocks') /\
    applyChangesTo (it := sorted_iter) (cfg := Layout.cfg_default)
      (set_field (SetNlink 3) sample_log) zero_inode ∅ =
      Ok (direct_set (SetNlink 3) dst', blocks').
Proof.
  apply (log_setter_correct sorted_iter Layout.cfg_default (SetNlink 3) sample_log zero_inode);
    [apply sample_in_range | done].
Defined.

(** Logging a newly allocated extent and applying the log stores exactly that
    extent in its slot of the inode, leaves the other slots and fields alone, and
    reports the block for the bitmap exactly when the bitmap was changed. *)
Theorem log_extent_correct (it : UIter) (cfg : Layout.ExtentConfig) x bm e dst blocks :
  let k := Layout.conv_lba_to_pba (Layout.block_no x) in
  let v := mk_ext_val (l_extent_seq_no e) (Layout.i_block_offset x)
             (Layout.num_blocks x) bm in
  in_range e -> slots_distinct e -> length (Layout.ext_array dst) = 7%nat ->
  fresh_extent k v e -> 0 <= extent_idx (Layout.i_block_offset x) < 7 ->
  0 <= Layout.block_no x < 2 ^ 63 ->
  exists dst' blocks', applyChangesTo e dst blocks = Ok (dst', blocks') /\
    applyChangesTo (update_extent x true bm e) dst blocks =
      Ok (with_ext_array (<[slot v := x]> (Layout.ext_array dst')) dst',
          if bm then <[k := true]> blocks' else blocks').
Proof.
  intros k v Hr Hd Hlen Hf Hidx Hb. rewrite applyChangesTo_eq by done.
  eexists _, _. split; [done |].
  assert (Ha : l_ext_add (update_extent x true bm e) = <[k := v]> (l_ext_add e)).
  { unfold update_extent, put_extent. cbn. fold k. destruct Hf as (-> & _). done. }
  rewrite applyChangesTo_eq; [| | done].
  - rewrite (blocks_new e _ k v) by done. cbv zeta. do 2 f_equal.
    cbn [Layout.ext_array with_ext_array apply_fields].
    rewrite (do_writes_new e _ k v) by (done || unfold slot; cbn; lia).
    assert (Hx : snd (add_write (k, v)) = x).
    { unfold add_write. cbn. unfold k. rewrite Layout.conv_roundtrip by done.
      by destruct x. }
    by rewrite Hx.
  - split; [| apply Hr]. rewrite Ha. apply map_Forall_insert_2; [done | apply Hr].
Qed.

Lemma log_extent_correct_witness :
  exists dst' blocks',
    applyChangesTo (it := sorted_iter) (cfg := Layout.cfg_default)
      sample_log zero_inode ∅ = Ok (dst', blocks') /\
    applyChangesTo (it := sorted_iter) (cfg := Layout.cfg_default)
      (update_extent (Layout.mk_extent 1 2048 640) true true sample_log) zero_inode ∅ =
      Ok (with_ext_array (<[1%nat := Layout.mk_extent 1 2048 640]> (Layout.ext_array dst')) dst',
          <[Layout.conv_lba_to_pba 640 := true]> blocks').
Proof.
  apply (log_extent_correct sorted_iter Layout.cfg_default
           (Layout.mk_extent 1 2048 640) true sample_log zero_inode ∅);
    [apply sample_in_range | apply sample_slots | done | | by_compute..].
  split_and!; [by apply lookup_singleton_ne | apply lookup_empty | |].
  - apply map_Forall_singleton. by_compute.
  - apply map_Forall_empty.
Defined.

(** A deletion clears the extent slot of its block even when another block was
    logged for that slot later: freeing block 7 of extent 1 and then adding block
    640 as the new extent 1 leaves the inode without any block there. *)
Theorem stale_delete_clears_new_extent :
  let old := Layout.mk_extent 1 2048 7 in
  let new := Layout.mk_extent 1 2048 640 in
  let e := update_extent new true true (update_extent old false true
             (new_InodeLogEntry 5 1 sample_log)) in
  exists dst blocks,
    applyChangesTo (it := sorted_iter) (cfg := Layout.cfg_default) e zero_inode ∅ =
      Ok (dst, blocks) /\
    Layout.ext_array dst !! 1%nat = Some (Layout.mk_extent 0 0 7) /\
    blocks !! Layout.conv_lba_to_pba 640 = Some true.
Proof. eexists _, _. vm_compute. auto. Qed.

(** The reported block allocations do not depend on the inode the entry is applied
    to. *)
Theorem blocks_independent_of_inode (it : UIter) (cfg : Layout.ExtentConfig) e d1 d2 blocks :
  in_range e -> length (Layout.ext_array d1) = 7%nat ->
  length (Layout.ext_array d2) = 7%nat ->
  exists d1' d2' b, applyChangesTo e d1 blocks = Ok (d1', b) /\
                    applyChangesTo e d2 blocks = Ok (d2', b).
Proof. intros. rewrite !applyChangesTo_eq by done. eauto. Qed.

End InodeLog.
