(* ===== verification/JournalEntry.v ===== *)
(** * Journal entries

    [JournalEntry] of [cfs/include/FsProc__JournalEnabled.h] and
    [cfs/src/FsProc_JournalBasic.cc]: the header and body that are written
    first, the commit block that is written last, and the two-step
    deserialisation and commit check of recovery. *)

From Stdlib Require Import ZArith Lia Bool.
From stdpp Require Import base list option gmap.
From S2P Require Import Prelude Unordered Layout JSuper Codec InodeLog.

Module JournalEntry.
Import Codec InodeLog.

Definition JBODY_MAGIC : Z := 0xBEEFBEEFBEEFBBBB.
Definition JCOMMIT_MAGIC : Z := 0xBEEFBEEFBEEFCCCC.
Definition kMaxJournalEntrySize : Z := JSuper.MAX_JOURNAL_ENTRY_SIZE.
Definition kMaxJournalBodySize : Z := kMaxJournalEntrySize - Layout.BSIZE.

Inductive JournalEntryState : Type :=
| PREPARE
| QUEUED
| WRITE_BODY
| FLUSH
| WRITE_COMMIT
| SUCCESS
| FAILURE
| DESERIALIZED_ERROR_MAGIC
| DESERIALIZED_ERROR_ENTRY_SIZE
| DESERIALIZED_PARTIAL
| DESERIALIZED.

#[global] Instance JournalEntryState_eq_dec : EqDecision JournalEntryState.
Proof. solve_decision. Defined.

Record JournalEntry : Type := mk_je {
  state : JournalEntryState;
  ile_vec : list InodeLogEntry;
  start_block : Z;
  nblocks : Z;
  ustime_serialized : Z
}.

(** [JournalEntry()] *)
Definition new_JournalEntry : JournalEntry := mk_je PREPARE [] 0 0 0.

Definition addInodeLogEntry (ile : InodeLogEntry) (je : JournalEntry) : JournalEntry :=
  mk_je (state je) (ile_vec je ++ [ile]) (start_block je) (nblocks je)
    (ustime_serialized je).

Definition with_state (s : JournalEntryState) (je : JournalEntry) : JournalEntry :=
  mk_je s (ile_vec je) (start_block je) (nblocks je) (ustime_serialized je).

Definition header_size : Z := 48.

Definition calcBodySize (je : JournalEntry) : Z :=
  foldl (fun bytes ile => bytes + calcSize ile) header_size (ile_vec je).

Section Serialize.
Context {it : UIter}.

(** The log entries one after the other, each with its own size. *)
Definition iles_image (l : list InodeLogEntry) : list cell :=
  concat ((fun ile => fst (serialize_image ile)) <$> l).

(** [now] is the clock read by [serializeBody], which it also stores. *)
Definition serializeBody (now : Z) (je : JournalEntry)
    : list cell * Z * JournalEntry :=
  let iles := iles_image (ile_vec je) in
  let entry_size := 48 + Z.of_nat (length iles) in
  (enc u64 JBODY_MAGIC ++ enc u64 now ++ enc u64 entry_size ++
   enc u64 (Z.of_nat (length (ile_vec je))) ++ enc u64 (start_block je) ++
   enc u64 (nblocks je) ++ iles,
   entry_size,
   mk_je (state je) (ile_vec je) (start_block je) (nblocks je) now).

End Serialize.

Definition serializeCommit (je : JournalEntry) : list cell :=
  enc u64 JCOMMIT_MAGIC ++ enc u64 (ustime_serialized je) ++
  enc u64 (Z.of_nat (length (ile_vec je))) ++ enc u64 (start_block je) ++
  enc u64 (nblocks je).

(** ** Recovery *)

Definition ParseJournalEntryHeader (buf : list Z) (buf_size : Z)
    (je : JournalEntry) : res JournalEntry :=
  let! _ := check (Nat.eqb (length (ile_vec je)) 0) in
  let! _ := check (buf_size >=? calcBodySize je) in
  let! (magic, m) := dec u64 buf in
  if negb (magic =? JBODY_MAGIC) then Ok (with_state DESERIALIZED_ERROR_MAGIC je) else
  let! (ustime, m) := dec u64 m in
  let je := mk_je (state je) (ile_vec je) (start_block je) (nblocks je) ustime in
  let! (entry_size, m) := dec u64 m in
  if entry_size >? kMaxJournalBodySize
  then Ok (with_state DESERIALIZED_ERROR_ENTRY_SIZE je) else
  let! (_, m) := dec u64 m in
  let! (start, m) := dec u64 m in
  let! (n, m) := dec u64 m in
  Ok (mk_je DESERIALIZED_PARTIAL (ile_vec je) start n (ustime_serialized je)).

(** [JournalEntry(uint8_t *buf, size_t buf_size)]: throws unless the header is
    good. *)
Definition JournalEntry_of_buf (buf : list Z) (buf_size : Z) : res JournalEntry :=
  let je := mk_je DESERIALIZED_PARTIAL [] 0 0 0 in
  let! _ := check (negb (buf_size <? calcBodySize je)) in
  let! je := ParseJournalEntryHeader buf buf_size je in
  let! _ := check (bool_decide (state je = DESERIALIZED_PARTIAL)) in
  Ok je.

Fixpoint ile_loop (n : nat) (junk : Z) (m : list Z) (remaining : Z)
    (acc : list InodeLogEntry) : res (list InodeLogEntry) :=
  match n with
  | O => Ok acc
  | S n' =>
      if remaining >? 0 then
        let! ile := InodeLogEntry_of_buf junk m remaining in
        let ile_size := calcSize ile in
        ile_loop n' junk (drop (Z.to_nat ile_size) m) (to_u64 (remaining - ile_size))
          (acc ++ [ile])
      else Ok acc
  end.

Definition deserializeBody (junk : Z) (buf : list Z) (buf_size : Z)
    (je : JournalEntry) : res JournalEntry :=
  let! _ := check (Nat.eqb (length (ile_vec je)) 0) in
  let! _ := check (negb (buf_size <? calcBodySize je)) in
  let! _ := check (bool_decide (state je = DESERIALIZED_PARTIAL)) in
  let! (magic, m) := dec u64 buf in
  let! (ustime, m) := dec u64 m in
  let! _ := check ((magic =? JBODY_MAGIC) && (ustime =? ustime_serialized je)) in
  let! (je_size, m) := dec u64 m in
  let! _ := check (negb (buf_size <? je_size)) in
  let! (num_ile, m) := dec u64 m in
  let remaining_buf_size := to_u64 (je_size - calcBodySize je) in
  let ptr := drop (Z.to_nat (calcBodySize je)) buf in
  let! iles := ile_loop (Z.to_nat num_ile) junk ptr remaining_buf_size [] in
  Ok (mk_je DESERIALIZED iles (start_block je) (nblocks je) (ustime_serialized je)).

Definition isValidCommitBlock (commit_buf : list Z) (buf_size : Z)
    (je : JournalEntry) : res bool :=
  if buf_size <? 64 then Ok false else
  let! (p0, m) := dec u64 commit_buf in
  let! (p1, m) := dec u64 m in
  let! (p2, m) := dec u64 m in
  let! (p3, m) := dec u64 m in
  let! (p4, _) := dec u64 m in
  Ok (negb (negb (p0 =? JCOMMIT_MAGIC) || negb (p1 =? ustime_serialized je) ||
            negb (p2 =? Z.of_nat (length (ile_vec je))) ||
            negb (p3 =? start_block je) || negb (p4 =? nblocks je))).

(** What recovery does with the body and the commit block of one entry. *)
Definition recover (junk : Z) (body commit : list Z) (body_size commit_size : Z)
    : res (option JournalEntry) :=
  let! je := JournalEntry_of_buf body body_size in
  let! je := deserializeBody junk body body_size je in
  let! valid := isValidCommitBlock commit commit_size je in
  Ok (if valid then Some je else None).

(** ** Well-formed entries *)

Definition je_ok (je : JournalEntry) : Prop :=
  Forall log_ok (ile_vec je) /\ valid u64 (start_block je) /\ valid u64 (nblocks je) /\
  calcBodySize je <= kMaxJournalBodySize.

(** The entry that recovery reads back. *)
Definition recovered (junk now : Z) (je : JournalEntry) : JournalEntry :=
  mk_je DESERIALIZED
    ((fun e => with_maps junk (l_ext_add e) (l_ext_del e) (l_depends_on e) e)
       <$> ile_vec je)
    (start_block je) (nblocks je) now.

Definition total_size (l : list InodeLogEntry) : Z :=
  foldr (fun ile n => calcSize ile + n) 0 l.

(** ** Lemmas *)

Lemma calcBodySize_eq je : calcBodySize je = header_size + total_size (ile_vec je).
Proof.
  unfold calcBodySize. generalize header_size as a.
  induction (ile_vec je) as [| e l IH]; intros a; simpl; [lia |]. rewrite IH. lia.
Qed.

Lemma total_size_nonneg l : 0 <= total_size l.
Proof.
  induction l as [| e l IH]; simpl; [lia |].
  pose proof (calcSize_bounds e). lia.
Qed.

Lemma length_le_total l : Z.of_nat (length l) <= total_size l.
Proof.
  induction l as [| e l IH]; simpl; [lia |].
  pose proof (calcSize_bounds e). lia.
Qed.

Section Lemmas.
Context {it : UIter}.

Lemma length_iles_image l : Z.of_nat (length (iles_image l)) = total_size l.
Proof.
  unfold iles_image. induction l as [| e l IH]; [done |].
  rewrite fmap_cons. cbn [concat total_size foldr]. rewrite length_app, Nat2Z.inj_add.
  fold (total_size l). rewrite <- IH. f_equal. apply length_serialize_image.
Qed.

Lemma serializeBody_size now je :
  snd (fst (serializeBody now je)) = calcBodySize je /\
  Z.of_nat (length (fst (fst (serializeBody now je)))) = calcBodySize je.
Proof.
  rewrite calcBodySize_eq. unfold serializeBody, header_size. cbn [fst snd].
  rewrite !length_app, !(length_enc (c := u64)). change (csize u64) with 8%nat.
  pose proof (length_iles_image (ile_vec je)). lia.
Qed.

Lemma ile_loop_ok l junk bs rest acc :
  Forall log_ok l -> total_size l < 2 ^ 64 -> matches (iles_image l) bs ->
  ile_loop (length l) junk (bs ++ rest) (total_size l) acc =
    Ok (acc ++ ((fun e => with_maps junk (l_ext_add e) (l_ext_del e) (l_depends_on e) e) <$> l)).
Proof.
  intros Hl. revert bs acc. induction Hl as [| e l He Hl IH]; intros bs acc Hs Hm.
  { cbn. by rewrite app_nil_r. }
  unfold iles_image in Hm. rewrite fmap_cons in Hm. cbn [concat] in Hm.
  apply matches_app in Hm as (b1 & b2 & -> & H1 & H2).
  pose proof (calcSize_bounds e) as [H8 _]. pose proof (total_size_nonneg l).
  cbn [length ile_loop total_size foldr] in *. fold (total_size l) in *.
  destruct (Z.gtb_spec (calcSize e + total_size l) 0); [| lia].
  rewrite <- app_assoc, (dec_log_image junk e) by (done || lia). cbn [res_bind].
  change (calcSize (with_maps _ _ _ _ _)) with (calcSize e).
  rewrite drop_app_length'.
  2: { apply matches_length in H1. pose proof (length_serialize_image e) as [HL _]. lia. }
  rewrite to_u64_small by lia. replace (calcSize e + total_size l - calcSize e)
    with (total_size l) by lia.
  rewrite IH by (done || lia). rewrite fmap_cons. by rewrite <- app_assoc.
Qed.

End Lemmas.

Lemma commit_check je now je' bs rest buf_size :
  valid u64 now -> valid u64 (start_block je) -> valid u64 (nblocks je) ->
  Z.of_nat (length (ile_vec je)) < 2 ^ 64 -> ustime_serialized je = now ->
  64 <= buf_size -> matches (serializeCommit je) bs ->
  isValidCommitBlock (bs ++ rest) buf_size je' =
    Ok ((now =? ustime_serialized je') &&
        (Z.of_nat (length (ile_vec je)) =? Z.of_nat (length (ile_vec je'))) &&
        (start_block je =? start_block je') && (nblocks je =? nblocks je')).
Proof.
  intros V1 V2 V3 Hl <- Hsz Hm. unfold isValidCommitBlock, serializeCommit in *.
  destruct (Z.ltb_spec buf_size 64); [lia |].
  assert (VM : valid u64 JCOMMIT_MAGIC) by by_compute.
  assert (VL : valid u64 (Z.of_nat (length (ile_vec je)))) by (cbn; lia).
  repeat take_field. do 4 read_field.
  rewrite (dec_enc (c := u64) (nblocks je)) by done. cbn [res_bind].
  rewrite Z.eqb_refl. cbn [negb orb]. by rewrite !negb_orb, !negb_involutive.
Qed.

(** Both steps of the deserialisation of a serialised body. *)
Lemma deserialize_ok {it : UIter} junk now je bs rest buf_size :
  je_ok je -> valid u64 now -> calcBodySize je <= buf_size ->
  matches (fst (fst (serializeBody now je))) bs ->
  (let! j := JournalEntry_of_buf (bs ++ rest) buf_size in
   deserializeBody junk (bs ++ rest) buf_size j) = Ok (recovered junk now je).
Proof.
  intros (Hl & V1 & V2 & Hmax) Vn Hsz Hm.
  pose proof (serializeBody_size now je) as [_ Hlen]. pose proof (calcBodySize_eq je) as Hb.
  pose proof (total_size_nonneg (ile_vec je)) as Hpos. pose proof (length_iles_image (ile_vec je)) as Hi.
  change kMaxJournalBodySize with 126976 in Hmax. unfold header_size in Hb.
  pose proof (length_le_total (ile_vec je)) as Hn.
  unfold serializeBody in Hm. cbn [fst] in Hm.
  replace (48 + Z.of_nat (length (iles_image (ile_vec je)))) with (calcBodySize je) in Hm by lia.
  assert (VM : valid u64 JBODY_MAGIC) by by_compute.
  assert (VS : valid u64 (calcBodySize je)) by (cbn; lia).
  assert (VL : valid u64 (Z.of_nat (length (ile_vec je)))) by (cbn; lia).
  repeat take_field. rewrite <- ?app_assoc.
  assert (Hdrop : forall l, drop 48 (b ++ b0 ++ b1 ++ b2 ++ b3 ++ b4 ++ l) = l).
  { intros l. rewrite !app_assoc, drop_app_length'; [done |].
    repeat match goal with H : matches (enc u64 _) _ |- _ =>
      apply matches_length in H; rewrite (length_enc (c := u64)) in H end.
    rewrite !length_app. change (csize u64) with 8%nat in *. lia. }
  unfold JournalEntry_of_buf, ParseJournalEntryHeader.
  cbn [calcBodySize ile_vec foldl state length Nat.eqb check res_bind].
  change header_size with 48.
  destruct (Z.ltb_spec buf_size 48); [lia |]. cbn [negb check res_bind].
  destruct (Z.geb_spec buf_size 48); [| lia]. cbn [check res_bind].
  read_field. rewrite Z.eqb_refl. cbn [negb]. do 2 read_field.
  rewrite Z.gtb_ltb. destruct (Z.ltb_spec kMaxJournalBodySize (calcBodySize je)) as [Hx | _];
    [change kMaxJournalBodySize with 126976 in Hx; lia |].
  do 3 read_field. cbn [state ile_vec ustime_serialized].
  rewrite bool_decide_true by done. cbn [check res_bind].
  unfold deserializeBody. cbn [calcBodySize ile_vec foldl state length Nat.eqb
    check res_bind start_block nblocks ustime_serialized]. change header_size with 48.
  destruct (Z.ltb_spec buf_size 48); [lia |]. cbn [negb check res_bind].
  rewrite bool_decide_true by done. cbn [check res_bind]. do 2 read_field.
  rewrite !Z.eqb_refl. cbn [andb check res_bind]. read_field.
  destruct (Z.ltb_spec buf_size (calcBodySize je)); [lia |]. cbn [negb check res_bind].
  read_field. rewrite to_u64_small by lia.
  replace (calcBodySize je - 48) with (total_size (ile_vec je)) by lia.
  change (Z.to_nat 48) with 48%nat. rewrite Hdrop, Nat2Z.id, ile_loop_ok by (done || lia).
  done.
Qed.

(** ** A concrete entry *)

Definition sample_je : JournalEntry := mk_je WRITE_BODY [sample_log] 7 2 0.

Lemma sample_je_ok : je_ok sample_je.
Proof. split_and!; [apply Forall_singleton, sample_log_ok | by_compute..]. Qed.

Definition bytes_of (img : list cell) : list Z := overlay img (replicate (length img) 0).

Lemma bytes_of_matches img : matches img (bytes_of img).
Proof. apply overlay_matches. by rewrite length_replicate. Qed.

(** ** Properties *)

(** C31. A journal entry whose body and commit block reached the device is
    recovered with the same inode log entries, position and time stamp, for any
    following bytes, any padding and any order of the maps. *)
Theorem journal_entry_recovered (it : UIter) junk now je body commit r1 r2 bsz csz :
  je_ok je -> valid u64 now -> calcBodySize je <= bsz -> 64 <= csz ->
  matches (fst (fst (serializeBody now je))) body ->
  matches (serializeCommit (snd (serializeBody now je))) commit ->
  recover junk (body ++ r1) (commit ++ r2) bsz csz = Ok (Some (recovered junk now je)).
Proof.
  intros Hok Vn Hb Hc Hmb Hmc. unfold recover.
  pose proof (deserialize_ok junk now je body r1 bsz Hok Vn Hb Hmb) as Hd.
  apply res_bind_ok in Hd as (j & -> & Hd). cbn [res_bind]. rewrite Hd. cbn [res_bind].
  destruct Hok as (_ & V1 & V2 & Hmax).
  rewrite (commit_check (snd (serializeBody now je)) now); try done.
  - cbn [serializeBody snd recovered ustime_serialized ile_vec start_block nblocks].
    by rewrite length_fmap, !Z.eqb_refl.
  - cbn. rewrite calcBodySize_eq in Hmax. pose proof (length_le_total (ile_vec je)).
    change kMaxJournalBodySize with 126976 in Hmax. unfold header_size in *. lia.
Qed.

Lemma journal_entry_recovered_witness :
  recover 0 (bytes_of (fst (fst (serializeBody (it := sorted_iter) 99 sample_je))) ++ [1])
    (bytes_of (serializeCommit (snd (serializeBody (it := sorted_iter) 99 sample_je))) ++ [2])
    4096 4096 = Ok (Some (recovered 0 99 sample_je)).
Proof.
  apply (journal_entry_recovered sorted_iter);
    [apply sample_je_ok | by_compute.. | apply bytes_of_matches | apply bytes_of_matches].
Defined.

(** A body is never taken for committed on the strength of a commit block
    written for another entry: if the commit block at its place differs in the
    time stamp, the number of log entries, the start block or the length,
    recovery ignores the entry. *)
Theorem foreign_commit_ignored (it : UIter) junk now je je' body commit r1 r2 bsz csz :
  je_ok je -> valid u64 now -> calcBodySize je <= bsz -> 64 <= csz ->
  matches (fst (fst (serializeBody now je))) body ->
  matches (serializeCommit je') commit ->
  valid u64 (ustime_serialized je') -> je_ok je' ->
  (ustime_serialized je', length (ile_vec je'), start_block je', nblocks je') <>
    (now, length (ile_vec je), start_block je, nblocks je) ->
  recover junk (body ++ r1) (commit ++ r2) bsz csz = Ok None.
Proof.
  intros Hok Vn Hb Hc Hmb Hmc Vt (_ & V1 & V2 & Hmax) Hne. unfold recover.
  pose proof (deserialize_ok junk now je body r1 bsz Hok Vn Hb Hmb) as Hd.
  apply res_bind_ok in Hd as (j & -> & Hd). cbn [res_bind]. rewrite Hd. cbn [res_bind].
  rewrite (commit_check je' (ustime_serialized je')); try done.
  - cbn [recovered ustime_serialized ile_vec start_block nblocks res_bind].
    rewrite length_fmap. destruct (_ && _) eqn:E; [| done]. b2p.
    assert (length (ile_vec je') = length (ile_vec je)) by lia. congruence.
  - rewrite calcBodySize_eq in Hmax. pose proof (length_le_total (ile_vec je')).
    change kMaxJournalBodySize with 126976 in Hmax. unfold header_size in *. lia.
Qed.

Lemma foreign_commit_ignored_witness :
  recover 0 (bytes_of (fst (fst (serializeBody (it := sorted_iter) 99 sample_je))) ++ [1])
    (bytes_of (serializeCommit (mk_je WRITE_BODY [sample_log] 7 2 98)) ++ [2])
    4096 4096 = Ok None.
Proof.
  apply (foreign_commit_ignored sorted_iter 0 99 sample_je
           (mk_je WRITE_BODY [sample_log] 7 2 98));
    [apply sample_je_ok | by_compute | by_compute | by_compute
     | apply bytes_of_matches | apply bytes_of_matches | by_compute
     | apply sample_je_ok | by_compute].
Defined.

End JournalEntry.
