(* ===== verification/JournalMgr.v ===== *)
(** * Journal manager

    [JournalManager] of [cfs/src/FsProc_Journal.cc]: the queue of journal
    entries, the pinned buffers, the state machine that writes the body of an
    entry, flushes, writes its commit block and calls back, the writes of the
    journal super block, and the checkpoint bookkeeping.  The NVMe device is not
    part of the sources: submitting a command returns the parameter [spdk_rc],
    and completions arrive as separate steps in any order with any result.  The
    manager records what it submits and is told in a trace of events.  Journal
    entries and in-memory inodes are objects of a heap, referred to by number, as
    the code refers to them by pointer. *)

From Stdlib Require Import ZArith Lia Bool SpecFloat.
From stdpp Require Import base list option gmap.
From S2P Require Import Prelude Unordered Layout JSuper Codec InodeLog JournalEntry.

Module JournalMgr.
Import Codec InodeLog JournalEntry.

Definition MAX_INFLIGHT_JOURNAL_TRANSACTIONS : Z := 100.

(** ** Objects *)

(** The fields of [InMemInode] the journal uses. *)
Record minode : Type := mk_minode {
  inodeData : Layout.cfs_dinode;
  jinodeData : Layout.cfs_dinode;
  logEntry : InodeLogEntry
}.

(** A [JournalEntry] under way; [j_iles] are the inodes of its log entries. *)
Record jentry : Type := mk_jentry {
  j_state : JournalEntryState;
  j_iles : list Z;
  j_start_block : Z;
  j_nblocks : Z;
  j_ustime : Z;
  j_pinned : bool;
  blocks_for_bitmap_set : list Z;
  blocks_for_bitmap_clear : list Z;
  inode_alloc_dealloc : gmap Z bool
}.

(** The commands; [fua] says whether the write carries the flag
    [SPDK_NVME_IO_FLAGS_FORCE_UNIT_ACCESS]. *)
Inductive cmd : Type :=
| WriteBodyCmd (start n : Z) (data : list cell) (fua : bool)
| FlushCmd
| WriteCommitCmd (block : Z) (data : list cell) (fua : bool).

Inductive event : Type :=
| Submitted (i : Z) (c : cmd)
| Completed (i : Z) (c : cmd) (ok : bool)
| CalledBack (i : Z) (ok : bool)
| SuperSubmitted (d : JSuper.JSuperOnDisk) (fua : bool)
| SuperCompleted.

(** [CheckpointInput]; an entry is [None] until its image is copied. *)
Record CheckpointInput : Type := mk_ci {
  ci_n_used : Z;
  inodesToCheckpoint : gmap Z (option Layout.cfs_dinode);
  bitmapsToCheckpoint : gmap Z (option (list Z));
  inodeBitmapsToCheckpoint : gmap Z (option (list Z))
}.

Definition new_CheckpointInput : CheckpointInput := mk_ci 0 ∅ ∅ ∅.

Record jmgr : Type := mk_jmgr {
  m_jsuper : JSuper.JSuper;
  m_super_inflight : option Z;
  m_queue : list Z;
  m_free_pinned : Z;
  m_flush_supported : bool;
  m_entries : gmap Z jentry;
  m_inodes : gmap Z minode;
  m_ci : CheckpointInput;
  m_outstanding : gmap Z cmd;
  m_trace : list event;
  m_proposals : Z
}.

Definition set_super (js : JSuper.JSuper) (fl : option Z) (m : jmgr) : jmgr :=
  mk_jmgr js fl (m_queue m) (m_free_pinned m) (m_flush_supported m) (m_entries m)
    (m_inodes m) (m_ci m) (m_outstanding m) (m_trace m) (m_proposals m).
Definition set_queue (q : list Z) (m : jmgr) : jmgr :=
  mk_jmgr (m_jsuper m) (m_super_inflight m) q (m_free_pinned m) (m_flush_supported m)
    (m_entries m) (m_inodes m) (m_ci m) (m_outstanding m) (m_trace m) (m_proposals m).
Definition set_free (n : Z) (m : jmgr) : jmgr :=
  mk_jmgr (m_jsuper m) (m_super_inflight m) (m_queue m) n (m_flush_supported m)
    (m_entries m) (m_inodes m) (m_ci m) (m_outstanding m) (m_trace m) (m_proposals m).
Definition set_entry (i : Z) (o : jentry) (m : jmgr) : jmgr :=
  mk_jmgr (m_jsuper m) (m_super_inflight m) (m_queue m) (m_free_pinned m)
    (m_flush_supported m) (<[i := o]> (m_entries m)) (m_inodes m) (m_ci m)
    (m_outstanding m) (m_trace m) (m_proposals m).
Definition set_inodes (inos : gmap Z minode) (ci : CheckpointInput) (m : jmgr) : jmgr :=
  mk_jmgr (m_jsuper m) (m_super_inflight m) (m_queue m) (m_free_pinned m)
    (m_flush_supported m) (m_entries m) inos ci (m_outstanding m) (m_trace m)
    (m_proposals m).
Definition set_io (out : gmap Z cmd) (tr : list event) (m : jmgr) : jmgr :=
  mk_jmgr (m_jsuper m) (m_super_inflight m) (m_queue m) (m_free_pinned m)
    (m_flush_supported m) (m_entries m) (m_inodes m) (m_ci m) out tr (m_proposals m).
Definition add_proposal (m : jmgr) : jmgr :=
  mk_jmgr (m_jsuper m) (m_super_inflight m) (m_queue m) (m_free_pinned m)
    (m_flush_supported m) (m_entries m) (m_inodes m) (m_ci m) (m_outstanding m)
    (m_trace m) (m_proposals m + 1).

(** [fua_flag]: the constructor sets it when the device supports flushes and
    nothing changes it or [flush_supported] later. *)
Definition fua_flag (m : jmgr) : bool := if m_flush_supported m then true else false.

Definition emit (e : event) (m : jmgr) : jmgr :=
  set_io (m_outstanding m) (m_trace m ++ [e]) m.

Definition j_with_state (s : JournalEntryState) (o : jentry) : jentry :=
  mk_jentry s (j_iles o) (j_start_block o) (j_nblocks o) (j_ustime o) (j_pinned o)
    (blocks_for_bitmap_set o) (blocks_for_bitmap_clear o) (inode_alloc_dealloc o).
Definition j_with_place (start n : Z) (o : jentry) : jentry :=
  mk_jentry (j_state o) (j_iles o) start n (j_ustime o) (j_pinned o)
    (blocks_for_bitmap_set o) (blocks_for_bitmap_clear o) (inode_alloc_dealloc o).
Definition j_with_ustime (t : Z) (o : jentry) : jentry :=
  mk_jentry (j_state o) (j_iles o) (j_start_block o) (j_nblocks o) t (j_pinned o)
    (blocks_for_bitmap_set o) (blocks_for_bitmap_clear o) (inode_alloc_dealloc o).
Definition j_with_pinned (b : bool) (o : jentry) : jentry :=
  mk_jentry (j_state o) (j_iles o) (j_start_block o) (j_nblocks o) (j_ustime o) b
    (blocks_for_bitmap_set o) (blocks_for_bitmap_clear o) (inode_alloc_dealloc o).
Definition j_with_blocks (s c : list Z) (a : gmap Z bool) (o : jentry) : jentry :=
  mk_jentry (j_state o) (j_iles o) (j_start_block o) (j_nblocks o) (j_ustime o)
    (j_pinned o) s c a.

Definition get_entry (i : Z) (m : jmgr) : res jentry :=
  match m_entries m !! i with Some o => Ok o | None => Crash OutOfRange end.

Definition get_minode (i : Z) (m : jmgr) : res minode :=
  match m_inodes m !! i with Some o => Ok o | None => Crash OutOfRange end.

(** The log entries of an entry as they are now. *)
Fixpoint logs_of (m : jmgr) (inos : list Z) : res (list InodeLogEntry) :=
  match inos with
  | [] => Ok []
  | i :: inos' =>
      let! mi := get_minode i m in
      let! l := logs_of m inos' in
      Ok (logEntry mi :: l)
  end.

Definition je_of (m : jmgr) (o : jentry) : res JournalEntry :=
  let! l := logs_of m (j_iles o) in
  Ok (mk_je (j_state o) l (j_start_block o) (j_nblocks o) (j_ustime o)).

(** ** Pinned buffers *)

Definition AcquirePinnedMem (i : Z) (m : jmgr) : res jmgr :=
  let! o := get_entry i m in
  let! _ := check (0 <? m_free_pinned m) in
  let! _ := check (negb (j_pinned o)) in
  Ok (set_free (m_free_pinned m - 1) (set_entry i (j_with_pinned true o) m)).

Definition ReleasePinnedMem (i : Z) (m : jmgr) : res jmgr :=
  let! o := get_entry i m in
  if negb (j_pinned o) then Ok m else
  let! _ := check (m_free_pinned m <? MAX_INFLIGHT_JOURNAL_TRANSACTIONS) in
  Ok (set_free (m_free_pinned m + 1) (set_entry i (j_with_pinned false o) m)).

(** ** After a successful journal write *)

Definition with_syncID (sid : Z) (d : Layout.cfs_dinode) : Layout.cfs_dinode :=
  Layout.mk_dinode (Layout.nlink d) (Layout.i_dentry_count d) (Layout.type d)
    (Layout.i_no d) (Layout.i_uid d) (Layout.i_gid d) (Layout.i_block_count d)
    (Layout.size d) sid (Layout.atime d) (Layout.ctime d) (Layout.mtime d)
    (Layout.ext_array d).

(** The reset at the end of [on_successful_journal_write]. *)
Definition reset_log (e : InodeLogEntry) : InodeLogEntry :=
  mk_log (l_inode e) (to_u64 (l_syncID e + 1)) 0 (l_mode e) (l_uid e) (l_gid e)
    (l_block_count e) (l_bitmap_op e) (l_dentry_count e) (l_nlink e) (l_size e)
    (l_atime e) (l_mtime e) (l_ctime e) 0 ∅ ∅ ∅.

Section Manager.
Context {it : UIter} {cfg : Layout.ExtentConfig}.

(** The return code of a submission to the device. *)
Context (spdk_rc : cmd -> Z) (spdk_super_rc : Z).

(** The loop over [blocks_add_or_del]. *)
Definition record_blocks (blocks : gmap Z bool) (o : jentry) : jentry :=
  let l := uiter blocks in
  j_with_blocks
    (blocks_for_bitmap_set o ++ (fst <$> filter (fun kv => snd kv = true) l))
    (blocks_for_bitmap_clear o ++ (fst <$> filter (fun kv => snd kv = false) l))
    (inode_alloc_dealloc o) o.

Definition on_successful_journal_write (i : Z) (m : jmgr) (ino : Z) : res jmgr :=
  let! o := get_entry i m in
  let! mi := get_minode ino m in
  let e := logEntry mi in
  let! (jd, blocks) := applyChangesTo e (jinodeData mi) ∅ in
  let o := record_blocks blocks o in
  let ci := m_ci m in
  let ci := mk_ci (ci_n_used ci) (<[l_inode e := None]> (inodesToCheckpoint ci))
              (bitmapsToCheckpoint ci) (inodeBitmapsToCheckpoint ci) in
  let o :=
    if has_flag (l_optfield_bitarr e) bitmap_op_IDX
    then j_with_blocks (blocks_for_bitmap_set o) (blocks_for_bitmap_clear o)
           (<[l_inode e := (l_bitmap_op e =? 1)]> (inode_alloc_dealloc o)) o
    else o in
  let mi := mk_minode (with_syncID (Layout.syncID jd) (inodeData mi)) jd (reset_log e) in
  Ok (set_entry i o (set_inodes (<[ino := mi]> (m_inodes m)) ci m)).

(** ** Device commands *)

Definition submit (i : Z) (c : cmd) (m : jmgr) : res jmgr :=
  let! _ := check (spdk_rc c =? 0) in
  Ok (set_io (<[i := c]> (m_outstanding m)) (m_trace m ++ [Submitted i c]) m).

Definition WriteJSuper (m : jmgr) : res jmgr :=
  match JSuper.TrySetWriteInProgress (m_jsuper m) with
  | (None, js) => Ok (set_super js (m_super_inflight m) m)
  | (Some (dj, nblocks_unaccounted), js) =>
      let! _ := check (spdk_super_rc =? 0) in
      Ok (emit (SuperSubmitted dj (fua_flag m)) (set_super js (Some nblocks_unaccounted) m))
  end.

Definition submit_body (now i : Z) (m : jmgr) : res jmgr :=
  let! o := get_entry i m in
  let! je := je_of m o in
  let '(img, _, je) := serializeBody now je in
  let o := j_with_ustime (ustime_serialized je) o in
  let! _ := check (j_nblocks o >=? 2) in
  submit i (WriteBodyCmd (j_start_block o) (j_nblocks o - 1) img false) (set_entry i o m).

Definition submit_commit (i : Z) (m : jmgr) : res jmgr :=
  let! o := get_entry i m in
  let! je := je_of m o in
  let commit_block := to_u64 (j_start_block o + j_nblocks o - 1) in
  submit i (WriteCommitCmd commit_block (serializeCommit je) (fua_flag m)) m.

Definition call_back (i : Z) (ok : bool) (m : jmgr) : jmgr := emit (CalledBack i ok) m.

(** ** The state machine of an entry *)

(** The blocks an entry needs: its body rounded up and the commit block. *)
Definition jblocks_required (je : JournalEntry) : Z :=
  (calcBodySize je + Layout.BSIZE - 1) / Layout.BSIZE + 1.

(** The body of [tryNextTransaction]; [process] is [processJournalEntry]. *)
Definition next_transaction (process : Z -> Z -> jmgr -> res jmgr) (now : Z) (m : jmgr) : res jmgr :=
  match m_queue m with
  | [] => Ok m
  | i :: queue' =>
      if m_free_pinned m =? 0 then Ok m else
      let! o := get_entry i m in
      let o := j_with_place 0 0 o in
      let m := set_entry i o m in
      let! je := je_of m o in
      let required := jblocks_required je in
      let fail m :=
        process now i
          (set_queue queue' (set_entry i (j_with_state FAILURE o) m)) in
      if required >? kMaxJournalEntrySize / Layout.BSIZE then fail m else
      let! (slot, js) := JSuper.AcquireNextNSlots required (m_jsuper m) in
      let m := set_super js (m_super_inflight m) m in
      if JSuper.no_space slot then fail m else
      if JSuper.retry_after_jsuper_written slot then Ok m else
      match JSuper.start_idx slot, JSuper.write_jsuper slot with
      | Some start, Some w =>
          let! m := if w then WriteJSuper m else Ok m in
          let d := JSuper.djsuper_ (m_jsuper m) in
          let! _ := check (JSuper.NoLoopArounds d start required) in
          let o := j_with_state WRITE_BODY
                     (j_with_place (JSuper.IdxToBlockNo d start) required o) in
          let! m := AcquirePinnedMem i (set_entry i o m) in
          process now i (set_queue queue' m)
      | _, _ => Crash AssertFail
      end
  end.

Fixpoint processJournalEntry (fuel : nat) (now i : Z) (m : jmgr) : res jmgr :=
  match fuel with
  | O => Crash NoFuel
  | S fuel' =>
      let tryNextTransaction m :=
        match fuel' with
        | O => Crash NoFuel
        | S fuel'' => next_transaction (processJournalEntry fuel'') now m
        end in
      let! o := get_entry i m in
      match j_state o with
      | FAILURE =>
          let! m := ReleasePinnedMem i m in
          tryNextTransaction (call_back i false m)
      | SUCCESS =>
          let! m := foldM (on_successful_journal_write i) (j_iles o) m in
          let! m := ReleasePinnedMem i m in
          tryNextTransaction (call_back i true m)
      | WRITE_BODY => submit_body now i m
      | FLUSH =>
          if m_flush_supported m then submit i FlushCmd m
          else submit_commit i (set_entry i (j_with_state WRITE_COMMIT o) m)
      | WRITE_COMMIT => submit_commit i m
      | _ => Crash AssertFail
      end
  end.

Definition tryNextTransaction (fuel : nat) (now : Z) (m : jmgr) : res jmgr :=
  match fuel with
  | O => Crash NoFuel
  | S fuel' => next_transaction (processJournalEntry fuel') now m
  end.

(** Enough for the entry at hand and every queued one to fail. *)
Definition handler_fuel (m : jmgr) : nat := (2 * length (m_queue m) + 4)%nat.

(** [writeComplete]; [err] is [spdk_nvme_cpl_is_error]. *)
Definition writeComplete (now i : Z) (err : bool) (m : jmgr) : res jmgr :=
  let! o := get_entry i m in
  let! s :=
    if err then Ok FAILURE else
    match j_state o with
    | WRITE_BODY => Ok FLUSH
    | FLUSH => Ok WRITE_COMMIT
    | WRITE_COMMIT => Ok SUCCESS
    | _ => Crash AssertFail
    end in
  processJournalEntry (handler_fuel m) now i (set_entry i (j_with_state s o) m).

(** The device reports the outstanding command of entry [i]. *)
Definition complete (now i : Z) (err : bool) (m : jmgr) : res jmgr :=
  match m_outstanding m !! i with
  | None => Ok m
  | Some c =>
      writeComplete now i err
        (set_io (delete i (m_outstanding m)) (m_trace m ++ [Completed i c (negb err)]) m)
  end.

(** Single-precision arithmetic of the checkpoint ratio. *)
Definition kJournalCheckpointRatio : spec_float := S754_finite false 15099494 (-24).
Definition above_checkpoint_ratio (used cap : Z) : bool :=
  SFltb kJournalCheckpointRatio (SFdiv 24 128 (f32_of_Z used) (f32_of_Z cap)).

(** With [CFS_JOURNAL(CHECKPOINTING)]: the proposal is counted. *)
Definition submitJournalEntry (now i : Z) (m : jmgr) : res jmgr :=
  let m := set_queue (m_queue m ++ [i]) m in
  let! m := tryNextTransaction (handler_fuel m) now m in
  let num_used := JSuper.Size (m_jsuper m) in
  if above_checkpoint_ratio num_used (JSuper.capacity (JSuper.djsuper_ (m_jsuper m)))
  then Ok (add_proposal m) else Ok m.

(** [while (!(je_queue.empty() || pinned_mem_queue_.empty()))
      jmgr->tryNextTransaction();]
    returning the number of iterations. *)
Fixpoint retry_loop (fuel : nat) (now : Z) (n : Z) (m : jmgr) : res (Z * jmgr) :=
  match fuel with
  | O => Crash NoFuel
  | S fuel' =>
      match m_queue m with
      | [] => Ok (n, m)
      | _ :: _ =>
          if m_free_pinned m =? 0 then Ok (n, m) else
          let! m := tryNextTransaction (handler_fuel m) now m in
          retry_loop fuel' now (n + 1) m
      end
  end.

Definition jsuper_write_complete (fuel : nat) (now : Z) (err : bool) (m : jmgr) : res jmgr :=
  match m_super_inflight m with
  | None => Ok m
  | Some old =>
      let! _ := check (negb err) in
      let! js := JSuper.OnWriteComplete old (m_jsuper m) in
      let m := emit SuperCompleted (set_super js None m) in
      let! (n, m) := retry_loop fuel now 0 m in
      if (n =? 0) && JSuper.ShouldWriteJSuper (m_jsuper m) then WriteJSuper m else Ok m
  end.

End Manager.

(** ** Executions *)

Definition new_jentry (inos : list Z) : jentry :=
  mk_jentry PREPARE inos 0 0 0 false [] [] ∅.

Section Executions.
Context {it : UIter} {cfg : Layout.ExtentConfig}.
Context (spdk_rc : cmd -> Z) (spdk_super_rc : Z).

(** One handler runs to completion, or the rest of the server changes the inodes
    and their logs, the super block (checkpoints, other workers) and the
    checkpoint input. *)
Inductive step : jmgr -> jmgr -> Prop :=
| step_submit now i inos m m' :
    m_entries m !! i = None ->
    submitJournalEntry spdk_rc spdk_super_rc now i (set_entry i (new_jentry inos) m) = Ok m' ->
    step m m'
| step_complete now i err m m' :
    complete spdk_rc spdk_super_rc now i err m = Ok m' -> step m m'
| step_super now err fuel m m' :
    jsuper_write_complete spdk_rc spdk_super_rc fuel now err m = Ok m' -> step m m'
| step_files inos ci m : step m (set_inodes inos ci m)
| step_ring js fl m : step m (set_super js fl m).

Definition init_jmgr (js : JSuper.JSuper) (flush : bool) (inos : gmap Z minode) : jmgr :=
  mk_jmgr js None [] MAX_INFLIGHT_JOURNAL_TRANSACTIONS flush ∅ inos
    new_CheckpointInput ∅ [] 0.

Inductive reachable : jmgr -> Prop :=
| reach_init js flush inos : reachable (init_jmgr js flush inos)
| reach_step m m' : reachable m -> step m m' -> reachable m'.

(** The steps as a script. *)
Inductive action : Type :=
| DoSubmit (now i : Z) (inos : list Z)
| DoComplete (now i : Z) (err : bool)
| DoSuper (now : Z) (err : bool)
| DoRing (js : JSuper.JSuper) (fl : option Z).

Definition do_action (m : jmgr) (a : action) : res jmgr :=
  match a with
  | DoSubmit now i inos =>
      match m_entries m !! i with
      | None => submitJournalEntry spdk_rc spdk_super_rc now i (set_entry i (new_jentry inos) m)
      | Some _ => Ok m
      end
  | DoComplete now i err => complete spdk_rc spdk_super_rc now i err m
  | DoSuper now err =>
      jsuper_write_complete spdk_rc spdk_super_rc (S (length (m_queue m))) now err m
  | DoRing js fl => Ok (set_super js fl m)
  end.

Definition exec (acts : list action) (m : jmgr) : jmgr :=
  match foldM do_action acts m with Ok m' => m' | Crash _ => m end.

End Executions.

(** ** The life of one entry *)

Inductive label : Type :=
| LSubmit (c : cmd)
| LDone (c : cmd) (ok : bool)
| LCall (ok : bool).

Definition label_of (i : Z) (e : event) : option label :=
  match e with
  | Submitted j c => if decide (i = j) then Some (LSubmit c) else None
  | Completed j c ok => if decide (i = j) then Some (LDone c ok) else None
  | CalledBack j ok => if decide (i = j) then Some (LCall ok) else None
  | SuperSubmitted _ _ | SuperCompleted => None
  end.

(** What happened to entry [i]. *)
Definition proj (i : Z) (tr : list event) : list label := omap (label_of i) tr.

(** The body is written with no flag. *)
Definition is_body (c : cmd) : Prop :=
  match c with WriteBodyCmd _ _ _ fua => fua = false | _ => False end.
Definition is_commit (c : cmd) : Prop :=
  match c with WriteCommitCmd _ _ _ => True | _ => False end.
(** ... written through the cache of a device that has one. *)
Definition commit_with (fua : bool) (c : cmd) : Prop :=
  match c with WriteCommitCmd _ _ f => f = fua | _ => False end.

(** Everything before the commit block is submitted. *)
Definition before_commit (flush : bool) (b : cmd) : list label :=
  [LSubmit b; LDone b true] ++
  (if flush then [LSubmit FlushCmd; LDone FlushCmd true] else []).

(** State, outstanding command and history of an entry between two handlers. *)
Inductive life (flush : bool) : JournalEntryState -> option cmd -> list label -> Prop :=
| life_new : life flush PREPARE None []
| life_body b : is_body b -> life flush WRITE_BODY (Some b) [LSubmit b]
| life_flush b : flush = true -> is_body b ->
    life flush FLUSH (Some FlushCmd) [LSubmit b; LDone b true; LSubmit FlushCmd]
| life_commit b c : is_body b -> commit_with flush c ->
    life flush WRITE_COMMIT (Some c) (before_commit flush b ++ [LSubmit c])
| life_success b c : is_body b -> commit_with flush c ->
    life flush SUCCESS None (before_commit flush b ++ [LSubmit c; LDone c true; LCall true])
| life_refused : life flush FAILURE None [LCall false]
| life_failed s c l : life flush s (Some c) l ->
    life flush FAILURE None (l ++ [LDone c false; LCall false]).

(** The same when [processJournalEntry] is entered. *)
Inductive ready (flush : bool) : JournalEntryState -> list label -> Prop :=
| ready_body : ready flush WRITE_BODY []
| ready_flush b : is_body b -> ready flush FLUSH [LSubmit b; LDone b true]
| ready_commit b : flush = true -> is_body b ->
    ready flush WRITE_COMMIT (before_commit flush b)
| ready_success b c : is_body b -> commit_with flush c ->
    ready flush SUCCESS (before_commit flush b ++ [LSubmit c; LDone c true])
| ready_refused : ready flush FAILURE []
| ready_failed s c l : life flush s (Some c) l ->
    ready flush FAILURE (l ++ [LDone c false]).

Definition entry_inv (m : jmgr) (i : Z) : Prop :=
  match m_entries m !! i with
  | Some o => life (m_flush_supported m) (j_state o) (m_outstanding m !! i) (proj i (m_trace m))
  | None => m_outstanding m !! i = None /\ proj i (m_trace m) = []
  end.

Definition queue_inv (m : jmgr) : Prop :=
  NoDup (m_queue m) /\
  forall i, i ∈ m_queue m -> exists o, m_entries m !! i = Some o /\ j_state o = PREPARE.

Definition inv (m : jmgr) : Prop := queue_inv m /\ forall i, entry_inv m i.

(** Invariant inside a handler that works on entry [i]. *)
Definition inv_except (i : Z) (m : jmgr) : Prop :=
  queue_inv m /\ i ∉ m_queue m /\ (forall j, j <> i -> entry_inv m j) /\
  m_outstanding m !! i = None /\
  exists o, m_entries m !! i = Some o /\
    ready (m_flush_supported m) (j_state o) (proj i (m_trace m)).

(** [m'] differs from [m] in entry [i] only, as far as entries go. *)
Record frame (i : Z) (m m' : jmgr) : Prop := mk_frame {
  fr_queue : m_queue m' = m_queue m;
  fr_flush : m_flush_supported m' = m_flush_supported m;
  fr_entries : forall j, j <> i -> m_entries m' !! j = m_entries m !! j;
  fr_out : forall j, j <> i -> m_outstanding m' !! j = m_outstanding m !! j;
  fr_proj : forall j, j <> i -> proj j (m_trace m') = proj j (m_trace m)
}.

(** ... and entry [i] is in the same state with the same history. *)
Record same_life (i : Z) (m m' : jmgr) : Prop := mk_same {
  sl_frame : frame i m m';
  sl_state : forall o, m_entries m !! i = Some o ->
    exists o', m_entries m' !! i = Some o' /\ j_state o' = j_state o /\
               j_iles o' = j_iles o;
  sl_out : m_outstanding m' !! i = m_outstanding m !! i;
  sl_proj : proj i (m_trace m') = proj i (m_trace m)
}.

(** ** Durability

    What the device documents: a flush makes the writes completed before its
    submission durable once it completes, a write with force-unit-access is
    durable when it completes, and without a volatile cache every completed write
    is.  [cache] says whether the device has a volatile cache, which is what
    [flush_supported] reports. *)
Definition flushed (tr : list event) (i : Z) (c : cmd) : Prop :=
  exists t1 t2 t3 t4 k,
    tr = t1 ++ Completed i c true :: t2 ++ Submitted k FlushCmd ::
           t3 ++ Completed k FlushCmd true :: t4.
Definition has_fua (c : cmd) : bool :=
  match c with
  | WriteBodyCmd _ _ _ fua | WriteCommitCmd _ _ fua => fua
  | FlushCmd => false
  end.
Definition durable (cache : bool) (tr : list event) (i : Z) (c : cmd) : Prop :=
  c <> FlushCmd /\ Completed i c true ∈ tr /\
  (cache = false \/ has_fua c = true \/ flushed tr i c).

(** ** Lemmas on frames *)

Lemma proj_app i t1 t2 : proj i (t1 ++ t2) = proj i t1 ++ proj i t2.
Proof. apply omap_app. Qed.

Lemma proj_snoc i t e :
  proj i (t ++ [e]) = proj i t ++ match label_of i e with Some l => [l] | None => [] end.
Proof. rewrite proj_app. f_equal. Qed.

Lemma frame_refl i m : frame i m m.
Proof. by split. Qed.

Lemma frame_trans i m1 m2 m3 : frame i m1 m2 -> frame i m2 m3 -> frame i m1 m3.
Proof.
  intros [q1 f1 e1 o1 p1] [q2 f2 e2 o2 p2].
  split; intros; rewrite ?q2, ?f2, ?e2, ?o2, ?p2 by done; auto.
Qed.

Lemma same_life_refl i m : same_life i m m.
Proof. split; [apply frame_refl | eauto | done | done]. Qed.

Lemma same_life_trans i m1 m2 m3 :
  same_life i m1 m2 -> same_life i m2 m3 -> same_life i m1 m3.
Proof.
  intros [f1 s1 o1 p1] [f2 s2 o2 p2]. split.
  - by eapply frame_trans.
  - intros o Ho. destruct (s1 _ Ho) as (o' & Ho' & E1 & E2).
    destruct (s2 _ Ho') as (o'' & Ho'' & E3 & E4). exists o''. split; [done |]. split; congruence.
  - congruence.
  - congruence.
Qed.

Lemma same_life_set_entry i m o o' :
  m_entries m !! i = Some o -> j_state o' = j_state o -> j_iles o' = j_iles o ->
  same_life i m (set_entry i o' m).
Proof.
  intros Ho Hs Hi. split; [split | | |]; try done; cbn.
  - intros j Hj. by apply lookup_insert_ne.
  - intros o1 Ho1. exists o'. rewrite lookup_insert_eq. split; [done |].
    split; congruence.
Qed.

Lemma frame_set_entry i m o' : frame i m (set_entry i o' m).
Proof. split; try done. intros j Hj. by apply lookup_insert_ne. Qed.

Lemma frame_emit i m e :
  (forall j, j <> i -> label_of j e = None) -> frame i m (emit e m).
Proof.
  intros He. split; try done. intros j Hj. cbn [emit set_io m_trace].
  rewrite proj_snoc, He by done. apply app_nil_r.
Qed.

Lemma same_life_super i m js fl : same_life i m (set_super js fl m).
Proof. split; [by split | eauto | done | done]. Qed.

Lemma same_life_queue i q m m' :
  same_life i m m' -> same_life i (set_queue q m) (set_queue q m').
Proof. intros [[] ? ? ?]. by repeat split. Qed.

Lemma frame_inv i m m' :
  frame i m m' -> i ∉ m_queue m -> queue_inv m ->
  (forall j, j <> i -> entry_inv m j) ->
  queue_inv m' /\ i ∉ m_queue m' /\ (forall j, j <> i -> entry_inv m' j).
Proof.
  intros [q f e o p] Hi [Hnd Hq] Hj. unfold queue_inv. rewrite q. split_and!; try done.
  - intros j Hin. rewrite e; [auto | congruence].
  - intros j Hne. unfold entry_inv. rewrite e, f, o, p by done. by apply Hj.
Qed.

Lemma same_life_except i m m' : same_life i m m' -> inv_except i m -> inv_except i m'.
Proof.
  intros [Hf Hs Ho Hp] (Hq & Hi & Hj & Hout & o & Hent & Hr).
  destruct (frame_inv i m m') as (Hq' & Hi' & Hj'); [done.. |].
  destruct (Hs _ Hent) as (o' & Hent' & Est & _).
  split_and!; try done; [congruence |]. exists o'. split; [done |].
  by rewrite Est, Hp, (fr_flush _ _ _ Hf).
Qed.

(** A handler ends: entry [i] has a proper life again. *)
Lemma frame_close i m m' o :
  frame i m m' -> i ∉ m_queue m -> queue_inv m ->
  (forall j, j <> i -> entry_inv m j) ->
  m_entries m' !! i = Some o ->
  life (m_flush_supported m) (j_state o) (m_outstanding m' !! i) (proj i (m_trace m')) ->
  inv m'.
Proof.
  intros Hf Hi Hq Hj Ho Hl. destruct (frame_inv i m m') as (Hq' & Hi' & Hj'); [done.. |].
  split; [done |]. intros j. destruct (decide (j = i)) as [-> | Hne]; [| auto].
  unfold entry_inv. rewrite Ho, (fr_flush _ _ _ Hf). done.
Qed.

(** ** Lemmas on the handlers *)

Lemma get_entry_ok i m o : get_entry i m = Ok o <-> m_entries m !! i = Some o.
Proof. unfold get_entry. destruct (m_entries m !! i); naive_solver. Qed.

Lemma ReleasePinnedMem_life i m m' : ReleasePinnedMem i m = Ok m' -> same_life i m m'.
Proof.
  unfold ReleasePinnedMem. intros H. inv_bind H. apply get_entry_ok in E.
  case_if_in H; [injection H as <-; apply same_life_refl |].
  inv_bind H. injection H as <-.
  destruct (same_life_set_entry i m a (j_with_pinned false a)) as [f st o p]; [done.. |].
  split; [by destruct f; split | done..].
Qed.

Lemma AcquirePinnedMem_life i m m' : AcquirePinnedMem i m = Ok m' -> same_life i m m'.
Proof.
  unfold AcquirePinnedMem. intros H. inv_bind H. apply get_entry_ok in E.
  inv_bind H. inv_bind H. injection H as <-.
  destruct (same_life_set_entry i m a (j_with_pinned true a)) as [f st o p]; [done.. |].
  split; [by destruct f; split | done..].
Qed.

(** Both handlers call each other with less fuel. *)
Lemma processJournalEntry_S `{UIter} `{Layout.ExtentConfig} spdk_rc spdk_super_rc fuel now i m :
  processJournalEntry spdk_rc spdk_super_rc (S fuel) now i m =
    let! o := get_entry i m in
    match j_state o with
    | FAILURE =>
        let! m := ReleasePinnedMem i m in
        tryNextTransaction spdk_rc spdk_super_rc fuel now (call_back i false m)
    | SUCCESS =>
        let! m := foldM (on_successful_journal_write i) (j_iles o) m in
        let! m := ReleasePinnedMem i m in
        tryNextTransaction spdk_rc spdk_super_rc fuel now (call_back i true m)
    | WRITE_BODY => submit_body spdk_rc now i m
    | FLUSH =>
        if m_flush_supported m then submit spdk_rc i FlushCmd m
        else submit_commit spdk_rc i (set_entry i (j_with_state WRITE_COMMIT o) m)
    | WRITE_COMMIT => submit_commit spdk_rc i m
    | _ => Crash AssertFail
    end.
Proof. reflexivity. Qed.

Section HandlerLemmas.
Context {it : UIter} {cfg : Layout.ExtentConfig}.
Context (spdk_rc : cmd -> Z) (spdk_super_rc : Z).

Lemma on_success_life i m ino m' :
  on_successful_journal_write i m ino = Ok m' -> same_life i m m'.
Proof.
  unfold on_successful_journal_write. intros H. inv_bind H. apply get_entry_ok in E.
  inv_bind H. inv_bind H. destruct a1 as [jd blocks]. injection H as <-.
  set (m1 := set_inodes _ _ m).
  apply same_life_trans with m1; [split; [by split | eauto | done | done] |].
  apply same_life_set_entry with a; [done | by case_if | by case_if].
Qed.

Lemma on_success_loop_life i inos m m' :
  foldM (on_successful_journal_write i) inos m = Ok m' -> same_life i m m'.
Proof.
  revert m. induction inos as [| ino inos IH]; intros m H; cbn [foldM] in H.
  - injection H as <-. apply same_life_refl.
  - inv_bind H. eapply same_life_trans; [by eapply on_success_life | by apply IH].
Qed.

Lemma WriteJSuper_life i m m' :
  WriteJSuper spdk_super_rc m = Ok m' -> same_life i m m'.
Proof.
  unfold WriteJSuper. destruct (JSuper.TrySetWriteInProgress _) as [[[dj n] |] js]; intros H.
  - inv_bind H. injection H as <-.
    eapply same_life_trans; [apply (same_life_super i) |].
    split; [by apply frame_emit | eauto | done |].
    cbn [emit set_io m_trace]. rewrite proj_snoc. apply app_nil_r.
  - injection H as <-. apply same_life_super.
Qed.

Lemma submit_inv i c m m' :
  submit spdk_rc i c m = Ok m' ->
  frame i m m' /\ m_entries m' = m_entries m /\ m_outstanding m' !! i = Some c /\
  proj i (m_trace m') = proj i (m_trace m) ++ [LSubmit c].
Proof.
  unfold submit. intros H. inv_bind H. injection H as <-. split_and!; try done.
  - split; try done.
    + intros j Hj. by apply lookup_insert_ne.
    + intros j Hj. cbn [set_io m_trace]. rewrite proj_snoc. cbn [label_of].
      rewrite decide_False by done. apply app_nil_r.
  - apply lookup_insert_eq.
  - cbn [set_io m_trace]. rewrite proj_snoc. cbn [label_of]. by rewrite decide_True.
Qed.

Lemma submit_body_inv now i m m' o :
  m_entries m !! i = Some o -> submit_body spdk_rc now i m = Ok m' ->
  exists b o', is_body b /\ frame i m m' /\ m_entries m' !! i = Some o' /\
    j_state o' = j_state o /\ m_outstanding m' !! i = Some b /\
    proj i (m_trace m') = proj i (m_trace m) ++ [LSubmit b].
Proof.
  intros Ho H. unfold submit_body in H. inv_bind H. apply get_entry_ok in E.
  inv_bind H. destruct (serializeBody now a0) as [[img n] je].
  inv_bind H. apply submit_inv in H as (Hf & He & Hout & Hp).
  rewrite Ho in E. injection E as <-.
  eexists _, (j_with_ustime _ o). split_and!; [| | | | exact Hout | exact Hp].
  - done.
  - eapply frame_trans; [apply frame_set_entry | exact Hf].
  - rewrite He. apply lookup_insert_eq.
  - done.
Qed.

Lemma submit_commit_inv i m m' :
  submit_commit spdk_rc i m = Ok m' ->
  exists c, commit_with (m_flush_supported m) c /\ frame i m m' /\
    m_entries m' = m_entries m /\ m_outstanding m' !! i = Some c /\
    proj i (m_trace m') = proj i (m_trace m) ++ [LSubmit c].
Proof.
  intros H. unfold submit_commit in H. inv_bind H. inv_bind H.
  apply submit_inv in H as (Hf & He & Hout & Hp).
  eexists. split_and!; [| exact Hf | exact He | exact Hout | exact Hp].
  unfold fua_flag. cbn. by destruct (m_flush_supported m).
Qed.

Lemma call_back_proj i ok m :
  frame i m (call_back i ok m) /\
  proj i (m_trace (call_back i ok m)) = proj i (m_trace m) ++ [LCall ok].
Proof.
  split.
  - apply frame_emit. intros j Hj. cbn. by rewrite decide_False.
  - unfold call_back. cbn [emit set_io m_trace]. rewrite proj_snoc. cbn [label_of].
    by rewrite decide_True.
Qed.

(** Calling back closes the life of the entry. *)
Lemma call_back_inv i ok m :
  inv_except i m ->
  (forall s l, ready (m_flush_supported m) s l ->
     (exists o, m_entries m !! i = Some o /\ j_state o = s) ->
     life (m_flush_supported m) s None (l ++ [LCall ok])) ->
  inv (call_back i ok m).
Proof.
  intros (Hq & Hi & Hj & Hout & o & Ho & Hr) Hl.
  destruct (call_back_proj i ok m) as [Hf Hp].
  eapply frame_close; [exact Hf | done.. | |].
  - exact Ho.
  - rewrite Hp. change (m_outstanding (call_back i ok m)) with (m_outstanding m).
    rewrite Hout. eapply Hl; eauto.
Qed.

Lemma process_submit_inv now i m m' o :
  inv_except i m -> m_entries m !! i = Some o -> j_state o = WRITE_BODY ->
  submit_body spdk_rc now i m = Ok m' -> inv m'.
Proof.
  intros (Hq & Hi & Hj & Hout & o1 & Ho1 & Hr) Ho Hs H.
  rewrite Ho in Ho1. injection Ho1 as <-. rewrite Hs in Hr.
  destruct (submit_body_inv _ _ _ _ _ Ho H) as (b & o' & Hb & Hf & Ho' & Hs' & Hout' & Hp).
  eapply frame_close; [exact Hf | done.. | exact Ho' |].
  inversion Hr as [E1 E2 | | | | |]. rewrite Hs', Hs, Hout', Hp, <- E2. by constructor.
Qed.

Lemma process_commit_inv i m m' o :
  inv_except i m -> m_entries m !! i = Some o -> j_state o = WRITE_COMMIT ->
  submit_commit spdk_rc i m = Ok m' -> inv m'.
Proof.
  intros (Hq & Hi & Hj & Hout & o1 & Ho1 & Hr) Ho Hs H.
  rewrite Ho in Ho1. injection Ho1 as <-. rewrite Hs in Hr.
  destruct (submit_commit_inv _ _ _ H) as (c & Hc & Hf & He & Hout' & Hp).
  eapply frame_close; [exact Hf | done.. | by rewrite He |].
  inversion Hr as [| | b Hfl Hb E1 E2 | | |]. rewrite Hs, Hout', Hp, <- E2. by constructor.
Qed.

Lemma process_flush_inv i m m' o :
  inv_except i m -> m_entries m !! i = Some o -> j_state o = FLUSH ->
  (if m_flush_supported m then submit spdk_rc i FlushCmd m
   else submit_commit spdk_rc i (set_entry i (j_with_state WRITE_COMMIT o) m)) = Ok m' ->
  inv m'.
Proof.
  intros (Hq & Hi & Hj & Hout & o1 & Ho1 & Hr) Ho Hs H.
  rewrite Ho in Ho1. injection Ho1 as <-. rewrite Hs in Hr.
  inversion Hr as [| b Hb E1 E2 | | | |]. destruct (m_flush_supported m) eqn:Hfl.
  - apply submit_inv in H as (Hf & He & Hout' & Hp).
    eapply frame_close; [exact Hf | done.. | by rewrite He |].
    rewrite Hfl, Hs, Hout', Hp, <- E2. by constructor.
  - destruct (submit_commit_inv _ _ _ H) as (c & Hc & Hf & He & Hout' & Hp).
    eapply frame_close; [eapply frame_trans; [apply frame_set_entry | exact Hf] | done.. | |].
    + rewrite He. apply lookup_insert_eq.
    + rewrite Hfl, Hout', Hp. change (m_trace (set_entry _ _ m)) with (m_trace m).
      rewrite <- E2. cbn [j_with_state j_state].
      cbn [set_entry m_flush_supported] in Hc. rewrite Hfl in Hc.
      by apply (life_commit false b c).
Qed.

Lemma same_life_inv i m m' o :
  m_entries m !! i = Some o -> same_life i m m' -> inv m -> inv m'.
Proof.
  intros Ho [[q f e out p] st out' p'] [[Hnd Hq] Hj].
  destruct (st _ Ho) as (o' & Ho' & Es & _). split.
  - unfold queue_inv. rewrite q. split; [done |]. intros j Hin.
    destruct (decide (j = i)) as [-> | Hne]; [| rewrite e by done; auto].
    destruct (Hq _ Hin) as (o1 & Ho1 & Hs1). exists o'. split; congruence.
  - intros j. specialize (Hj j). unfold entry_inv in *. rewrite f.
    destruct (decide (j = i)) as [-> | Hne]; [| by rewrite e, out, p].
    rewrite Ho in Hj. by rewrite Ho', Es, out', p'.
Qed.

(** The front of the queue is taken out to be processed. *)
Lemma dequeue_except i q m o o' :
  inv m -> m_queue m = i :: q -> m_entries m !! i = Some o ->
  j_state o' = FAILURE \/ j_state o' = WRITE_BODY ->
  inv_except i (set_queue q (set_entry i o' m)).
Proof.
  intros [[Hnd Hq] Hj] Hqe Ho Hs. rewrite Hqe in *. apply NoDup_cons in Hnd as [Hni Hnd].
  destruct (Hq i) as (o1 & Ho1 & Hs1); [left |].
  pose proof (Hj i) as Hi. unfold entry_inv in Hi. rewrite Ho1, Hs1 in Hi.
  assert (proj i (m_trace m) = [] /\ m_outstanding m !! i = None) as [Epr Eout]
    by (by inversion Hi).
  split_and!.
  - split; [done |]. intros j Hin. cbn. rewrite lookup_insert_ne by set_solver.
    apply Hq. by right.
  - done.
  - intros j Hne. specialize (Hj j). unfold entry_inv in *. cbn. by rewrite lookup_insert_ne.
  - done.
  - exists o'. split; [apply lookup_insert_eq |]. cbn [set_queue set_entry m_trace].
    rewrite Epr. destruct Hs as [-> | ->]; constructor.
Qed.

Lemma process_step fuel now i m m' :
  (forall now m m', inv m -> tryNextTransaction spdk_rc spdk_super_rc fuel now m = Ok m' -> inv m') ->
  inv_except i m ->
  processJournalEntry spdk_rc spdk_super_rc (S fuel) now i m = Ok m' -> inv m'.
Proof.
  intros IH Hx H. rewrite processJournalEntry_S in H. inv_bind H. apply get_entry_ok in E.
  assert (Hcb : forall m1 ok, same_life i m m1 ->
            (ok = true /\ j_state a = SUCCESS \/ ok = false /\ j_state a = FAILURE) ->
            inv (call_back i ok m1)).
  { intros m1 ok Hsl Hok. apply call_back_inv; [by eapply same_life_except |].
    intros st l Hr (o & Ho & <-). destruct (sl_state _ _ _ Hsl _ E) as (o' & Ho' & Es & _).
    rewrite Ho in Ho'. injection Ho' as <-. rewrite Es in *.
    destruct Hok as [[-> Hs] | [-> Hs]]; rewrite Hs in *; inversion Hr; subst.
    - rewrite <- app_assoc. by constructor.
    - by constructor.
    - rewrite <- app_assoc. by econstructor. }
  destruct (j_state a) eqn:Hs; try discriminate H.
  - by eapply process_submit_inv.
  - by eapply process_flush_inv.
  - by eapply process_commit_inv.
  - inv_bind H. inv_bind H. eapply IH; [| exact H]. apply Hcb; [| by left].
    eapply same_life_trans; [by eapply on_success_loop_life | by apply ReleasePinnedMem_life].
  - inv_bind H. eapply IH; [| exact H]. apply Hcb; [by apply ReleasePinnedMem_life | by right].
Qed.

Lemma try_step fuel now m m' :
  (forall now i m m', inv_except i m ->
     processJournalEntry spdk_rc spdk_super_rc fuel now i m = Ok m' -> inv m') ->
  inv m -> tryNextTransaction spdk_rc spdk_super_rc (S fuel) now m = Ok m' -> inv m'.
Proof.
  intros IH Hinv H. cbn [tryNextTransaction] in H. unfold next_transaction in H.
  destruct (m_queue m) as [| i q] eqn:Hq; [by injection H as <- |].
  case_if_in H; [by injection H as <- |]. inv_bind H. apply get_entry_ok in E.
  set (o := j_with_place 0 0 a) in *. set (m1 := set_entry i o m) in *.
  assert (S1 : same_life i m m1) by (by eapply same_life_set_entry).
  assert (E1 : m_entries m1 !! i = Some o) by apply lookup_insert_eq.
  pose proof (same_life_inv _ _ _ _ E S1 Hinv) as Hinv1.
  assert (Hfail : forall m2, inv m2 -> m_queue m2 = i :: q -> m_entries m2 !! i = Some o ->
    processJournalEntry spdk_rc spdk_super_rc fuel now i
      (set_queue q (set_entry i (j_with_state FAILURE o) m2)) = Ok m' -> inv m').
  { intros m2 Hi2 Hq2 Ho2. apply IH. eapply dequeue_except; eauto. }
  inv_bind H. case_if_in H; [by apply (Hfail m1) |].
  inv_bind H. destruct a1 as [slot js]. set (m2 := set_super js _ m1) in *.
  pose proof (same_life_inv i m1 m2 o E1 (same_life_super _ _ _ _) Hinv1) as Hinv2.
  case_if_in H; [by apply (Hfail m2) |]. case_if_in H; [by injection H as <- |].
  destruct (JSuper.start_idx slot) as [st |]; [| done].
  destruct (JSuper.write_jsuper slot) as [w |]; [| done]. inv_bind H.
  assert (S3 : same_life i m2 a1).
  { destruct w; [by eapply WriteJSuper_life |].
    match goal with Hw : Ok m2 = Ok a1 |- _ => injection Hw as <- end.
    apply same_life_refl. }
  pose proof (same_life_inv i m2 a1 o E1 S3 Hinv2) as Hinv3.
  inv_bind H. inv_bind H. apply IH in H; [done |].
  destruct (sl_state _ _ _ S3 o E1) as (o3 & Ho3 & _).
  eapply same_life_except; [eapply same_life_queue, AcquirePinnedMem_life; eassumption |].
  eapply (dequeue_except i q a1 o3); [done | | exact Ho3 | by right].
  by rewrite (fr_queue _ _ _ (sl_frame _ _ _ S3)).
Qed.

Lemma handlers_inv fuel :
  (forall now i m m', inv_except i m ->
     processJournalEntry spdk_rc spdk_super_rc fuel now i m = Ok m' -> inv m') /\
  (forall now m m', inv m ->
     tryNextTransaction spdk_rc spdk_super_rc fuel now m = Ok m' -> inv m').
Proof.
  induction fuel as [| fuel [IH1 IH2]]; [split; intros; discriminate |]. split; intros.
  - by eapply process_step.
  - by eapply try_step.
Qed.

Lemma submit_step_inv now i inos m m' :
  inv m -> m_entries m !! i = None ->
  submitJournalEntry spdk_rc spdk_super_rc now i (set_entry i (new_jentry inos) m) = Ok m' ->
  inv m'.
Proof.
  intros [[Hnd Hq] Hj] Hi H. unfold submitJournalEntry in H. inv_bind H.
  apply (proj2 (handlers_inv _)) in E.
  - case_if_in H; injection H as <-; [| done]. destruct E as [? ?]. by split.
  - assert (Hni : i ∉ m_queue m).
    { intros Hin. destruct (Hq _ Hin) as (o & Ho & _). congruence. }
    split; [split |].
    + apply NoDup_app. split_and!; [done | set_solver | apply NoDup_singleton].
    + cbn. intros j [Hin | ->%list_elem_of_singleton]%elem_of_app.
      * rewrite lookup_insert_ne by congruence. auto.
      * rewrite lookup_insert_eq. by eexists.
    + intros j. specialize (Hj j). unfold entry_inv in *.
      cbn [set_queue set_entry m_entries m_outstanding m_trace m_flush_supported].
      destruct (decide (j = i)) as [-> | Hne]; [| by rewrite lookup_insert_ne].
      rewrite Hi in Hj. destruct Hj as [-> ->]. rewrite lookup_insert_eq. constructor.
Qed.

(** The completion of the outstanding command makes the entry ready again. *)
Lemma complete_ready flush st c l (err : bool) :
  life flush st (Some c) l ->
  exists st', (if err then Ok FAILURE else
     match st with
     | WRITE_BODY => Ok FLUSH
     | FLUSH => Ok WRITE_COMMIT
     | WRITE_COMMIT => Ok SUCCESS
     | _ => Crash AssertFail
     end) = Ok st' /\ ready flush st' (l ++ [LDone c (negb err)]).
Proof.
  intros Hl. destruct err; [eexists; split; [done | by econstructor] |].
  inversion Hl; subst; eexists; (split; [done |]).
  - by constructor.
  - by apply (ready_commit true b).
  - rewrite <- app_assoc. by constructor.
Qed.

Lemma complete_step_inv now i err m m' :
  inv m -> complete spdk_rc spdk_super_rc now i err m = Ok m' -> inv m'.
Proof.
  intros [[Hnd Hq] Hj] H. unfold complete in H.
  destruct (m_outstanding m !! i) as [c |] eqn:Hout; [| injection H as <-; by split].
  pose proof (Hj i) as Hi. unfold entry_inv in Hi. rewrite Hout in Hi.
  destruct (m_entries m !! i) as [o |] eqn:Ho; [| by destruct Hi].
  destruct (complete_ready _ _ _ _ err Hi) as (st' & Hst & Hr).
  unfold writeComplete, get_entry in H. cbn [set_io m_entries] in H. rewrite Ho in H.
  cbn [res_bind] in H. rewrite Hst in H. cbn [res_bind] in H.
  eapply (proj1 (handlers_inv _)); [| exact H]. clear H. split_and!.
  - split; [done |]. intros j Hin. cbn. destruct (decide (j = i)) as [-> | Hne].
    + destruct (Hq _ Hin) as (o' & Ho' & Hs'). rewrite Ho in Ho'. injection Ho' as <-.
      rewrite Hs' in Hi. inversion Hi.
    + rewrite lookup_insert_ne by done. auto.
  - cbn. intros Hin. destruct (Hq _ Hin) as (o' & Ho' & Hs').
    rewrite Ho in Ho'. injection Ho' as <-. rewrite Hs' in Hi. inversion Hi.
  - intros j Hne. specialize (Hj j). unfold entry_inv in *.
    cbn [set_entry set_io m_entries m_outstanding m_trace m_flush_supported].
    rewrite lookup_insert_ne, lookup_delete_ne, proj_snoc by done. cbn [label_of].
    rewrite decide_False by done. by rewrite app_nil_r.
  - cbn. apply lookup_delete_eq.
  - eexists. split; [apply lookup_insert_eq |].
    cbn [set_entry set_io m_trace m_flush_supported j_with_state j_state].
    rewrite proj_snoc. cbn [label_of]. by rewrite decide_True.
Qed.

Lemma inv_super js fl m : inv m -> inv (set_super js fl m).
Proof. intros [? ?]. by split. Qed.

Lemma inv_emit_super e m :
  (forall i, label_of i e = None) -> inv m -> inv (emit e m).
Proof.
  intros He [Hq Hj]. split; [done |]. intros i. specialize (Hj i). unfold entry_inv in *.
  cbn [emit set_io m_entries m_outstanding m_trace m_flush_supported].
  by rewrite proj_snoc, He, app_nil_r.
Qed.

Lemma retry_loop_inv fuel now n m n' m' :
  inv m -> retry_loop spdk_rc spdk_super_rc fuel now n m = Ok (n', m') -> inv m'.
Proof.
  revert n m. induction fuel as [| fuel IH]; intros n m Hinv H; [done |].
  cbn [retry_loop] in H. destruct (m_queue m) eqn:Hq; [by injection H as <- <- |].
  case_if_in H; [by injection H as <- <- |]. inv_bind H.
  eapply IH; [| exact H]. by eapply (proj2 (handlers_inv _)).
Qed.

Lemma WriteJSuper_inv m m' : inv m -> WriteJSuper spdk_super_rc m = Ok m' -> inv m'.
Proof.
  intros Hinv. unfold WriteJSuper.
  destruct (JSuper.TrySetWriteInProgress _) as [[[dj n] |] js]; intros H.
  - inv_bind H. injection H as <-. apply inv_emit_super; [done | by apply inv_super].
  - injection H as <-. by apply inv_super.
Qed.

Lemma super_step_inv fuel now err m m' :
  inv m -> jsuper_write_complete spdk_rc spdk_super_rc fuel now err m = Ok m' -> inv m'.
Proof.
  intros Hinv H. unfold jsuper_write_complete in H.
  destruct (m_super_inflight m); [| by injection H as <-].
  inv_bind H. inv_bind H. inv_bind H. destruct a1 as [n m1].
  assert (inv m1).
  { eapply retry_loop_inv; [| eassumption]. apply inv_emit_super; [done |]. by apply inv_super. }
  case_if_in H; [by eapply WriteJSuper_inv | by injection H as <-].
Qed.

Lemma reachable_inv m : reachable spdk_rc spdk_super_rc m -> inv m.
Proof.
  induction 1 as [js fl inos | m m' _ Hinv Hstep].
  - split; [split; [constructor | intros i Hi%elem_of_nil; done] |]. by intros i.
  - inversion Hstep; subst.
    + by eapply submit_step_inv.
    + by eapply complete_step_inv.
    + by eapply super_step_inv.
    + destruct Hinv. by split.
    + by apply inv_super.
Qed.

End HandlerLemmas.

(** ** Lemmas on traces *)

Lemma proj_split i l1 x l2 tr :
  proj i tr = l1 ++ x :: l2 ->
  exists t1 e t2, tr = t1 ++ e :: t2 /\ label_of i e = Some x /\
    proj i t1 = l1 /\ proj i t2 = l2.
Proof.
  revert l1. induction tr as [| e tr IH]; intros l1 H; [by destruct l1 |].
  change (e :: tr) with ([e] ++ tr) in H. rewrite proj_app in H.
  unfold proj at 1 in H. cbn [omap list_omap] in H.
  destruct (label_of i e) as [y |] eqn:He; cbn [app] in H.
  - destruct l1 as [| z l1]; injection H as Hy H.
    + subst. exists [], e, tr. by rewrite He.
    + destruct (IH _ H) as (t1 & e' & t2 & -> & He' & H1 & H2).
      exists (e :: t1), e', t2. split_and!; try done.
      unfold proj in *. cbn [omap list_omap]. rewrite He. by f_equal.
  - destruct (IH _ H) as (t1 & e' & t2 & -> & He' & H1 & H2).
    exists (e :: t1), e', t2. split_and!; try done.
    unfold proj in *. cbn [omap list_omap]. by rewrite He.
Qed.

Lemma label_done i e c ok : label_of i e = Some (LDone c ok) -> e = Completed i c ok.
Proof. destruct e; cbn; try case_decide; naive_solver. Qed.

Lemma label_submit i e c : label_of i e = Some (LSubmit c) -> e = Submitted i c.
Proof. destruct e; cbn; try case_decide; naive_solver. Qed.

Lemma proj_done i l1 c ok l2 tr :
  proj i tr = l1 ++ LDone c ok :: l2 -> Completed i c ok ∈ tr.
Proof.
  intros (t1 & e & t2 & -> & He%label_done & _)%proj_split. subst. set_solver.
Qed.

(** Enough of the script of an entry has run for its body to be durable. *)
Lemma script_durable flush i b l tr :
  is_body b -> proj i tr = before_commit flush b ++ l -> durable flush tr i b.
Proof.
  intros Hb H. split; [by intros -> |].
  split; [by eapply (proj_done _ [LSubmit _]), H |].
  destruct flush; [right; right | by left].
  change (before_commit true _ ++ l) with
    ([LSubmit b] ++ LDone b true :: LSubmit FlushCmd :: LDone FlushCmd true :: l) in H.
  apply proj_split in H as (t1 & e1 & t2 & -> & ->%label_done & _ & H).
  apply (proj_split _ []) in H as (t2' & e2 & t3 & -> & ->%label_submit & _ & H).
  apply (proj_split _ []) in H as (t3' & e3 & t4 & -> & ->%label_done & _ & H).
  by exists t1, t2', t3', t4, i.
Qed.

(** [l] is [l1], then [x], then [l2]: at most one element of a script fits. *)
Ltac script_cases :=
  repeat match goal with
  | H : [] = _ ++ _ :: _ |- _ => by destruct (app_cons_not_nil _ _ _ H)
  | H : _ :: _ = ?l1 ++ _ :: _ |- _ =>
      let y := fresh "y" in
      destruct l1 as [| y l1]; cbn [app] in H; injection H; clear H; intros;
        subst; try done
  | H1 : is_body ?c, H2 : is_commit ?c |- _ => by destruct c
  | H1 : is_body ?c, H2 : commit_with _ ?c |- _ => by destruct c
  | H : is_commit FlushCmd |- _ => by case H
  end.

Lemma life_commit_prefix flush s out l l1 c l2 :
  life flush s out l -> is_commit c -> l = l1 ++ LSubmit c :: l2 ->
  exists b, is_body b /\ l1 = before_commit flush b.
Proof.
  intros Hl Hc. revert l1 l2.
  induction Hl as [| b Hb | b Hf Hb | b c' Hb Hc' | b c' Hb Hc' | | s c' l Hl IH];
    intros l1 l2 H; unfold before_commit in *.
  - script_cases.
  - script_cases.
  - script_cases.
  - destruct flush; cbn [app] in *; script_cases; exists b; eauto.
  - destruct flush; cbn [app] in *; script_cases; exists b; eauto.
  - script_cases.
  - destruct (app_eq_inv _ _ _ _ H) as [(k & -> & Hk) | (k & -> & Hk)].
    + destruct k; [done |]. injection Hk as <- Hk. eauto.
    + script_cases.
Qed.

Lemma life_success_prefix flush s out l l1 l2 :
  life flush s out l -> l = l1 ++ LCall true :: l2 ->
  exists b c, is_body b /\ commit_with flush c /\
    l1 = before_commit flush b ++ [LSubmit c; LDone c true].
Proof.
  intros Hl. revert l1 l2.
  induction Hl as [| b Hb | b Hf Hb | b c' Hb Hc' | b c' Hb Hc' | | s c' l Hl IH];
    intros l1 l2 H; unfold before_commit in *.
  - script_cases.
  - script_cases.
  - script_cases.
  - destruct flush; cbn [app] in *; script_cases.
  - destruct flush; cbn [app] in *; script_cases; exists b, c'; eauto.
  - script_cases.
  - destruct (app_eq_inv _ _ _ _ H) as [(k & -> & Hk) | (k & -> & Hk)].
    + destruct k; [done |]. injection Hk as <- Hk. eauto.
    + script_cases.
Qed.

Lemma proj_life m i l :
  inv m -> proj i (m_trace m) = l -> l = [] \/
  exists s out, life (m_flush_supported m) s out l.
Proof.
  intros [_ Hj] <-. specialize (Hj i). unfold entry_inv in Hj.
  destruct (m_entries m !! i); [right; eauto | left; naive_solver].
Qed.

Lemma proj_mid i t1 e t2 x :
  label_of i e = Some x -> proj i (t1 ++ e :: t2) = proj i t1 ++ x :: proj i t2.
Proof. intros He. rewrite proj_app. f_equal. unfold proj. cbn. by rewrite He. Qed.


Lemma life_call_last flush s out l l1 ok l2 :
  life flush s out l -> l = l1 ++ LCall ok :: l2 -> l2 = [] /\ out = None.
Proof.
  intros Hl. revert l1 ok l2.
  induction Hl as [| b Hb | b Hf Hb | b c' Hb Hc' | b c' Hb Hc' | | s c' l Hl IH];
    intros l1 ok l2 H; unfold before_commit in *.
  - script_cases.
  - script_cases.
  - script_cases.
  - destruct flush; cbn [app] in *; script_cases.
  - destruct flush; cbn [app] in *; script_cases.
  - script_cases.
  - destruct (app_eq_inv _ _ _ _ H) as [(k & -> & Hk) | (k & -> & Hk)].
    + destruct k; [done |]. injection Hk as <- Hk.
      by destruct (IH l1 ok k eq_refl) as [_ ?].
    + script_cases.
Qed.

(** ** Lemmas on fuel *)

Section Fuel.
Context {it : UIter} {cfg : Layout.ExtentConfig}.
Context (spdk_rc : cmd -> Z) (spdk_super_rc : Z).

Lemma runs_get_entry i m : runs (get_entry i m).
Proof. unfold get_entry. runs_tac. Qed.

Lemma runs_get_minode i m : runs (get_minode i m).
Proof. unfold get_minode. runs_tac. Qed.

Lemma runs_je_of m o : runs (je_of m o).
Proof.
  unfold je_of. apply runs_bind; [| done]. generalize (j_iles o) as l.
  induction l as [| i l IH]; [done |]. cbn [logs_of].
  apply runs_bind; [apply runs_get_minode |]. intros mi _. apply runs_bind; done.
Qed.

Lemma runs_applyChangesTo e d b : runs (applyChangesTo e d b).
Proof.
  unfold applyChangesTo. apply runs_bind.
  - apply runs_foldM. intros [[? ?] ?] [? ?]. unfold apply_add. runs_tac.
  - intros st _. apply runs_bind; [| by intros [[? ?] ?]].
    apply runs_foldM. intros [[? ?] ?] [? ?]. unfold apply_del. runs_tac.
Qed.

Lemma runs_on_success i m ino : runs (on_successful_journal_write i m ino).
Proof.
  unfold on_successful_journal_write. apply runs_bind; [apply runs_get_entry |].
  intros o _. apply runs_bind; [apply runs_get_minode |]. intros mi _.
  apply runs_bind; [apply runs_applyChangesTo |]. by intros [jd blocks].
Qed.

Lemma runs_ReleasePinnedMem i m : runs (ReleasePinnedMem i m).
Proof.
  unfold ReleasePinnedMem. apply runs_bind; [apply runs_get_entry |]. intros. runs_tac.
Qed.

Lemma runs_AcquirePinnedMem i m : runs (AcquirePinnedMem i m).
Proof.
  unfold AcquirePinnedMem. apply runs_bind; [apply runs_get_entry |]. intros. runs_tac.
Qed.

Lemma runs_submit i c m : runs (submit spdk_rc i c m).
Proof. unfold submit. runs_tac. Qed.

Lemma runs_submit_body now i m : runs (submit_body spdk_rc now i m).
Proof.
  unfold submit_body. apply runs_bind; [apply runs_get_entry |]. intros o _.
  apply runs_bind; [apply runs_je_of |]. intros je _.
  destruct (serializeBody now je) as [[? ?] ?]. apply runs_bind; [apply runs_check |].
  intros. apply runs_submit.
Qed.

Lemma runs_submit_commit i m : runs (submit_commit spdk_rc i m).
Proof.
  unfold submit_commit. apply runs_bind; [apply runs_get_entry |]. intros o _.
  apply runs_bind; [apply runs_je_of |]. intros je _. apply runs_submit.
Qed.

Lemma runs_Acquire n js : runs (JSuper.AcquireNextNSlots n js).
Proof.
  unfold JSuper.AcquireNextNSlots, JSuper.UnsafeEnsureNextContiguousRegion,
    JSuper.UnsafeNItemsEnqueued. cbv zeta. runs_tac.
Qed.

Lemma runs_WriteJSuper m : runs (WriteJSuper spdk_super_rc m).
Proof. unfold WriteJSuper. runs_tac. Qed.

Lemma WriteJSuper_queue m m' :
  WriteJSuper spdk_super_rc m = Ok m' -> m_queue m' = m_queue m.
Proof. intros H. apply (fr_queue 0), sl_frame. by eapply WriteJSuper_life. Qed.

#[local] Hint Resolve runs_get_entry runs_je_of runs_ReleasePinnedMem
  runs_AcquirePinnedMem runs_submit runs_submit_body runs_submit_commit runs_Acquire
  runs_WriteJSuper runs_on_success runs_foldM : ufs.

(** Each call works on an entry that it has taken off the queue. *)
Lemma handlers_run fuel :
  (forall now i m, (2 * length (m_queue m) + 2 <= fuel)%nat ->
     runs (processJournalEntry spdk_rc spdk_super_rc fuel now i m)) /\
  (forall now m, (2 * length (m_queue m) + 1 <= fuel)%nat ->
     runs (tryNextTransaction spdk_rc spdk_super_rc fuel now m)).
Proof.
  induction fuel as [| fuel [IHp IHt]]; (split; [intros now i m Hf | intros now m Hf]); [lia.. | |].
  - rewrite processJournalEntry_S. apply runs_bind; [auto with ufs |]. intros o Ho.
    destruct (j_state o); auto with ufs; try done.
    + runs_tac; auto with ufs.
    + apply runs_bind; [auto with ufs |]. intros m1 H1%on_success_loop_life.
      apply runs_bind; [auto with ufs |]. intros m2 H2%ReleasePinnedMem_life.
      apply IHt. destruct H1 as [[E1 _ _ _ _] _ _ _], H2 as [[E2 _ _ _ _] _ _ _].
      cbn. rewrite E2, E1. lia.
    + apply runs_bind; [auto with ufs |]. intros m2 H2%ReleasePinnedMem_life.
      apply IHt. destruct H2 as [[E2 _ _ _ _] _ _ _]. cbn. rewrite E2. lia.
  - cbn [tryNextTransaction]. unfold next_transaction. destruct (m_queue m) as [| i q] eqn:Hq; [done |].
    cbn [length] in Hf. destruct (_ =? 0); [done |].
    apply runs_bind; [auto with ufs |]. intros o Ho.
    apply runs_bind; [auto with ufs |]. intros je Hje.
    destruct (_ >? _); [apply IHp; cbn; lia |].
    apply runs_bind; [auto with ufs |]. intros [slot js] _.
    destruct (JSuper.no_space slot); [apply IHp; cbn; lia |].
    destruct (JSuper.retry_after_jsuper_written slot); [done |].
    destruct (JSuper.start_idx slot) as [start |], (JSuper.write_jsuper slot) as [w |]; try done.
    apply runs_bind; [destruct w; auto with ufs |]. intros m1 _.
    apply runs_bind; [auto with ufs |]. intros _ _.
    apply runs_bind; [auto with ufs |]. intros m2 _.
    apply IHp. cbn. lia.
Qed.

(** The head of the queue must wait for a write of the super block. *)
Definition throttled (m : jmgr) : Prop :=
  exists i q o je, m_queue m = i :: q /\ m_free_pinned m <> 0 /\
    m_entries m !! i = Some o /\ je_of m (j_with_place 0 0 o) = Ok je /\
    jblocks_required je <= kMaxJournalEntrySize / Layout.BSIZE /\
    JSuper.UnsafeCanAllocateNSlots (JSuper.djsuper_ (m_jsuper m)) (jblocks_required je) = true /\
    JSuper.kMaxUnaccountedBlocks <= JSuper.nblocks_unaccounted_ (m_jsuper m).

Lemma logs_of_set_entry i o m inos : logs_of (set_entry i o m) inos = logs_of m inos.
Proof. induction inos as [| j inos IH]; [done |]. cbn [logs_of]. by rewrite IH. Qed.

Lemma logs_of_set_super js fl m inos : logs_of (set_super js fl m) inos = logs_of m inos.
Proof. induction inos as [| j inos IH]; [done |]. cbn [logs_of]. by rewrite IH. Qed.

Lemma je_of_set_entry i o o' m : je_of (set_entry i o m) o' = je_of m o'.
Proof. unfold je_of. by rewrite logs_of_set_entry. Qed.

Lemma je_of_set_super js fl o m : je_of (set_super js fl m) o = je_of m o.
Proof. unfold je_of. by rewrite logs_of_set_super. Qed.

(** Trying the next transaction leaves a throttled manager throttled. *)
Lemma throttled_try fuel now m :
  throttled m ->
  exists m', tryNextTransaction spdk_rc spdk_super_rc (S fuel) now m = Ok m' /\ throttled m'.
Proof.
  intros (i & q & o & je & Hq & Hf & Ho & Hje & Hsz & Hsp & Hun).
  cbn [tryNextTransaction]. unfold next_transaction. rewrite Hq, (proj2 (Z.eqb_neq _ _) Hf).
  unfold get_entry. rewrite Ho. cbn [res_bind]. rewrite je_of_set_entry, Hje. cbn [res_bind].
  destruct (_ >? _) eqn:E; [apply Z.gtb_lt in E; lia |].
  unfold JSuper.AcquireNextNSlots. cbn [set_entry m_jsuper].
  rewrite Hsp. unfold JSuper.UnsafeShouldWaitTillJSuperWritten.
  rewrite Z.geb_leb, (proj2 (Z.leb_le _ _) Hun). cbn.
  eexists. split; [done |]. exists i, q, (j_with_place 0 0 o), je.
  split_and!; try done; [apply lookup_insert_eq |].
  change (j_with_place 0 0 (j_with_place 0 0 o)) with (j_with_place 0 0 o).
  by rewrite je_of_set_super, je_of_set_entry.
Qed.

Lemma throttled_loop fuel now n m :
  throttled m -> retry_loop spdk_rc spdk_super_rc fuel now n m = Crash NoFuel.
Proof.
  revert n m. induction fuel as [| fuel IH]; intros n m Hm; [done |].
  cbn [retry_loop]. pose proof Hm as (i & q & o & je & Hq & Hf & _).
  rewrite Hq, (proj2 (Z.eqb_neq _ _) Hf).
  destruct (throttled_try (2 * length (m_queue m) + 3) now m Hm) as (m' & E & Hm').
  unfold handler_fuel.
  replace (2 * length (m_queue m) + 4)%nat with (S (2 * length (m_queue m) + 3)) by lia.
  rewrite E. cbn [res_bind]. by apply IH.
Qed.

End Fuel.

(** ** Properties *)

Section Properties.
Context {it : UIter} {cfg : Layout.ExtentConfig}.
Context (spdk_rc : cmd -> Z) (spdk_super_rc : Z).

Lemma do_action_reachable a m m' :
  reachable spdk_rc spdk_super_rc m -> do_action spdk_rc spdk_super_rc m a = Ok m' ->
  reachable spdk_rc spdk_super_rc m'.
Proof.
  intros Hr H. destruct a; cbn [do_action] in H.
  - destruct (m_entries m !! i) eqn:E; [by injection H as <- |].
    eapply reach_step; [done |]. by eapply step_submit.
  - eapply reach_step; [done |]. by eapply step_complete.
  - eapply reach_step; [done |]. by eapply step_super.
  - injection H as <-. eapply reach_step; [done | constructor].
Qed.

Lemma exec_reachable acts m :
  reachable spdk_rc spdk_super_rc m ->
  reachable spdk_rc spdk_super_rc (exec spdk_rc spdk_super_rc acts m).
Proof.
  intros Hr. unfold exec. destruct (foldM _ acts m) as [m' |] eqn:E; [| done].
  revert m Hr E. induction acts as [| a acts IH]; intros m Hr E; cbn [foldM] in E.
  - by injection E as <-.
  - inv_bind E. eapply IH; [| done]. by eapply do_action_reachable.
Qed.

(** C30. Write-ahead order.  Whatever the order of submissions, completions, super
    block writes and changes by the rest of the server, when the manager submits
    the commit block of a journal entry, the body of that entry is already
    durable: its write has completed, and on a device with a volatile cache a
    flush submitted after that completion has completed too. *)
Theorem commit_after_durable_body m i blk data fua t1 t2 :
  reachable spdk_rc spdk_super_rc m ->
  m_trace m = t1 ++ Submitted i (WriteCommitCmd blk data fua) :: t2 ->
  exists b, is_body b /\ durable (m_flush_supported m) t1 i b.
Proof.
  intros Hinv%reachable_inv Htr.
  assert (Hl : label_of i (Submitted i (WriteCommitCmd blk data fua)) =
    Some (LSubmit (WriteCommitCmd blk data fua))) by (cbn; by rewrite decide_True).
  pose proof (proj_mid i t1 _ t2 _ Hl) as Hp. rewrite <- Htr in Hp.
  destruct (proj_life _ _ _ Hinv Hp) as [H | (s & out & H)]; [by destruct (proj i t1) |].
  destruct (life_commit_prefix _ _ _ _ _ (WriteCommitCmd blk data fua) _ H I eq_refl) as (b & Hb & E).
  exists b. split; [done |]. eapply (script_durable _ _ _ []); [done |].
  by rewrite app_nil_r.
Qed.

(** C32. Durability of a successful journal write.  When a journal entry is called
    back with success, its body and its commit block are both durable, and the
    body was durable before the commit block was submitted; on a device with a
    volatile cache the commit block is durable because its write carried
    force-unit-access. *)
Theorem success_means_durable m i t1 t2 :
  reachable spdk_rc spdk_super_rc m ->
  m_trace m = t1 ++ CalledBack i true :: t2 ->
  exists b c u1 u2, is_body b /\ is_commit c /\ t1 = u1 ++ Submitted i c :: u2 /\
    durable (m_flush_supported m) u1 i b /\ durable (m_flush_supported m) t1 i c.
Proof.
  intros Hinv%reachable_inv Htr.
  assert (Hl : label_of i (CalledBack i true) = Some (LCall true))
    by (cbn; by rewrite decide_True).
  pose proof (proj_mid i t1 _ t2 _ Hl) as Hp. rewrite <- Htr in Hp.
  destruct (proj_life _ _ _ Hinv Hp) as [H | (s & out & H)]; [by destruct (proj i t1) |].
  destruct (life_success_prefix _ _ _ _ _ _ H eq_refl) as (b & c & Hb & Hc & E).
  pose proof E as Hd.
  change [LSubmit c; LDone c true] with ([LSubmit c] ++ [LDone c true]) in Hd.
  rewrite app_assoc in Hd. apply proj_done in Hd.
  apply proj_split in E as (u1 & e & u2 & -> & ->%label_submit & E1 & _).
  exists b, c, u1, u2.
  split; [done |]. split; [by destruct c |]. split; [done |]. split.
  - eapply (script_durable _ _ _ []); [done |]. by rewrite app_nil_r.
  - destruct c as [| | blk data fua]; try done. cbn in Hc. subst fua.
    split; [done |]. split; [done |].
    destruct (m_flush_supported m); [by right; left | by left].
Qed.

(** One callback, and nothing after it.  An entry is called back at most once,
    with no command outstanding, and no later event concerns it, so the callback
    may free the entry. *)
Theorem callback_is_last m i ok t1 t2 :
  reachable spdk_rc spdk_super_rc m ->
  m_trace m = t1 ++ CalledBack i ok :: t2 ->
  m_outstanding m !! i = None /\ forall e, e ∈ t2 -> label_of i e = None.
Proof.
  intros Hinv%reachable_inv Htr.
  assert (Hl : label_of i (CalledBack i ok) = Some (LCall ok))
    by (cbn; by rewrite decide_True).
  pose proof (proj_mid i t1 _ t2 _ Hl) as Hp. rewrite <- Htr in Hp.
  destruct Hinv as [_ Hj]. specialize (Hj i). unfold entry_inv in Hj.
  destruct (m_entries m !! i).
  - destruct (life_call_last _ _ _ _ _ _ _ Hj Hp) as [Hnil Hout]. split; [done |].
    intros e He. destruct (label_of i e) eqn:Ee; [| done].
    apply list_elem_of_split in He as (v1 & v2 & ->).
    rewrite (proj_mid _ _ _ _ _ Ee) in Hnil. by destruct (proj i v1).
  - destruct Hj as [_ Hj]. rewrite Hj in Hp. by destruct (proj i t1).
Qed.

(** The recursion between the handlers is bounded by the queue.
    [processJournalEntry] and [tryNextTransaction] call each other once per queued
    entry at most, so both entry points return (or fail an assertion) within the
    fuel they are given, in every state. *)
Theorem handlers_terminate now i err m :
  runs (submitJournalEntry spdk_rc spdk_super_rc now i m) /\
  runs (writeComplete spdk_rc spdk_super_rc now i err m).
Proof.
  split.
  - unfold submitJournalEntry. cbv zeta. apply runs_bind.
    + apply (proj2 (handlers_run spdk_rc spdk_super_rc _)). unfold handler_fuel. lia.
    + intros a _. by destruct (above_checkpoint_ratio _ _).
  - unfold writeComplete. apply runs_bind; [apply runs_get_entry |]. intros o _.
    apply runs_bind; [by destruct err, (j_state o) |]. intros st _.
    apply (proj1 (handlers_run spdk_rc spdk_super_rc _)).
    unfold handler_fuel. cbn. lia.
Qed.

(** The completion of a super block write can spin for ever.  If, after the
    completed write is accounted for, the unaccounted blocks still reach the hard
    limit and the first queued entry fits in the journal, then every call of
    [tryNextTransaction] in the completion's loop returns without taking the entry
    off the queue and without writing the super block, and the loop never ends,
    with any fuel. *)
Theorem jsuper_write_complete_spins fuel now m old js :
  m_super_inflight m = Some old ->
  JSuper.OnWriteComplete old (m_jsuper m) = Ok js ->
  throttled (emit SuperCompleted (set_super js None m)) ->
  jsuper_write_complete spdk_rc spdk_super_rc fuel now false m = Crash NoFuel.
Proof.
  intros Hfl Hjs Hth. unfold jsuper_write_complete. rewrite Hfl. cbn [check negb res_bind].
  rewrite Hjs. cbn [res_bind]. by rewrite throttled_loop.
Qed.

End Properties.

(** ** Witnesses *)

(** One inode with [sample_log], on a device with a volatile cache. *)
Definition demo_init : jmgr :=
  init_jmgr (JSuper.new_JSuper (JSuper.empty_journal 1000 1000)) true
    {[5 := mk_minode zero_inode zero_inode sample_log]}.

(** An entry is submitted and its body, flush and commit complete. *)
Definition demo : jmgr :=
  exec (it := sorted_iter) (cfg := Layout.cfg_default) (fun _ => 0) 0
    [DoSubmit 7 0 [5]; DoComplete 8 0 false; DoComplete 9 0 false; DoComplete 10 0 false]
    demo_init.

Definition demo_commit : Z * list cell :=
  match m_trace demo !! 4%nat with
  | Some (Submitted _ (WriteCommitCmd blk data _)) => (blk, data)
  | _ => (0, [])
  end.

Lemma demo_reachable :
  reachable (it := sorted_iter) (cfg := Layout.cfg_default) (fun _ => 0) 0 demo.
Proof. apply exec_reachable. constructor. Qed.

Lemma commit_after_durable_body_witness :
  exists b, is_body b /\ durable true (take 4 (m_trace demo)) 0 b.
Proof.
  apply (commit_after_durable_body (it := sorted_iter) (cfg := Layout.cfg_default)
           (fun _ => 0) 0 demo 0 (fst demo_commit) (snd demo_commit) true
           (take 4 (m_trace demo)) (drop 5 (m_trace demo))).
  - apply demo_reachable.
  - vm_compute. reflexivity.
Defined.

Lemma success_means_durable_witness :
  exists b c u1 u2, is_body b /\ is_commit c /\
    take 6 (m_trace demo) = u1 ++ Submitted 0 c :: u2 /\
    durable true u1 0 b /\ durable true (take 6 (m_trace demo)) 0 c.
Proof.
  apply (success_means_durable (it := sorted_iter) (cfg := Layout.cfg_default)
           (fun _ => 0) 0 demo 0 (take 6 (m_trace demo)) []).
  - apply demo_reachable.
  - vm_compute. reflexivity.
Defined.

Lemma callback_is_last_witness :
  m_outstanding demo !! 0 = None /\ forall e : event, e ∈ [] -> label_of 0 e = None.
Proof.
  apply (callback_is_last (it := sorted_iter) (cfg := Layout.cfg_default)
           (fun _ => 0) 0 demo 0 true (take 6 (m_trace demo)) []).
  - apply demo_reachable.
  - vm_compute. reflexivity.
Defined.

(** A checkpoint succeeds while the super block is being written. *)
Definition busy_super : JSuper.JSuper :=
  match JSuper.run (replicate 1281 (JSuper.OpAcquire 32) ++
          [JSuper.OpWriteJSuper; JSuper.OpPrepareCheckpoint; JSuper.OpRelease;
           JSuper.OpSetLastCheckpoint 9])
          (JSuper.init_run 1000 60000) with
  | Ok r => JSuper.jsuper r
  | Crash _ => JSuper.new_JSuper (JSuper.empty_journal 1000 60000)
  end.

Definition demo_busy : jmgr :=
  exec (it := sorted_iter) (cfg := Layout.cfg_default) (fun _ => 0) 0
    [DoRing busy_super (Some 40992); DoSubmit 7 0 [5]] demo_init.

Lemma jsuper_write_complete_spins_witness :
  jsuper_write_complete (it := sorted_iter) (cfg := Layout.cfg_default) (fun _ => 0) 0
    1000 8 false demo_busy = Crash NoFuel.
Proof.
  apply (jsuper_write_complete_spins (it := sorted_iter) (cfg := Layout.cfg_default)
           (fun _ => 0) 0 1000 8 demo_busy 40992
           (JSuper.mk_jsuper (JSuper.djsuper_ busy_super) 81952 false)).
  - vm_compute. reflexivity.
  - vm_compute. reflexivity.
  - exists 0, [], (new_jentry [5]), (mk_je PREPARE [sample_log] 0 0 0).
    split_and!; vm_compute; congruence.
Defined.

End JournalMgr.
