(* ===== verification/BlockBuf.v ===== *)
(** * Block buffer cache

    [BlockBufferItem] and [BlockBuffer] of [cfs/src/BlockBuffer.cc]: the slots,
    the replacement list with the map of iterators into it, the free slots, the
    index of the blocks and of the dirty blocks of each inode, the flushes and
    the move of the blocks of an inode between the buffers of two workers.  A slot
    is an object of a heap that buffers share.  A node of the [std::list] has an
    identity, so that an iterator to a node that is gone is a fault. *)

From Stdlib Require Import ZArith Lia Bool SpecFloat.
From stdpp Require Import base list option gmap.
From S2P Require Import Prelude Unordered.

Module BlockBuf.

(** ** Data *)

Inductive BlockBufferStatus : Type :=
| BLOCK_BUF_NONE
| BLOCK_BUF_VALID
| BLOCK_BUF_LOCKED.

#[export] Instance status_eq_dec : EqDecision BlockBufferStatus.
Proof. solve_decision. Defined.

Record BlockBufferItem : Type := mk_item {
  dataPtr : Z;
  idx : Z;
  blockSize : Z;
  blockNo : Z;
  itemIndex : Z;
  isDirty : bool;
  inMem : bool;
  status : BlockBufferStatus;
  lastFlushBlockReqSeqNo : Z
}.

Definition BLOCK_BUF_LOCK_GRAB_DEFAULT : Z := -1.
Definition BLOCK_BUF_LOCK_GRAB_YES : Z := 1.
Definition BLOCK_BUF_LOCK_GRAB_NO : Z := 0.

(** A node of [_cache_items_list]. *)
Record lnode : Type := mk_lnode {
  n_id : Z;
  n_bno : Z;
  n_item : Z
}.

Record bstats : Type := mk_stats {
  reportStat : bool;
  totalReqNumWithinInterval : Z;
  totalHitNumWithinInterval : Z;
  totalFlushSubmitWithinInterval : Z
}.

Record BlockBuffer : Type := mk_buf {
  blockNum : Z;
  cache_items_list : list lnode;
  cache_items_map : gmap Z Z;
  next_node : Z;
  freeItems : list Z;
  dirtyItemNum : Z;
  blockIndexMap : gmap Z (gset Z);
  dirtyIndexMap : gmap Z (gset Z);
  dirtyFlushRatio : spec_float;
  dirtyFlushOneTimeSubmitNum : Z;
  bgFlushSent : bool;
  numFgFlushInflight : Z;
  numFgFlushInflightLimit : Z;
  waitForFlushIndexes : gset Z;
  stats : bstats
}.

Notation heap := (gmap Z BlockBufferItem).

(** ** Updates of single fields *)

Definition set_cache (l : list lnode) (m : gmap Z Z) (next : Z) (free : list Z)
    (b : BlockBuffer) : BlockBuffer :=
  mk_buf (blockNum b) l m next free (dirtyItemNum b) (blockIndexMap b) (dirtyIndexMap b)
    (dirtyFlushRatio b) (dirtyFlushOneTimeSubmitNum b) (bgFlushSent b)
    (numFgFlushInflight b) (numFgFlushInflightLimit b) (waitForFlushIndexes b) (stats b).
Definition set_blockIndexMap (bm : gmap Z (gset Z)) (b : BlockBuffer) : BlockBuffer :=
  mk_buf (blockNum b) (cache_items_list b) (cache_items_map b) (next_node b) (freeItems b)
    (dirtyItemNum b) bm (dirtyIndexMap b) (dirtyFlushRatio b)
    (dirtyFlushOneTimeSubmitNum b) (bgFlushSent b) (numFgFlushInflight b)
    (numFgFlushInflightLimit b) (waitForFlushIndexes b) (stats b).
Definition set_dirty_maps (n : Z) (dm : gmap Z (gset Z)) (b : BlockBuffer) : BlockBuffer :=
  mk_buf (blockNum b) (cache_items_list b) (cache_items_map b) (next_node b) (freeItems b)
    n (blockIndexMap b) dm (dirtyFlushRatio b) (dirtyFlushOneTimeSubmitNum b)
    (bgFlushSent b) (numFgFlushInflight b) (numFgFlushInflightLimit b)
    (waitForFlushIndexes b) (stats b).
Definition set_flush (bg : bool) (fg : Z) (w : gset Z) (st : bstats) (b : BlockBuffer)
    : BlockBuffer :=
  mk_buf (blockNum b) (cache_items_list b) (cache_items_map b) (next_node b) (freeItems b)
    (dirtyItemNum b) (blockIndexMap b) (dirtyIndexMap b) (dirtyFlushRatio b)
    (dirtyFlushOneTimeSubmitNum b) bg fg (numFgFlushInflightLimit b) w st.

(** ** Slots *)

Definition get_item (h : heap) (i : Z) : res BlockBufferItem :=
  match h !! i with Some it => Ok it | None => Crash OutOfRange end.

Definition with_dirty (d : bool) (it : BlockBufferItem) : BlockBufferItem :=
  mk_item (dataPtr it) (idx it) (blockSize it) (blockNo it) (itemIndex it) d (inMem it)
    (status it) (lastFlushBlockReqSeqNo it).
Definition setStatus (s : BlockBufferStatus) (it : BlockBufferItem) : BlockBufferItem :=
  mk_item (dataPtr it) (idx it) (blockSize it) (blockNo it) (itemIndex it) (isDirty it)
    (inMem it) s (lastFlushBlockReqSeqNo it).
Definition setInMem (m : bool) (it : BlockBufferItem) : BlockBufferItem :=
  mk_item (dataPtr it) (idx it) (blockSize it) (blockNo it) (itemIndex it) (isDirty it)
    m (status it) (lastFlushBlockReqSeqNo it).
Definition setBlockNo (no : Z) (it : BlockBufferItem) : BlockBufferItem :=
  mk_item (dataPtr it) (idx it) (blockSize it) no (itemIndex it) (isDirty it) (inMem it)
    (status it) (lastFlushBlockReqSeqNo it).
Definition setIndex (index : Z) (it : BlockBufferItem) : BlockBufferItem :=
  mk_item (dataPtr it) (idx it) (blockSize it) (blockNo it) index (isDirty it) (inMem it)
    (status it) (lastFlushBlockReqSeqNo it).
Definition with_seqno (n : Z) (it : BlockBufferItem) : BlockBufferItem :=
  mk_item (dataPtr it) (idx it) (blockSize it) (blockNo it) (itemIndex it) (isDirty it)
    (inMem it) (status it) n.

(** Returns the previous value. *)
Definition setDirty (d : bool) (it : BlockBufferItem) : bool * BlockBufferItem :=
  (isDirty it, with_dirty d it).

Definition blockFetchedCallback (it : BlockBufferItem) : bool * BlockBufferItem :=
  if decide (status it = BLOCK_BUF_LOCKED)
  then (true, setStatus BLOCK_BUF_VALID (setInMem true it))
  else (false, it).

Definition blockWritenCallback (blockReqSeqNo : Z) (it : BlockBufferItem)
    : bool * BlockBufferItem :=
  if negb (lastFlushBlockReqSeqNo it =? blockReqSeqNo) then (false, it)
  else (true, snd (setDirty false it)).

Definition setLastFlushBlockReqSeqNo (seqno : Z) (it : BlockBufferItem)
    : bool * BlockBufferItem :=
  if seqno >? lastFlushBlockReqSeqNo it then (true, with_seqno seqno it) else (false, it).

(** ** The list and its iterators *)

Definition find_node (l : list lnode) (n : Z) : res lnode :=
  match list_find (fun nd => n_id nd = n) l with
  | Some (_, nd) => Ok nd
  | None => Crash OutOfRange
  end.

Definition erase_node (l : list lnode) (n : Z) : res (list lnode) :=
  let! _ := find_node l n in
  Ok (filter (fun nd => n_id nd <> n) l).

(** [splice(begin(), list, it)] *)
Definition splice_front (l : list lnode) (n : Z) : res (list lnode) :=
  let! nd := find_node l n in
  let! l' := erase_node l n in
  Ok (nd :: l').

(** [map[k].erase(i)] and [map[k].emplace(i)]: [operator[]] makes the key. *)
Definition set_erase (k i : Z) (m : gmap Z (gset Z)) : gmap Z (gset Z) :=
  <[k := default ∅ (m !! k) ∖ {[i]}]> m.
Definition set_emplace (k i : Z) (m : gmap Z (gset Z)) : gmap Z (gset Z) :=
  <[k := default ∅ (m !! k) ∪ {[i]}]> m.

(** ** Operations of [BlockBuffer] *)

(** The constructor with [initMem]; [memPtr] is the memory of the slots, and the
    slots get the numbers from [base] on in the heap. *)
Fixpoint initMem (n : nat) (i memPtr bsz base : Z) (h : heap) : list Z * heap :=
  match n with
  | O => ([], h)
  | S n' =>
      let it := mk_item (memPtr + i * bsz) i bsz 0 0 false false BLOCK_BUF_NONE 0 in
      let '(free, h') := initMem n' (i + 1) memPtr bsz base (<[base + i := it]> h) in
      (base + i :: free, h')
  end.

Definition kNumFgFlushLimit : Z := 10.

Definition new_BlockBuffer (num bsz memPtr base : Z) (rep : bool) (h : heap)
    : BlockBuffer * heap :=
  let '(free, h') := initMem (Z.to_nat num) 0 memPtr bsz base h in
  (mk_buf num [] ∅ 0 free 0 ∅ ∅ (f32_of_Z 1) 0 false 0 kNumFgFlushLimit ∅
     (mk_stats rep 0 0 0), h').

Definition BLOCK_BUF_STATS_REQ_THR : Z := 200000.

(** Printing the statistics resets the counters. *)
Definition count_req (s : bstats) : bstats :=
  if reportStat s then
    let s := if totalReqNumWithinInterval s >=? BLOCK_BUF_STATS_REQ_THR
             then mk_stats true 0 0 0 else s in
    mk_stats true (to_u64 (totalReqNumWithinInterval s + 1)) (totalHitNumWithinInterval s)
      (totalFlushSubmitWithinInterval s)
  else s.

Definition count_hit (s : bstats) : bstats :=
  if reportStat s then
    mk_stats true (totalReqNumWithinInterval s) (to_u64 (totalHitNumWithinInterval s + 1))
      (totalFlushSubmitWithinInterval s)
  else s.

Definition count_flush (s : bstats) : bstats :=
  if reportStat s then
    mk_stats true (totalReqNumWithinInterval s) (totalHitNumWithinInterval s)
      (to_u64 (totalFlushSubmitWithinInterval s + 1))
  else s.

Definition set_stats (st : bstats) (b : BlockBuffer) : BlockBuffer :=
  set_flush (bgFlushSent b) (numFgFlushInflight b) (waitForFlushIndexes b) st b.

(** The search for a slot to replace, from the least recently used on; the second
    result is [hasDirty]. *)
Fixpoint replace_scan (h : heap) (rl : list lnode) (hasDirty : bool)
    : res (option lnode * bool) :=
  match rl with
  | [] => Ok (None, hasDirty)
  | nd :: rl' =>
      let! it := get_item h (n_item nd) in
      if decide (status it <> BLOCK_BUF_LOCKED) then
        if negb (isDirty it) then Ok (Some nd, hasDirty) else replace_scan h rl' hasDirty
      else replace_scan h rl' (hasDirty || isDirty it)
  end.

(** The slot moves from one index to another; 0 is no index. *)
Definition reindex (orig_index new_index i : Z) (bm : gmap Z (gset Z)) : gmap Z (gset Z) :=
  if orig_index =? new_index then bm else
  let bm := if orig_index =? 0 then bm else set_erase orig_index i bm in
  if new_index =? 0 then bm else set_emplace new_index i bm.

(** The last part of [getBlock], when the lock is grabbed. *)
Definition grab (bno new_index i : Z) (h : heap) (b : BlockBuffer)
    : res (heap * BlockBuffer) :=
  let! it := get_item h i in
  let orig_index := itemIndex it in
  let it := setStatus BLOCK_BUF_LOCKED (setBlockNo bno it) in
  let! front := match cache_items_list b with
                | nd :: _ => Ok (n_id nd)
                | [] => Crash OutOfRange
                end in
  let b := set_cache (cache_items_list b) (<[bno := front]> (cache_items_map b))
             (next_node b) (freeItems b) b in
  let b := set_blockIndexMap (reindex orig_index new_index i (blockIndexMap b)) b in
  Ok (<[i := setIndex new_index it]> h, b).

Record got : Type := mk_got {
  g_item : option Z;
  g_lockGrabbed : Z;
  g_hasDirty : bool
}.

Definition getBlock (bno new_index : Z) (h : heap) (b : BlockBuffer)
    : res (got * heap * BlockBuffer) :=
  let b := set_stats (count_req (stats b)) b in
  match cache_items_map b !! bno with
  | Some n =>
      let! nd := find_node (cache_items_list b) n in
      let i := n_item nd in
      let! it := get_item h i in
      let hit b := set_stats (count_hit (stats b)) b in
      if decide (status it = BLOCK_BUF_LOCKED) then
        Ok (mk_got (Some i) BLOCK_BUF_LOCK_GRAB_NO false, h, hit b)
      else
        let! l := splice_front (cache_items_list b) n in
        let b := hit (set_cache l (cache_items_map b) (next_node b) (freeItems b) b) in
        let! (h, b) := grab bno new_index i h b in
        Ok (mk_got (Some i) BLOCK_BUF_LOCK_GRAB_YES false, h, b)
  | None =>
      let! (found, hasDirty, b) :=
        match freeItems b, cache_items_list b with
        | i :: free, l =>
            Ok (Some i, false,
                set_cache (mk_lnode (next_node b) bno i :: l) (cache_items_map b)
                  (next_node b + 1) free b)
        | [], [] => Ok (None, false, b)
        | [], l =>
            let! (last, hasDirty) := replace_scan h (reverse l) false in
            match last with
            | Some nd =>
                let i := n_item nd in
                let! it := get_item h i in
                let m := delete (blockNo it) (cache_items_map b) in
                let! l := erase_node l (n_id nd) in
                Ok (Some i, hasDirty,
                    set_cache (mk_lnode (next_node b) bno i :: l) m (next_node b + 1) [] b)
            | None => Crash AssertFail
            end
        end in
      match found with
      | Some i =>
          let! it := get_item h i in
          let! (h, b) := grab bno new_index i (<[i := setInMem false it]> h) b in
          Ok (mk_got (Some i) BLOCK_BUF_LOCK_GRAB_YES hasDirty, h, b)
      | None => Ok (mk_got None BLOCK_BUF_LOCK_GRAB_DEFAULT hasDirty, h, b)
      end
  end.

Definition getBlockWithoutAccess (bno : Z) (b : BlockBuffer) : res (option Z) :=
  match cache_items_map b !! bno with
  | Some n => let! nd := find_node (cache_items_list b) n in Ok (Some (n_item nd))
  | None => Ok None
  end.

(** [releaseBlock] of a slot; the result is -1 on an unlocked one. *)
Definition releaseBlock (i : Z) (h : heap) : res (Z * heap) :=
  let! it := get_item h i in
  if decide (status it = BLOCK_BUF_LOCKED)
  then Ok (1, <[i := setStatus BLOCK_BUF_VALID it]> h)
  else Ok (-1, h).

(** [releaseBlock] of a block number *)
Definition releaseBlockNo (bno : Z) (h : heap) (b : BlockBuffer) : res (Z * heap) :=
  match cache_items_map b !! bno with
  | Some n =>
      let! nd := find_node (cache_items_list b) n in
      let! it := get_item h (n_item nd) in
      if decide (status it = BLOCK_BUF_LOCKED)
      then Ok (1, <[n_item nd := setStatus BLOCK_BUF_VALID it]> h)
      else Ok (-1, h)
  | None => Ok (-1, h)
  end.

(** A negative count throws. *)
Definition adjustDirtyItemNum (delta : Z) (b : BlockBuffer) : res BlockBuffer :=
  let n := dirtyItemNum b + delta in
  if n <? 0 then Crash AssertFail else Ok (set_dirty_maps n (dirtyIndexMap b) b).

Definition setItemDirty (i : Z) (d : bool) (index : Z) (h : heap) (b : BlockBuffer)
    : res (bool * heap * BlockBuffer) :=
  let! it := get_item h i in
  let '(orig, it) := setDirty d it in
  let h := <[i := it]> h in
  if Bool.eqb orig d then Ok (orig, h, b)
  else if orig then
    let! b := adjustDirtyItemNum (-1) b in
    Ok (orig, h, set_dirty_maps (dirtyItemNum b) (set_erase index i (dirtyIndexMap b)) b)
  else
    let! b := adjustDirtyItemNum 1 b in
    Ok (orig, h, set_dirty_maps (dirtyItemNum b) (set_emplace index i (dirtyIndexMap b)) b).

Definition checkIfFgFlushInflight (b : BlockBuffer) : bool := numFgFlushInflight b >? 0.

Definition checkIfFgFlushInflightReachLimit (b : BlockBuffer) : bool :=
  numFgFlushInflight b >=? numFgFlushInflightLimit b.

Definition addFgFlushInflightNum (n : Z) (b : BlockBuffer) : BlockBuffer :=
  set_flush (bgFlushSent b) (numFgFlushInflight b + n) (waitForFlushIndexes b) (stats b) b.

Definition setIfBgFlushInflight (v : bool) (b : BlockBuffer) : BlockBuffer :=
  set_flush v (numFgFlushInflight b) (waitForFlushIndexes b) (stats b) b.

(** The three settings of the flushes. *)
Definition set_limits (r : spec_float) (n lmt : Z) (b : BlockBuffer) : BlockBuffer :=
  mk_buf (blockNum b) (cache_items_list b) (cache_items_map b) (next_node b) (freeItems b)
    (dirtyItemNum b) (blockIndexMap b) (dirtyIndexMap b) r n (bgFlushSent b)
    (numFgFlushInflight b) lmt (waitForFlushIndexes b) (stats b).

Definition setDirtyFlushRatio (r : spec_float) (b : BlockBuffer) : res BlockBuffer :=
  let! _ := check (SFleb (f32_of_Z 0) r && SFleb r (f32_of_Z 1)) in
  Ok (set_limits r (dirtyFlushOneTimeSubmitNum b) (numFgFlushInflightLimit b) b).

Definition setDirtyFlushOneTimeSubmitNum (n : Z) (b : BlockBuffer) : BlockBuffer :=
  set_limits (dirtyFlushRatio b) n (numFgFlushInflightLimit b) b.

Definition setFgFlushLimit (lmt : Z) (b : BlockBuffer) : BlockBuffer :=
  set_limits (dirtyFlushRatio b) (dirtyFlushOneTimeSubmitNum b) lmt b.

Definition setIfReportStats (v : bool) (b : BlockBuffer) : BlockBuffer :=
  set_stats (mk_stats v (totalReqNumWithinInterval (stats b))
    (totalHitNumWithinInterval (stats b)) (totalFlushSubmitWithinInterval (stats b))) b.

(** Deprecated in the source: [getBlock] takes the index since. *)
Definition updateBlockIndex (i index : Z) (h : heap) (b : BlockBuffer)
    : res (heap * BlockBuffer) :=
  let! it := get_item h i in
  let old_index := itemIndex it in
  if negb (old_index =? index) then
    let bm := if old_index >? 0 then set_erase old_index i (blockIndexMap b)
              else blockIndexMap b in
    if isDirty it then Crash AssertFail
    else Ok (<[i := setIndex index it]> h, set_blockIndexMap (set_emplace index i bm) b)
  else Ok (h, set_blockIndexMap (set_emplace index i (blockIndexMap b)) b).

Definition getBgFlushNumBlockThreshold (b : BlockBuffer) : spec_float :=
  SFmul 24 128 (dirtyFlushRatio b) (f32_of_Z (blockNum b)).

Definition checkIfNeedBgFlush (b : BlockBuffer) : bool :=
  if bgFlushSent b then false
  else if checkIfFgFlushInflight b || negb (bool_decide (waitForFlushIndexes b = ∅)) then false
  else SFltb (getBgFlushNumBlockThreshold b) (f32_of_Z (dirtyItemNum b)).

Definition addFgFlushWaitIndex (index : Z) (b : BlockBuffer) : BlockBuffer :=
  set_flush (bgFlushSent b) (numFgFlushInflight b) (waitForFlushIndexes b ∪ {[index]})
    (stats b) b.

Definition removeFgFlushWaitIndex (index : Z) (b : BlockBuffer) : BlockBuffer :=
  set_flush (bgFlushSent b) (numFgFlushInflight b) (waitForFlushIndexes b ∖ {[index]})
    (stats b) b.

Definition numDirtyByIndex (index : Z) (b : BlockBuffer) : res Z :=
  if index >? 0 then
    match dirtyIndexMap b !! index with
    | Some s => Ok (Z.of_nat (size s))
    | None => Crash OutOfRange
    end
  else Ok 0.

Section Iterating.
Context {ui : UIter} {si : SIter}.

(** The body of the loop of [releaseUnlinkedInodeDirtyBlocks]. *)
Definition unlink_item (st : Z * heap * BlockBuffer) (i : Z) : res (Z * heap * BlockBuffer) :=
  let '(cnt, h, b) := st in
  let! it := get_item h i in
  let '(orig, it) := setDirty false it in
  let h := <[i := it]> h in
  let! b := if orig then adjustDirtyItemNum (-1) b else Ok b in
  let cnt := if orig then cnt + 1 else cnt in
  match cache_items_map b !! blockNo it with
  | Some n =>
      let! l := erase_node (cache_items_list b) n in
      Ok (cnt, h, set_cache l (delete (blockNo it) (cache_items_map b)) (next_node b)
                    (freeItems b ++ [i]) b)
  | None => Crash AssertFail
  end.

Definition releaseUnlinkedInodeDirtyBlocks (index : Z) (h : heap) (b : BlockBuffer)
    : res (heap * BlockBuffer) :=
  let! _ := check (index >? 1) in
  let num_dirty_blocks :=
    match dirtyIndexMap b !! index with Some s => Z.of_nat (size s) | None => 0 end in
  let! (actual, h, b) :=
    match blockIndexMap b !! index with
    | Some s =>
        let! (cnt, h, b) := foldM unlink_item (siter s) (0, h, b) in
        Ok (cnt, h, set_blockIndexMap (delete index (blockIndexMap b)) b)
    | None => Ok (0, h, b)
    end in
  let! _ := check (num_dirty_blocks =? actual) in
  let b := if num_dirty_blocks >? 0
           then set_dirty_maps (dirtyItemNum b) (delete index (dirtyIndexMap b)) b else b in
  Ok (h, set_blockIndexMap (delete index (blockIndexMap b)) b).

(** The background loop: [bnum] blocks are collected so far. *)
Fixpoint bg_collect (h : heap) (limit bnum : Z) (items : list Z) : res (list Z) :=
  match items with
  | [] => Ok []
  | i :: items' =>
      let! it := get_item h i in
      let! _ := check (isDirty it) in
      if to_u32 (bnum + 1) >=? limit then Ok [blockNo it] else
      let! l := bg_collect h limit (to_u32 (bnum + 1)) items' in
      Ok (blockNo it :: l)
  end.

Fixpoint fg_collect (h : heap) (items : list Z) : res (list Z) :=
  match items with
  | [] => Ok []
  | i :: items' =>
      let! it := get_item h i in
      let! _ := check (isDirty it) in
      let! l := fg_collect h items' in
      Ok (blockNo it :: l)
  end.

(** [toFlushBlockNos] is appended to; the first result is [canFlush]. *)
Definition doFlushByIndex (index : Z) (toFlushBlockNos : list Z) (h : heap)
    (b : BlockBuffer) : res (bool * list Z * BlockBuffer) :=
  if checkIfFgFlushInflightReachLimit b then Ok (false, toFlushBlockNos, b) else
  let! l :=
    if index =? 0 then
      bg_collect h (dirtyFlushOneTimeSubmitNum b) 0
        (concat ((fun kv => siter (snd kv)) <$> uiter (dirtyIndexMap b)))
    else
      match dirtyIndexMap b !! index with
      | Some s => fg_collect h (siter s)
      | None => Ok []
      end in
  let out := toFlushBlockNos ++ l in
  let b := set_stats (count_flush (stats b)) b in
  let b := if (index =? 0) && negb (bool_decide (out = [])) then setIfBgFlushInflight true b else b in
  Ok (true, out, b).

Definition doFlush (toFlushBlockNos : list Z) (h : heap) (b : BlockBuffer)
    : res (bool * list Z * BlockBuffer) :=
  doFlushByIndex 0 toFlushBlockNos h b.

(** The loop of [doFlushDone]; an already clean block ends it with -1. *)
Fixpoint flush_done_loop (blocks : list Z) (h : heap) (b : BlockBuffer)
    : res (Z * heap * BlockBuffer) :=
  match blocks with
  | [] => Ok (0, h, b)
  | bno :: blocks' =>
      let! found := getBlockWithoutAccess bno b in
      match found with
      | None => Crash AssertFail
      | Some i =>
          let! it := get_item h i in
          let '(orig, it) := setDirty false it in
          let h := <[i := it]> h in
          if negb orig then Ok (-1, h, b) else
          let! b := adjustDirtyItemNum (-1) b in
          let b := set_dirty_maps (dirtyItemNum b)
                     (set_erase (itemIndex it) i (dirtyIndexMap b)) b in
          match cache_items_map b !! bno with
          | Some n =>
              let! l := erase_node (cache_items_list b) n in
              let l := l ++ [mk_lnode (next_node b) bno i] in
              flush_done_loop blocks' h
                (set_cache l (<[bno := next_node b]> (cache_items_map b)) (next_node b + 1)
                   (freeItems b) b)
          | None => Crash OutOfRange
          end
      end
  end.

Definition doFlushDone (blocks : list Z) (h : heap) (b : BlockBuffer)
    : res (Z * heap * BlockBuffer) :=
  if negb (bgFlushSent b || checkIfFgFlushInflight b) then Ok (-1, h, b)
  else flush_done_loop blocks h b.

(** The body of the loop of [splitBufferItemsByIndex]. *)
Definition split_item (h : heap) (b : BlockBuffer) (i : Z) : res BlockBuffer :=
  let! it := get_item h i in
  match cache_items_map b !! blockNo it with
  | None => Crash AssertFail
  | Some n =>
      let! nd := find_node (cache_items_list b) n in
      let! bufferItem := get_item h (n_item nd) in
      if decide (status bufferItem = BLOCK_BUF_LOCKED) then Crash AssertFail else
      let! l := erase_node (cache_items_list b) n in
      Ok (set_cache l (delete (blockNo it) (cache_items_map b)) (next_node b) (freeItems b) b)
  end.

(** Returns the code, the slots given away and the buffer; [itemSet] is left as
    it was passed when the index is unknown. *)
Definition splitBufferItemsByIndex (index : Z) (itemSet : gset Z) (h : heap)
    (b : BlockBuffer) : res (Z * gset Z * BlockBuffer) :=
  match blockIndexMap b !! index with
  | None => Ok (-1, itemSet, b)
  | Some s =>
      let! b :=
        match dirtyIndexMap b !! index with
        | Some ds =>
            let! b := adjustDirtyItemNum (- Z.of_nat (size ds)) b in
            Ok (set_dirty_maps (dirtyItemNum b) (delete index (dirtyIndexMap b)) b)
        | None => Ok b
        end in
      let! b := foldM (split_item h) (siter s) b in
      Ok (0, s, set_blockIndexMap (delete index (blockIndexMap b)) b)
  end.

(** The body of the loop of [installBufferItemsOfIndex]. *)
Definition install_item (h : heap) (st : gset Z * BlockBuffer) (i : Z)
    : res (gset Z * BlockBuffer) :=
  let '(dirty_set, b) := st in
  let! it := get_item h i in
  let dirty_set := if isDirty it then dirty_set ∪ {[i]} else dirty_set in
  let l := mk_lnode (next_node b) (blockNo it) i :: cache_items_list b in
  Ok (dirty_set, set_cache l (<[blockNo it := next_node b]> (cache_items_map b))
                   (next_node b + 1) (freeItems b) b).

Definition installBufferItemsOfIndex (index : Z) (itemSet : gset Z) (h : heap)
    (b : BlockBuffer) : res (Z * BlockBuffer) :=
  let! _ := check (negb (bool_decide (itemSet = ∅))) in
  let curSet := default ∅ (blockIndexMap b !! index) in
  let b := set_blockIndexMap (<[index := curSet ∪ itemSet]> (blockIndexMap b)) b in
  let! (dirty_set, b) := foldM (install_item h) (siter itemSet) (∅, b) in
  let sz := Z.of_nat (size dirty_set) in
  if sz >? 0 then
    let dm := match dirtyIndexMap b !! index with
              | Some _ => dirtyIndexMap b
              | None => <[index := dirty_set]> (dirtyIndexMap b)
              end in
    let! b := adjustDirtyItemNum sz (set_dirty_maps (dirtyItemNum b) dm b) in
    Ok (0, b)
  else Ok (0, b).

End Iterating.

(** The list of slots is passed by value: what is moved into it is lost. *)
Definition reclaimBufferItemSlots (numSlots : Z) (b : BlockBuffer) : Z * BlockBuffer :=
  if Z.of_nat (length (freeItems b)) <? numSlots then (-1, b)
  else (numSlots,
        set_cache (cache_items_list b) (cache_items_map b) (next_node b)
          (drop (Z.to_nat numSlots) (freeItems b)) b).

(** ** Invariant *)

(** The slots in the replacement list. *)
Definition slots (b : BlockBuffer) : list Z := n_item <$> cache_items_list b.

Definition sat (h : heap) (i : Z) (P : BlockBufferItem -> Prop) : Prop :=
  exists it, h !! i = Some it /\ P it.

Definition dirty_at (h : heap) (i : Z) : bool :=
  match h !! i with Some it => isDirty it | None => false end.

Definition bset (b : BlockBuffer) (k : Z) : gset Z := default ∅ (blockIndexMap b !! k).
Definition dset (b : BlockBuffer) (k : Z) : gset Z := default ∅ (dirtyIndexMap b !! k).

(** The map holds the iterators of the list, every slot is cached under its block
    number or free, and free slots are clean. *)
Record cache_ok (h : heap) (b : BlockBuffer) : Prop := mk_cache_ok {
  co_ids : NoDup (n_id <$> cache_items_list b);
  co_bnos : NoDup (n_bno <$> cache_items_list b);
  co_slots : NoDup (slots b ++ freeItems b);
  co_next : forall nd, nd ∈ cache_items_list b -> n_id nd < next_node b;
  co_map : forall bno n, cache_items_map b !! bno = Some n <->
    exists i, mk_lnode n bno i ∈ cache_items_list b;
  co_cached : forall nd, nd ∈ cache_items_list b ->
    sat h (n_item nd) (fun it => blockNo it = n_bno nd);
  co_free : forall i, i ∈ freeItems b -> sat h i (fun it => isDirty it = false)
}.

(** The indexes hold the cached slots of each inode and the dirty ones, and the
    number of dirty slots is right. *)
Record index_ok (h : heap) (b : BlockBuffer) : Prop := mk_index_ok {
  io_dirty : forall k i, i ∈ dset b k <->
    i ∈ slots b /\ sat h i (fun it => isDirty it = true /\ itemIndex it = k);
  io_index : forall k i, k <> 0 ->
    (i ∈ bset b k <-> i ∈ slots b /\ sat h i (fun it => itemIndex it = k));
  io_count : dirtyItemNum b = Z.of_nat (length (filter (fun i => dirty_at h i = true) (slots b)))
}.

Definition buf_ok (h : heap) (b : BlockBuffer) : Prop := cache_ok h b /\ index_ok h b.

(** What callers of [getBlock] must respect: a dirty block keeps its inode, and a
    free slot is not reused for the inode it last belonged to. *)
Definition disciplined (bno new_index : Z) (h : heap) (b : BlockBuffer) : Prop :=
  (forall nd it, nd ∈ cache_items_list b -> n_bno nd = bno -> h !! n_item nd = Some it ->
     isDirty it = true -> itemIndex it = new_index) /\
  (forall i it, i ∈ freeItems b -> h !! i = Some it ->
     new_index = 0 \/ itemIndex it <> new_index).

(** A slot that must not be replaced. *)
Definition busy (it : BlockBufferItem) : Prop :=
  status it = BLOCK_BUF_LOCKED \/ isDirty it = true.

(** Where the slot of a successful [getBlock] comes from: the block was cached, or
    the slot was free, or it held a block that was neither locked nor dirty and
    every block used less recently is busy. *)
Definition slot_origin (bno i : Z) (h : heap) (b : BlockBuffer) : Prop :=
  (exists n, mk_lnode n bno i ∈ cache_items_list b) \/
  (cache_items_map b !! bno = None /\ exists free, freeItems b = i :: free) \/
  (cache_items_map b !! bno = None /\ freeItems b = [] /\
   exists l1 nd l2, cache_items_list b = l1 ++ nd :: l2 /\ n_item nd = i /\
     sat h i (fun it => ~ busy it) /\
     forall x, x ∈ l2 -> sat h (n_item x) busy).

(** When [getBlock] sets [hasDirty]: the slot was replaced, and a block used less
    recently than the one it held is both locked and dirty. *)
Definition locked_dirty (it : BlockBufferItem) : Prop :=
  status it = BLOCK_BUF_LOCKED /\ isDirty it = true.
Definition skipped_dirty (bno i : Z) (h : heap) (b : BlockBuffer) : Prop :=
  cache_items_map b !! bno = None /\ freeItems b = [] /\
  exists l1 nd l2, cache_items_list b = l1 ++ nd :: l2 /\ n_item nd = i /\
    exists x, x ∈ l2 /\ sat h (n_item x) locked_dirty.

(** Slot [i] is cached for block [bno]. *)
Definition holds (b : BlockBuffer) (bno i : Z) : Prop :=
  exists n, mk_lnode n bno i ∈ cache_items_list b.

(** What a successful [getBlock] returns and what it leaves alone. *)
Record obtained (bno new_index i : Z) (g : got) (h : heap) (b : BlockBuffer)
    (h' : heap) (b' : BlockBuffer) : Prop := mk_obtained {
  ob_cached : exists n, mk_lnode n bno i ∈ cache_items_list b';
  ob_locked : sat h' i (fun it => status it = BLOCK_BUF_LOCKED);
  ob_grabbed :
    (g_lockGrabbed g = BLOCK_BUF_LOCK_GRAB_YES /\
     sat h' i (fun it => itemIndex it = new_index) /\
     n_item <$> head (cache_items_list b') = Some i /\
     (holds b bno i -> sat h i (fun it => status it <> BLOCK_BUF_LOCKED))) \/
    (g_lockGrabbed g = BLOCK_BUF_LOCK_GRAB_NO /\ h' = h /\
     cache_items_list b' = cache_items_list b /\ freeItems b' = freeItems b);
  ob_origin : slot_origin bno i h b;
  ob_heap : forall j, j <> i -> h' !! j = h !! j;
  ob_item : sat h' i (fun it' => blockNo it' = bno /\
    (forall it, holds b bno i -> h !! i = Some it ->
       inMem it' = inMem it /\ isDirty it' = isDirty it) /\
    (~ holds b bno i -> inMem it' = false /\ isDirty it' = false));
  ob_holds : forall c j, holds b' c j <-> (c = bno /\ j = i) \/ (holds b c j /\ j <> i);
  ob_free : freeItems b' = freeItems b \/ freeItems b = i :: freeItems b';
  ob_hint : g_hasDirty g = true <-> skipped_dirty bno i h b
}.

(** ** Lemmas on lists of nodes *)

Lemma get_item_ok h i it : get_item h i = Ok it <-> h !! i = Some it.
Proof. unfold get_item. destruct (h !! i); naive_solver. Qed.

Lemma find_node_ok l nd :
  NoDup (n_id <$> l) -> nd ∈ l -> find_node l (n_id nd) = Ok nd.
Proof.
  intros Hnd Hin. unfold find_node.
  destruct (list_find _ l) as [[k x] |] eqn:E.
  - apply list_find_Some in E as (Hk & Hx & _). f_equal.
    apply list_elem_of_lookup in Hin as [j Hj].
    assert (k = j) as -> by (eapply (NoDup_lookup (n_id <$> l));
      [done | by rewrite list_lookup_fmap, Hk; cbn; rewrite Hx |
       by rewrite list_lookup_fmap, Hj]).
    congruence.
  - apply list_find_None in E. rewrite Forall_forall in E. by destruct (E _ Hin).
Qed.

Lemma erase_perm l nd :
  NoDup (n_id <$> l) -> nd ∈ l ->
  l ≡ₚ nd :: filter (fun x => n_id x <> n_id nd) l.
Proof.
  intros Hnd Hin. induction l as [| x l IH]; [by apply elem_of_nil in Hin |].
  rewrite fmap_cons in Hnd. apply NoDup_cons in Hnd as [Hx Hl].
  rewrite filter_cons. destruct (decide (n_id x = n_id nd)) as [E | E].
  - rewrite decide_False by naive_solver. apply elem_of_cons in Hin as [-> | Hin].
    + f_equiv. clear IH. induction l as [| y l IH]; [done |].
      rewrite fmap_cons in Hx, Hl. apply not_elem_of_cons in Hx as [Hy Hx].
      apply NoDup_cons in Hl as [_ Hl].
      rewrite filter_cons, decide_True by congruence. f_equiv. by apply IH.
    + destruct Hx. rewrite E. by apply list_elem_of_fmap_2.
  - rewrite decide_True by done. apply elem_of_cons in Hin as [-> | Hin]; [done |].
    rewrite (IH Hl Hin) at 1. apply Permutation_swap.
Qed.

Lemma erase_node_ok l nd :
  NoDup (n_id <$> l) -> nd ∈ l ->
  exists l', erase_node l (n_id nd) = Ok l' /\ l ≡ₚ nd :: l'.
Proof.
  intros Hnd Hin. unfold erase_node. rewrite find_node_ok by done.
  eexists. split; [done | by apply erase_perm].
Qed.

Lemma splice_front_ok l nd :
  NoDup (n_id <$> l) -> nd ∈ l ->
  exists l', splice_front l (n_id nd) = Ok (nd :: l') /\ l ≡ₚ nd :: l'.
Proof.
  intros Hnd Hin. destruct (erase_node_ok l nd Hnd Hin) as (l' & E & Hp).
  exists l'. unfold splice_front. rewrite find_node_ok by done. cbn [res_bind].
  by rewrite E.
Qed.

Lemma map_node h b bno n :
  cache_ok h b -> cache_items_map b !! bno = Some n ->
  exists nd, nd ∈ cache_items_list b /\ n_id nd = n /\ n_bno nd = bno.
Proof. intros Hc (i & Hi)%(co_map _ _ Hc). by exists (mk_lnode n bno i). Qed.

Lemma node_map h b nd :
  cache_ok h b -> nd ∈ cache_items_list b ->
  cache_items_map b !! n_bno nd = Some (n_id nd).
Proof. intros Hc Hin. apply (co_map _ _ Hc). exists (n_item nd). by destruct nd. Qed.

Lemma bno_inj h b nd1 nd2 :
  cache_ok h b -> nd1 ∈ cache_items_list b -> nd2 ∈ cache_items_list b ->
  n_bno nd1 = n_bno nd2 -> nd1 = nd2.
Proof.
  intros Hc H1 H2 E. pose proof (co_bnos _ _ Hc) as Hnd.
  apply list_elem_of_lookup in H1 as [j1 H1], H2 as [j2 H2].
  assert (j1 = j2) as -> by (eapply (NoDup_lookup _ j1 j2 _ Hnd);
    [by rewrite list_lookup_fmap, H1 | by rewrite list_lookup_fmap, H2; cbn; rewrite E]).
  congruence.
Qed.

Lemma slot_node b i : i ∈ slots b <-> exists nd, nd ∈ cache_items_list b /\ n_item nd = i.
Proof. unfold slots. rewrite list_elem_of_fmap. naive_solver. Qed.

(** ** The cache under changes of its parts *)

(** Only the list, the map, the free slots and the heap matter. *)
Lemma holds_slot b bno i : holds b bno i -> i ∈ slots b.
Proof. intros (n & Hn). apply slot_node. by eexists. Qed.

Lemma holds_item h b bno i :
  cache_ok h b -> holds b bno i -> sat h i (fun it => blockNo it = bno).
Proof. intros Hc (n & Hn). exact (co_cached _ _ Hc _ Hn). Qed.

Lemma slot_holds h b i it :
  cache_ok h b -> i ∈ slots b -> h !! i = Some it -> holds b (blockNo it) i.
Proof.
  intros Hc (nd & Hnd & <-)%slot_node Hi.
  destruct (co_cached _ _ Hc _ Hnd) as (it' & Hi' & E). rewrite Hi in Hi'.
  injection Hi' as <-. rewrite E. exists (n_id nd). by destruct nd.
Qed.

(** A block is in one slot and a slot holds one block. *)
Lemma holds_inj h b bno i bno' i' :
  cache_ok h b -> holds b bno i -> holds b bno' i' -> bno = bno' <-> i = i'.
Proof.
  intros Hc H H'. split.
  - intros <-. destruct H as (n & Hn), H' as (n' & Hn').
    pose proof (bno_inj _ _ _ _ Hc Hn Hn' eq_refl). congruence.
  - intros <-. destruct (holds_item _ _ _ _ Hc H) as (x & Hx & <-).
    destruct (holds_item _ _ _ _ Hc H') as (y & Hy & <-). congruence.
Qed.

(** The blocks held when slot [i] comes to the front for block [bno]. *)
Lemma holds_front b b' n bno i l' :
  cache_items_list b' = mk_lnode n bno i :: l' ->
  (forall x, x ∈ l' -> x ∈ cache_items_list b /\ n_item x <> i) ->
  (forall x, x ∈ cache_items_list b -> n_item x = i \/ x ∈ l') ->
  forall c j, holds b' c j <-> (c = bno /\ j = i) \/ (holds b c j /\ j <> i).
Proof.
  intros El Hin Hout c j. unfold holds. rewrite El. setoid_rewrite elem_of_cons. split.
  - intros (m & [[= -> -> ->] | Hm]); [by left |]. right. destruct (Hin _ Hm). eauto.
  - intros [[-> ->] | [(m & Hm) Hne]]; [eauto |].
    destruct (Hout _ Hm) as [E | ?]; [by destruct Hne | eauto].
Qed.

(** The same for a slot of the list. *)
Lemma holds_moved h b b' n bno nd l' :
  cache_ok h b -> cache_items_list b ≡ₚ nd :: l' ->
  cache_items_list b' = mk_lnode n bno (n_item nd) :: l' ->
  forall c j, holds b' c j <-> (c = bno /\ j = n_item nd) \/ (holds b c j /\ j <> n_item nd).
Proof.
  intros Hc Hp El. eapply holds_front; [exact El | |].
  - intros x Hx. split; [rewrite Hp; by right |]. intros E.
    pose proof (co_slots _ _ Hc) as (Hnd & _ & _)%NoDup_app. unfold slots in Hnd.
    rewrite Hp, fmap_cons in Hnd. apply NoDup_cons in Hnd as [Hn _]. apply Hn.
    rewrite <- E. by apply list_elem_of_fmap_2.
  - intros x. rewrite Hp. intros [-> | ?]%elem_of_cons; auto.
Qed.

Lemma not_held h b bno i : cache_ok h b -> cache_items_map b !! bno = None -> ~ holds b bno i.
Proof.
  intros Hc Hm (n & Hn). assert (E : cache_items_map b !! bno = Some n) by (apply Hc; eauto).
  congruence.
Qed.

Lemma cache_ok_ext h b b' :
  cache_items_list b' = cache_items_list b -> cache_items_map b' = cache_items_map b ->
  next_node b' = next_node b -> freeItems b' = freeItems b ->
  cache_ok h b -> cache_ok h b'.
Proof.
  intros El Em En Ef [H1 H2 H3 H4 H5 H6 H7]. unfold slots in *.
  split; unfold slots; rewrite ?El, ?Em, ?En, ?Ef; done.
Qed.

Lemma cache_ok_perm h b l' :
  cache_items_list b ≡ₚ l' -> cache_ok h b ->
  cache_ok h (set_cache l' (cache_items_map b) (next_node b) (freeItems b) b).
Proof.
  intros Hp [H1 H2 H3 H4 H5 H6 H7].
  split; unfold slots in *; cbn [set_cache cache_items_list cache_items_map next_node freeItems];
    try setoid_rewrite <- Hp; done.
Qed.

(** A slot changes without leaving its block. *)
Lemma cache_ok_update h b i it it' :
  cache_ok h b -> h !! i = Some it -> blockNo it' = blockNo it ->
  (i ∈ freeItems b -> isDirty it' = false) -> cache_ok (<[i := it']> h) b.
Proof.
  intros [H1 H2 H3 H4 H5 H6 H7] Hi Hb Hf. split; try done.
  - intros nd Hnd. destruct (H6 nd Hnd) as (x & Hx & Ex). unfold sat.
    destruct (decide (n_item nd = i)) as [<- | Hne].
    + exists it'. rewrite lookup_insert_eq. split; [done |]. congruence.
    + exists x. by rewrite lookup_insert_ne by done.
  - intros j Hj. destruct (H7 j Hj) as (x & Hx & Ex). unfold sat.
    destruct (decide (j = i)) as [-> | Hne].
    + exists it'. rewrite lookup_insert_eq. auto.
    + exists x. by rewrite lookup_insert_ne by done.
Qed.

(** A slot leaves the cache. *)
Lemma cache_ok_remove h b nd l' :
  cache_ok h b -> cache_items_list b ≡ₚ nd :: l' ->
  cache_ok h (set_cache l' (delete (n_bno nd) (cache_items_map b)) (next_node b)
                (freeItems b) b).
Proof.
  intros [H1 H2 H3 H4 H5 H6 H7] Hp. unfold slots in H3.
  rewrite Hp, !fmap_cons in H1, H2. rewrite Hp, fmap_cons in H3.
  apply NoDup_cons in H1 as [Hi1 H1], H2 as [Hi2 H2].
  split; unfold slots; cbn [set_cache cache_items_list cache_items_map next_node freeItems];
    try done.
  - by apply NoDup_cons in H3 as [_ H3].
  - intros x Hx. apply H4. rewrite Hp. by right.
  - intros bno n. rewrite lookup_delete. destruct (decide (n_bno nd = bno)) as [<- | Hne].
    + split; [done |]. intros (i & Hi). destruct Hi2.
      by apply (list_elem_of_fmap_2 n_bno) in Hi.
    + rewrite H5. setoid_rewrite Hp. setoid_rewrite elem_of_cons. split; [| naive_solver].
      intros (i & [E | Hi]); [| eauto]. subst nd. done.
  - intros x Hx. apply H6. rewrite Hp. by right.
Qed.

(** A clean slot joins the free ones. *)
Lemma cache_ok_evict h b nd l' free' :
  cache_ok h b -> cache_items_list b ≡ₚ nd :: l' ->
  n_item nd :: freeItems b ≡ₚ free' ->
  sat h (n_item nd) (fun it => isDirty it = false) ->
  cache_ok h (set_cache l' (delete (n_bno nd) (cache_items_map b)) (next_node b) free' b).
Proof.
  intros Hc Hp Hf Hcl. pose proof (co_slots _ _ Hc) as H3. unfold slots in H3.
  rewrite Hp, fmap_cons in H3. pose proof (co_free _ _ Hc) as H7.
  destruct (cache_ok_remove h b nd l' Hc Hp) as [R1 R2 R3 R4 R5 R6 R7].
  split; try done; unfold slots;
    cbn [set_cache cache_items_list cache_items_map next_node freeItems].
  - rewrite <- Hf. rewrite (Permutation_app_comm (n_item <$> l')). cbn [app].
    rewrite (Permutation_app_comm (freeItems b)). exact H3.
  - intros i Hi. rewrite <- Hf in Hi. apply elem_of_cons in Hi as [-> | Hi]; auto.
Qed.

(** A slot that is not in the buffer joins it for a block that is not cached. *)
Lemma cache_ok_add h b i bno it :
  cache_ok h b -> i ∉ slots b -> i ∉ freeItems b -> cache_items_map b !! bno = None ->
  h !! i = Some it -> blockNo it = bno ->
  cache_ok h
    (set_cache (mk_lnode (next_node b) bno i :: cache_items_list b)
       (<[bno := next_node b]> (cache_items_map b)) (next_node b + 1) (freeItems b) b).
Proof.
  intros [H1 H2 H3 H4 H5 H6 H7] Hs Hf Hm Hi Hb. unfold slots in H3, Hs.
  split; unfold slots; cbn [set_cache cache_items_list cache_items_map next_node freeItems];
    rewrite ?fmap_cons; cbn [n_id n_bno n_item].
  - apply NoDup_cons. split; [| done]. intros (x & Ex & Hx)%list_elem_of_fmap.
    specialize (H4 x Hx). lia.
  - apply NoDup_cons. split; [| done]. intros (x & Ex & Hx)%list_elem_of_fmap.
    assert (cache_items_map b !! bno = Some (n_id x)); [| congruence].
    apply H5. exists (n_item x). rewrite Ex. by destruct x.
  - apply NoDup_cons. split; [| done]. by intros [? | ?]%elem_of_app.
  - intros x [-> | Hx]%elem_of_cons; cbn; [lia |]. specialize (H4 x Hx). lia.
  - intros bno' n. rewrite lookup_insert. setoid_rewrite elem_of_cons.
    destruct (decide (bno = bno')) as [<- | Hne].
    + split; [intros [= <-]; eauto |]. intros (j & [[=] | Hj]); [congruence |].
      assert (cache_items_map b !! bno = Some n); [| congruence]. apply H5. eauto.
    + rewrite H5. split; [naive_solver |]. intros (j & [[=] | Hj]); eauto. congruence.
  - intros x [-> | Hx]%elem_of_cons; cbn; [by exists it | auto].
  - done.
Qed.

(** Slots outside the buffer do not matter. *)
Lemma cache_ok_outside h b i it :
  cache_ok h b -> i ∉ slots b -> i ∉ freeItems b -> cache_ok (<[i := it]> h) b.
Proof.
  intros [H1 H2 H3 H4 H5 H6 H7] Hs Hf. split; try done.
  - intros nd Hnd. unfold sat. rewrite lookup_insert_ne; [by apply H6 |]. intros ->.
    apply Hs. unfold slots. by apply list_elem_of_fmap_2.
  - intros j Hj. unfold sat. rewrite lookup_insert_ne by congruence. by apply H7.
Qed.

(** The first free slot is taken. *)
Lemma cache_ok_pop h b i free' :
  cache_ok h b -> freeItems b = i :: free' ->
  i ∉ slots b /\ i ∉ free' /\
  cache_ok h (set_cache (cache_items_list b) (cache_items_map b) (next_node b) free' b).
Proof.
  intros [H1 H2 H3 H4 H5 H6 H7] Hf. rewrite Hf in H3, H7.
  pose proof H3 as (Hs & Hd & Hn)%NoDup_app. apply NoDup_cons in Hn as [Hi Hn]. split_and!.
  - intros Hin. apply (Hd i); [done | by left].
  - done.
  - split; try done; unfold slots; cbn.
    + apply NoDup_app. split_and!; [done | | done]. intros j Hj Hj'. apply (Hd j); [done | by right].
    + intros j Hj. apply H7. by right.
Qed.

(** A free slot is put at the front of the list for a new block. *)
Lemma cache_ok_attach h b i free' bno it :
  cache_ok h b -> freeItems b = i :: free' -> cache_items_map b !! bno = None ->
  blockNo it = bno ->
  cache_ok (<[i := it]> h)
    (set_cache (mk_lnode (next_node b) bno i :: cache_items_list b)
       (<[bno := next_node b]> (cache_items_map b)) (next_node b + 1) free' b).
Proof.
  intros Hc Hf Hm Hb. destruct (cache_ok_pop h b i free' Hc Hf) as (Hs & Hi & Hc').
  pose proof (cache_ok_add _ _ i bno it (cache_ok_outside _ _ i it Hc' Hs Hi) Hs Hi Hm
    (lookup_insert_eq _ _ _) Hb) as Ha.
  eapply cache_ok_ext; [| | | | exact Ha]; done.
Qed.

(** ** The indexes under changes of their parts *)

Lemma set_erase_spec k i (m : gmap Z (gset Z)) k' j :
  j ∈ default ∅ (set_erase k i m !! k') <->
  j ∈ default ∅ (m !! k') /\ ~ (k = k' /\ j = i).
Proof.
  unfold set_erase. rewrite lookup_insert. destruct (decide (k = k')) as [<- | Hne]; cbn.
  - set_solver.
  - naive_solver.
Qed.

Lemma set_emplace_spec k i (m : gmap Z (gset Z)) k' j :
  j ∈ default ∅ (set_emplace k i m !! k') <->
  j ∈ default ∅ (m !! k') \/ (k = k' /\ j = i).
Proof.
  unfold set_emplace. rewrite lookup_insert. destruct (decide (k = k')) as [<- | Hne]; cbn.
  - set_solver.
  - naive_solver.
Qed.

Lemma reindex_spec o n i m k j :
  k <> 0 ->
  (j ∈ default ∅ (reindex o n i m !! k) <->
   (j ∈ default ∅ (m !! k) /\ ~ (o <> n /\ o = k /\ j = i)) \/
   (o <> n /\ n = k /\ j = i)).
Proof.
  intros Hk. unfold reindex.
  destruct (o =? n) eqn:E1; b2p; [naive_solver |].
  destruct (o =? 0) eqn:E2, (n =? 0) eqn:E3; b2p;
    rewrite ?set_emplace_spec, ?set_erase_spec; naive_solver.
Qed.

(** The indexes with slot [i] set apart: [rest] are the other cached slots, and [F]
    tells whether [i] is in the index of its inode. *)
Record apart (h : heap) (b : BlockBuffer) (i : Z) (it : BlockBufferItem)
    (rest : list Z) (F : Prop) : Prop := mk_apart {
  ap_item : h !! i = Some it;
  ap_out : i ∉ rest;
  ap_dirty : forall k j, j ∈ dset b k <->
    (j ∈ rest /\ sat h j (fun x => isDirty x = true /\ itemIndex x = k)) \/
    (j = i /\ isDirty it = true /\ itemIndex it = k);
  ap_index : forall k j, k <> 0 ->
    (j ∈ bset b k <->
     (j ∈ rest /\ sat h j (fun x => itemIndex x = k)) \/ (j = i /\ F /\ itemIndex it = k));
  ap_count : dirtyItemNum b =
    Z.of_nat (length (filter (fun j => dirty_at h j = true) rest)) +
    (if isDirty it then 1 else 0)
}.

Lemma sat_insert_ne h i j it P : j <> i -> sat (<[i := it]> h) j P <-> sat h j P.
Proof. intros Hne. unfold sat. by rewrite lookup_insert_ne by done. Qed.

Lemma dirty_filter_insert h i it (l : list Z) :
  i ∉ l -> filter (fun j => dirty_at (<[i := it]> h) j = true) l =
           filter (fun j => dirty_at h j = true) l.
Proof.
  intros Hi. apply filter_Forall_iff. rewrite Forall_forall. intros j Hj.
  unfold dirty_at. rewrite lookup_insert_ne by congruence. done.
Qed.

Lemma dirty_count_cons h i it (l : list Z) :
  h !! i = Some it ->
  Z.of_nat (length (filter (fun j => dirty_at h j = true) (i :: l))) =
  Z.of_nat (length (filter (fun j => dirty_at h j = true) l)) + (if isDirty it then 1 else 0).
Proof.
  intros Hi. assert (E : dirty_at h i = isDirty it) by (unfold dirty_at; by rewrite Hi).
  rewrite filter_cons. case_decide as D.
  - rewrite <- E, D. cbn [length]. lia.
  - apply not_true_is_false in D. rewrite <- E, D. lia.
Qed.

(** A cached slot set apart. *)
Lemma apart_cached h b nd l' it :
  buf_ok h b -> cache_items_list b ≡ₚ nd :: l' -> h !! n_item nd = Some it ->
  apart h b (n_item nd) it (n_item <$> l') True.
Proof.
  intros [Hc [Hd Hx Hn]] Hp Hi.
  assert (Hs : slots b ≡ₚ n_item nd :: (n_item <$> l')).
  { unfold slots. by rewrite Hp. }
  assert (Hnd : NoDup (n_item nd :: (n_item <$> l'))).
  { rewrite <- Hs. pose proof (co_slots _ _ Hc) as [Hnd _]%NoDup_app. exact Hnd. }
  apply NoDup_cons in Hnd as [Hout _]. split; try done.
  - intros k j. rewrite Hd, Hs, elem_of_cons. unfold sat. split; [| naive_solver].
    intros [[-> | Hj] (x & Hx1 & Hx2)]; [| by eauto]. right. naive_solver.
  - intros k j Hk. rewrite (Hx k j Hk), Hs, elem_of_cons. unfold sat. split; [| naive_solver].
    intros [[-> | Hj] (x & Hx1 & Hx2)]; [| by eauto]. right. naive_solver.
  - by rewrite Hn, Hs, (dirty_count_cons _ _ _ _ Hi).
Qed.

(** A free slot set apart. *)
Lemma apart_free h b i it :
  buf_ok h b -> i ∈ freeItems b -> h !! i = Some it -> apart h b i it (slots b) False.
Proof.
  intros [Hc [Hd Hx Hn]] Hin Hi.
  destruct (co_free _ _ Hc _ Hin) as (it' & Hi' & Hcl).
  rewrite Hi in Hi'. injection Hi' as <-.
  pose proof (co_slots _ _ Hc) as Hs. apply NoDup_app in Hs as (_ & Hs & _).
  split; try done.
  - intros Hs'. by destruct (Hs i).
  - intros k j. rewrite Hd. split; [auto |]. intros [? | (_ & ? & _)]; [done | congruence].
  - intros k j Hk. rewrite (Hx k j Hk). naive_solver.
  - rewrite Hn, Hcl. lia.
Qed.

(** The slot comes back under the new index. *)
Lemma apart_back h b i it rest (F : Prop) b' it' new_index :
  apart h b i it rest F ->
  slots b' ≡ₚ i :: rest ->
  blockIndexMap b' = reindex (itemIndex it) new_index i (blockIndexMap b) ->
  dirtyIndexMap b' = dirtyIndexMap b -> dirtyItemNum b' = dirtyItemNum b ->
  isDirty it' = isDirty it -> itemIndex it' = new_index ->
  (isDirty it = true -> itemIndex it = new_index) ->
  F \/ new_index = 0 \/ itemIndex it <> new_index ->
  index_ok (<[i := it']> h) b'.
Proof.
  intros [Hi Ho Hd Hx Hn] Hs Eb Ed En Edi Eix Hdis HF. split.
  - intros k j. unfold dset. rewrite Ed. fold (dset b k). rewrite Hd, Hs, elem_of_cons.
    destruct (decide (j = i)) as [-> | Hne].
    + unfold sat. rewrite lookup_insert_eq. split.
      * intros [[? _] | (_ & ? & ?)]; [done |]. split; [by left |]. exists it'.
        split_and!; [done | congruence |]. rewrite Eix. symmetry. naive_solver.
      * intros [_ (x & [= <-] & Ex1 & Ex2)]. right. split_and!; [done | congruence |].
        rewrite Hdis; congruence.
    + rewrite sat_insert_ne by done. naive_solver.
  - intros k j Hk. unfold bset. rewrite Eb, reindex_spec by done. fold (bset b k).
    rewrite Hx, Hs, elem_of_cons by done.
    destruct (decide (j = i)) as [-> | Hne].
    + unfold sat. rewrite lookup_insert_eq. split.
      * intros H. split; [by left |]. exists it'. split; [done |].
        destruct (decide (itemIndex it = new_index)); naive_solver.
      * intros [_ (x & [= <-] & Ex)]. destruct (decide (itemIndex it = new_index)) as [E | E].
        -- left. split; [| naive_solver]. right. split_and!; [done | | congruence].
           destruct HF as [? | [? | ?]]; [done | congruence | done].
        -- right. split_and!; [done | congruence | done].
    + rewrite sat_insert_ne by done. naive_solver.
  - rewrite En, Hn, Hs, (dirty_count_cons _ _ it') by apply lookup_insert_eq.
    by rewrite dirty_filter_insert, Edi.
Qed.

(** The slot comes back clean or dirty. *)
Lemma apart_set_dirty h b i it rest b' it' :
  apart h b i it rest True -> slots b' ≡ₚ i :: rest ->
  blockIndexMap b' = blockIndexMap b -> itemIndex it' = itemIndex it ->
  (forall k j, j ∈ dset b' k <->
     (j <> i /\ j ∈ dset b k) \/ (j = i /\ isDirty it' = true /\ k = itemIndex it)) ->
  dirtyItemNum b' =
    dirtyItemNum b - (if isDirty it then 1 else 0) + (if isDirty it' then 1 else 0) ->
  index_ok (<[i := it']> h) b'.
Proof.
  intros [Hi Ho Hd Hx Hn] Hs Eb Eix Ed En. split.
  - intros k j. rewrite Ed, Hd, Hs, elem_of_cons.
    destruct (decide (j = i)) as [-> | Hne].
    + unfold sat. rewrite lookup_insert_eq. rewrite <- Eix. naive_solver.
    + rewrite sat_insert_ne by done. naive_solver.
  - intros k j Hk. unfold bset. rewrite Eb. fold (bset b k).
    rewrite Hx, Hs, elem_of_cons by done.
    destruct (decide (j = i)) as [-> | Hne].
    + unfold sat. rewrite lookup_insert_eq, <- Eix. naive_solver.
    + rewrite sat_insert_ne by done. naive_solver.
  - rewrite En, Hn, Hs, (dirty_count_cons _ _ it') by apply lookup_insert_eq.
    rewrite dirty_filter_insert by done. lia.
Qed.

(** The slot is gone. *)
Lemma apart_gone h b i it rest (F : Prop) b' it' :
  apart h b i it rest F -> slots b' ≡ₚ rest ->
  (forall k j, k <> 0 -> j ∈ bset b' k <-> j <> i /\ j ∈ bset b k) ->
  (forall k j, j ∈ dset b' k <-> j <> i /\ j ∈ dset b k) ->
  dirtyItemNum b' = dirtyItemNum b - (if isDirty it then 1 else 0) ->
  index_ok (<[i := it']> h) b'.
Proof.
  intros [Hi Ho Hd Hx Hn] Hs Eb Ed En. split.
  - intros k j. rewrite Ed, Hd, Hs. destruct (decide (j = i)) as [-> | Hne]; [naive_solver |].
    rewrite sat_insert_ne by done. naive_solver.
  - intros k j Hk. rewrite Eb, Hx, Hs by done.
    destruct (decide (j = i)) as [-> | Hne]; [naive_solver |].
    rewrite sat_insert_ne by done. naive_solver.
  - rewrite En, Hn, Hs, dirty_filter_insert by done. lia.
Qed.

(** ** [getBlock] case by case *)

Lemma replace_scan_ok h rl d :
  (forall nd, nd ∈ rl -> sat h (n_item nd) (fun _ => True)) ->
  exists o d', replace_scan h rl d = Ok (o, d') /\
    match o with
    | Some nd => exists r1 r2, rl = r1 ++ nd :: r2 /\
        sat h (n_item nd) (fun it => ~ busy it) /\
        forall x, x ∈ r1 -> sat h (n_item x) busy
    | None => forall x, x ∈ rl -> sat h (n_item x) busy
    end.
Proof.
  revert d. induction rl as [| nd rl IH]; intros d Hall.
  - exists None, d. split; [done |]. by intros x Hx%elem_of_nil.
  - destruct (Hall nd) as (it & Hi & _); [by left |].
    assert (Hrest : forall d, sat h (n_item nd) busy -> exists o d',
      replace_scan h rl d = Ok (o, d') /\
      match o with
      | Some x => exists r1 r2, nd :: rl = r1 ++ x :: r2 /\
          sat h (n_item x) (fun it => ~ busy it) /\
          forall y, y ∈ r1 -> sat h (n_item y) busy
      | None => forall x, x ∈ nd :: rl -> sat h (n_item x) busy
      end).
    { intros d1 Hb. destruct (IH d1) as (o & d' & E & Ho); [intros x Hx; apply Hall; by right |].
      exists o, d'. split; [done |]. destruct o as [x |].
      - destruct Ho as (r1 & r2 & -> & Hx & Hr). exists (nd :: r1), r2.
        split_and!; [done.. |]. intros y [-> | Hy]%elem_of_cons; auto.
      - intros y [-> | Hy]%elem_of_cons; auto. }
    cbn [replace_scan]. unfold get_item. rewrite Hi. cbn [res_bind].
    destruct (decide (status it <> BLOCK_BUF_LOCKED)) as [Hl | Hl].
    + destruct (isDirty it) eqn:Hd; cbn [negb].
      * apply Hrest. exists it. unfold busy. auto.
      * exists (Some nd), d. split; [done |]. exists [], rl. split_and!; [done | |].
        -- exists it. split; [done |]. intros [? | ?]; congruence.
        -- by intros x Hx%elem_of_nil.
    + apply Hrest. exists it. split; [done |]. left. by apply dec_stable.
Qed.

(** The hint of [getBlock] is set by a locked dirty block passed by the search. *)
Lemma replace_scan_hint h r1 nd r2 d d' :
  replace_scan h (r1 ++ nd :: r2) d = Ok (Some nd, d') ->
  (forall x, x ∈ r1 -> sat h (n_item x) busy) -> sat h (n_item nd) (fun it => ~ busy it) ->
  d' = true <-> d = true \/ exists x, x ∈ r1 /\ sat h (n_item x) locked_dirty.
Proof.
  intros E Hr (it & Hi & Hn). revert d E.
  induction r1 as [| y r1 IH]; intros d E; cbn [replace_scan app] in E; unfold get_item in E.
  - rewrite Hi in E. cbn [res_bind] in E.
    rewrite decide_True in E by (intros ?; apply Hn; by left).
    destruct (isDirty it) eqn:Hd; [destruct Hn; by right |]. injection E as <-.
    split; [by left |]. intros [? | (x & Hx%elem_of_nil & _)]; done.
  - destruct (Hr y) as (ity & Hy & Hb); [by left |]. rewrite Hy in E. cbn [res_bind] in E.
    assert (Hr' : forall x, x ∈ r1 -> sat h (n_item x) busy) by (intros; apply Hr; by right).
    assert (Hex : (exists x, x ∈ y :: r1 /\ sat h (n_item x) locked_dirty) <->
      locked_dirty ity \/ exists x, x ∈ r1 /\ sat h (n_item x) locked_dirty).
    { unfold sat. setoid_rewrite elem_of_cons. split; [| naive_solver].
      intros (x & [-> | Hx] & ity' & Hy' & ?); [left; by simplify_eq | by right; eauto]. }
    rewrite Hex. unfold locked_dirty at 1. destruct (decide _) as [Hl | Hl].
    + destruct Hb as [Hb | Hb]; [done |]. rewrite Hb in E. rewrite (IH Hr' _ E). tauto.
    + rewrite (IH Hr' _ E), orb_true_iff. apply dec_stable in Hl. tauto.
Qed.

(** The position of the replaced node is unique. *)
Lemma skipped_dirty_at bno h b l1 nd l2 :
  cache_ok h b -> cache_items_map b !! bno = None -> freeItems b = [] ->
  cache_items_list b = l1 ++ nd :: l2 ->
  skipped_dirty bno (n_item nd) h b <-> exists x, x ∈ l2 /\ sat h (n_item x) locked_dirty.
Proof.
  intros Hc Hm Hf El. unfold skipped_dirty. split; [| intros H; split_and!; eauto 10].
  intros (_ & _ & k1 & nd' & k2 & El' & Hn & H).
  pose proof (co_slots _ _ Hc) as [Hnd _]%NoDup_app. unfold slots in Hnd.
  assert (Ek : length k1 = length l1).
  { eapply (NoDup_lookup (n_item <$> cache_items_list b)); [exact Hnd | |];
      rewrite list_lookup_fmap;
      [rewrite El', list_lookup_middle by done; cbn; by rewrite Hn
      | by rewrite El, list_lookup_middle]. }
  rewrite El in El'. apply app_inj_1 in El' as [_ [= _ ->]]; done.
Qed.

(** A block that is cached, or that takes a free slot, gives no hint. *)
Lemma no_hint bno i h b :
  cache_items_map b !! bno <> None \/ freeItems b <> [] ->
  false = true <-> skipped_dirty bno i h b.
Proof. unfold skipped_dirty. naive_solver. Qed.

Lemma buf_ok_stats h b st : buf_ok h (set_stats st b) <-> buf_ok h b.
Proof. split; intros [[] []]; by split. Qed.

(** The state after [grab] when the front of the list already holds the slot. *)
Lemma grab_ok bno new_index i h b nd l it :
  cache_items_list b = nd :: l -> h !! i = Some it ->
  grab bno new_index i h b =
    Ok (<[i := setIndex new_index (setStatus BLOCK_BUF_LOCKED (setBlockNo bno it))]> h,
        set_blockIndexMap (reindex (itemIndex it) new_index i (blockIndexMap b))
          (set_cache (nd :: l) (<[bno := n_id nd]> (cache_items_map b)) (next_node b)
             (freeItems b) b)).
Proof. intros Hl Hi. unfold grab, get_item. rewrite Hi, Hl. done. Qed.

Lemma getBlock_hit_locked bno new_index h b nd it :
  buf_ok h b -> nd ∈ cache_items_list b -> n_bno nd = bno ->
  h !! n_item nd = Some it -> status it = BLOCK_BUF_LOCKED ->
  exists g b', getBlock bno new_index h b = Ok (g, h, b') /\ buf_ok h b' /\
    g_item g = Some (n_item nd) /\ obtained bno new_index (n_item nd) g h b h b'.
Proof.
  intros Hok Hnd Hb Hi Hl. pose proof Hok as [Hc _].
  unfold getBlock. cbn [set_stats set_flush cache_items_map cache_items_list].
  rewrite <- Hb, (node_map _ _ _ Hc Hnd), find_node_ok by (done || apply Hc).
  cbn [res_bind]. unfold get_item. rewrite Hi. cbn [res_bind]. rewrite decide_True by done.
  eexists _, _. split; [done |]. split; [by rewrite !buf_ok_stats |]. split; [done |].
  assert (Hn : mk_lnode (n_id nd) (n_bno nd) (n_item nd) ∈ cache_items_list b)
    by by destruct nd.
  split; cbn [g_lockGrabbed]; eauto.
  - exists it. by rewrite Hi.
  - by left; eauto.
  - exists it. split_and!; [done | | intros x _ Hx; split; congruence |].
    + destruct (co_cached _ _ Hc _ Hnd) as (it' & Hi' & E). congruence.
    + intros []. by eexists.
  - intros c j. assert (Hh : holds b (n_bno nd) (n_item nd)) by by eexists.
    split; [| naive_solver]. intros Hcj. destruct (decide (j = n_item nd)) as [-> | ?]; [| by right].
    left. split; [| done]. by apply (holds_inj _ _ _ _ _ _ Hc Hcj Hh).
  - apply no_hint. left. by rewrite (node_map _ _ _ Hc Hnd).
Qed.

Lemma getBlock_hit bno new_index h b nd it :
  buf_ok h b -> disciplined bno new_index h b ->
  nd ∈ cache_items_list b -> n_bno nd = bno ->
  h !! n_item nd = Some it -> status it <> BLOCK_BUF_LOCKED ->
  exists g h' b', getBlock bno new_index h b = Ok (g, h', b') /\ buf_ok h' b' /\
    g_item g = Some (n_item nd) /\ obtained bno new_index (n_item nd) g h b h' b'.
Proof.
  intros Hok [Hdis _] Hnd Hb Hi Hl. pose proof Hok as [Hc _].
  destruct (splice_front_ok _ _ (co_ids _ _ Hc) Hnd) as (l' & Es & Hp).
  unfold getBlock. cbn [set_stats set_flush cache_items_map cache_items_list].
  rewrite <- Hb, (node_map _ _ _ Hc Hnd), find_node_ok by (done || apply Hc).
  cbn [res_bind]. unfold get_item. rewrite Hi. cbn [res_bind]. rewrite decide_False by done.
  rewrite Es. cbn [res_bind]. erewrite grab_ok; [| reflexivity | exact Hi].
  cbn [res_bind]. eexists _, _, _. split; [done |].
  cbn [set_stats set_flush set_cache next_node freeItems cache_items_map blockIndexMap].
  rewrite (insert_id (cache_items_map b)) by by apply (node_map h).
  assert (Hblk : blockNo it = n_bno nd).
  { destruct (co_cached _ _ Hc _ Hnd) as (it' & Hi' & E). congruence. }
  split; [split |].
  - eapply cache_ok_update; [| exact Hi | by rewrite Hblk |].
    + eapply cache_ok_ext; [| | | | exact (cache_ok_perm h b _ Hp Hc)]; done.
    + cbn. intros Hf. pose proof (co_slots _ _ Hc) as (_ & Hs & _)%NoDup_app.
      destruct (Hs (n_item nd)); [| done]. apply slot_node. eauto.
  - eapply apart_back; [by apply (apart_cached h b nd l') | done.. | |].
    + intros Hd. eapply Hdis; eauto.
    + by left.
  - split; [done |]. split; cbn [g_lockGrabbed]; unfold sat; rewrite ?lookup_insert_eq; eauto.
    + exists (n_id nd). apply elem_of_cons. left. by destruct nd.
    + left. split_and!; [done | eauto | done |]. by exists it.
    + left. exists (n_id nd). by destruct nd.
    + intros j Hj. by rewrite lookup_insert_ne.
    + eexists. split; [done |]. split_and!; [done | intros x _ Hx; split; cbn; congruence |].
      intros []. exists (n_id nd). by destruct nd.
    + eapply (holds_moved h b _ (n_id nd)); [exact Hc | exact Hp | by destruct nd].
    + apply no_hint. left. by rewrite (node_map _ _ _ Hc Hnd).
Qed.

(** A free slot is filled for a block that is not cached. *)
Lemma fill_ok bno new_index i it free' h b (F : Prop) :
  cache_ok h b -> freeItems b = i :: free' -> cache_items_map b !! bno = None ->
  apart h b i it (slots b) F -> isDirty it = false ->
  F \/ new_index = 0 \/ itemIndex it <> new_index ->
  exists h' b',
    grab bno new_index i (<[i := setInMem false it]> h)
      (set_cache (mk_lnode (next_node b) bno i :: cache_items_list b) (cache_items_map b)
         (next_node b + 1) free' b) = Ok (h', b') /\
    buf_ok h' b' /\
    cache_items_list b' = mk_lnode (next_node b) bno i :: cache_items_list b /\
    sat h' i (fun x => status x = BLOCK_BUF_LOCKED /\ itemIndex x = new_index /\
      blockNo x = bno /\ inMem x = false /\ isDirty x = false) /\
    freeItems b' = free' /\
    forall j, j <> i -> h' !! j = h !! j.
Proof.
  intros Hc Hf Hm Hap Hcl HF.
  erewrite grab_ok; [| reflexivity | apply lookup_insert_eq].
  rewrite insert_insert_eq.
  eexists _, _. split; [done |]. split_and!; [split | done | | done |].
  - eapply cache_ok_ext; [| | | | eapply (cache_ok_attach h b i free' bno); done]; done.
  - eapply apart_back; [exact Hap | done.. | | done]. congruence.
  - unfold sat. rewrite lookup_insert_eq. by eexists.
  - intros j Hj. by rewrite lookup_insert_ne.
Qed.

Lemma getBlock_free bno new_index h b i free' :
  buf_ok h b -> disciplined bno new_index h b ->
  cache_items_map b !! bno = None -> freeItems b = i :: free' ->
  exists g h' b', getBlock bno new_index h b = Ok (g, h', b') /\ buf_ok h' b' /\
    g_item g = Some i /\ obtained bno new_index i g h b h' b'.
Proof.
  intros Hok [_ Hdis] Hm Hf. pose proof Hok as [Hc _].
  destruct (co_free _ _ Hc i) as (it & Hi & Hcl); [rewrite Hf; by left |].
  unfold getBlock. set (b0 := set_stats _ b).
  assert (Hm0 : cache_items_map b0 !! bno = None) by done.
  assert (Hf0 : freeItems b0 = i :: free') by done.
  assert (Hok0 : buf_ok h b0) by by apply buf_ok_stats.
  destruct (fill_ok bno new_index i it free' h b0 False)
    as (h' & b' & E & Hok' & El & (x & Hx & Hl & Hix & Hbn & Him & Hdi) & Efr & Ho).
  - apply Hok0.
  - done.
  - done.
  - apply apart_free; [done | rewrite Hf0; by left | done].
  - done.
  - right. apply (Hdis i); [rewrite Hf; by left | done].
  - rewrite Hm0, Hf0. cbn [res_bind]. unfold get_item. rewrite Hi. cbn [res_bind].
    rewrite E. cbn [res_bind]. eexists _, _, _. split; [done |].
    split; [done |]. split; [done |].
    split; cbn [g_lockGrabbed]; unfold sat; rewrite ?El; eauto.
    + eexists. by left.
    + left. split_and!; eauto. intros Hh. by destruct (not_held _ _ _ _ Hc Hm Hh).
    + right. left. eauto.
    + exists x. split; [done |]. split_and!; [done | | done].
      intros ? Hh. by destruct (not_held _ _ _ _ Hc Hm Hh).
    + eapply holds_front; [exact El | | by right]. intros y Hy. split; [done |]. intros <-.
      pose proof (co_slots _ _ Hc) as (_ & Hs & _)%NoDup_app. apply (Hs (n_item y)).
      * apply slot_node. eauto.
      * rewrite Hf. by left.
    + right. by rewrite Efr.
    + apply no_hint. right. by rewrite Hf.
Qed.

Lemma getBlock_miss bno new_index h b :
  buf_ok h b -> cache_items_map b !! bno = None -> freeItems b = [] ->
  (exists g h' b' i, getBlock bno new_index h b = Ok (g, h', b') /\ buf_ok h' b' /\
     g_item g = Some i /\ obtained bno new_index i g h b h' b') \/
  (exists g b', getBlock bno new_index h b = Ok (g, h, b') /\ buf_ok h b' /\
     g_item g = None /\ slots b = []) \/
  (getBlock bno new_index h b = Crash AssertFail /\
   forall nd, nd ∈ cache_items_list b -> sat h (n_item nd) busy).
Proof.
  intros Hok Hm Hf. pose proof Hok as [Hc _].
  unfold getBlock. set (b0 := set_stats _ b).
  assert (Hm0 : cache_items_map b0 !! bno = None) by done.
  assert (Hf0 : freeItems b0 = []) by done.
  assert (Hok0 : buf_ok h b0) by by apply buf_ok_stats.
  assert (Hl0 : cache_items_list b0 = cache_items_list b) by done.
  rewrite Hm0, Hf0. destruct (cache_items_list b0) as [| nd0 l0] eqn:Hl.
  { right. left. cbn [res_bind]. eexists _, _. split; [done |]. split; [done |].
    split; [done |]. unfold slots. by rewrite <- Hl0. }
  rewrite Hl0. clear nd0 l0 Hl Hl0. destruct (replace_scan_ok h (reverse (cache_items_list b)) false)
    as (o & d & E & Ho).
  { intros nd Hnd. rewrite elem_of_reverse in Hnd.
    destruct (co_cached _ _ Hc _ Hnd) as (it & Hi & _). by exists it. }
  rewrite E. cbn [res_bind]. destruct o as [nd |].
  2: { right. right. split; [done |]. intros nd Hnd. apply Ho. by rewrite elem_of_reverse. }
  left. destruct Ho as (r1 & r2 & Hr & Hfree & Hbusy).
  assert (Hnd : nd ∈ cache_items_list b).
  { rewrite <- elem_of_reverse, Hr. set_solver. }
  destruct (co_cached _ _ Hc _ Hnd) as (it & Hi & Hblk).
  assert (Hcl : isDirty it = false).
  { destruct Hfree as (it' & Hi' & Hb). rewrite Hi in Hi'. injection Hi' as <-.
    apply not_true_is_false. intros Hd. apply Hb. by right. }
  destruct (erase_node_ok _ _ (co_ids _ _ Hc) Hnd) as (l' & Ee & Hp).
  unfold get_item. rewrite Hi. cbn [res_bind]. rewrite Ee. cbn [res_bind]. rewrite Hi.
  cbn [res_bind].
  destruct (fill_ok bno new_index (n_item nd) it [] h
    (set_cache l' (delete (n_bno nd) (cache_items_map b0)) (next_node b0) [n_item nd] b0) True)
    as (h' & b' & Eg & Hok' & El & (x & Hx & Hlk & Hix & Hbn & Him & Hdi) & Efr & Hoth).
  - eapply cache_ok_ext; [| | | | eapply (cache_ok_evict h b nd l' [n_item nd])];
      try done; [by rewrite Hf | by exists it].
  - done.
  - cbn. rewrite lookup_delete. case_decide; done.
  - pose proof (apart_cached h b nd l' it Hok Hp Hi) as [? ? ? ? ?]. by split.
  - done.
  - by left.
  - rewrite Hblk. unfold set_cache in Eg |- *. cbn in Eg |- *. rewrite Eg. cbn [res_bind].
    eexists _, _, _, _. split; [done |]. split; [done |]. split; [done |].
    split; cbn [g_lockGrabbed]; unfold sat; rewrite ?El; eauto.
    + eexists. by left.
    + left. split_and!; eauto. intros Hh. by destruct (not_held _ _ _ _ Hc Hm Hh).
    + right. right. split_and!; [done.. |]. exists (reverse r2), nd, (reverse r1).
      split_and!; [| done.. |].
      * rewrite <- (reverse_involutive (cache_items_list b)), Hr.
        by rewrite reverse_app, reverse_cons, <- app_assoc.
      * intros y Hy. apply Hbusy. by rewrite elem_of_reverse in Hy.
    + exists x. split; [done |]. split_and!; [done | | done].
      intros ? Hh. by destruct (not_held _ _ _ _ Hc Hm Hh).
    + eapply holds_moved; [exact Hc | exact Hp | exact El].
    + left. by rewrite Efr.
    + cbn [g_hasDirty]. rewrite Hr in E. rewrite (replace_scan_hint _ _ _ _ _ _ E Hbusy Hfree).
      rewrite (skipped_dirty_at bno h b (reverse r2) nd (reverse r1)); [| done.. |].
      * setoid_rewrite elem_of_reverse. naive_solver.
      * rewrite <- (reverse_involutive (cache_items_list b)), Hr.
        by rewrite reverse_app, reverse_cons, <- app_assoc.
Qed.

(** Every outcome of [getBlock]. *)
Lemma getBlock_cases bno new_index h b :
  buf_ok h b -> disciplined bno new_index h b ->
  (exists g h' b', getBlock bno new_index h b = Ok (g, h', b') /\ buf_ok h' b' /\
     match g_item g with
     | Some i => obtained bno new_index i g h b h' b'
     | None => slots b = [] /\ freeItems b = [] /\ h' = h
     end) \/
  (getBlock bno new_index h b = Crash AssertFail /\ cache_items_map b !! bno = None /\
   freeItems b = [] /\ forall nd, nd ∈ cache_items_list b -> sat h (n_item nd) busy).
Proof.
  intros Hok Hdis. pose proof Hok as [Hc _].
  destruct (cache_items_map b !! bno) as [n |] eqn:Hm.
  - left. destruct (map_node _ _ _ _ Hc Hm) as (nd & Hnd & _ & Hb).
    destruct (co_cached _ _ Hc _ Hnd) as (it & Hi & _).
    destruct (decide (status it = BLOCK_BUF_LOCKED)) as [Hl | Hl].
    + destruct (getBlock_hit_locked bno new_index h b nd it) as (g & b' & E & ? & Eg & ?);
        [done.. |]. exists g, h, b'. by rewrite Eg.
    + destruct (getBlock_hit bno new_index h b nd it) as (g & h' & b' & E & ? & Eg & ?);
        [done.. |]. exists g, h', b'. by rewrite Eg.
  - destruct (freeItems b) as [| i free] eqn:Hf.
    + destruct (getBlock_miss bno new_index h b Hok Hm Hf)
        as [(g & h' & b' & i & E & ? & Eg & ?) | [(g & b' & E & ? & Eg & ?) | [E ?]]].
      * left. exists g, h', b'. by rewrite Eg.
      * left. exists g, h, b'. by rewrite Eg.
      * by right.
    + left. destruct (getBlock_free bno new_index h b i free) as (g & h' & b' & E & ? & Eg & ?);
        [done.. |]. exists g, h', b'. by rewrite Eg.
Qed.

(** ** Marking and flushing *)

Lemma slot_not_free h b i : cache_ok h b -> i ∈ slots b -> i ∉ freeItems b.
Proof.
  intros Hc Hs Hf. pose proof (co_slots _ _ Hc) as (_ & H & _)%NoDup_app.
  by apply (H i).
Qed.

Lemma slot_apart h b i :
  buf_ok h b -> i ∈ slots b ->
  exists nd l' it, nd ∈ cache_items_list b /\ n_item nd = i /\
    cache_items_list b ≡ₚ nd :: l' /\ h !! i = Some it /\ blockNo it = n_bno nd /\
    apart h b i it (n_item <$> l') True.
Proof.
  intros Hok (nd & Hnd & <-)%slot_node. pose proof Hok as [Hc _].
  destruct (erase_node_ok _ _ (co_ids _ _ Hc) Hnd) as (l' & _ & Hp).
  destruct (co_cached _ _ Hc _ Hnd) as (it & Hi & Hb).
  exists nd, l', it. split_and!; try done. by apply apart_cached.
Qed.

Lemma setItemDirty_ok h b i it d :
  buf_ok h b -> i ∈ slots b -> h !! i = Some it ->
  exists b', setItemDirty i d (itemIndex it) h b = Ok (isDirty it, <[i := with_dirty d it]> h, b') /\
    buf_ok (<[i := with_dirty d it]> h) b' /\
    cache_items_list b' = cache_items_list b /\ freeItems b' = freeItems b.
Proof.
  intros Hok Hs Hi. pose proof Hok as [Hc _].
  destruct (slot_apart _ _ _ Hok Hs) as (nd & l' & it' & Hnd & Hit & Hp & Hi' & Hb & Hap).
  rewrite Hi in Hi'. injection Hi' as <-.
  assert (Hcu : cache_ok (<[i := with_dirty d it]> h) b).
  { eapply cache_ok_update; [done | exact Hi | done |].
    intros Hf. by destruct (slot_not_free h b i). }
  assert (Hsl : slots b ≡ₚ i :: (n_item <$> l')).
  { unfold slots. rewrite Hp, fmap_cons. by rewrite Hit. }
  assert (Hcount : 0 <= dirtyItemNum b - (if isDirty it then 1 else 0)).
  { rewrite (ap_count _ _ _ _ _ _ Hap). destruct (isDirty it); lia. }
  unfold setItemDirty, get_item, adjustDirtyItemNum. rewrite Hi. cbn [res_bind setDirty].
  destruct (isDirty it) eqn:Hd, d; cbn [Bool.eqb].
  - eexists. split; [done |]. split; [split; [done |] | done].
    eapply apart_set_dirty; [exact Hap | done.. | |]; rewrite ?Hd; cbn; [| lia].
    intros k j. rewrite (ap_dirty _ _ _ _ _ _ Hap).
    pose proof (ap_out _ _ _ _ _ _ Hap). naive_solver.
  - destruct (_ <? 0) eqn:E; b2p; [lia |]. cbn [res_bind].
    eexists. split; [done |]. split; [split; [by eapply cache_ok_ext, Hcu |] | done].
    eapply apart_set_dirty; [exact Hap | done.. | |]; rewrite ?Hd; cbn; [| lia].
    intros k j. unfold dset at 1. cbn. rewrite set_erase_spec. fold (dset b k).
    rewrite (ap_dirty _ _ _ _ _ _ Hap). pose proof (ap_out _ _ _ _ _ _ Hap).
    naive_solver.
  - destruct (_ <? 0) eqn:E; b2p; [lia |]. cbn [res_bind].
    eexists. split; [done |]. split; [split; [by eapply cache_ok_ext, Hcu |] | done].
    eapply apart_set_dirty; [exact Hap | done.. | |]; rewrite ?Hd; cbn; [| lia].
    intros k j. unfold dset at 1. cbn. rewrite set_emplace_spec. fold (dset b k).
    rewrite (ap_dirty _ _ _ _ _ _ Hap). pose proof (ap_out _ _ _ _ _ _ Hap).
    naive_solver.
  - eexists. split; [done |]. split; [split; [done |] | done].
    eapply apart_set_dirty; [exact Hap | done.. | |]; rewrite ?Hd; cbn; [| lia].
    intros k j. rewrite (ap_dirty _ _ _ _ _ _ Hap).
    pose proof (ap_out _ _ _ _ _ _ Hap). naive_solver.
Qed.

Lemma fg_collect_ok h b l :
  cache_ok h b -> NoDup l ->
  (forall i, i ∈ l -> i ∈ slots b /\ sat h i (fun it => isDirty it = true)) ->
  exists bl, fg_collect h l = Ok bl /\ NoDup bl /\
    forall bno, bno ∈ bl <-> exists i, i ∈ l /\ holds b bno i.
Proof.
  intros Hc Hnd. induction Hnd as [| i l Hi Hnd IH]; intros Hl.
  - exists []. split; [done |]. split; [constructor |]. intros bno. split.
    + by intros ?%elem_of_nil.
    + by intros (? & ?%elem_of_nil & _).
  - destruct IH as (bl & E & Hbl & Hspec); [intros j Hj; apply Hl; by right |].
    destruct (Hl i) as [Hs (it & Hit & Hd)]; [by left |].
    pose proof (slot_holds _ _ _ _ Hc Hs Hit) as Hh.
    cbn [fg_collect]. unfold get_item. rewrite Hit. cbn [res_bind]. rewrite Hd.
    cbn [check res_bind]. rewrite E. cbn [res_bind]. eexists. split; [done |]. split.
    + apply NoDup_cons. split; [| done]. intros (j & Hj & Hh')%Hspec.
      assert (i = j) as -> by by eapply (holds_inj _ _ _ _ _ _ Hc Hh Hh'). done.
    + intros bno. rewrite elem_of_cons, Hspec. setoid_rewrite elem_of_cons. split.
      * intros [-> | (j & ? & ?)]; eauto.
      * intros (j & [-> | ?] & Hh'); [| by eauto]. left.
        by eapply (holds_inj _ _ _ _ _ _ Hc Hh' Hh).
Qed.

(** The move to the back of the list, in a new node. *)
Lemma cache_ok_renode h b nd l' :
  cache_ok h b -> cache_items_list b ≡ₚ nd :: l' ->
  sat h (n_item nd) (fun it => isDirty it = false) ->
  cache_ok h (set_cache (l' ++ [mk_lnode (next_node b) (n_bno nd) (n_item nd)])
                (<[n_bno nd := next_node b]> (cache_items_map b)) (next_node b + 1)
                (freeItems b) b).
Proof.
  intros Hc Hp Hcl.
  pose proof (cache_ok_evict h b nd l' (n_item nd :: freeItems b) Hc Hp
    (Permutation_refl _) Hcl) as Hc1.
  destruct (co_cached _ _ Hc nd) as (it & Hi & Hb); [rewrite Hp; by left |].
  pose proof (cache_ok_attach h _ (n_item nd) (freeItems b) (n_bno nd) it Hc1 eq_refl
    (lookup_delete_eq _ _) Hb) as Hc2.
  rewrite (insert_id h) in Hc2 by done.
  eapply cache_ok_ext; [| | | | eapply cache_ok_perm, Hc2].
  - reflexivity.
  - cbn. by rewrite insert_delete_eq.
  - done.
  - done.
  - cbn. by rewrite Permutation_cons_append.
Qed.

(** One iteration of the loop of [doFlushDone]. *)
Lemma flush_done_step bno blocks h b i it :
  buf_ok h b -> holds b bno i -> h !! i = Some it -> isDirty it = true ->
  exists b1, flush_done_loop (bno :: blocks) h b =
      flush_done_loop blocks (<[i := with_dirty false it]> h) b1 /\
    buf_ok (<[i := with_dirty false it]> h) b1 /\
    dirtyItemNum b1 = dirtyItemNum b - 1 /\
    forall c j, holds b1 c j <-> holds b c j.
Proof.
  intros Hok Hh Hi Hd. pose proof Hok as [Hc _].
  destruct Hh as (n & Hn). set (nd := mk_lnode n bno i) in *.
  destruct (erase_node_ok _ nd (co_ids _ _ Hc) Hn) as (l' & Ee & Hp).
  pose proof (apart_cached h b nd l' it Hok Hp Hi) as Hap.
  assert (Hs : i ∈ slots b) by (apply slot_node; by exists nd).
  pose proof (node_map _ _ _ Hc Hn) as Hm. cbn [nd n_bno n_id] in Hm.
  assert (Hcount : 1 <= dirtyItemNum b).
  { rewrite (ap_count _ _ _ _ _ _ Hap), Hd. lia. }
  cbn [flush_done_loop]. unfold getBlockWithoutAccess. rewrite Hm.
  pose proof (find_node_ok _ nd (co_ids _ _ Hc) Hn) as Hfn.
  change (n_id nd) with n in Hfn, Ee. rewrite Hfn. cbn [res_bind nd n_item].
  unfold get_item. rewrite Hi. cbn [res_bind setDirty]. rewrite Hd. cbn [negb].
  unfold adjustDirtyItemNum. destruct (_ <? 0) eqn:E; b2p; [lia |].
  cbn [res_bind set_dirty_maps cache_items_map cache_items_list itemIndex with_dirty].
  rewrite Hm, Ee. cbn [res_bind].
  eexists. split; [done |]. cbn [next_node]. split; [split |].
  - assert (Hcu : cache_ok (<[i := with_dirty false it]> h) b).
    { eapply cache_ok_update; [done | exact Hi | done |].
      intros Hf. by destruct (slot_not_free h b i). }
    eapply cache_ok_ext; [| | | | apply (cache_ok_renode _ b nd l' Hcu Hp)]; try done.
    exists (with_dirty false it). cbn. by rewrite lookup_insert_eq.
  - eapply apart_set_dirty; [exact Hap | | done.. | |]; rewrite ?Hd; cbn; [| | lia].
    + unfold slots. cbn. rewrite fmap_app. cbn. by rewrite Permutation_app_comm.
    + intros k j. unfold dset at 1. cbn. rewrite set_erase_spec. fold (dset b k).
      rewrite (ap_dirty _ _ _ _ _ _ Hap). pose proof (ap_out _ _ _ _ _ _ Hap). cbn in *.
      naive_solver.
  - split; [cbn; lia |]. intros c j. unfold holds. cbn. setoid_rewrite Hp.
    setoid_rewrite elem_of_app. setoid_rewrite list_elem_of_singleton.
    setoid_rewrite elem_of_cons. split.
    + intros (m & [Hm' | [= -> -> ->]]); [eauto |]. exists n. by left.
    + intros (m & [[= -> -> ->] | Hm']); eauto.
Qed.

Lemma flush_done_ok blocks h b :
  NoDup blocks -> buf_ok h b ->
  (forall bno, bno ∈ blocks ->
     exists i, holds b bno i /\ sat h i (fun it => isDirty it = true)) ->
  exists h' b', flush_done_loop blocks h b = Ok (0, h', b') /\ buf_ok h' b' /\
    dirtyItemNum b' = dirtyItemNum b - Z.of_nat (length blocks) /\
    (forall c j, holds b' c j <-> holds b c j) /\
    (forall bno i it, bno ∈ blocks -> holds b bno i -> h !! i = Some it ->
       h' !! i = Some (with_dirty false it)) /\
    (forall j, (forall bno, bno ∈ blocks -> ~ holds b bno j) -> h' !! j = h !! j).
Proof.
  intros Hnd. revert h b. induction Hnd as [| bno blocks Hn Hnd IH]; intros h b Hok Hall.
  - exists h, b. split_and!; try done; [cbn; lia |]. by intros ? ? ? ?%elem_of_nil.
  - destruct (Hall bno) as (i & Hh & it & Hi & Hd); [by left |].
    destruct (flush_done_step bno blocks h b i it Hok Hh Hi Hd) as (b1 & E & Hok1 & Ec & Hh1).
    pose proof Hok as [Hc _].
    destruct (IH _ b1 Hok1) as (h' & b' & E' & Hok' & Ec' & Hh' & Hin & Hout).
    { intros c Hcin. destruct (Hall c) as (j & Hj & Hs); [by right |]. exists j.
      rewrite Hh1, sat_insert_ne; [done |]. intros ->.
      by assert (c = bno) as -> by by eapply (holds_inj _ _ _ _ _ _ Hc Hj Hh). }
    rewrite E. exists h', b'. split_and!; try done.
    + rewrite Ec', Ec. cbn [length]. lia.
    + intros c j. by rewrite Hh', Hh1.
    + intros c j x Hc1 Hj Hx. apply elem_of_cons in Hc1 as [-> | Hc1].
      * assert (j = i) as -> by by eapply (holds_inj _ _ _ _ _ _ Hc Hj Hh).
        rewrite Hout; [rewrite lookup_insert_eq; congruence |].
        intros c Hc1. rewrite Hh1. intros Hci.
        by assert (c = bno) as -> by by eapply (holds_inj _ _ _ _ _ _ Hc Hci Hh).
      * eapply Hin; [done | by apply Hh1 |]. rewrite lookup_insert_ne; [done |]. intros ->.
        by assert (c = bno) as -> by by eapply (holds_inj _ _ _ _ _ _ Hc Hj Hh).
    + intros j Hj. rewrite Hout.
      * rewrite lookup_insert_ne; [done |]. intros ->. apply (Hj bno); [by left | done].
      * intros c Hc1. rewrite Hh1. apply Hj. by right.
Qed.

(** ** Removing slots *)

(** The buffer with other indexes. *)
Definition view (n : Z) (bm dm : gmap Z (gset Z)) (b : BlockBuffer) : BlockBuffer :=
  set_blockIndexMap bm (set_dirty_maps n dm b).

Lemma erase_gone (bm : gmap Z (gset Z)) k i k' j :
  (i ∈ default ∅ (bm !! k') -> k' = k) ->
  j ∈ default ∅ (set_erase k i bm !! k') <-> j <> i /\ j ∈ default ∅ (bm !! k').
Proof. intros Hk. rewrite set_erase_spec. naive_solver. Qed.

Lemma index_ok_sets h b b' :
  slots b ≡ₚ slots b' -> (forall k, k <> 0 -> bset b' k = bset b k) ->
  (forall k, dset b' k = dset b k) -> dirtyItemNum b' = dirtyItemNum b ->
  index_ok h b -> index_ok h b'.
Proof.
  intros Hs Hb Hd Hn [H1 H2 H3]. split.
  - intros k i. by rewrite Hd, <- Hs.
  - intros k i Hk. rewrite Hb, <- Hs by done. auto.
  - by rewrite Hn, <- Hs.
Qed.

(** Slot [i] of inode [k] leaves the cache and both indexes. *)
Lemma drop_slot h b i k :
  buf_ok h b -> k <> 0 -> i ∈ bset b k ->
  exists nd l' it, nd ∈ cache_items_list b /\ n_item nd = i /\
    cache_items_list b ≡ₚ nd :: l' /\
    h !! i = Some it /\ blockNo it = n_bno nd /\ itemIndex it = k /\
    (isDirty it = true <-> i ∈ dset b k) /\
    0 <= dirtyItemNum b - (if isDirty it then 1 else 0) /\
    forall b' it', slots b' ≡ₚ n_item <$> l' ->
      blockIndexMap b' = set_erase k i (blockIndexMap b) ->
      dirtyIndexMap b' = set_erase k i (dirtyIndexMap b) ->
      dirtyItemNum b' = dirtyItemNum b - (if isDirty it then 1 else 0) ->
      index_ok (<[i := it']> h) b'.
Proof.
  intros Hok Hk Hin. pose proof Hok as [Hc Hx].
  apply (io_index _ _ Hx) in Hin as [Hs (it & Hi & Hix)]; [| done].
  destruct (slot_apart _ _ _ Hok Hs) as (nd & l' & it' & Hnd & Hit & Hp & Hi' & Hb & Hap).
  rewrite Hi in Hi'. injection Hi' as <-.
  exists nd, l', it. split_and!; try done.
  - rewrite (ap_dirty _ _ _ _ _ _ Hap). pose proof (ap_out _ _ _ _ _ _ Hap). naive_solver.
  - rewrite (ap_count _ _ _ _ _ _ Hap). destruct (isDirty it); lia.
  - intros b' it' Hs' Eb Ed En. eapply apart_gone; [exact Hap | done | | | done].
    + intros k' j Hk'. unfold bset. rewrite Eb. apply erase_gone.
      fold (bset b k'). rewrite (io_index _ _ Hx) by done. intros [_ (x & Hx1 & Hx2)]. congruence.
    + intros k' j. unfold dset. rewrite Ed. apply erase_gone. fold (dset b k').
      rewrite (io_dirty _ _ Hx). intros [_ (x & Hx1 & _ & Hx2)]. congruence.
Qed.

Definition erase_all (k : Z) (p : list Z) (m : gmap Z (gset Z)) : gmap Z (gset Z) :=
  foldl (fun m i => set_erase k i m) m p.

Lemma erase_all_spec k p m k' j :
  j ∈ default ∅ (erase_all k p m !! k') <->
  j ∈ default ∅ (m !! k') /\ ~ (k = k' /\ j ∈ p).
Proof.
  revert m. induction p as [| i p IH]; intros m; cbn [erase_all foldl].
  - split; [| naive_solver]. intros ?. split; [done |]. by intros [_ ?%elem_of_nil].
  - fold (erase_all k p (set_erase k i m)). rewrite IH, set_erase_spec, elem_of_cons.
    naive_solver.
Qed.

(** ** Unlinking an inode *)

Lemma holds_remove h b nd l' :
  cache_ok h b -> cache_items_list b ≡ₚ nd :: l' ->
  forall c j, (exists n, mk_lnode n c j ∈ l') <-> holds b c j /\ j <> n_item nd.
Proof.
  intros Hc Hp c j. unfold holds. setoid_rewrite Hp. setoid_rewrite elem_of_cons. split.
  - intros (n & Hn). split; [eauto |]. intros ->.
    pose proof (co_slots _ _ Hc) as [Hs _]%NoDup_app. unfold slots in Hs.
    rewrite Hp, fmap_cons in Hs. apply NoDup_cons in Hs as [Hs _]. apply Hs.
    apply list_elem_of_fmap. by exists (mk_lnode n c (n_item nd)).
  - intros [(n & [<- | Hn]) Hne]; [done | eauto].
Qed.

Lemma adjust_dirty (d : bool) b :
  0 <= dirtyItemNum b - (if d then 1 else 0) ->
  (if d then adjustDirtyItemNum (-1) b else Ok b) =
    Ok (set_dirty_maps (dirtyItemNum b - (if d then 1 else 0)) (dirtyIndexMap b) b).
Proof.
  intros H. destruct d; unfold adjustDirtyItemNum.
  - destruct (_ <? 0) eqn:E; b2p; [lia | done].
  - rewrite Z.sub_0_r. by destruct b.
Qed.

Lemma unlink_step cnt h b i k bm dm :
  buf_ok h (view (dirtyItemNum b) bm dm b) -> k <> 0 -> i ∈ default ∅ (bm !! k) ->
  exists it b', h !! i = Some it /\
    unlink_item (cnt, h, b) i =
      Ok (cnt + (if isDirty it then 1 else 0), <[i := with_dirty false it]> h, b') /\
    buf_ok (<[i := with_dirty false it]> h)
      (view (dirtyItemNum b') (set_erase k i bm) (set_erase k i dm) b') /\
    blockIndexMap b' = blockIndexMap b /\ dirtyIndexMap b' = dirtyIndexMap b /\
    (isDirty it = true <-> i ∈ default ∅ (dm !! k)) /\
    freeItems b' = freeItems b ++ [i] /\
    (forall c j, holds b' c j <-> holds b c j /\ j <> i).
Proof.
  intros Hok Hk Hin. pose proof Hok as [Hc _].
  destruct (drop_slot h _ i k Hok Hk Hin)
    as (nd & l' & it & Hnd & <- & Hp & Hi & Hb & Hix & Hd & Hcnt & Hidx).
  cbn [view set_blockIndexMap set_dirty_maps cache_items_list dirtyItemNum] in Hnd, Hp, Hcnt.
  pose proof (node_map _ _ _ Hc Hnd) as Hm.
  pose proof (co_ids _ _ Hc) as Hids. cbn [view set_blockIndexMap set_dirty_maps
    cache_items_list cache_items_map] in Hm, Hids.
  destruct (erase_node_ok _ nd Hids Hnd) as (l'' & Ee & Hp'').
  assert (Hll : l' ≡ₚ l'') by (rewrite Hp in Hp''; by apply Permutation_cons_inv in Hp'').
  assert (Hcu : cache_ok (<[n_item nd := with_dirty false it]> h)
    (set_cache l'' (delete (n_bno nd) (cache_items_map b)) (next_node b)
       (freeItems b ++ [n_item nd]) (view (dirtyItemNum b) bm dm b))).
  { apply (cache_ok_evict _ (view (dirtyItemNum b) bm dm b)); [| done | |].
    2: by rewrite <- Permutation_cons_append.
    - by eapply cache_ok_update.
    - exists (with_dirty false it). by rewrite lookup_insert_eq. }
  pose proof (holds_remove _ _ nd l'' Hc Hp'') as Hhold.
  unfold unlink_item, get_item. rewrite Hi. cbn [res_bind setDirty].
  rewrite adjust_dirty by done.
  cbn [res_bind set_dirty_maps cache_items_map cache_items_list blockNo with_dirty].
  rewrite Hb, Hm, Ee. cbn [res_bind].
  replace (if isDirty it then cnt + 1 else cnt) with (cnt + (if isDirty it then 1 else 0))
    by (destruct (isDirty it); lia).
  eexists it, _. split; [done |]. split; [done |]. split_and!; try done. split; [by eapply cache_ok_ext, Hcu |].
  eapply Hidx; try done. unfold slots. cbn. by rewrite Hll.
Qed.

Lemma unlink_loop p k : k <> 0 -> forall cnt h b bm dm,
  NoDup p -> buf_ok h (view (dirtyItemNum b) bm dm b) ->
  (forall i, i ∈ p -> i ∈ default ∅ (bm !! k)) ->
  exists h' b', foldM unlink_item p (cnt, h, b) =
      Ok (cnt + Z.of_nat (length (filter (fun i => i ∈ default ∅ (dm !! k)) p)), h', b') /\
    buf_ok h' (view (dirtyItemNum b') (erase_all k p bm) (erase_all k p dm) b') /\
    blockIndexMap b' = blockIndexMap b /\ dirtyIndexMap b' = dirtyIndexMap b /\
    freeItems b' = freeItems b ++ p /\
    (forall c j, holds b' c j <-> holds b c j /\ j ∉ p) /\
    (forall j, j ∉ p -> h' !! j = h !! j).
Proof.
  intros Hk. induction p as [| i p IH]; intros cnt h b bm dm Hnd Hok Hall.
  - exists h, b. cbn [foldM filter length]. rewrite Z.add_0_r, app_nil_r.
    split_and!; try done. intros c j. split; [| tauto]. intros ?. split; [done |].
    by intros ?%elem_of_nil.
  - apply NoDup_cons in Hnd as [Hi Hnd].
    destruct (unlink_step cnt h b i k bm dm Hok Hk) as
      (it & b1 & Hit & E & Hok1 & Eb & Ed & Hd & Ef & Hh); [apply Hall; by left |].
    destruct (IH (cnt + (if isDirty it then 1 else 0)) _ b1 _ _ Hnd Hok1)
      as (h' & b' & E' & Hok' & Eb' & Ed' & Ef' & Hh' & Hout).
    { intros j Hj. rewrite set_erase_spec. split; [apply Hall; by right |]. naive_solver. }
    exists h', b'. cbn [foldM]. rewrite E. cbn [res_bind]. rewrite E'.
    split_and!; [| exact Hok' | congruence | congruence | | |].
    + do 3 f_equal. rewrite filter_cons.
      rewrite (filter_Forall_iff _ (fun j => j ∈ default ∅ (dm !! k)) p).
      * case_decide as Hdm; [apply Hd in Hdm; rewrite Hdm; cbn [length]; lia |].
        destruct (isDirty it); [by destruct Hdm; apply Hd | lia].
      * rewrite Forall_forall. intros j Hj. rewrite set_erase_spec. naive_solver.
    + rewrite Ef', Ef, <- app_assoc. done.
    + intros c j. rewrite Hh', Hh, elem_of_cons. tauto.
    + intros j [Hne Hj]%not_elem_of_cons. rewrite Hout, lookup_insert_ne by done. done.
Qed.

Lemma filter_in_set (X Y : gset Z) (p : list Z) :
  p ≡ₚ elements Y -> X ⊆ Y -> length (filter (fun i => i ∈ X) p) = size X.
Proof.
  intros Hp Hsub. unfold size, set_size. cbn. apply Permutation_length, NoDup_Permutation.
  - apply NoDup_filter. rewrite Hp. apply NoDup_elements.
  - apply NoDup_elements.
  - intros i. rewrite list_elem_of_filter, Hp, !elem_of_elements. set_solver.
Qed.

Lemma dset_sub_bset h b k : index_ok h b -> k <> 0 -> dset b k ⊆ bset b k.
Proof.
  intros [Hd Hx _] Hk i. rewrite Hd, Hx by done. intros [? (it & ? & ? & ?)].
  split; [done |]. by exists it.
Qed.

(** The indexes after the inode is erased from them. *)
Lemma unlink_final `{SIter} index h' b b' b2 :
  dset b index ⊆ bset b index ->
  buf_ok h' (view (dirtyItemNum b') (erase_all index (siter (bset b index)) (blockIndexMap b))
               (erase_all index (siter (bset b index)) (dirtyIndexMap b)) b') ->
  cache_items_list b2 = cache_items_list b' -> cache_items_map b2 = cache_items_map b' ->
  next_node b2 = next_node b' -> freeItems b2 = freeItems b' ->
  dirtyItemNum b2 = dirtyItemNum b' ->
  blockIndexMap b2 = delete index (blockIndexMap b) ->
  dirtyIndexMap b2 = (if Z.of_nat (size (dset b index)) >? 0
                      then delete index (dirtyIndexMap b) else dirtyIndexMap b) ->
  buf_ok h' b2.
Proof.
  intros Hsub [Hc' Hx'] E1 E2 E3 E4 E5 E6 E7. split; [by eapply cache_ok_ext, Hc' |].
  eapply index_ok_sets, Hx'; unfold slots; rewrite ?E1; try done.
  - intros k Hk. unfold bset. rewrite E6. cbn. apply set_eq. intros j.
    rewrite erase_all_spec, siter_elem, lookup_delete.
    case_decide as Ek; [subst k; unfold bset; set_solver | naive_solver].
  - intros k. unfold dset. rewrite E7. cbn. apply set_eq. intros j.
    rewrite erase_all_spec, siter_elem. destruct (_ >? 0) eqn:En.
    + rewrite lookup_delete.
      case_decide as Ek; [subst k; unfold dset in Hsub; set_solver | naive_solver].
    + rewrite Z.gtb_ltb in En. b2p. split; [| naive_solver]. intros Hj. split; [done |].
      intros [<- _]. assert (H0 : size (dset b index) = 0%nat) by lia.
      apply size_empty_iff in H0. unfold dset in H0. set_solver.
Qed.

Lemma release_unlinked_ok `{SIter} index h b :
  buf_ok h b -> 1 < index ->
  exists h' b', releaseUnlinkedInodeDirtyBlocks index h b = Ok (h', b') /\ buf_ok h' b' /\
    freeItems b' ≡ₚ freeItems b ++ elements (bset b index) /\
    (forall c j, holds b' c j <-> holds b c j /\ j ∉ bset b index) /\
    (forall j, j ∉ bset b index -> h' !! j = h !! j).
Proof.
  intros Hok Hix. pose proof Hok as [Hc Hxi].
  assert (Hview : buf_ok h (view (dirtyItemNum b) (blockIndexMap b) (dirtyIndexMap b) b)).
  { destruct Hok as [[] []]. split; by split. }
  pose proof (dset_sub_bset h b index Hxi ltac:(lia)) as Hsub.
  destruct (unlink_loop (siter (bset b index)) index ltac:(lia) 0 h b _ _
    (siter_NoDup _) Hview) as (h' & b' & E & Hok' & Eb & Ed & Ef & Hh & Hout).
  { intros i. rewrite siter_elem. done. }
  rewrite (filter_in_set (dset b index) (bset b index)) in E by (done || apply siter_perm).
  rewrite Z.add_0_l in E.
  unfold releaseUnlinkedInodeDirtyBlocks.
  rewrite (proj2 (check_ok (index >? 1) tt)) by (apply Z.gtb_lt; lia). cbn [res_bind].
  replace (match dirtyIndexMap b !! index with Some s => Z.of_nat (size s) | None => 0 end)
    with (Z.of_nat (size (dset b index)))
    by (unfold dset; by destruct (dirtyIndexMap b !! index)).
  set (nd := Z.of_nat (size (dset b index))) in *.
  assert (Hrun : match blockIndexMap b !! index with
    | Some s => let! (cnt, h, b) := foldM unlink_item (siter s) (0, h, b) in
                Ok (cnt, h, set_blockIndexMap (delete index (blockIndexMap b)) b)
    | None => Ok (0, h, b)
    end = Ok (nd, h', match blockIndexMap b !! index with
                      | Some _ => set_blockIndexMap (delete index (blockIndexMap b')) b'
                      | None => b' end)).
  { unfold bset in E. destruct (blockIndexMap b !! index) as [s |]; cbn in E.
    - by rewrite E.
    - assert (Enil : siter ∅ = []) by (apply Permutation_nil_r; by rewrite siter_perm).
      rewrite Enil in E. cbn in E. injection E as <- <- <-. done. }
  rewrite Hrun. cbn [res_bind]. rewrite (proj2 (check_ok (nd =? nd) tt)) by apply Z.eqb_refl.
  cbn [res_bind]. eexists _, _. split; [done |].
  destruct (blockIndexMap b !! index) as [s |] eqn:Es; (split_and!;
    [eapply unlink_final; [exact Hsub | exact Hok' | ..]; fold nd; destruct (nd >? 0); cbn;
       rewrite ?Eb, ?Ed, ?delete_delete_eq; done
    | destruct (nd >? 0); cbn; by rewrite Ef, siter_perm
    | intros c j; destruct (nd >? 0); unfold holds in *; cbn; rewrite Hh, siter_elem; done
    | intros j Hj; apply Hout; by rewrite siter_elem]).
Qed.

(** ** Moving an inode between buffers *)

Lemma split_step h b i k n bm dm :
  buf_ok h (view n bm dm b) -> k <> 0 -> i ∈ default ∅ (bm !! k) ->
  sat h i (fun it => status it <> BLOCK_BUF_LOCKED) ->
  exists it b', h !! i = Some it /\ split_item h b i = Ok b' /\
    buf_ok h (view (n - (if isDirty it then 1 else 0)) (set_erase k i bm) (set_erase k i dm) b') /\
    (isDirty it = true <-> i ∈ default ∅ (dm !! k)) /\
    blockIndexMap b' = blockIndexMap b /\ dirtyIndexMap b' = dirtyIndexMap b /\
    dirtyItemNum b' = dirtyItemNum b /\ freeItems b' = freeItems b /\
    (forall c j, holds b' c j <-> holds b c j /\ j <> i).
Proof.
  intros Hok Hk Hin Hlk. pose proof Hok as [Hc _].
  destruct (drop_slot h _ i k Hok Hk Hin)
    as (nd & l' & it & Hnd & <- & Hp & Hi & Hb & Hix & Hd & _ & Hidx).
  pose proof (node_map _ _ _ Hc Hnd) as Hm. pose proof (co_ids _ _ Hc) as Hids.
  cbn [view set_blockIndexMap set_dirty_maps cache_items_list cache_items_map] in Hnd, Hp, Hm, Hids.
  destruct (erase_node_ok _ nd Hids Hnd) as (l'' & Ee & Hp'').
  assert (Hll : l' ≡ₚ l'') by (rewrite Hp in Hp''; by apply Permutation_cons_inv in Hp'').
  destruct Hlk as (it' & Hi' & Hlk). rewrite Hi in Hi'. injection Hi' as <-.
  unfold split_item, get_item. rewrite Hi. cbn [res_bind]. rewrite Hb, Hm.
  rewrite find_node_ok by done. cbn [res_bind]. rewrite Hi. cbn [res_bind].
  rewrite decide_False, Ee by done. cbn [res_bind].
  exists it. eexists. split; [done |]. split; [done |]. split_and!; try done.
  - pose proof (cache_ok_remove _ _ nd l'' Hc Hp'') as Hc'. split.
    + by eapply cache_ok_ext, Hc'.
    + rewrite <- (insert_id h (n_item nd) it) by done. apply Hidx; try done.
      unfold slots. cbn. by rewrite Hll.
  - apply (holds_remove _ _ _ _ Hc Hp'').
Qed.

Lemma split_loop p k h : k <> 0 -> forall b n bm dm,
  NoDup p -> buf_ok h (view n bm dm b) ->
  (forall i, i ∈ p -> i ∈ default ∅ (bm !! k) /\
     sat h i (fun it => status it <> BLOCK_BUF_LOCKED)) ->
  exists b', foldM (split_item h) p b = Ok b' /\
    buf_ok h (view (n - Z.of_nat (length (filter (fun i => i ∈ default ∅ (dm !! k)) p)))
                (erase_all k p bm) (erase_all k p dm) b') /\
    blockIndexMap b' = blockIndexMap b /\ dirtyIndexMap b' = dirtyIndexMap b /\
    dirtyItemNum b' = dirtyItemNum b /\ freeItems b' = freeItems b /\
    (forall c j, holds b' c j <-> holds b c j /\ j ∉ p).
Proof.
  intros Hk. induction p as [| i p IH]; intros b n bm dm Hnd Hok Hall.
  - exists b. cbn [foldM filter length]. rewrite Z.sub_0_r. split_and!; try done.
    intros c j. split; [| tauto]. intros ?. split; [done |]. by intros ?%elem_of_nil.
  - apply NoDup_cons in Hnd as [Hi Hnd].
    destruct (Hall i) as [Hin Hlk]; [by left |].
    destruct (split_step h b i k n bm dm Hok Hk Hin Hlk) as
      (it & b1 & Hit & E & Hok1 & Hd & Eb & Ed & En & Ef & Hh).
    destruct (IH b1 _ _ _ Hnd Hok1) as (b' & E' & Hok' & Eb' & Ed' & En' & Ef' & Hh').
    { intros j Hj. destruct (Hall j) as [? ?]; [by right |]. rewrite set_erase_spec.
      split; [| done]. naive_solver. }
    exists b'. cbn [foldM]. rewrite E. cbn [res_bind]. rewrite E'.
    split_and!; [done | | congruence.. |].
    + rewrite filter_cons.
      rewrite (filter_Forall_iff _ (fun j => j ∈ default ∅ (dm !! k)) p) in Hok'.
      * match goal with |- buf_ok _ (view ?x _ _ _) =>
          match type of Hok' with buf_ok _ (view ?y _ _ _) => replace x with y end end;
          [done |].
        case_decide as Hdm; [apply Hd in Hdm; rewrite Hdm; cbn [length]; lia |].
        destruct (isDirty it); [by destruct Hdm; apply Hd | lia].
      * rewrite Forall_forall. intros j Hj. rewrite set_erase_spec. naive_solver.
    + intros c j. rewrite Hh', Hh, elem_of_cons. tauto.
Qed.

Lemma dirty_size_le h b k :
  buf_ok h b -> 0 <= dirtyItemNum b - Z.of_nat (size (dset b k)).
Proof.
  intros [Hc Hx]. rewrite (io_count _ _ Hx). enough (size (dset b k) <=
    length (filter (fun i => dirty_at h i = true) (slots b)))%nat by lia.
  rewrite <- (size_list_to_set (C := gset Z)).
  - apply subseteq_size. intros i Hi. rewrite elem_of_list_to_set, list_elem_of_filter.
    apply (io_dirty _ _ Hx) in Hi as [Hi (it & Hit & Hd & _)].
    unfold dirty_at. by rewrite Hit.
  - apply NoDup_filter. pose proof (co_slots _ _ Hc) as [? _]%NoDup_app. done.
Qed.

(** The dirty index is dropped before the slots are. *)
Lemma split_dirty_ok index h b :
  buf_ok h b ->
  match dirtyIndexMap b !! index with
  | Some ds => let! b := adjustDirtyItemNum (- Z.of_nat (size ds)) b in
               Ok (set_dirty_maps (dirtyItemNum b) (delete index (dirtyIndexMap b)) b)
  | None => Ok b
  end = Ok (set_dirty_maps (dirtyItemNum b - Z.of_nat (size (dset b index)))
              (delete index (dirtyIndexMap b)) b).
Proof.
  intros Hok. pose proof (dirty_size_le h b index Hok) as Hn. unfold dset in *.
  destruct (dirtyIndexMap b !! index) as [ds |] eqn:Ed; cbn in *.
  - unfold adjustDirtyItemNum. destruct (_ <? 0) eqn:E; b2p; [lia | done].
  - rewrite size_empty, Z.sub_0_r, delete_id by done. by destruct b.
Qed.

(** Giving the slots of an inode away. *)
Lemma split_ok `{SIter} index items h b s :
  buf_ok h b -> index <> 0 -> blockIndexMap b !! index = Some s ->
  (forall i, i ∈ s -> sat h i (fun it => status it <> BLOCK_BUF_LOCKED)) ->
  exists b', splitBufferItemsByIndex index items h b = Ok (0, s, b') /\ buf_ok h b' /\
    dirtyItemNum b' = dirtyItemNum b - Z.of_nat (size (dset b index)) /\
    freeItems b' = freeItems b /\ blockIndexMap b' !! index = None /\
    dirtyIndexMap b' !! index = None /\
    (forall c j, holds b' c j <-> holds b c j /\ j ∉ s).
Proof.
  intros Hok Hix Hs Hlk. pose proof Hok as [Hc Hxi].
  assert (Ebs : bset b index = s) by (unfold bset; by rewrite Hs).
  assert (Hsub : dset b index ⊆ s) by (rewrite <- Ebs; by eapply dset_sub_bset).
  assert (Hview : forall b1, cache_items_list b1 = cache_items_list b ->
    cache_items_map b1 = cache_items_map b -> next_node b1 = next_node b ->
    freeItems b1 = freeItems b ->
    buf_ok h (view (dirtyItemNum b) (blockIndexMap b) (dirtyIndexMap b) b1)).
  { intros b1 E1 E2 E3 E4. split; [by eapply cache_ok_ext, Hc |].
    eapply index_ok_sets, Hxi; try done. unfold slots. cbn. by rewrite E1. }
  unfold splitBufferItemsByIndex. rewrite Hs.
  rewrite (split_dirty_ok index h b Hok). cbn [res_bind].
  set (b1 := set_dirty_maps _ _ b).
  destruct (split_loop (siter s) index h Hix b1 _ _ _ (siter_NoDup _)
    (Hview b1 eq_refl eq_refl eq_refl eq_refl))
    as (b' & E & Hok' & Eb & Ed & En & Ef & Hh).
  { intros i Hi. apply siter_elem in Hi. split; [| auto]. fold (bset b index). by rewrite Ebs. }
  rewrite E. cbn [res_bind]. eexists. split; [done |].
  cbn [set_blockIndexMap dirtyItemNum freeItems blockIndexMap dirtyIndexMap].
  rewrite En, Ef, Ed, Eb. split_and!; try done; [| apply lookup_delete_eq.. |].
  - destruct Hok' as [Hc' Hx']. split; [by eapply cache_ok_ext, Hc' |].
    rewrite (filter_in_set (dset b index) s) in Hx' by (done || apply siter_perm).
    eapply index_ok_sets, Hx'; try done.
    + intros k Hk. unfold bset. cbn. apply set_eq. intros j.
      rewrite erase_all_spec, siter_elem, lookup_delete.
      case_decide as Ek; [subst k; unfold bset in Ebs; cbn in *; set_solver | naive_solver].
    + intros k. unfold dset. cbn. apply set_eq. intros j. rewrite Ed. cbn.
      rewrite erase_all_spec, siter_elem, lookup_delete.
      case_decide as Ek; [subst k; unfold dset in Hsub; cbn in *; set_solver | naive_solver].
  - intros c j. rewrite <- siter_elem. apply Hh.
Qed.

Lemma index_ok_add h b b' i it :
  index_ok h b -> i ∉ slots b -> h !! i = Some it -> slots b' ≡ₚ i :: slots b ->
  (forall k j, k <> 0 -> j ∈ bset b' k <-> j ∈ bset b k \/ (j = i /\ k = itemIndex it)) ->
  (forall k j, j ∈ dset b' k <->
     j ∈ dset b k \/ (j = i /\ isDirty it = true /\ k = itemIndex it)) ->
  dirtyItemNum b' = dirtyItemNum b + (if isDirty it then 1 else 0) ->
  index_ok h b'.
Proof.
  intros [H1 H2 H3] Hs Hi Hp Eb Ed En. split.
  - intros k j. rewrite Ed, H1, Hp, elem_of_cons. unfold sat.
    destruct (decide (j = i)) as [-> | Hne]; [rewrite Hi |]; naive_solver.
  - intros k j Hk. rewrite Eb, H2, Hp, elem_of_cons by done. unfold sat.
    destruct (decide (j = i)) as [-> | Hne]; [rewrite Hi |]; naive_solver.
  - by rewrite En, H3, Hp, (dirty_count_cons _ _ _ _ Hi).
Qed.

Lemma install_step h b i k n bm dm ds it :
  buf_ok h (view n bm dm b) -> i ∉ slots b -> i ∉ freeItems b ->
  h !! i = Some it -> itemIndex it = k -> cache_items_map b !! blockNo it = None ->
  exists b', install_item h (ds, b) i = Ok (if isDirty it then ds ∪ {[i]} else ds, b') /\
    buf_ok h (view (n + (if isDirty it then 1 else 0)) (set_emplace k i bm)
                (if isDirty it then set_emplace k i dm else dm) b') /\
    slots b' = i :: slots b /\
    cache_items_map b' = <[blockNo it := next_node b]> (cache_items_map b) /\
    blockIndexMap b' = blockIndexMap b /\ dirtyIndexMap b' = dirtyIndexMap b /\
    dirtyItemNum b' = dirtyItemNum b /\ freeItems b' = freeItems b /\
    (forall c j, holds b' c j <-> holds b c j \/ (c = blockNo it /\ j = i)).
Proof.
  intros [Hc Hx] Hs Hf Hi Hk Hm.
  pose proof (cache_ok_add h _ i _ it Hc Hs Hf Hm Hi eq_refl) as Hc'.
  unfold install_item, get_item. rewrite Hi. cbn [res_bind]. eexists. split; [done |].
  split_and!; try done.
  - split; [by eapply cache_ok_ext, Hc' |].
    eapply index_ok_add; [exact Hx | exact Hs | exact Hi | done | | | done].
    + intros k' j Hk'. unfold bset. cbn. rewrite set_emplace_spec. naive_solver.
    + intros k' j. unfold dset. cbn. destruct (isDirty it);
        rewrite ?set_emplace_spec; naive_solver.
  - intros c j. unfold holds. cbn. setoid_rewrite elem_of_cons. split.
    + intros (m & [[= -> -> ->] | Hm']); [by right | left; eauto].
    + intros [(m & Hm') | [-> ->]]; eauto.
Qed.

Definition emplace_all (k : Z) (p : list Z) (m : gmap Z (gset Z)) : gmap Z (gset Z) :=
  foldl (fun m i => set_emplace k i m) m p.

Lemma emplace_all_spec k p m k' j :
  j ∈ default ∅ (emplace_all k p m !! k') <->
  j ∈ default ∅ (m !! k') \/ (k = k' /\ j ∈ p).
Proof.
  revert m. induction p as [| i p IH]; intros m; cbn [emplace_all foldl].
  - split; [by left |]. intros [? | [_ ?%elem_of_nil]]; done.
  - fold (emplace_all k p (set_emplace k i m)). rewrite IH, set_emplace_spec, elem_of_cons.
    naive_solver.
Qed.

(** Slots that can join the buffer: outside it, of the inode, with blocks that are
    not cached and pairwise different. *)
Definition joining (h : heap) (b : BlockBuffer) (k : Z) (p : list Z) : Prop :=
  (forall i, i ∈ p -> i ∉ slots b /\ i ∉ freeItems b /\
     sat h i (fun it => itemIndex it = k /\ cache_items_map b !! blockNo it = None)) /\
  (forall i j x y, i ∈ p -> j ∈ p -> h !! i = Some x -> h !! j = Some y ->
     blockNo x = blockNo y -> i = j).

Lemma install_loop p k h : forall b n bm dm ds,
  NoDup p -> buf_ok h (view n bm dm b) -> joining h b k p ->
  exists ds' b', foldM (install_item h) p (ds, b) = Ok (ds', b') /\
    (forall j, j ∈ ds' <-> j ∈ ds \/ j ∈ filter (fun i => dirty_at h i = true) p) /\
    buf_ok h (view (n + Z.of_nat (length (filter (fun i => dirty_at h i = true) p)))
                (emplace_all k p bm)
                (emplace_all k (filter (fun i => dirty_at h i = true) p) dm) b') /\
    blockIndexMap b' = blockIndexMap b /\ dirtyIndexMap b' = dirtyIndexMap b /\
    dirtyItemNum b' = dirtyItemNum b /\ freeItems b' = freeItems b /\
    (forall c j, holds b' c j <-> holds b c j \/ (j ∈ p /\ sat h j (fun it => blockNo it = c))).
Proof.
  induction p as [| i p IH]; intros b n bm dm ds Hnd Hok [Hj Hinj].
  - exists ds, b. cbn [foldM filter length emplace_all foldl]. rewrite Z.add_0_r.
    split_and!; try done.
    + intros j. rewrite elem_of_nil. tauto.
    + intros c j. rewrite elem_of_nil. tauto.
  - apply NoDup_cons in Hnd as [Hi Hnd].
    destruct (Hj i) as (Hs & Hf & it & Hit & Hk & Hm); [by left |].
    destruct (install_step h b i k n bm dm ds it Hok Hs Hf Hit Hk Hm)
      as (b1 & E & Hok1 & Es & Em & Eb & Ed & En & Ef & Hh).
    destruct (IH b1 _ _ _ (if isDirty it then ds ∪ {[i]} else ds) Hnd Hok1)
      as (ds' & b' & E' & Hds & Hok' & Eb' & Ed' & En' & Ef' & Hh').
    { split.
      - intros j Hjp. destruct (Hj j) as (Hs' & Hf' & jt & Hjt & Hk' & Hm'); [by right |].
        rewrite Es, Ef, Em. split_and!; [| done |].
        + intros [-> | ?]%elem_of_cons; done.
        + exists jt. split_and!; try done. rewrite lookup_insert_ne; [done |]. intros Eq.
          by assert (i = j) as -> by (eapply Hinj; [by left | by right | done..]).
      - intros i' j' x y Hi' Hj'. apply Hinj; by right. }
    assert (Hdi : dirty_at h i = isDirty it) by (unfold dirty_at; by rewrite Hit).
    exists ds', b'. cbn [foldM]. rewrite E. cbn [res_bind]. rewrite E'.
    split_and!; [done | | | congruence.. |].
    + intros j. rewrite Hds, filter_cons. case_decide as D; rewrite Hdi in D.
      * rewrite D, elem_of_cons. set_solver.
      * apply not_true_is_false in D. by rewrite D.
    + rewrite filter_cons. case_decide as D; rewrite Hdi in D.
      * rewrite D in Hok'. cbn [length emplace_all foldl].
        rewrite Nat2Z.inj_succ, <- Z.add_1_l, Z.add_assoc. done.
      * apply not_true_is_false in D. rewrite D, Z.add_0_r in Hok'. done.
    + intros c j. rewrite Hh', Hh, elem_of_cons. unfold sat.
      destruct (decide (j = i)) as [-> | Hne]; [rewrite Hit |]; naive_solver.
Qed.

(** The indexes after the slots are entered into them. *)
Lemma install_final `{SIter} index s h b b' b2 :
  let fl := filter (fun i => dirty_at h i = true) (siter s) in
  dirtyIndexMap b !! index = None ->
  buf_ok h (view (dirtyItemNum b + Z.of_nat (length fl))
    (emplace_all index (siter s) (blockIndexMap b))
    (emplace_all index fl (dirtyIndexMap b)) b') ->
  blockIndexMap b' = <[index := default ∅ (blockIndexMap b !! index) ∪ s]> (blockIndexMap b) ->
  cache_items_list b2 = cache_items_list b' -> cache_items_map b2 = cache_items_map b' ->
  next_node b2 = next_node b' -> freeItems b2 = freeItems b' ->
  blockIndexMap b2 = blockIndexMap b' ->
  dirtyItemNum b2 = dirtyItemNum b + Z.of_nat (length fl) ->
  (forall k, default ∅ (dirtyIndexMap b2 !! k) =
             default ∅ (emplace_all index fl (dirtyIndexMap b) !! k)) ->
  buf_ok h b2 /\ (forall j, j ∈ dset b2 index <-> j ∈ s /\ dirty_at h j = true).
Proof.
  intros fl Hdn [Hc' Hx'] Eb E1 E2 E3 E4 E5 E6 E7. split.
  - split; [by eapply cache_ok_ext, Hc' |].
    eapply index_ok_sets, Hx'; try done; unfold slots; rewrite ?E1; try done.
    intros k Hk. unfold bset. rewrite E5, Eb. cbn. apply set_eq. intros j.
    rewrite emplace_all_spec, siter_elem, lookup_insert.
    case_decide as Ek; [subst k; cbn; set_solver | naive_solver].
  - intros j. unfold dset. rewrite E7, emplace_all_spec, Hdn. unfold fl.
    rewrite list_elem_of_filter, siter_elem. set_solver.
Qed.

(** Taking the slots of an inode over. *)
Lemma install_ok `{SIter} index s h b :
  buf_ok h b -> s <> ∅ -> joining h b index (siter s) -> dirtyIndexMap b !! index = None ->
  exists b', installBufferItemsOfIndex index s h b = Ok (0, b') /\ buf_ok h b' /\
    dirtyItemNum b' =
      dirtyItemNum b + Z.of_nat (length (filter (fun i => dirty_at h i = true) (siter s))) /\
    (forall j, j ∈ dset b' index <-> j ∈ s /\ dirty_at h j = true) /\
    (forall c j, holds b' c j <-> holds b c j \/ (j ∈ s /\ sat h j (fun it => blockNo it = c))).
Proof.
  intros Hok Hne Hj Hdn. unfold installBufferItemsOfIndex.
  rewrite (proj2 (check_ok (negb (bool_decide (s = ∅))) tt))
    by (by rewrite bool_decide_false). cbn [res_bind].
  set (b1 := set_blockIndexMap _ b).
  assert (Hview : buf_ok h (view (dirtyItemNum b) (blockIndexMap b) (dirtyIndexMap b) b1)).
  { destruct Hok as [[] []]. split; by split. }
  destruct (install_loop (siter s) index h b1 _ _ _ ∅ (siter_NoDup _) Hview Hj)
    as (ds & b' & E & Hds & Hok1 & Eb & Ed & En & Ef & Hh).
  set (fl := filter (fun i => dirty_at h i = true) (siter s)) in *.
  assert (Esz : size ds = length fl).
  { unfold size, set_size. cbn. apply Permutation_length, NoDup_Permutation.
    - apply NoDup_elements.
    - apply NoDup_filter, siter_NoDup.
    - intros j. rewrite elem_of_elements, Hds. set_solver. }
  rewrite E. cbn [res_bind]. rewrite Ed, Esz. change (dirtyIndexMap b1) with (dirtyIndexMap b).
  rewrite Hdn.
  assert (Hcount : dirtyItemNum b' = dirtyItemNum b) by (by rewrite En).
  destruct (Z.of_nat (length fl) >? 0) eqn:Epos.
  - unfold adjustDirtyItemNum. cbn [set_dirty_maps dirtyItemNum]. rewrite Hcount.
    assert (0 <= dirtyItemNum b) by (destruct Hok as [_ Hx]; rewrite (io_count _ _ Hx); lia).
    destruct (_ <? 0) eqn:El; b2p; [lia |]. cbn [res_bind]. eexists. split; [done |].
    destruct (install_final index s h b b' (set_dirty_maps
      (dirtyItemNum b + Z.of_nat (length fl)) (<[index := ds]> (dirtyIndexMap b)) b'))
      as [Hok' Hd']; try done.
    + intros k. cbn. apply set_eq. intros j. rewrite emplace_all_spec, lookup_insert.
      case_decide as Ek; [subst k; rewrite Hdn; cbn; rewrite Hds; set_solver | naive_solver].
    + split_and!; try done. intros c j. rewrite <- siter_elem. apply Hh.
  - rewrite Z.gtb_ltb in Epos. b2p. eexists. split; [done |].
    assert (fl = []) as Efl by (destruct fl; [done | cbn in Epos; lia]).
    destruct (install_final index s h b b' b') as [Hok' Hd']; try done;
      [fold fl; rewrite Efl; cbn; lia | fold fl; by rewrite Ed, Efl |].
    split_and!; try done; [rewrite Efl; cbn; lia |].
    intros c j. rewrite <- siter_elem. apply Hh.
Qed.

(** The assertion of [releaseUnlinkedInodeDirtyBlocks] fails when the dirty index
    has slots that the index of the inode does not have. *)
Lemma unlink_mismatch `{SIter} ino h b :
  1 < ino -> bset b ino = ∅ -> dset b ino <> ∅ ->
  releaseUnlinkedInodeDirtyBlocks ino h b = Crash AssertFail.
Proof.
  intros Hino Hb Hd. unfold releaseUnlinkedInodeDirtyBlocks.
  rewrite (proj2 (check_ok (ino >? 1) tt)) by (apply Z.gtb_lt; lia). cbn [res_bind].
  replace (match dirtyIndexMap b !! ino with Some s => Z.of_nat (size s) | None => 0 end)
    with (Z.of_nat (size (dset b ino))) by (unfold dset; by destruct (dirtyIndexMap b !! ino)).
  assert (Hsz : size (dset b ino) <> 0%nat) by (intros Hz; by apply Hd, leibniz_equiv, size_empty_iff).
  assert (Enil : siter ∅ = []) by (apply Permutation_nil_r; by rewrite siter_perm).
  unfold bset in Hb. destruct (blockIndexMap b !! ino) as [s |]; cbn in Hb; [subst s |].
  - rewrite Enil. cbn [foldM res_bind]. destruct (_ =? 0) eqn:E; b2p; [lia | done].
  - cbn [res_bind]. destruct (_ =? 0) eqn:E; b2p; [lia | done].
Qed.

(** ** New buffers and released slots *)

Lemma initMem_spec n i memPtr bsz base h free h' :
  initMem n i memPtr bsz base h = (free, h') ->
  free = (fun k => base + i + Z.of_nat k) <$> seq 0 n /\
  (forall j, j ∈ free -> sat h' j (fun it => isDirty it = false /\ itemIndex it = 0)) /\
  (forall j, j ∉ free -> h' !! j = h !! j).
Proof.
  revert i h free. induction n as [| n IH]; intros i h free H; cbn [initMem] in H.
  - injection H as <- <-. split_and!; try done. by intros j ?%elem_of_nil.
  - destruct (initMem n _ _ _ _ _) as [fr h1] eqn:E. injection H as <- <-.
    destruct (IH _ _ _ E) as (-> & Hin & Hout). split_and!.
    + cbn [seq]. rewrite fmap_cons, Z.add_0_r. f_equal. rewrite <- fmap_S_seq.
      rewrite <- list_fmap_compose. apply list_fmap_ext. intros ? x ?. cbn. lia.
    + intros j [-> | Hj]%elem_of_cons; [| auto]. unfold sat. rewrite Hout.
      * rewrite lookup_insert_eq. by eexists.
      * intros (x & Hx & _)%list_elem_of_fmap. lia.
    + intros j [Hne Hj]%not_elem_of_cons. rewrite Hout by done. by rewrite lookup_insert_ne.
Qed.

Lemma new_buffer_ok num bsz memPtr base rep h b h' :
  new_BlockBuffer num bsz memPtr base rep h = (b, h') -> buf_ok h' b.
Proof.
  unfold new_BlockBuffer. destruct (initMem _ _ _ _ _ _) as [free h1] eqn:E.
  intros [= <- <-]. apply initMem_spec in E as (Hfree & Hin & _). split; split; cbn;
    try (by constructor); try (by intros ? ?%elem_of_nil); try done.
  all: try (intros i Hi; destruct (Hin i Hi) as (it & ? & ? & ?); by exists it).
  - unfold slots. cbn. rewrite Hfree. apply NoDup_fmap_2; [intros x y; lia | apply NoDup_seq].
  - intros bno n. split; [by rewrite lookup_empty |]. by intros (? & ?%elem_of_nil).
  - intros k i. split; [| by intros [?%elem_of_nil _]].
    intros Hi. by destruct (not_elem_of_empty (C := gset Z) i).
  - intros k i _. split; [| by intros [?%elem_of_nil _]].
    intros Hi. by destruct (not_elem_of_empty (C := gset Z) i).
Qed.

(** The status and the presence in memory of a slot are free. *)
Lemma buf_ok_flags h b i it it' :
  buf_ok h b -> h !! i = Some it -> blockNo it' = blockNo it -> isDirty it' = isDirty it ->
  itemIndex it' = itemIndex it -> buf_ok (<[i := it']> h) b.
Proof.
  intros [Hc [H1 H2 H3]] Hi Eb Ed Ex. split.
  - eapply cache_ok_update; [done | exact Hi | done |]. rewrite Ed. intros Hf.
    destruct (co_free _ _ Hc _ Hf) as (x & Hx & Hd). congruence.
  - assert (Hsat : forall j (P : bool -> Z -> Prop),
      sat (<[i := it']> h) j (fun x => P (isDirty x) (itemIndex x)) <->
      sat h j (fun x => P (isDirty x) (itemIndex x))).
    { intros j P. destruct (decide (j = i)) as [-> | Hne]; [| by apply sat_insert_ne].
      unfold sat. rewrite lookup_insert_eq, Hi.
      split; intros (x & [= <-] & HP); eexists; (split; [done |]); congruence. }
    split.
    + intros k j. rewrite H1. by rewrite (Hsat j (fun d x => d = true /\ x = k)).
    + intros k j Hk. rewrite H2 by done. by rewrite (Hsat j (fun _ x => x = k)).
    + rewrite H3. do 2 f_equal. apply filter_Forall_iff. rewrite Forall_forall. intros j _.
      unfold dirty_at. destruct (decide (j = i)) as [-> | Hne];
        [by rewrite lookup_insert_eq, Hi, Ed | by rewrite lookup_insert_ne].
Qed.

Lemma buf_ok_release h b i it st :
  buf_ok h b -> h !! i = Some it -> buf_ok (<[i := setStatus st it]> h) b.
Proof. intros Hok Hi. by eapply buf_ok_flags. Qed.

(** ** Properties *)

(** C35. [getBlock] on a well-formed buffer, when the block, if it is cached and
    dirty, is asked for with the inode it belongs to, and no free slot still
    carries the inode it is asked for with ([disciplined]).  It returns the slot that caches the
    block, or a free slot, or replaces the least recently used block that is
    neither locked nor dirty; the slot it returns is locked and registered for the
    block and the inode, every other slot and every other cached block is left
    alone, and the buffer stays well formed.  The hint [hasDirty] is set exactly
    when the search for a slot to replace passed a block that is locked and dirty.
    It returns no slot only when the buffer has none, and throws only when the block is not cached, no slot is free
    and every cached block is locked or dirty. *)
Theorem getBlock_spec bno new_index h b :
  buf_ok h b -> disciplined bno new_index h b ->
  (exists g h' b', getBlock bno new_index h b = Ok (g, h', b') /\ buf_ok h' b' /\
     match g_item g with
     | Some i => obtained bno new_index i g h b h' b'
     | None => slots b = [] /\ freeItems b = [] /\ h' = h
     end) \/
  (getBlock bno new_index h b = Crash AssertFail /\ cache_items_map b !! bno = None /\
   freeItems b = [] /\ forall nd, nd ∈ cache_items_list b -> sat h (n_item nd) busy).
Proof. apply getBlock_cases. Qed.

(** C36. Flushing an inode.  [doFlushByIndex] for an inode lists each of its dirty
    cached blocks once and no other block, and [doFlushDone] on that list makes
    exactly these blocks clean, keeps every block cached, leaves the other slots
    alone, and leaves no dirty block of the inode and a right count. *)
Theorem flush_inode_exact (ui : UIter) (si : SIter) index out h b :
  buf_ok h b -> index <> 0 -> 0 <= numFgFlushInflight b < numFgFlushInflightLimit b ->
  exists bl b1 h2 b2,
    doFlushByIndex index out h b = Ok (true, out ++ bl, b1) /\ NoDup bl /\
    (forall bno, bno ∈ bl <-> exists i, holds b bno i /\
       sat h i (fun it => isDirty it = true /\ itemIndex it = index)) /\
    doFlushDone bl h (addFgFlushInflightNum 1 b1) = Ok (0, h2, b2) /\ buf_ok h2 b2 /\
    dset b2 index = ∅ /\
    dirtyItemNum b2 = dirtyItemNum b - Z.of_nat (length bl) /\
    (forall c j, holds b2 c j <-> holds b c j) /\
    (forall j, (forall bno, bno ∈ bl -> ~ holds b bno j) -> h2 !! j = h !! j).
Proof.
  intros Hok Hix Hfg. pose proof Hok as [Hc Hx].
  destruct (fg_collect_ok h b (siter (dset b index)) Hc (siter_NoDup _)) as (bl & E & Hnd & Hbl).
  { intros i Hi. apply siter_elem, (io_dirty _ _ Hx) in Hi as [? (it & ? & ? & _)].
    split; [done |]. by exists it. }
  assert (Hspec : forall bno, bno ∈ bl <-> exists i, holds b bno i /\
    sat h i (fun it => isDirty it = true /\ itemIndex it = index)).
  { intros bno. rewrite Hbl. setoid_rewrite siter_elem. setoid_rewrite (io_dirty _ _ Hx).
    split; [naive_solver |]. intros (i & Hh & Hs). exists i.
    split_and!; try done. by eapply holds_slot. }
  set (b1 := set_stats (count_flush (stats b)) b).
  assert (Hok1 : buf_ok h (addFgFlushInflightNum 1 b1)).
  { destruct Hok as [[] []]. split; by split. }
  destruct (flush_done_ok bl h _ Hnd Hok1) as (h2 & b2 & E2 & Hok2 & Ec & Hh & Hin & Hout).
  { intros bno (i & Hh & it & Hi & Hd & _)%Hspec. exists i. split; [done |]. by exists it. }
  exists bl, b1, h2, b2. split_and!; try done.
  - unfold doFlushByIndex, checkIfFgFlushInflightReachLimit.
    rewrite Z.geb_leb. destruct (_ <=? _) eqn:El; b2p; [lia |].
    destruct (index =? 0) eqn:E0; b2p; [done |]. cbn [andb].
    unfold dset in E. destruct (dirtyIndexMap b !! index) as [s |]; cbn in E.
    + by rewrite E.
    + assert (Enil : siter ∅ = []) by (apply Permutation_nil_r; by rewrite siter_perm).
      rewrite Enil in E. injection E as <-. done.
  - unfold doFlushDone, checkIfFgFlushInflight. cbn [addFgFlushInflightNum set_flush
      bgFlushSent numFgFlushInflight b1 set_stats].
    rewrite (proj2 (Z.gtb_lt (numFgFlushInflight b + 1) 0)) by lia. by rewrite orb_true_r.
  - apply set_eq. intros i. split; [| set_solver]. destruct Hok2 as [Hc2 Hx2].
    intros [Hs (it & Hi & Hd & Hki)]%(io_dirty _ _ Hx2).
    pose proof (slot_holds _ _ _ _ Hc2 Hs Hi) as Hold. apply Hh in Hold.
    destruct (holds_item _ _ _ _ Hc Hold) as (x & Hxi & Hxb).
    destruct (decide (blockNo it ∈ bl)) as [Hb | Hb].
    + rewrite (Hin _ _ _ Hb Hold Hxi) in Hi. injection Hi as <-. done.
    + exfalso. apply Hb, Hspec. exists i. split; [done |].
      rewrite Hout in Hi; [by exists it |]. intros c Hc1 Hci.
      assert (c = blockNo it) as -> by by eapply (holds_inj _ _ _ _ _ _ Hc Hci Hold).
      done.
Qed.

(** C37. Moving an inode to the buffer of another worker.
    [splitBufferItemsByIndex] followed by [installBufferItemsOfIndex] moves exactly
    the cached blocks of the inode, keeps their slots and their contents, carries
    the dirty ones over to the index of the other buffer, and leaves both buffers
    well formed, provided the blocks are unlocked, the other buffer does not cache
    them and has no dirty index for the inode. *)
Theorem migrate_inode (si : SIter) index h b1 b2 s :
  buf_ok h b1 -> buf_ok h b2 -> index <> 0 -> blockIndexMap b1 !! index = Some s -> s <> ∅ ->
  (forall i, i ∈ s -> sat h i (fun it => status it <> BLOCK_BUF_LOCKED)) ->
  (forall i, i ∈ s -> i ∉ slots b2 /\ i ∉ freeItems b2) ->
  (forall bno i, holds b1 bno i -> i ∈ s -> cache_items_map b2 !! bno = None) ->
  dirtyIndexMap b2 !! index = None ->
  exists b1' b2',
    splitBufferItemsByIndex index ∅ h b1 = Ok (0, s, b1') /\
    installBufferItemsOfIndex index s h b2 = Ok (0, b2') /\
    buf_ok h b1' /\ buf_ok h b2' /\
    (forall c j, holds b1' c j <-> holds b1 c j /\ j ∉ s) /\
    (forall c j, holds b2' c j <-> holds b2 c j \/ (holds b1 c j /\ j ∈ s)) /\
    dset b2' index = dset b1 index /\
    dirtyItemNum b1' + dirtyItemNum b2' = dirtyItemNum b1 + dirtyItemNum b2.
Proof.
  intros Hok1 Hok2 Hix Hs Hne Hlk Hout Hfresh Hdn. pose proof Hok1 as [Hc1 Hx1].
  assert (Ebs : bset b1 index = s) by (unfold bset; by rewrite Hs).
  assert (Hmem : forall i, i ∈ s <-> i ∈ slots b1 /\ sat h i (fun it => itemIndex it = index)).
  { intros i. rewrite <- Ebs. by apply (io_index _ _ Hx1). }
  assert (Hds : forall i, i ∈ dset b1 index <-> i ∈ s /\ dirty_at h i = true).
  { intros i. rewrite (io_dirty _ _ Hx1), Hmem. unfold sat, dirty_at.
    destruct (h !! i) as [it |]; naive_solver. }
  destruct (split_ok index ∅ h b1 s Hok1 Hix Hs Hlk)
    as (b1' & E1 & Hok1' & En1 & _ & _ & _ & Hh1).
  destruct (install_ok index s h b2 Hok2 Hne) as (b2' & E2 & Hok2' & En2 & Hd2 & Hh2).
  { split.
    - intros i Hi%siter_elem. destruct (Hout i Hi) as [? ?]. split_and!; try done.
      apply Hmem in Hi as Hi'. destruct Hi' as [Hsl (it & Hit & Hk)].
      exists it. split_and!; try done.
      eapply Hfresh; [by eapply slot_holds | done].
    - intros i j x y Hi%siter_elem Hj%siter_elem Hxi Hyj Eq.
      apply Hmem in Hi as [Hi _], Hj as [Hj _].
      pose proof (slot_holds _ _ _ _ Hc1 Hi Hxi) as Hhi. rewrite Eq in Hhi.
      by eapply (holds_inj _ _ _ _ _ _ Hc1 Hhi (slot_holds _ _ _ _ Hc1 Hj Hyj)). }
  { done. }
  exists b1', b2'. split_and!; try done.
  - intros c j. rewrite Hh2. split; (intros [? | [H1 H2]]; [by left | right]).
    + split; [| done]. apply Hmem in H1 as [H1 _]. destruct H2 as (it & Hit & <-).
      by eapply slot_holds.
    + split; [done |]. by eapply holds_item.
  - apply set_eq. intros i. by rewrite Hd2, Hds.
  - rewrite En1, En2. rewrite <- (filter_in_set (dset b1 index) s (siter s)).
    + rewrite (filter_Forall_iff _ (fun i => dirty_at h i = true)); [lia |].
      rewrite Forall_forall. intros i Hi%siter_elem. rewrite Hds. tauto.
    + apply siter_perm.
    + intros i Hi. by apply Hds in Hi as [? _].
Qed.

(** Unlinking an inode.  Every block of the inode leaves the cache, clean or
    dirty, and its slot becomes free; the assertion on the number of dirty blocks
    holds; the other blocks stay cached with their slots as they were, and the
    buffer stays well formed. *)
Theorem unlinked_blocks_freed (si : SIter) index h b :
  buf_ok h b -> 1 < index ->
  exists h' b', releaseUnlinkedInodeDirtyBlocks index h b = Ok (h', b') /\ buf_ok h' b' /\
    freeItems b' ≡ₚ freeItems b ++ elements (bset b index) /\
    (forall c j, holds b' c j <-> holds b c j /\ ~ sat h j (fun it => itemIndex it = index)) /\
    (forall c j, holds b' c j -> h' !! j = h !! j).
Proof.
  intros Hok Hix. pose proof Hok as [Hc Hx].
  destruct (release_unlinked_ok index h b Hok Hix) as (h' & b' & E & Hok' & Hf & Hh & Hout).
  exists h', b'. split_and!; try done.
  - intros c j. rewrite Hh, (io_index _ _ Hx) by lia. split; [| tauto].
    intros [Hcj Hn]. split; [done |]. intros Hs. apply Hn. split; [| done]. by eapply holds_slot.
  - intros c j [_ Hj]%Hh. by apply Hout.
Qed.

(** A slot freed by unlinking an inode and reused for the same inode number is
    missing from the index of the inode: the slot keeps the old inode number, so
    [getBlock] sees no change of inode and does not enter it.  Writing the block and
    unlinking the new inode then fails the assertion on the number of dirty
    blocks. *)
Theorem unlinked_slot_reuse (si : SIter) h0 i it b0 bno ino :
  buf_ok h0 b0 -> 1 < ino -> cache_items_map b0 !! bno = None ->
  (exists free, freeItems b0 = i :: free) -> h0 !! i = Some it -> itemIndex it = ino ->
  bset b0 ino = ∅ -> dset b0 ino = ∅ ->
  exists g h1 b1 h2 b2, getBlock bno ino h0 b0 = Ok (g, h1, b1) /\ g_item g = Some i /\
    setItemDirty i true ino h1 b1 = Ok (false, h2, b2) /\
    releaseUnlinkedInodeDirtyBlocks ino h2 b2 = Crash AssertFail.
Proof.
  intros Hok Hino Hm [free Hf] Hi Hix Hbs Hds. pose proof Hok as [Hc Hx].
  assert (Hcl : isDirty it = false).
  { destruct (co_free _ _ Hc i) as (x & Hxi & Hd); [rewrite Hf; by left | congruence]. }
  assert (Hn : 0 <= dirtyItemNum b0) by (rewrite (io_count _ _ Hx); lia).
  unfold getBlock. set (b := set_stats _ b0).
  assert (Em : cache_items_map b !! bno = None) by done.
  assert (Ef : freeItems b = i :: free) by done.
  rewrite Em, Ef. cbn [res_bind]. unfold get_item. rewrite Hi. cbn [res_bind].
  erewrite grab_ok; [| reflexivity | apply lookup_insert_eq]. cbn [res_bind].
  eexists _, _, _, _, _. split; [reflexivity |]. split; [reflexivity |].
  unfold setItemDirty, get_item, adjustDirtyItemNum. rewrite lookup_insert_eq.
  cbn [res_bind setDirty isDirty setIndex setStatus setBlockNo setInMem].
  rewrite Hcl. cbn [Bool.eqb]. cbn [set_blockIndexMap set_cache dirtyItemNum].
  destruct (_ <? 0) eqn:E; [b2p; cbn in E; lia |]. cbn [res_bind].
  split; [reflexivity |].
  apply unlink_mismatch; [done | |].
  - unfold bset. cbn. unfold reindex. rewrite Hix, Z.eqb_refl. exact Hbs.
  - intros Hd. apply (not_elem_of_empty (C := gset Z) i). rewrite <- Hd. unfold dset. cbn.
    apply set_emplace_spec. by right.
Qed.

(** A stale dirty index loses dirty blocks.  If the buffer that takes an inode
    over still has an entry for it in its dirty index, as it has after the inode's
    blocks were flushed there, the dirty blocks are counted but not entered, and a
    flush of the inode returns none of them. *)
Theorem stale_index_loses_blocks (ui : UIter) (si : SIter) index s h b2 b2' :
  buf_ok h b2 -> index <> 0 -> dirtyIndexMap b2 !! index = Some ∅ ->
  joining h b2 index (siter s) ->
  installBufferItemsOfIndex index s h b2 = Ok (0, b2') ->
  numFgFlushInflight b2' < numFgFlushInflightLimit b2' ->
  (forall i, i ∈ s -> i ∈ slots b2') /\
  exists b3, doFlushByIndex index [] h b2' = Ok (true, [], b3).
Proof.
  intros Hok Hix Hd Hj E Hlim. unfold installBufferItemsOfIndex in E. inv_bind E.
  set (b1 := set_blockIndexMap _ b2) in *.
  assert (Hview : buf_ok h (view (dirtyItemNum b2) (blockIndexMap b2) (dirtyIndexMap b2) b1)).
  { destruct Hok as [[] []]. split; by split. }
  destruct (install_loop (siter s) index h b1 _ _ _ ∅ (siter_NoDup _) Hview Hj)
    as (ds & b' & El & _ & _ & _ & Ed & _ & _ & Hh).
  rewrite El in E. cbn [res_bind] in E. rewrite Ed in E.
  change (dirtyIndexMap b1) with (dirtyIndexMap b2) in E, Ed. rewrite Hd in E.
  assert (Hend : cache_items_list b2' = cache_items_list b' /\
    dirtyIndexMap b2' = dirtyIndexMap b2).
  { destruct (_ >? 0).
    - unfold adjustDirtyItemNum in E. destruct (_ <? 0); [done |]. cbn in E.
      by injection E as <-.
    - by injection E as <-. }
  destruct Hend as [Elist Edirty]. split.
  - intros i Hi. destruct Hj as [Hj _].
    destruct (Hj i) as (_ & _ & it & Hit & _); [by rewrite siter_elem |].
    apply (holds_slot _ (blockNo it)). unfold holds. rewrite Elist. apply Hh. right.
    split; [by rewrite siter_elem | by exists it].
  - unfold doFlushByIndex, checkIfFgFlushInflightReachLimit.
    rewrite Z.geb_leb. destruct (_ <=? _) eqn:Ele; b2p; [lia |].
    destruct (index =? 0) eqn:Eix; b2p; [done |]. rewrite Edirty, Hd.
    assert (Enil : siter ∅ = []) by (apply Permutation_nil_r; by rewrite siter_perm).
    rewrite Enil. cbn. by eexists.
Qed.

(** ** Witnesses *)

(** Two buffers over one heap: slots 0 and 1, slots 10 and 11. *)
Definition demo_new : BlockBuffer * BlockBuffer * heap :=
  let '(b1, h) := new_BlockBuffer 2 4096 0 0 false ∅ in
  let '(b2, h) := new_BlockBuffer 2 4096 8192 10 false h in
  (b1, b2, h).

Definition b1_0 : BlockBuffer := fst (fst demo_new).
Definition b2_0 : BlockBuffer := snd (fst demo_new).
Definition h_0 : heap := snd demo_new.

(** Block 100 is read for inode 7 into the first buffer. *)
Definition after_get (bno ino : Z) (h : heap) (b : BlockBuffer) : heap * BlockBuffer :=
  match getBlock bno ino h b with Ok (_, h', b') => (h', b') | Crash _ => (h, b) end.

Definition h_1 : heap := fst (after_get 100 7 h_0 b1_0).
Definition b1_1 : BlockBuffer := snd (after_get 100 7 h_0 b1_0).

(** It is released, and then written. *)
Definition after_release (i : Z) (h : heap) : heap :=
  match releaseBlock i h with Ok (_, h') => h' | Crash _ => h end.

Definition after_dirty (i : Z) (d : bool) (ino : Z) (h : heap) (b : BlockBuffer)
    : heap * BlockBuffer :=
  match setItemDirty i d ino h b with Ok (_, h', b') => (h', b') | Crash _ => (h, b) end.

Definition h_2 : heap := after_release 0 h_1.
Definition h_3 : heap := fst (after_dirty 0 true 7 h_2 b1_1).
Definition b1_3 : BlockBuffer := snd (after_dirty 0 true 7 h_2 b1_1).

Lemma after_get_ok bno ino h b i free :
  buf_ok h b -> disciplined bno ino h b -> cache_items_map b !! bno = None ->
  freeItems b = i :: free ->
  buf_ok (fst (after_get bno ino h b)) (snd (after_get bno ino h b)).
Proof.
  intros Hok Hdis Hm Hf. unfold after_get.
  destruct (getBlock_free bno ino h b i free) as (g & h' & b' & E & Hok' & _); [done.. |].
  by rewrite E.
Qed.

Lemma after_release_ok i h b : buf_ok h b -> buf_ok (after_release i h) b.
Proof.
  intros Hok. unfold after_release, releaseBlock, get_item.
  destruct (h !! i) as [it |] eqn:Hi; cbn [res_bind]; [| done].
  destruct (decide _); [by apply buf_ok_release | done].
Qed.

Lemma after_dirty_ok i d h b it :
  buf_ok h b -> i ∈ slots b -> h !! i = Some it ->
  buf_ok (fst (after_dirty i d (itemIndex it) h b)) (snd (after_dirty i d (itemIndex it) h b)).
Proof.
  intros Hok Hs Hi. unfold after_dirty.
  destruct (setItemDirty_ok h b i it d) as (b' & E & Hok' & _); [done.. |]. by rewrite E.
Qed.

(** Slots outside the buffer do not matter. *)
Lemma buf_ok_frame h h' b :
  (forall i, i ∈ slots b \/ i ∈ freeItems b -> h' !! i = h !! i) -> buf_ok h b -> buf_ok h' b.
Proof.
  intros Hf [[H1 H2 H3 H4 H5 H6 H7] [I1 I2 I3]]. split; split; try done.
  - intros nd Hnd. unfold sat. rewrite Hf; [by apply H6 |]. left. apply slot_node. eauto.
  - intros i Hi. unfold sat. rewrite Hf; [by apply H7 | by right].
  - intros k i. rewrite I1. unfold sat. split; intros [Hs Hp]; (split; [done |]);
      [rewrite Hf by auto | rewrite Hf in Hp by auto]; done.
  - intros k i Hk. rewrite I2 by done. unfold sat. split; intros [Hs Hp]; (split; [done |]);
      [rewrite Hf by auto | rewrite Hf in Hp by auto]; done.
  - rewrite I3. do 2 f_equal. apply filter_Forall_iff. rewrite Forall_forall. intros i Hi.
    unfold dirty_at. by rewrite Hf by auto.
Qed.

Lemma demo_new_ok : buf_ok h_0 b1_0 /\ buf_ok h_0 b2_0.
Proof.
  split.
  - apply (buf_ok_frame (snd (new_BlockBuffer 2 4096 0 0 false ∅))).
    + intros i [[]%elem_of_nil | Hi]. cbn in Hi. repeat (apply elem_of_cons in Hi as [-> | Hi];
        [by vm_compute |]). by apply elem_of_nil in Hi.
    + apply (new_buffer_ok 2 4096 0 0 false ∅). reflexivity.
  - apply (new_buffer_ok 2 4096 8192 10 false (snd (new_BlockBuffer 2 4096 0 0 false ∅))).
    reflexivity.
Qed.

Lemma demo_fresh : disciplined 100 7 h_0 b1_0.
Proof.
  split; [by intros nd it ?%elem_of_nil |]. intros i it Hi Hit. right. cbn in Hi.
  repeat (apply elem_of_cons in Hi as [-> | Hi]; [by injection Hit as <- |]).
  by apply elem_of_nil in Hi.
Qed.

Lemma getBlock_spec_witness :
  exists g h' b', getBlock 100 7 h_0 b1_0 = Ok (g, h', b') /\ buf_ok h' b' /\
    exists i, obtained 100 7 i g h_0 b1_0 h' b'.
Proof.
  destruct (getBlock_spec 100 7 h_0 b1_0 (proj1 demo_new_ok) demo_fresh)
    as [(g & h' & b' & E & Hok & Hg) | [E _]].
  - exists g, h', b'. split; [exact E |]. split; [exact Hok |].
    destruct (g_item g) as [i |] eqn:Eg; [by exists i |]. destruct Hg as [_ [Hf _]]. discriminate Hf.
  - discriminate E.
Defined.

Lemma demo_1_ok : buf_ok h_1 b1_1.
Proof.
  apply (after_get_ok 100 7 h_0 b1_0 0 [1]); [apply demo_new_ok | apply demo_fresh | done | done].
Qed.

Lemma demo_3_ok : buf_ok h_3 b1_3.
Proof.
  pose proof (after_release_ok 0 _ _ demo_1_ok) as H.
  destruct (h_2 !! 0) as [it |] eqn:Hi; [| discriminate Hi].
  assert (Hx : itemIndex it = 7) by (vm_compute in Hi; injection Hi as <-; done).
  unfold h_3, b1_3. rewrite <- Hx. apply after_dirty_ok; [done | by left | done].
Qed.

Lemma flush_inode_exact_witness :
  exists bl b1 h2 b2,
    doFlushByIndex (ui := sorted_iter) (si := sorted_siter) 7 [] h_3 b1_3 = Ok (true, [] ++ bl, b1) /\
    NoDup bl /\
    (forall bno, bno ∈ bl <-> exists i, holds b1_3 bno i /\
       sat h_3 i (fun it => isDirty it = true /\ itemIndex it = 7)) /\
    doFlushDone bl h_3 (addFgFlushInflightNum 1 b1) = Ok (0, h2, b2) /\ buf_ok h2 b2 /\
    dset b2 7 = ∅ /\
    dirtyItemNum b2 = dirtyItemNum b1_3 - Z.of_nat (length bl) /\
    (forall c j, holds b2 c j <-> holds b1_3 c j) /\
    (forall j, (forall bno, bno ∈ bl -> ~ holds b1_3 bno j) -> h2 !! j = h_3 !! j).
Proof.
  apply (flush_inode_exact sorted_iter sorted_siter 7 [] h_3 b1_3);
    [apply demo_3_ok | done | by_compute].
Defined.

Ltac in_pair := repeat (match goal with
  | H : ?i ∈ _ :: _ |- _ => apply elem_of_cons in H as [-> | H]
  | H : ?i ∈ [] |- _ => by apply elem_of_nil in H
  end).

Lemma demo_3_ok2 : buf_ok h_3 b2_0.
Proof.
  apply (buf_ok_frame h_0); [| apply demo_new_ok].
  intros i [[]%elem_of_nil | Hi]. change (i ∈ [10; 11]) in Hi. in_pair; by vm_compute.
Qed.

Lemma migrate_inode_witness :
  exists b1' b2',
    splitBufferItemsByIndex (si := sorted_siter) 7 ∅ h_3 b1_3 = Ok (0, {[0]}, b1') /\
    installBufferItemsOfIndex (si := sorted_siter) 7 {[0]} h_3 b2_0 = Ok (0, b2') /\
    buf_ok h_3 b1' /\ buf_ok h_3 b2' /\
    (forall c j, holds b1' c j <-> holds b1_3 c j /\ j ∉ ({[0]} : gset Z)) /\
    (forall c j, holds b2' c j <-> holds b2_0 c j \/ (holds b1_3 c j /\ j ∈ ({[0]} : gset Z))) /\
    dset b2' 7 = dset b1_3 7 /\
    dirtyItemNum b1' + dirtyItemNum b2' = dirtyItemNum b1_3 + dirtyItemNum b2_0.
Proof.
  apply (migrate_inode sorted_siter 7 h_3 b1_3 b2_0 {[0]}).
  - apply demo_3_ok.
  - apply demo_3_ok2.
  - done.
  - by vm_compute.
  - set_solver.
  - intros i ->%elem_of_singleton. eexists. split; [vm_compute; reflexivity | done].
  - intros i ->%elem_of_singleton. split; intros Hi.
    + by apply elem_of_nil in Hi.
    + change (0 ∈ [10; 11]) in Hi. set_solver.
  - intros bno i _ _. apply lookup_empty.
  - by vm_compute.
Defined.

Lemma unlinked_blocks_freed_witness :
  exists h' b', releaseUnlinkedInodeDirtyBlocks (si := sorted_siter) 7 h_3 b1_3 = Ok (h', b') /\
    buf_ok h' b' /\
    freeItems b' ≡ₚ freeItems b1_3 ++ elements (bset b1_3 7) /\
    (forall c j, holds b' c j <-> holds b1_3 c j /\ ~ sat h_3 j (fun it => itemIndex it = 7)) /\
    (forall c j, holds b' c j -> h' !! j = h_3 !! j).
Proof.
  apply (unlinked_blocks_freed sorted_siter 7 h_3 b1_3); [apply demo_3_ok | lia].
Defined.

Definition after_unlink (ino : Z) (h : heap) (b : BlockBuffer) : heap * BlockBuffer :=
  match releaseUnlinkedInodeDirtyBlocks (si := sorted_siter) ino h b with
  | Ok hb => hb
  | Crash _ => (h, b)
  end.

Lemma after_unlink_ok ino h b :
  buf_ok h b -> 1 < ino -> buf_ok (fst (after_unlink ino h b)) (snd (after_unlink ino h b)).
Proof.
  intros Hok Hino. unfold after_unlink.
  destruct (release_unlinked_ok (H := sorted_siter) ino h b Hok Hino) as (h' & b' & E & Hok' & _).
  by rewrite E.
Qed.

(** A buffer of one slot whose inode is unlinked. *)
Definition one_new : BlockBuffer * heap := new_BlockBuffer 1 4096 0 0 false ∅.
Definition one_get : heap * BlockBuffer := after_get 100 7 (snd one_new) (fst one_new).
Definition one_unlinked : heap * BlockBuffer := after_unlink 7 (fst one_get) (snd one_get).

Lemma one_get_ok : buf_ok (fst one_get) (snd one_get).
Proof.
  apply (after_get_ok 100 7 _ _ 0 []); [| | done | done].
  - by eapply (new_buffer_ok 1 4096 0 0 false ∅).
  - split; [by intros nd it ?%elem_of_nil |]. intros i it Hi Hit. right.
    change (i ∈ [0]) in Hi. in_pair. by injection Hit as <-.
Qed.

Lemma unlinked_slot_reuse_witness :
  exists g h1 b1 h2 b2,
    getBlock 200 7 (fst one_unlinked) (snd one_unlinked) = Ok (g, h1, b1) /\
    g_item g = Some 0 /\ setItemDirty 0 true 7 h1 b1 = Ok (false, h2, b2) /\
    releaseUnlinkedInodeDirtyBlocks (si := sorted_siter) 7 h2 b2 = Crash AssertFail.
Proof.
  apply (unlinked_slot_reuse sorted_siter (fst one_unlinked) 0
           (with_dirty false (mk_item 0 0 4096 100 7 false false BLOCK_BUF_LOCKED 0))
           (snd one_unlinked) 200 7).
  - apply after_unlink_ok; [apply one_get_ok | lia].
  - lia.
  - by vm_compute.
  - exists []. by vm_compute.
  - by vm_compute.
  - done.
  - by vm_compute.
  - by vm_compute.
Defined.

(** The second buffer flushed a block of inode 7 before the inode was unlinked. *)
Definition st_get : heap * BlockBuffer := after_get 200 7 h_3 b2_0.
Definition st_dirty : heap * BlockBuffer := after_dirty 10 true 7 (fst st_get) (snd st_get).
Definition st_clean : heap * BlockBuffer := after_dirty 10 false 7 (fst st_dirty) (snd st_dirty).
Definition stale : heap * BlockBuffer := after_unlink 7 (fst st_clean) (snd st_clean).

Lemma stale_ok : buf_ok (fst stale) (snd stale).
Proof.
  apply after_unlink_ok; [| lia].
  assert (H1 : buf_ok (fst st_get) (snd st_get)).
  { apply (after_get_ok 200 7 _ _ 10 [11]); [apply demo_3_ok2 | | done | done].
    split; [by intros nd it ?%elem_of_nil |]. intros i it Hi Hit. right.
    change (i ∈ [10; 11]) in Hi. in_pair; vm_compute in Hit; by injection Hit as <-. }
  destruct (fst st_get !! 10) as [it |] eqn:Hi; [| discriminate Hi].
  assert (Hx : itemIndex it = 7) by (vm_compute in Hi; injection Hi as <-; done).
  pose proof (after_dirty_ok 10 true _ _ it H1 ltac:(by left) Hi) as H2. rewrite Hx in H2.
  destruct (fst st_dirty !! 10) as [it2 |] eqn:Hi2; [| discriminate Hi2].
  assert (Hx2 : itemIndex it2 = 7) by (vm_compute in Hi2; injection Hi2 as <-; done).
  pose proof (after_dirty_ok 10 false _ _ it2 H2 ltac:(by left) Hi2) as H3. by rewrite Hx2 in H3.
Qed.

Definition stale_installed : BlockBuffer :=
  match installBufferItemsOfIndex (si := sorted_siter) 7 {[0]} (fst stale) (snd stale) with
  | Ok (_, b) => b
  | Crash _ => snd stale
  end.

Lemma stale_index_loses_blocks_witness :
  (forall i, i ∈ ({[0]} : gset Z) -> i ∈ slots stale_installed) /\
  exists b3, doFlushByIndex (ui := sorted_iter) (si := sorted_siter) 7 [] (fst stale)
    stale_installed = Ok (true, [], b3).
Proof.
  apply (stale_index_loses_blocks sorted_iter sorted_siter 7 {[0]} (fst stale) (snd stale)).
  - apply stale_ok.
  - done.
  - by vm_compute.
  - split.
    + intros i Hi. change (i ∈ [0]) in Hi. in_pair. split_and!.
      * intros Hn. by apply elem_of_nil in Hn.
      * intros Hn. change (0 ∈ [11; 10]) in Hn. set_solver.
      * eexists. split; [vm_compute; reflexivity |]. split; [done | by vm_compute].
    + intros i j x y Hi Hj _ _ _. change (i ∈ [0]) in Hi.
      change (j ∈ [0]) in Hj. in_pair. done.
  - by vm_compute.
  - by_compute.
Defined.

End BlockBuf.
