(* ===== verification/FsCache.v ===== *)
(** * Blocks in memory

    The layer between the file system operations and the block buffers:
    [FsImpl::getBlock] of [cfs/src/FsProc_FsImpl.cc], the pending reads of a
    request ([FsReqIoUnitHelper] and the first part of [FsReq], in
    [cfs/src/FsProc.cc] and [cfs/include/FsProc_FsReq.h]).  A buffer comes with the
    memory of its slots, and the device is a map from block numbers to contents. *)

From Stdlib Require Import ZArith Lia Bool.
From stdpp Require Import base list option gmap.
From S2P Require Import Prelude Unordered Layout BlockBuf.

Module FsCache.
Import BlockBuf.

(** ** Pending reads of a request *)

Record FsReqIoUnitHelper : Type := mk_helper {
  ioUnitPendingMap : gmap Z bool;
  submitIoUnitReqMap : gmap Z Z
}.

Definition addIoUnitReq (iouNo : Z) (isSubmit : bool) (u : FsReqIoUnitHelper)
    : FsReqIoUnitHelper :=
  match ioUnitPendingMap u !! iouNo with
  | Some _ => u
  | None => mk_helper (<[iouNo := isSubmit]> (ioUnitPendingMap u)) (submitIoUnitReqMap u)
  end.

(** [insert] on the second map keeps an entry that is there. *)
Definition addIoUnitSubmitReq (iouNo item : Z) (u : FsReqIoUnitHelper)
    : FsReqIoUnitHelper :=
  let u := addIoUnitReq iouNo true u in
  match submitIoUnitReqMap u !! iouNo with
  | Some _ => u
  | None => mk_helper (ioUnitPendingMap u) (<[iouNo := item]> (submitIoUnitReqMap u))
  end.

Definition getIoUnitSubmitReq (iouNo : Z) (u : FsReqIoUnitHelper) : option Z :=
  submitIoUnitReqMap u !! iouNo.

Definition submittedIoUnitReqDone (iouNo : Z) (h : heap) (u : FsReqIoUnitHelper)
    : res (heap * FsReqIoUnitHelper) :=
  match getIoUnitSubmitReq iouNo u with
  | None => Crash AssertFail
  | Some item =>
      let! it := get_item h item in
      Ok (<[item := snd (blockFetchedCallback it)]> h,
          mk_helper (ioUnitPendingMap u) (delete iouNo (submitIoUnitReqMap u)))
  end.

Definition ioUnitWaitReqDone (iouNo : Z) (u : FsReqIoUnitHelper) : FsReqIoUnitHelper :=
  mk_helper (delete iouNo (ioUnitPendingMap u)) (submitIoUnitReqMap u).

(** The part of [FsReq] that tracks reads; [blockIoDoneMap] holds addresses. *)
Record FsReq : Type := mk_req {
  blockIo : FsReqIoUnitHelper;
  sectorIo : FsReqIoUnitHelper;
  blockIoDoneMap : gset Z;
  append_start_off : Z
}.

Definition ioHelper (isSector : bool) (r : FsReq) : FsReqIoUnitHelper :=
  if isSector then sectorIo r else blockIo r.

Definition set_ioHelper (isSector : bool) (u : FsReqIoUnitHelper) (r : FsReq) : FsReq :=
  if isSector then mk_req (blockIo r) u (blockIoDoneMap r) (append_start_off r)
  else mk_req u (sectorIo r) (blockIoDoneMap r) (append_start_off r).

Definition numTotalPendingIoReq (r : FsReq) : Z :=
  Z.of_nat (size (ioUnitPendingMap (blockIo r)) + size (ioUnitPendingMap (sectorIo r))).

Definition getBlockIoDone (addr : Z) (r : FsReq) : bool :=
  bool_decide (addr ∈ blockIoDoneMap r).

Definition setBlockIoDone (addr : Z) (r : FsReq) : res FsReq :=
  let! _ := check (negb (getBlockIoDone addr r)) in
  Ok (mk_req (blockIo r) (sectorIo r) ({[addr]} ∪ blockIoDoneMap r) (append_start_off r)).

(** ** [FsImpl::getBlock] *)

(** A buffer, its slots and the memory of the slots. *)
Record cache : Type := mk_cache {
  c_heap : heap;
  c_buf : BlockBuffer;
  c_mem : gmap Z (list Z)
}.

(** The retry loop.  A retry fails like the attempt before it, see
    [getBlock_loop_spins] and [getBlock_loop_empty]: one attempt decides. *)
Fixpoint getBlock_loop (fuel : nat) (bno new_index : Z) (c : cache)
    : res (Z * bool * cache) :=
  match fuel with
  | O => Crash NoFuel
  | S fuel' =>
      let! (g, h, b) := getBlock bno new_index (c_heap c) (c_buf c) in
      let c := mk_cache h b (c_mem c) in
      if g_hasDirty g then Crash AssertFail else
      match g_item g with
      | None => getBlock_loop fuel' bno new_index c
      | Some i =>
          let! it := get_item h i in
          if g_lockGrabbed g =? BLOCK_BUF_LOCK_GRAB_NO then
            if inMem it then getBlock_loop fuel' bno new_index c
            else Ok (i, false, c)
          else Ok (i, true, c)
      end
  end.

(** The result is the slot and [canOverwritten]. *)
Definition fs_getBlock (isSector : bool) (bno : Z) (doSubmit : bool) (new_index : Z)
    (c : cache) (r : FsReq) : res (Z * bool * cache * FsReq) :=
  let! (i, held, c) := getBlock_loop 1 bno new_index c in
  let! it := get_item (c_heap c) i in
  let! _ := check (blockNo it =? bno) in
  if negb held then
    Ok (i, false, c, set_ioHelper isSector (addIoUnitReq bno false (ioHelper isSector r)) r)
  else if inMem it then Ok (i, true, c, r)
  else if doSubmit then
    Ok (i, false, c,
        set_ioHelper isSector (addIoUnitSubmitReq bno i (ioHelper isSector r)) r)
  else Ok (i, true, c, r).

Definition mem_of (c : cache) (i : Z) : res (list Z) :=
  match c_mem c !! i with Some bs => Ok bs | None => Crash OutOfRange end.

Definition set_mem (i : Z) (bs : list Z) (c : cache) : cache :=
  mk_cache (c_heap c) (c_buf c) (<[i := bs]> (c_mem c)).

Definition cache_releaseBlock (i : Z) (c : cache) : res cache :=
  let! (_, h) := releaseBlock i (c_heap c) in
  Ok (mk_cache h (c_buf c) (c_mem c)).

Definition cache_setItemDirty (i : Z) (d : bool) (index : Z) (c : cache) : res cache :=
  let! (_, h, b) := setItemDirty i d index (c_heap c) (c_buf c) in
  Ok (mk_cache h b (c_mem c)).

Definition cache_blockFetched (i : Z) (c : cache) : res (bool * cache) :=
  let! it := get_item (c_heap c) i in
  let '(ok, it) := blockFetchedCallback it in
  Ok (ok, mk_cache (<[i := it]> (c_heap c)) (c_buf c) (c_mem c)).

(** ** What a cache holds *)

(** A block is not cached, or being read, or in memory, dirty or clean. *)
Inductive entry : Type :=
| Absent
| Reading
| Present (dirty : bool) (bytes : list Z).

Definition slot_of (b : BlockBuffer) (bno : Z) : option Z :=
  match cache_items_map b !! bno with
  | Some n => match find_node (cache_items_list b) n with
              | Ok nd => Some (n_item nd)
              | Crash _ => None
              end
  | None => None
  end.

Definition entry_of (c : cache) (i : Z) : entry :=
  match c_heap c !! i, c_mem c !! i with
  | Some it, Some bs => if inMem it then Present (isDirty it) bs else Reading
  | _, _ => Absent
  end.

Definition look (c : cache) (bno : Z) : entry :=
  match slot_of (c_buf c) bno with
  | Some i => entry_of c i
  | None => Absent
  end.

(** A cache between two requests.  A slot is locked while its block is being read,
    dirty blocks are in memory, slots belong to the inode of their block ([own]), free
    slots were never used, and every slot has the memory of a block of [bsz] bytes;
    there is a slot. *)
Record quiet (own : Z -> Z) (bsz : Z) (c : cache) : Prop := mk_quiet {
  q_buf : buf_ok (c_heap c) (c_buf c);
  q_some : exists i, i ∈ slots (c_buf c) \/ i ∈ freeItems (c_buf c);
  q_slot : forall i it, i ∈ slots (c_buf c) -> c_heap c !! i = Some it ->
    (status it = BLOCK_BUF_LOCKED <-> inMem it = false) /\
    (isDirty it = true -> inMem it = true) /\ itemIndex it = own (blockNo it);
  q_free : forall i it, i ∈ freeItems (c_buf c) -> c_heap c !! i = Some it -> itemIndex it = 0;
  q_mem : forall i, i ∈ slots (c_buf c) \/ i ∈ freeItems (c_buf c) ->
    exists bs, c_mem c !! i = Some bs /\ Z.of_nat (length bs) = bsz
}.

(** Cache [c'] holds what [c] holds but for block [bno], whose entry is [e], and for
    at most one clean block that was replaced. *)
Definition moved (c c' : cache) (bno : Z) (e : entry) : Prop :=
  look c' bno = e /\
  forall b, b <> bno -> look c' b = look c b \/
    (look c' b = Absent /\ exists bs, look c b = Present false bs).

(** Nothing is replaced. *)
Definition kept (c c' : cache) (bno : Z) (e : entry) : Prop :=
  forall b, look c' b = if b =? bno then e else look c b.

(** No slot is free, and every cached block is dirty or being read. *)
Definition full (c : cache) : Prop :=
  freeItems (c_buf c) = [] /\
  forall b, look c b <> Absent -> look c b = Reading \/ exists bs, look c b = Present true bs.

(** The state inside an operation that has locked slot [i] for block [bno]. *)
Record held (own : Z -> Z) (c c1 : cache) (bno i : Z) (m d : bool) : Prop := mk_held {
  hd_buf : buf_ok (c_heap c1) (c_buf c1);
  hd_item : sat (c_heap c1) i (fun it => inMem it = m /\ isDirty it = d /\
    status it = BLOCK_BUF_LOCKED /\ itemIndex it = own bno /\ blockNo it = bno);
  hd_heap : forall j, j <> i -> c_heap c1 !! j = c_heap c !! j;
  hd_holds : forall b j, holds (c_buf c1) b j <->
    (b = bno /\ j = i) \/ (holds (c_buf c) b j /\ j <> i);
  hd_free : freeItems (c_buf c1) = freeItems (c_buf c) \/
    freeItems (c_buf c) = i :: freeItems (c_buf c1);
  hd_mem : c_mem c1 = c_mem c;
  hd_slot : i ∈ slots (c_buf c) \/ i ∈ freeItems (c_buf c);
  hd_victim : forall b, b <> bno -> holds (c_buf c) b i -> exists bs, look c b = Present false bs
}.

(** ** Looking up *)

Lemma slot_of_holds h b bno i : cache_ok h b -> slot_of b bno = Some i <-> holds b bno i.
Proof.
  intros Hc. unfold slot_of. split.
  - destruct (cache_items_map b !! bno) as [n |] eqn:E; [| done].
    destruct (map_node _ _ _ _ Hc E) as (nd & Hnd & <- & <-).
    rewrite find_node_ok by (done || apply Hc). intros [= <-].
    exists (n_id nd). by destruct nd.
  - intros (n & Hn). pose proof (node_map _ _ _ Hc Hn) as Hm. cbn in Hm. rewrite Hm.
    pose proof (find_node_ok _ _ (co_ids _ _ Hc) Hn) as Hf. cbn in Hf. by rewrite Hf.
Qed.

Lemma slot_of_none h b bno : cache_ok h b ->
  slot_of b bno = None <-> cache_items_map b !! bno = None.
Proof.
  intros Hc. split.
  - intros E. destruct (cache_items_map b !! bno) as [n |] eqn:Em; [| done].
    destruct (map_node _ _ _ _ Hc Em) as (nd & Hnd & _ & Hb). exfalso.
    assert (Hh : holds b bno (n_item nd)) by (exists (n_id nd); rewrite <- Hb; by destruct nd).
    apply (slot_of_holds _ _ _ _ Hc) in Hh. congruence.
  - intros E. unfold slot_of. by rewrite E.
Qed.

(** A block that is locked and in memory, or a buffer without slots, is retried for ever. *)
Lemma getBlock_loop_spins fuel bno new_index c n nd it :
  cache_items_map (c_buf c) !! bno = Some n -> find_node (cache_items_list (c_buf c)) n = Ok nd ->
  c_heap c !! n_item nd = Some it -> status it = BLOCK_BUF_LOCKED -> inMem it = true ->
  getBlock_loop fuel bno new_index c = Crash NoFuel.
Proof.
  intros Hm Hn Hi Hl Hin. revert c Hm Hn Hi.
  induction fuel as [| fuel IH]; intros c Hm Hn Hi; cbn [getBlock_loop]; [done |].
  assert (Hg : get_item (c_heap c) (n_item nd) = Ok it) by by apply get_item_ok.
  unfold getBlock, set_stats, set_flush. cbn [cache_items_map cache_items_list]. rewrite Hm, Hn. cbn [res_bind].
  rewrite Hg. cbn [res_bind]. rewrite decide_True by done.
  cbn [res_bind g_hasDirty g_item g_lockGrabbed]. rewrite Hg. cbn [res_bind].
  rewrite Hin. by apply IH.
Qed.

Lemma getBlock_loop_empty fuel bno new_index c :
  cache_items_map (c_buf c) !! bno = None -> freeItems (c_buf c) = [] ->
  cache_items_list (c_buf c) = [] -> getBlock_loop fuel bno new_index c = Crash NoFuel.
Proof.
  intros Hm Hf Hl. revert c Hm Hf Hl.
  induction fuel as [| fuel IH]; intros c Hm Hf Hl; cbn [getBlock_loop]; [done |].
  unfold getBlock, set_stats, set_flush. cbn [cache_items_map cache_items_list freeItems].
  rewrite Hm, Hf, Hl. by apply IH.
Qed.

Section Quiet.
Context (own : Z -> Z) (bsz : Z).

Lemma look_held c bno i : quiet own bsz c -> holds (c_buf c) bno i -> look c bno = entry_of c i.
Proof.
  intros [[Hc _] _ _ _ _] Hh. unfold look. apply (slot_of_holds _ _ _ _ Hc) in Hh. by rewrite Hh.
Qed.

Lemma quiet_disciplined c bno :
  quiet own bsz c -> disciplined bno (own bno) (c_heap c) (c_buf c).
Proof.
  intros [[Hc _] _ Hs Hf _]. split.
  - intros nd it Hnd Hb Hi Hd.
    destruct (Hs (n_item nd) it) as (_ & _ & ->); [apply slot_node; eauto | done |]. f_equal.
    destruct (co_cached _ _ Hc _ Hnd) as (it' & Hi' & E). congruence.
  - intros i it Hi Hit. rewrite (Hf i it Hi Hit). destruct (decide (own bno = 0)); auto.
Qed.

Lemma look_cases c bno :
  quiet own bsz c ->
  match look c bno with
  | Absent => cache_items_map (c_buf c) !! bno = None
  | Reading => exists i it, holds (c_buf c) bno i /\ c_heap c !! i = Some it /\
      inMem it = false /\ isDirty it = false /\ status it = BLOCK_BUF_LOCKED
  | Present d bs => exists i it, holds (c_buf c) bno i /\ c_heap c !! i = Some it /\
      inMem it = true /\ isDirty it = d /\ status it <> BLOCK_BUF_LOCKED /\
      c_mem c !! i = Some bs /\ Z.of_nat (length bs) = bsz
  end.
Proof.
  intros [[Hc Hx] _ Hs _ Hm]. unfold look. destruct (slot_of (c_buf c) bno) as [i |] eqn:E.
  - apply (slot_of_holds _ _ _ _ Hc) in E.
    destruct (holds_item _ _ _ _ Hc E) as (it & Hi & _).
    destruct (Hm i) as (bs & Hbs & Hlen); [left; by eapply holds_slot |].
    destruct (Hs i it) as (Hl & Hd & Hix); [by eapply holds_slot | done |].
    unfold entry_of. rewrite Hi, Hbs. destruct (inMem it) eqn:Em.
    + exists i, it. split_and!; try done. by intros ?%Hl.
    + exists i, it. split_and!; try done; [| by apply Hl].
      destruct (isDirty it); [| done]. by specialize (Hd eq_refl).
  - by apply (slot_of_none (c_heap c)).
Qed.

(** What is left when the operation is over: slot [i] has item [it2] and memory [bs]
    and is released, or stays locked because its block is being read. *)
Section Close.
Context (c c1 c2 : cache) (bno i : Z) (m d : bool) (it2 : BlockBufferItem) (bs : list Z).
Hypothesis (Hq : quiet own bsz c) (Hh : held own c c1 bno i m d).
Hypothesis (Hok2 : buf_ok (c_heap c2) (c_buf c2)).
Hypothesis (Hho : forall b j, holds (c_buf c2) b j <-> holds (c_buf c1) b j).
Hypothesis (Hfr : freeItems (c_buf c2) = freeItems (c_buf c1)).
Hypothesis (Hit : c_heap c2 !! i = Some it2).
Hypothesis (Hoth : forall j, j <> i -> c_heap c2 !! j = c_heap c1 !! j).
Hypothesis (Hbs : c_mem c2 !! i = Some bs).
Hypothesis (Hmo : forall j, j <> i -> c_mem c2 !! j = c_mem c1 !! j).
Hypothesis (Hlen : Z.of_nat (length bs) = bsz).
Hypothesis (Hst : status it2 = BLOCK_BUF_LOCKED <-> inMem it2 = false).
Hypothesis (Hdi : isDirty it2 = true -> inMem it2 = true).
Hypothesis (Hix : itemIndex it2 = own bno).
Hypothesis (Hbn : blockNo it2 = bno).

Let e := if inMem it2 then Present (isDirty it2) bs else Reading.

Lemma closed_slot j : j ∈ slots (c_buf c2) -> j = i \/ (j <> i /\ j ∈ slots (c_buf c)).
Proof.
  intros (nd & Hnd & <-)%slot_node.
  assert (H2 : holds (c_buf c2) (n_bno nd) (n_item nd)) by (exists (n_id nd); by destruct nd).
  apply Hho, (hd_holds _ _ _ _ _ _ _ Hh) in H2 as [[_ ->] | [H2 ?]]; [by left | right].
  split; [done |]. by eapply holds_slot.
Qed.

Lemma closed_free j : j ∈ freeItems (c_buf c2) -> j <> i /\ j ∈ freeItems (c_buf c).
Proof.
  intros Hj. split.
  - intros ->. revert Hj. apply (slot_not_free (c_heap c2)); [apply Hok2 |].
    eapply (holds_slot _ bno), Hho, Hh. by left.
  - rewrite Hfr in Hj. destruct (hd_free _ _ _ _ _ _ _ Hh) as [<- | ->]; [done | by right].
Qed.

Lemma closed_quiet : quiet own bsz c2.
Proof.
  destruct Hq as [_ _ Hs Hf Hm]. split; [done | | | |].
  - exists i. left. eapply (holds_slot _ bno), Hho, Hh. by left.
  - intros j it Hj Hjt. destruct (closed_slot j Hj) as [-> | [Hne Hj']].
    + rewrite Hit in Hjt. injection Hjt as <-. by rewrite Hbn.
    + apply (Hs j); [done |]. by rewrite <- (hd_heap _ _ _ _ _ _ _ Hh), <- Hoth.
  - intros j it [Hne Hj]%closed_free Hjt.
    apply (Hf j it Hj). by rewrite <- (hd_heap _ _ _ _ _ _ _ Hh), <- Hoth.
  - intros j Hj. destruct (decide (j = i)) as [-> | Hne]; [by exists bs |].
    rewrite Hmo, (hd_mem _ _ _ _ _ _ _ Hh) by done. apply Hm.
    destruct Hj as [[-> | [_ ?]]%closed_slot | [_ ?]%closed_free]; [done | by left | by right].
Qed.

Lemma closed_look : look c2 bno = e.
Proof.
  rewrite (look_held c2 bno i closed_quiet) by (apply Hho, Hh; by left).
  unfold entry_of. by rewrite Hit, Hbs.
Qed.

Lemma closed_other b : b <> bno -> ~ holds (c_buf c) b i -> look c2 b = look c b.
Proof.
  intros Hb Hnh. destruct Hq as [[Hc _] _ _ _ _], Hok2 as [Hc2 _]. unfold look.
  assert (slot_of (c_buf c2) b = slot_of (c_buf c) b) as ->.
  { apply option_eq. intros j.
    rewrite (slot_of_holds _ _ _ _ Hc2), (slot_of_holds _ _ _ _ Hc), Hho.
    rewrite (hd_holds _ _ _ _ _ _ _ Hh). naive_solver. }
  destruct (slot_of (c_buf c) b) as [j |] eqn:Ej; [| done].
  apply (slot_of_holds _ _ _ _ Hc) in Ej. assert (j <> i) by (intros ->; done).
  unfold entry_of.
  by rewrite Hoth, Hmo, (hd_heap _ _ _ _ _ _ _ Hh), (hd_mem _ _ _ _ _ _ _ Hh).
Qed.

Lemma closed_victim b : b <> bno -> holds (c_buf c) b i -> look c2 b = Absent.
Proof.
  intros Hb Hbi. destruct Hq as [[Hc _] _ _ _ _], Hok2 as [Hc2 _]. unfold look.
  destruct (slot_of (c_buf c2) b) as [j |] eqn:E2; [| done].
  apply (slot_of_holds _ _ _ _ Hc2), Hho, (hd_holds _ _ _ _ _ _ _ Hh) in E2
    as [[? _] | [E2 Hji]]; [done |].
  destruct Hji. by apply (holds_inj _ _ _ _ _ _ Hc E2 Hbi).
Qed.

Lemma held_close :
  quiet own bsz c2 /\ moved c c2 bno e /\ (holds (c_buf c) bno i -> kept c c2 bno e).
Proof.
  pose proof Hq as [[Hc _] _ _ _ _].
  split; [exact closed_quiet |]. split.
  - split; [exact closed_look |]. intros b Hb.
    destruct (slot_of (c_buf c) b) as [j |] eqn:Ej.
    + apply (slot_of_holds _ _ _ _ Hc) in Ej. destruct (decide (j = i)) as [-> | Hne].
      * right. split; [by apply closed_victim | by apply (hd_victim _ _ _ _ _ _ _ Hh)].
      * left. apply closed_other; [done |]. intros Hx. destruct Hne.
        by apply (holds_inj _ _ _ _ _ _ Hc Ej Hx).
    + left. apply closed_other; [done |]. intros Hx.
      apply (slot_of_holds _ _ _ _ Hc) in Hx. congruence.
  - intros Hbi b. destruct (b =? bno) eqn:Eb; b2p; [rewrite Eb; exact closed_look |].
    apply closed_other; [done |]. intros Hx. apply Eb.
    by apply (holds_inj _ _ _ _ _ _ Hc Hx Hbi).
Qed.

End Close.

(** The hint never refuses a block: no block is both locked and dirty. *)
Lemma quiet_hint c bno i g h1 b1 :
  quiet own bsz c -> obtained bno (own bno) i g (c_heap c) (c_buf c) h1 b1 ->
  g_hasDirty g = false.
Proof.
  intros Hq Hob. destruct (g_hasDirty g) eqn:E; [| done].
  apply (ob_hint _ _ _ _ _ _ _ _ Hob) in E
    as (_ & _ & l1 & nd' & l2 & El & _ & nd & Hnd & it & Hi & Hl & Hd).
  assert (Hnd' : nd ∈ cache_items_list (c_buf c)) by (rewrite El; set_solver). clear Hnd.
  destruct (q_slot _ _ _ Hq (n_item nd) it) as (H1 & H2 & _); [apply slot_node; eauto | done |].
  apply H1 in Hl. specialize (H2 Hd). congruence.
Qed.

Lemma obtained_slot c bno i g h1 b1 :
  obtained bno (own bno) i g (c_heap c) (c_buf c) h1 b1 ->
  i ∈ slots (c_buf c) \/ i ∈ freeItems (c_buf c).
Proof.
  intros Hob. destruct (ob_origin _ _ _ _ _ _ _ _ Hob)
    as [? | [(_ & f & ->) | (_ & _ & l1 & nd & l2 & E & <- & _)]].
  - left. by eapply holds_slot.
  - right. by left.
  - left. apply slot_node. exists nd. split; [| done]. rewrite E. set_solver.
Qed.

Lemma obtained_same c bno i j g h1 b1 :
  quiet own bsz c -> obtained bno (own bno) i g (c_heap c) (c_buf c) h1 b1 ->
  holds (c_buf c) bno j -> j = i.
Proof.
  intros [[Hc _] _ _ _ _] Hob Hj.
  destruct (ob_origin _ _ _ _ _ _ _ _ Hob) as [Hn | [(Hn & _) | (Hn & _)]].
  - by apply (holds_inj _ _ _ _ _ _ Hc Hj Hn).
  - by destruct (not_held _ _ _ _ Hc Hn Hj).
  - by destruct (not_held _ _ _ _ Hc Hn Hj).
Qed.

(** A replaced block was in memory and clean. *)
Lemma obtained_victim c bno i g h1 b1 b :
  quiet own bsz c -> obtained bno (own bno) i g (c_heap c) (c_buf c) h1 b1 ->
  b <> bno -> holds (c_buf c) b i -> exists bs, look c b = Present false bs.
Proof.
  intros Hq Hob Hb Hbi. pose proof Hq as [[Hc _] _ Hs Hf Hm].
  rewrite (look_held c b i Hq Hbi). unfold entry_of.
  destruct (Hm i (obtained_slot _ _ _ _ _ _ Hob)) as (bs & -> & _). exists bs.
  destruct (ob_origin _ _ _ _ _ _ _ _ Hob)
    as [Hn | [(_ & f & Ef) | (_ & _ & l1 & nd & l2 & _ & _ & Hbusy & _)]].
  - destruct Hb. by apply (holds_inj _ _ _ _ _ _ Hc Hbi Hn).
  - destruct (slot_not_free _ _ i Hc); [by eapply holds_slot | rewrite Ef; by left].
  - destruct Hbusy as (it & Hi & Hnb). rewrite Hi.
    destruct (Hs i it) as [Hl _]; [by eapply holds_slot | done |]. unfold busy in Hnb.
    destruct (inMem it), (isDirty it); try done; destruct Hnb; [by right.. | left; by apply Hl].
Qed.

(** A grabbed slot is held, with the flags of the block that was looked up. *)
Lemma obtained_held c bno i g h1 b1 :
  quiet own bsz c -> buf_ok h1 b1 ->
  obtained bno (own bno) i g (c_heap c) (c_buf c) h1 b1 ->
  g_lockGrabbed g = BLOCK_BUF_LOCK_GRAB_YES ->
  match look c bno with
  | Absent => held own c (mk_cache h1 b1 (c_mem c)) bno i false false
  | Reading => True
  | Present d bs => held own c (mk_cache h1 b1 (c_mem c)) bno i true d /\
      holds (c_buf c) bno i /\ c_mem c !! i = Some bs
  end.
Proof.
  intros Hq Hok1 Hob Hg. pose proof Hq as [[Hc _] _ Hs Hf Hm].
  destruct (ob_grabbed _ _ _ _ _ _ _ _ Hob)
    as [(_ & (it1 & Hi1 & Hix) & _) | [Hno _]]; [| by rewrite Hg in Hno].
  destruct (ob_item _ _ _ _ _ _ _ _ Hob) as (it1' & Hi1' & Hbn & Hhit & Hmiss).
  destruct (ob_locked _ _ _ _ _ _ _ _ Hob) as (it1'' & Hi1'' & Hlk).
  rewrite Hi1 in Hi1', Hi1''. injection Hi1' as <-. injection Hi1'' as <-.
  assert (Hheld : forall m d, inMem it1 = m -> isDirty it1 = d ->
    held own c (mk_cache h1 b1 (c_mem c)) bno i m d).
  { intros m d <- <-. split; cbn; try done; [by exists it1 | apply Hob.. | |].
    - by eapply obtained_slot.
    - intros b. by apply (obtained_victim c bno i g h1 b1). }
  pose proof (look_cases c bno Hq) as Hlook. destruct (look c bno) as [| | d bs].
  - apply Hheld; apply Hmiss; by apply (not_held (c_heap c)).
  - done.
  - destruct Hlook as (j & it & Hj & Hit & Hin & Hd & _ & Hbs & _).
    assert (j = i) as -> by by eapply obtained_same.
    destruct (Hhit it Hj Hit) as [E1 E2]. split; [| done]. apply Hheld; congruence.
Qed.

(** ** [FsImpl::getBlock] on a quiet cache *)

Lemma get_item_lookup h i it : h !! i = Some it -> get_item h i = Ok it.
Proof. by rewrite get_item_ok. Qed.

(** The slot is grabbed, or held by the reader of the block, or the cache is full. *)
Lemma loop_quiet c bno :
  quiet own bsz c ->
  (exists i c1, getBlock_loop 1 bno (own bno) c = Ok (i, true, c1) /\
     match look c bno with
     | Absent => held own c c1 bno i false false
     | Reading => False
     | Present d bs => held own c c1 bno i true d /\ holds (c_buf c) bno i /\
         c_mem c !! i = Some bs
     end) \/
  (look c bno = Reading /\ exists i c1 it, getBlock_loop 1 bno (own bno) c = Ok (i, false, c1) /\
     c_heap c1 = c_heap c /\ c_mem c1 = c_mem c /\ buf_ok (c_heap c1) (c_buf c1) /\
     cache_items_list (c_buf c1) = cache_items_list (c_buf c) /\
     freeItems (c_buf c1) = freeItems (c_buf c) /\
     c_heap c !! i = Some it /\ inMem it = false /\ blockNo it = bno) \/
  (look c bno = Absent /\ full c /\ getBlock_loop 1 bno (own bno) c = Crash AssertFail).
Proof.
  intros Hq. pose proof Hq as [Hok Hne Hs _ _]. pose proof (look_cases c bno Hq) as Hlook.
  unfold getBlock_loop.
  destruct (getBlock_cases bno (own bno) _ _ Hok (quiet_disciplined c bno Hq))
    as [(g & h1 & b1 & E & Hok1 & Hg) | (E & Hm & Hf & Hbusy)]; rewrite E; cbn [res_bind].
  - destruct (g_item g) as [i |].
    2: { destruct Hg as (H1 & H2 & _), Hne as (j & Hj). rewrite H1, H2 in Hj. set_solver. }
    rewrite (quiet_hint _ _ _ _ _ _ Hq Hg).
    destruct (ob_item _ _ _ _ _ _ _ _ Hg) as (it & Hi & Hbn & Hhit & _).
    rewrite (get_item_lookup _ _ _ Hi). cbn [res_bind c_heap].
    destruct (ob_grabbed _ _ _ _ _ _ _ _ Hg)
      as [(Eg & _ & _ & Hun) | (Eg & -> & El & Ef)]; rewrite Eg; cbn.
    + left. exists i, (mk_cache h1 b1 (c_mem c)). split; [done |].
      pose proof (obtained_held _ _ _ _ _ _ Hq Hok1 Hg Eg) as H.
      destruct (look c bno); [done | | done].
      destruct Hlook as (j & jt & Hj & Hjt & _ & _ & Hlk).
      assert (j = i) as -> by by eapply obtained_same.
      destruct (Hun Hj) as (jt' & Hjt' & Hnl). congruence.
    + right. left. destruct (ob_locked _ _ _ _ _ _ _ _ Hg) as (it' & Hi' & Hlk).
      rewrite Hi in Hi'. injection Hi' as <-.
      assert (Hh : holds (c_buf c) bno i).
      { destruct (ob_cached _ _ _ _ _ _ _ _ Hg) as (n & Hn). rewrite El in Hn. by exists n. }
      destruct (Hs i it) as (Hl & _ & _); [by eapply holds_slot | done |]. apply Hl in Hlk.
      assert (look c bno = Reading) as ->.
      { rewrite (look_held _ _ _ Hq Hh). unfold entry_of. rewrite Hi.
        destruct (q_mem _ _ _ Hq i) as (bs & -> & _); [left; by eapply holds_slot |].
        by rewrite Hlk. }
      rewrite Hlk. split; [done |]. eexists _, _, _. split; [done |]. by split_and!.
  - right. right. split; [| split; [| done]].
    + unfold look. assert (slot_of (c_buf c) bno = None) as ->; [| done].
      by apply (slot_of_none _ _ _ (proj1 Hok)).
    + split; [done |]. intros b Hb. pose proof (look_cases c b Hq) as Hlb.
      destruct (look c b) as [| | d bs]; [done | by left | right].
      destruct Hlb as (i & it & (n & Hn) & Hi & _ & <- & Hnl & _).
      destruct (Hbusy _ Hn) as (it' & Hi' & [? | Hd]); cbn in Hi'; [congruence |].
      assert (isDirty it = true) as -> by congruence. eauto.
Qed.

Lemma fs_get_present c bno d bs :
  quiet own bsz c -> look c bno = Present d bs ->
  exists i c1, held own c c1 bno i true d /\ holds (c_buf c) bno i /\ mem_of c1 i = Ok bs /\
    forall isSector doSubmit r,
      fs_getBlock isSector bno doSubmit (own bno) c r = Ok (i, true, c1, r).
Proof.
  intros Hq Hl. destruct (loop_quiet c bno Hq) as [(i & c1 & E & H) | [[? _] | [? _]]];
    rewrite Hl in *; [| done..].
  destruct H as (Hh & Hbi & Hbs). exists i, c1. split_and!; [done.. | |].
  - unfold mem_of. by rewrite (hd_mem _ _ _ _ _ _ _ Hh), Hbs.
  - intros sec ds r. unfold fs_getBlock. rewrite E. cbn [res_bind].
    destruct (hd_item _ _ _ _ _ _ _ Hh) as (it & Hi & Hm & _ & _ & _ & Hb).
    rewrite (get_item_lookup _ _ _ Hi). cbn [res_bind]. by rewrite Hb, Z.eqb_refl, Hm.
Qed.

Lemma fs_get_reading c bno :
  quiet own bsz c -> look c bno = Reading ->
  exists i c1 it, quiet own bsz c1 /\ (forall b, look c1 b = look c b) /\
    c_heap c1 !! i = Some it /\ inMem it = false /\
    forall isSector doSubmit r,
      fs_getBlock isSector bno doSubmit (own bno) c r =
        Ok (i, false, c1,
            set_ioHelper isSector (addIoUnitReq bno false (ioHelper isSector r)) r).
Proof.
  intros Hq Hl. destruct (loop_quiet c bno Hq) as [(i & c1 & _ & H) | [(_ & H) | [? _]]];
    try rewrite Hl in *; [done | | done].
  destruct H as (i & c1 & it & E & Eh & Em & Hok & El & Ef & Hi & Him & Hb).
  exists i, c1, it. split_and!; [| | by rewrite Eh | done |].
  - destruct Hq as [_ Hne Hs Hf Hm]. split; unfold slots in *; rewrite ?Eh, ?Em, ?El, ?Ef; try done.
    by rewrite <- Eh.
  - intros b. unfold look, slot_of, entry_of. rewrite Eh, Em.
    assert (slot_of (c_buf c1) b = slot_of (c_buf c) b) as Es; [| unfold slot_of in Es; by rewrite Es].
    apply option_eq. intros j. destruct Hq as [[Hc _] _ _ _ _], Hok as [Hc1 _].
    rewrite (slot_of_holds _ _ _ _ Hc), (slot_of_holds _ _ _ _ Hc1). unfold holds. by rewrite El.
  - intros sec ds r. unfold fs_getBlock. rewrite E. cbn [res_bind]. rewrite Eh.
    rewrite (get_item_lookup _ _ _ Hi). cbn [res_bind]. by rewrite Hb, Z.eqb_refl.
Qed.

Lemma fs_get_absent c bno :
  quiet own bsz c -> look c bno = Absent ->
  (full c /\ forall isSector doSubmit r,
     fs_getBlock isSector bno doSubmit (own bno) c r = Crash AssertFail) \/
  exists i c1, held own c c1 bno i false false /\
    forall isSector doSubmit r,
      fs_getBlock isSector bno doSubmit (own bno) c r =
        Ok (i, negb doSubmit, c1,
            if doSubmit
            then set_ioHelper isSector (addIoUnitSubmitReq bno i (ioHelper isSector r)) r
            else r).
Proof.
  intros Hq Hl. destruct (loop_quiet c bno Hq) as [(i & c1 & E & H) | [[? _] | (_ & Hf & E)]];
    try rewrite Hl in *; [right | done | left].
  - exists i, c1. split; [done |]. intros sec ds r. unfold fs_getBlock. rewrite E. cbn [res_bind].
    destruct (hd_item _ _ _ _ _ _ _ H) as (it & Hi & Hm & _ & _ & _ & Hb).
    rewrite (get_item_lookup _ _ _ Hi). cbn [res_bind]. rewrite Hb, Z.eqb_refl, Hm.
    by destruct ds.
  - split; [done |]. intros sec ds r. unfold fs_getBlock. by rewrite E.
Qed.

(** ** Ends of an operation on a held slot *)

Lemma held_read c c1 bno i :
  quiet own bsz c -> held own c c1 bno i false false ->
  quiet own bsz c1 /\ moved c c1 bno Reading.
Proof.
  intros Hq Hh. destruct (hd_item _ _ _ _ _ _ _ Hh) as (it & Hi & Hm & Hd & Hl & Hx & Hb).
  destruct (q_mem _ _ _ Hq i (hd_slot _ _ _ _ _ _ _ Hh)) as (bs & Hbs & Hlen).
  destruct (held_close c c1 c1 bno i false false it bs) as (Hq1 & Hmv & _); try done.
  - apply Hh.
  - by rewrite (hd_mem _ _ _ _ _ _ _ Hh).
  - by rewrite Hd.
  - by rewrite Hm in Hmv.
Qed.

Lemma held_release c c1 bno i d bs mem :
  quiet own bsz c -> held own c c1 bno i true d ->
  mem !! i = Some bs -> (forall j, j <> i -> mem !! j = c_mem c1 !! j) ->
  Z.of_nat (length bs) = bsz ->
  exists c2, cache_releaseBlock i (mk_cache (c_heap c1) (c_buf c1) mem) = Ok c2 /\
    quiet own bsz c2 /\ moved c c2 bno (Present d bs) /\
    (holds (c_buf c) bno i -> kept c c2 bno (Present d bs)).
Proof.
  intros Hq Hh Hbs Hmo Hlen.
  destruct (hd_item _ _ _ _ _ _ _ Hh) as (it & Hi & Hm & Hd & Hl & Hx & Hb).
  unfold cache_releaseBlock, releaseBlock. cbn [c_heap c_buf c_mem].
  rewrite (get_item_lookup _ _ _ Hi). cbn [res_bind]. rewrite decide_True by done.
  cbn [res_bind]. eexists. split; [done |].
  destruct (held_close c c1
    (mk_cache (<[i := setStatus BLOCK_BUF_VALID it]> (c_heap c1)) (c_buf c1) mem)
    bno i true d (setStatus BLOCK_BUF_VALID it) bs) as (Hq2 & Hmv & Hk); try done.
  - cbn. eapply buf_ok_release; [apply Hh | done].
  - cbn. apply lookup_insert_eq.
  - intros j Hj. cbn. by rewrite lookup_insert_ne.
  - cbn. by rewrite Hm.
  - cbn in Hmv, Hk. by rewrite Hm, Hd in Hmv, Hk.
Qed.

(** The read of a locked slot completes. *)
Lemma held_fetch c c1 bno i d bs mem :
  quiet own bsz c -> held own c c1 bno i false d ->
  mem !! i = Some bs -> (forall j, j <> i -> mem !! j = c_mem c1 !! j) ->
  Z.of_nat (length bs) = bsz ->
  exists c2, cache_blockFetched i (mk_cache (c_heap c1) (c_buf c1) mem) = Ok (true, c2) /\
    quiet own bsz c2 /\ moved c c2 bno (Present d bs) /\
    (holds (c_buf c) bno i -> kept c c2 bno (Present d bs)).
Proof.
  intros Hq Hh Hbs Hmo Hlen.
  destruct (hd_item _ _ _ _ _ _ _ Hh) as (it & Hi & Hm & Hd & Hl & Hx & Hb).
  unfold cache_blockFetched, blockFetchedCallback. cbn [c_heap c_buf c_mem].
  rewrite (get_item_lookup _ _ _ Hi). cbn [res_bind]. rewrite decide_True by done.
  eexists. split; [done |]. set (it2 := setStatus BLOCK_BUF_VALID (setInMem true it)).
  destruct (held_close c c1 (mk_cache (<[i := it2]> (c_heap c1)) (c_buf c1) mem)
    bno i false d it2 bs) as (Hq2 & Hmv & Hk); try done.
  - cbn. by eapply buf_ok_flags; [apply Hh | exact Hi |..].
  - cbn. apply lookup_insert_eq.
  - intros j Hj. cbn. by rewrite lookup_insert_ne.
  - cbn in Hmv, Hk. by rewrite Hd in Hmv, Hk.
Qed.

(** Between requests, a block that is being read is held by its read. *)
Lemma reading_held c bno :
  quiet own bsz c -> look c bno = Reading ->
  exists i, holds (c_buf c) bno i /\ held own c c bno i false false.
Proof.
  intros Hq Hl. pose proof (look_cases c bno Hq) as H. rewrite Hl in H.
  destruct H as (i & it & Hh & Hi & Hin & Hd & Hlk). pose proof Hq as [Hok _ Hs _ _].
  destruct (Hs i it) as (_ & _ & Hx); [by eapply holds_slot | done |].
  destruct (holds_item _ _ _ _ (proj1 Hok) Hh) as (it' & Hi' & Hb).
  assert (it' = it) as -> by congruence. rewrite Hb in Hx.
  exists i. split; [done |]. split; try done.
  - exists it. by split_and!.
  - intros b j. split.
    + intros Hj. destruct (decide (j = i)) as [-> | Hne]; [left | by right].
      split; [by apply (holds_inj _ _ _ _ _ _ (proj1 Hok) Hj Hh) | done].
    + by intros [[-> ->] | [? _]].
  - by left.
  - left. by eapply holds_slot.
  - intros b Hne Hj. destruct Hne.
    by apply (holds_inj _ _ _ _ _ _ (proj1 Hok) Hj Hh).
Qed.

(** A block is written, marked dirty and released, or declared in memory when it was
    not read before. *)
Definition finish_write (i index : Z) (c : cache) : res cache :=
  let! c := cache_setItemDirty i true index c in
  let! it := get_item (c_heap c) i in
  if negb (inMem it) then
    let! (b, c) := cache_blockFetched i c in
    let! _ := check b in
    Ok c
  else cache_releaseBlock i c.

Lemma held_write c c1 bno i m d bs mem :
  quiet own bsz c -> held own c c1 bno i m d ->
  mem !! i = Some bs -> (forall j, j <> i -> mem !! j = c_mem c1 !! j) ->
  Z.of_nat (length bs) = bsz ->
  exists c2, finish_write i (own bno) (mk_cache (c_heap c1) (c_buf c1) mem) = Ok c2 /\
    quiet own bsz c2 /\ moved c c2 bno (Present true bs) /\
    (holds (c_buf c) bno i -> kept c c2 bno (Present true bs)).
Proof.
  intros Hq Hh Hbs Hmo Hlen.
  destruct (hd_item _ _ _ _ _ _ _ Hh) as (it & Hi & Hm & Hd & Hl & Hx & Hb).
  assert (Hsl : i ∈ slots (c_buf c1)) by (eapply (holds_slot _ bno), Hh; by left).
  destruct (setItemDirty_ok _ _ i it true (hd_buf _ _ _ _ _ _ _ Hh) Hsl Hi)
    as (b' & E & Hok & El & Ef).
  set (it2 := setStatus BLOCK_BUF_VALID (setInMem true (with_dirty true it))).
  set (c2 := mk_cache (<[i := it2]> (c_heap c1)) b' mem).
  assert (Hclose : quiet own bsz c2 /\ moved c c2 bno (Present true bs) /\
    (holds (c_buf c) bno i -> kept c c2 bno (Present true bs))).
  { apply (held_close c c1 c2 bno i m d it2 bs); try done.
    - unfold c2. cbn. rewrite <- (insert_insert_eq (c_heap c1) i it2 (with_dirty true it)).
      by eapply buf_ok_flags; [exact Hok | apply lookup_insert_eq |..].
    - intros b j. unfold c2, holds. cbn. by rewrite El.
    - unfold c2. cbn. apply lookup_insert_eq.
    - intros j Hj. unfold c2. cbn. by rewrite lookup_insert_ne. }
  exists c2. split; [| exact Hclose].
  unfold finish_write, cache_setItemDirty. cbn [c_heap c_buf c_mem]. rewrite <- Hx, E.
  cbn [res_bind c_heap]. rewrite (get_item_lookup _ i (with_dirty true it)) by apply lookup_insert_eq.
  cbn [res_bind]. unfold c2, it2. change (inMem (with_dirty true it)) with (inMem it).
  unfold cache_blockFetched, cache_releaseBlock, releaseBlock. cbn [c_heap c_buf c_mem].
  rewrite (get_item_lookup _ i (with_dirty true it)) by apply lookup_insert_eq.
  cbn [res_bind]. unfold blockFetchedCallback. change (status (with_dirty true it)) with (status it).
  rewrite !decide_True by done. cbn [res_bind fst snd]. rewrite !insert_insert_eq.
  destruct (inMem it) eqn:Em; cbn; [| done]. do 3 f_equal.
  unfold setStatus, setInMem, with_dirty. cbn. by rewrite Em.
Qed.

(** A block that was in memory is marked dirty and released. *)
Lemma finish_in_mem c c1 bno i d mem :
  quiet own bsz c -> held own c c1 bno i true d ->
  finish_write i (own bno) (mk_cache (c_heap c1) (c_buf c1) mem) =
    (let! c := cache_setItemDirty i true (own bno) (mk_cache (c_heap c1) (c_buf c1) mem) in
     cache_releaseBlock i c).
Proof.
  intros Hq Hh. destruct (hd_item _ _ _ _ _ _ _ Hh) as (it & Hi & Hm & Hd & Hl & Hx & Hb).
  assert (Hsl : i ∈ slots (c_buf c1)) by (eapply (holds_slot _ bno), Hh; by left).
  destruct (setItemDirty_ok _ _ i it true (hd_buf _ _ _ _ _ _ _ Hh) Hsl Hi) as (b' & E & _).
  unfold finish_write, cache_setItemDirty. cbn [c_heap c_buf c_mem]. rewrite <- Hx, E.
  cbn [res_bind c_heap]. rewrite (get_item_lookup _ i (with_dirty true it)) by apply lookup_insert_eq.
  cbn [res_bind]. change (inMem (with_dirty true it)) with (inMem it). by rewrite Hm.
Qed.

(** The device has stored [bs] in the slot of a block that was being read. *)
Lemma read_completes c bno bs :
  quiet own bsz c -> look c bno = Reading -> Z.of_nat (length bs) = bsz ->
  exists i c2, slot_of (c_buf c) bno = Some i /\
    cache_blockFetched i (set_mem i bs c) = Ok (true, c2) /\
    quiet own bsz c2 /\ kept c c2 bno (Present false bs).
Proof.
  intros Hq Hl Hlen. destruct (reading_held c bno Hq Hl) as (i & Hh & Hd).
  destruct (held_fetch c c bno i false bs (<[i := bs]> (c_mem c)) Hq Hd) as (c2 & E & Hq2 & _ & Hk);
    [apply lookup_insert_eq | intros j Hj; by rewrite lookup_insert_ne | done |].
  exists i, c2. split; [| auto]. apply (slot_of_holds (c_heap c)); [apply Hq | done].
Qed.

(** A request asks for a block and the device delivers it. *)
Definition fetch (bno : Z) (bs : list Z) (r : FsReq) (c : cache) : res cache :=
  let! (i, _, c, _) := fs_getBlock false bno true (own bno) c r in
  let! (ok, c) := cache_blockFetched i (set_mem i bs c) in
  let! _ := check ok in
  Ok c.

Lemma fetch_absent bno bs r c c' :
  quiet own bsz c -> look c bno = Absent -> Z.of_nat (length bs) = bsz ->
  fetch bno bs r c = Ok c' -> quiet own bsz c' /\ moved c c' bno (Present false bs).
Proof.
  intros Hq Hl Hlen. unfold fetch.
  destruct (fs_get_absent c bno Hq Hl) as [[_ E] | (i & c1 & Hh & E)]; rewrite E; [done |].
  cbn [res_bind]. destruct (held_fetch c c1 bno i false bs (<[i := bs]> (c_mem c1)) Hq Hh)
    as (c2 & E2 & Hq2 & Hm & _);
    [apply lookup_insert_eq | intros j Hj; by rewrite lookup_insert_ne | done |].
  unfold set_mem. rewrite E2. cbn [res_bind check]. by intros [= <-].
Qed.

End Quiet.

(** ** Room for blocks *)

(** A block that cannot be replaced. *)
Definition busy (c : cache) (b : Z) : Prop :=
  look c b = Reading \/ exists bs, look c b = Present true bs.

Definition same_pool (c c' : cache) : Prop :=
  forall i, i ∈ slots (c_buf c') \/ i ∈ freeItems (c_buf c') <-> i ∈ slots (c_buf c) \/ i ∈ freeItems (c_buf c).

(** The slots of [c'] are those of [c], and what is busy in [c'] was busy before or is one
    of the blocks [fresh]. *)
Definition later (fresh : Z -> Prop) (c c' : cache) : Prop :=
  same_pool c c' /\ forall b, busy c' b -> busy c b \/ fresh b.

(** Some use of the blocks [fresh] leaves a cache of the same slots in which every slot has
    a busy block. *)
Definition no_room (own : Z -> Z) (bsz : Z) (fresh : Z -> Prop) (c : cache) : Prop :=
  exists c', quiet own bsz c' /\ later fresh c c' /\ full c'.

Lemma later_refl fresh c : later fresh c c.
Proof. split; [done |]. auto. Qed.

Lemma later_trans fresh c1 c2 c3 : later fresh c1 c2 -> later fresh c2 c3 -> later fresh c1 c3.
Proof.
  intros [P1 B1] [P2 B2]. split; [intros i; by rewrite (P2 i) |]. intros b Hb.
  destruct (B2 b Hb) as [H |]; [by apply B1 | by right].
Qed.

Lemma later_weaken (P Q : Z -> Prop) c c' : (forall b, P b -> Q b) -> later P c c' -> later Q c c'.
Proof. intros H [Hp Hb]. split; [done |]. intros b [? | ?]%Hb; auto. Qed.

Lemma no_room_now own bsz fresh c : quiet own bsz c -> full c -> no_room own bsz fresh c.
Proof. intros Hq Hf. exists c. split; [done |]. split; [apply later_refl | done]. Qed.

Lemma no_room_later own bsz fresh c c' :
  later fresh c c' -> no_room own bsz fresh c' -> no_room own bsz fresh c.
Proof. intros Hl (c2 & Hq & Hl2 & Hf). exists c2. split; [done |]. split; [by eapply later_trans | done]. Qed.

Lemma no_room_weaken own bsz (P Q : Z -> Prop) c :
  (forall b, P b -> Q b) -> no_room own bsz P c -> no_room own bsz Q c.
Proof. intros H (c2 & Hq & Hl & Hf). exists c2. split; [done |]. split; [by eapply later_weaken | done]. Qed.

Lemma later_moved (fresh : Z -> Prop) c c' bno e :
  same_pool c c' -> moved c c' bno e -> (busy c' bno -> busy c bno \/ fresh bno) -> later fresh c c'.
Proof.
  intros Hp [Hb Ho] Hf. split; [done |]. intros b. destruct (decide (b = bno)) as [-> | Hne]; [done |].
  unfold busy. destruct (Ho b Hne) as [-> | [-> _]]; [by left |]. by intros [? | [? ?]].
Qed.

Lemma later_same fresh c c' : same_pool c c' -> (forall b, look c' b = look c b) -> later fresh c c'.
Proof. intros Hp Hl. split; [done |]. intros b. unfold busy. rewrite Hl. auto. Qed.

Lemma same_pool_buf c c' :
  slots (c_buf c') = slots (c_buf c) -> freeItems (c_buf c') = freeItems (c_buf c) -> same_pool c c'.
Proof. intros E1 E2 i. by rewrite E1, E2. Qed.

Lemma same_pool_trans c1 c2 c3 : same_pool c1 c2 -> same_pool c2 c3 -> same_pool c1 c3.
Proof. intros H1 H2 i. by rewrite (H2 i). Qed.

Lemma release_pool i c c' : cache_releaseBlock i c = Ok c' -> same_pool c c'.
Proof.
  unfold cache_releaseBlock. intros ([v h] & _ & [= <-])%res_bind_ok. by apply same_pool_buf.
Qed.

Lemma dirty_pool i d index c c' : cache_setItemDirty i d index c = Ok c' -> same_pool c c'.
Proof.
  unfold cache_setItemDirty, setItemDirty. intros ([[o h] b] & E & [= <-])%res_bind_ok.
  apply res_bind_ok in E as (it & _ & E). unfold adjustDirtyItemNum in E.
  destruct (setDirty d it) as [orig it']. destruct (Bool.eqb orig d), orig;
    repeat (apply res_bind_ok in E as (? & ?Ea & E); case_if_in Ea; [done |]; injection Ea as <-);
    injection E as <- <- <-; by apply same_pool_buf.
Qed.

Lemma fetched_pool i b c c' : cache_blockFetched i c = Ok (b, c') -> same_pool c c'.
Proof.
  unfold cache_blockFetched. intros (it & _ & E)%res_bind_ok. destruct (blockFetchedCallback it).
  injection E as <- <-. by apply same_pool_buf.
Qed.

Lemma finish_write_pool i index c c' : finish_write i index c = Ok c' -> same_pool c c'.
Proof.
  unfold finish_write. intros (c1 & E1%dirty_pool & E)%res_bind_ok. apply res_bind_ok in E as (it & _ & E).
  destruct (negb (inMem it)).
  - apply res_bind_ok in E as ([b c2] & E2%fetched_pool & E). apply res_bind_ok in E as (? & _ & [= <-]).
    by eapply same_pool_trans.
  - apply release_pool in E. by eapply same_pool_trans.
Qed.

Lemma held_pool own c c1 bno i m d bsz : quiet own bsz c -> held own c c1 bno i m d -> same_pool c c1.
Proof.
  intros [[Hc _] _ _ _ _] Hh.
  assert (Hsl : forall b h j, cache_ok h b -> j ∈ slots b <-> exists bn, holds b bn j).
  { intros b h j Hb. split; [| intros [bn ?]; by eapply holds_slot].
    intros (nd & Hnd & <-)%slot_node. exists (n_bno nd), (n_id nd). by destruct nd. }
  intros j. rewrite (Hsl _ _ _ (proj1 (hd_buf _ _ _ _ _ _ _ Hh))), (Hsl _ _ _ Hc).
  assert (Hi : j = i -> (exists bn, holds (c_buf c1) bn j) /\ ((exists bn, holds (c_buf c) bn j) \/ j ∈ freeItems (c_buf c))).
  { intros ->. split; [exists bno; apply Hh; by left |]. rewrite <- (Hsl _ _ _ Hc). apply Hh. }
  destruct (decide (j = i)) as [-> | Hne]; [naive_solver |].
  assert (Hf : j ∈ freeItems (c_buf c1) <-> j ∈ freeItems (c_buf c)).
  { destruct (hd_free _ _ _ _ _ _ _ Hh) as [-> | ->]; [done |]. rewrite elem_of_cons. naive_solver. }
  rewrite Hf. assert (Hhs : forall bn, holds (c_buf c1) bn j <-> holds (c_buf c) bn j); [| by setoid_rewrite Hhs].
  intros bn. rewrite (hd_holds _ _ _ _ _ _ _ Hh). naive_solver.
Qed.

(** [getBlock] takes a slot of the pool. *)
Lemma fs_getBlock_pool own bsz isSector bno ds c r i b c1 r1 :
  quiet own bsz c -> fs_getBlock isSector bno ds (own bno) c r = Ok (i, b, c1, r1) -> same_pool c c1.
Proof.
  intros Hq E. unfold fs_getBlock in E. apply res_bind_ok in E as ([[i' g] c'] & E & E').
  assert (Hp : same_pool c c').
  { destruct (loop_quiet own bsz c bno Hq) as [(j & c2 & E2 & H) | [(_ & j & c2 & it & E2 & _ & _ & _ & El & Ef & _) | (_ & _ & E2)]];
      rewrite E2 in E; [| | done]; injection E as <- <- <-.
    - destruct (look c bno); [by eapply held_pool | done | by eapply held_pool, H].
    - apply same_pool_buf; [by unfold slots; rewrite El | done]. }
  apply res_bind_ok in E' as (it & _ & E'). apply res_bind_ok in E' as (? & _ & E').
  by destruct g, (inMem it), ds; injection E' as <- <- <- <-.
Qed.

(** A new buffer of [num] slots with the memory of its slots. *)
Definition new_cache (num bsz : Z) : cache :=
  let '(b, h) := new_BlockBuffer num bsz 0 0 false ∅ in
  mk_cache h b (list_to_map ((fun i => (i, replicate (Z.to_nat bsz) 0)) <$> freeItems b)).

Lemma new_cache_quiet own num bsz :
  0 < num -> 0 <= bsz -> quiet own bsz (new_cache num bsz) /\
  forall b, look (new_cache num bsz) b = Absent.
Proof.
  intros Hn Hb. unfold new_cache. destruct (new_BlockBuffer _ _ _ _ _ _) as [b h] eqn:E.
  pose proof (new_buffer_ok _ _ _ _ _ _ _ _ E) as Hok.
  unfold new_BlockBuffer in E. destruct (initMem _ _ _ _ _ _) as [free h'] eqn:Ei.
  injection E as <- <-. apply initMem_spec in Ei as (Hf & Hin & _). split; [| done].
  split; cbn [c_heap c_buf c_mem freeItems]; [done | | | |].
  - exists 0. right. cbn. rewrite Hf. apply list_elem_of_fmap. exists 0%nat. split; [lia |].
    apply elem_of_seq. lia.
  - intros i it Hi. by apply elem_of_nil in Hi.
  - intros i it Hi Hit. destruct (Hin i Hi) as (it' & Hit' & _ & Hx). congruence.
  - intros i [Hi | Hi]; [by apply elem_of_nil in Hi |]. cbn in Hi.
    exists (replicate (Z.to_nat bsz) 0). split; [| rewrite length_replicate; lia].
    apply elem_of_list_to_map_1.
    + rewrite <- list_fmap_compose. cbn. rewrite list_fmap_id, Hf.
      apply NoDup_fmap_2; [intros x y; lia | apply NoDup_seq].
    + apply list_elem_of_fmap. eauto.
Qed.

End FsCache.
