(* ===== verification/Alloc.v ===== *)
(** * Allocation of inodes and data blocks

    [GetFreeInum], [returnInode], [allocateDataBlocks] and
    [releaseInodeDataBlocks] of [cfs/src/FsProc_FsImpl.cc], in the build of the
    server ([NONE_MT_LOCK], which leaves the spin locks out).  The inode bitmap is
    always in memory; the data bitmaps of a worker are read through its bitmap
    buffer, so an allocation may stop because a block has to be read first. *)

From Stdlib Require Import ZArith Lia Bool.
From stdpp Require Import base list option gmap.
From S2P Require Import Prelude Bitmap Unordered Layout Codec InodeLog BlockBuf FsCache.

Module Alloc.
Import Layout Bitmap FsCache.

(** ** State *)

Record FsImpl : Type := mk_fs {
  idx_ : Z;
  iMapBlockPtr : list (list Z);
  nextImapNo : Z;
  nextImapBlockFreeBitNo : Z;
  bmapBlockBuf : cache;
  immutableBlockBitmaps : gset Z;
  nextDataBlockAllocWithinUnitBlockIdx : gmap Z Z;
  nextDataBlockAllocCurBlkBitNo : gmap Z Z;
  dirtyInodeSet : gset Z;
  inodeMap : gset Z
}.

(** An inode in memory: its data and its log entry. *)
Record InMemInode : Type := mk_inode {
  inodeData : cfs_dinode;
  logEntry : InodeLog.InodeLogEntry
}.

Definition set_imap (m : list (list Z)) (no bit : Z) (s : FsImpl) : FsImpl :=
  mk_fs (idx_ s) m no bit (bmapBlockBuf s) (immutableBlockBitmaps s)
    (nextDataBlockAllocWithinUnitBlockIdx s) (nextDataBlockAllocCurBlkBitNo s)
    (dirtyInodeSet s) (inodeMap s).
Definition set_bmap (c : cache) (s : FsImpl) : FsImpl :=
  mk_fs (idx_ s) (iMapBlockPtr s) (nextImapNo s) (nextImapBlockFreeBitNo s) c
    (immutableBlockBitmaps s) (nextDataBlockAllocWithinUnitBlockIdx s)
    (nextDataBlockAllocCurBlkBitNo s) (dirtyInodeSet s) (inodeMap s).
Definition set_next (u b : gmap Z Z) (s : FsImpl) : FsImpl :=
  mk_fs (idx_ s) (iMapBlockPtr s) (nextImapNo s) (nextImapBlockFreeBitNo s)
    (bmapBlockBuf s) (immutableBlockBitmaps s) u b (dirtyInodeSet s) (inodeMap s).
Definition set_inodes (d m : gset Z) (s : FsImpl) : FsImpl :=
  mk_fs (idx_ s) (iMapBlockPtr s) (nextImapNo s) (nextImapBlockFreeBitNo s)
    (bmapBlockBuf s) (immutableBlockBitmaps s) (nextDataBlockAllocWithinUnitBlockIdx s)
    (nextDataBlockAllocCurBlkBitNo s) d m.

(** [nextDataBlockAllocWithinUnitBlockIdx[u]] and its companion. *)
Definition next_blk (u : Z) (s : FsImpl) : Z :=
  default 0 (nextDataBlockAllocWithinUnitBlockIdx s !! u).
Definition next_bit (u : Z) (s : FsImpl) : Z :=
  default 0 (nextDataBlockAllocCurBlkBitNo s !! u).
Definition set_next_blk (u i : Z) (s : FsImpl) : FsImpl :=
  set_next (<[u := i]> (nextDataBlockAllocWithinUnitBlockIdx s))
    (nextDataBlockAllocCurBlkBitNo s) s.
Definition set_next_bit (u i : Z) (s : FsImpl) : FsImpl :=
  set_next (nextDataBlockAllocWithinUnitBlockIdx s)
    (<[u := i]> (nextDataBlockAllocCurBlkBitNo s)) s.

(** ** Inode numbers *)

(** [n] iterations of the loop over the blocks of the inode bitmap, the last found
    bit first. *)
Fixpoint imap_loop (n : nat) (i inBlkino : Z) (s : FsImpl) : res (Z * FsImpl) :=
  match n with
  | O => Ok (inBlkino, s)
  | S n' =>
      let imapBlkIdx := i mod IMAPBLOCK_NUM in
      let! blk := load (iMapBlockPtr s) imapBlkIdx in
      let! inBlkino := find_block_free_bit_no_start_from blk (nextImapBlockFreeBitNo s) BPB in
      if inBlkino >=? 0
      then Ok (inBlkino, set_imap (iMapBlockPtr s) imapBlkIdx inBlkino s)
      else imap_loop n' (i + 1) inBlkino (set_imap (iMapBlockPtr s) imapBlkIdx (-1) s)
  end.

(** 0 when no inode is free. *)
Definition GetFreeInum (s : FsImpl) : res (Z * FsImpl) :=
  let! (inBlkino, s) := imap_loop (Z.to_nat (IMAPBLOCK_NUM + 1)) (nextImapNo s) (-1) s in
  if inBlkino <? 0 then Ok (0, s)
  else
    let imapBlkIdx := nextImapNo s in
    let ino := BPB * imapBlkIdx + inBlkino in
    let! _ := check (negb (ino =? 0) && negb (ino =? 1)) in
    let! blk := load (iMapBlockPtr s) imapBlkIdx in
    let! (_, blk) := block_set_bit inBlkino blk in
    let! m := store (iMapBlockPtr s) imapBlkIdx blk in
    Ok (ino, set_imap m (nextImapNo s) (nextImapBlockFreeBitNo s) s).

Definition returnInode (inode : InMemInode) (s : FsImpl) : res (Z * InMemInode * FsImpl) :=
  let ino := i_no (inodeData inode) in
  let imapBlkIdx := ino / BPB in
  let inBlkino := ino mod BPB in
  let! blk := load (iMapBlockPtr s) imapBlkIdx in
  let! t := block_test_bit inBlkino blk in
  let! _ := check (negb (t =? 0)) in
  let! (_, blk) := block_clear_bit inBlkino blk in
  let! m := store (iMapBlockPtr s) imapBlkIdx blk in
  let s := set_imap m (nextImapNo s) (nextImapBlockFreeBitNo s) s in
  let inode := mk_inode (inodeData inode)
                 (InodeLog.set_field (InodeLog.SetBitmapOp 0) (logEntry inode)) in
  Ok (0, inode, set_inodes (dirtyInodeSet s ∖ {[ino]}) (inodeMap s ∖ {[ino]}) s).

(** ** Data blocks *)

Section Blocks.
Context {cfg : ExtentConfig}.

(** What the search for an extent ends with. *)
Inductive search : Type :=
| Found (block_no : Z)
| Pending
| Exhausted.

(** [getBlock] on the bitmap buffer, and whether the block is in memory. *)
Definition get_bmap (bno : Z) (s : FsImpl) (r : FsReq) : res (Z * bool * FsImpl * FsReq) :=
  let! (i, _, c, r) := fs_getBlock false bno true 0 (bmapBlockBuf s) r in
  let! it := BlockBuf.get_item (c_heap c) i in
  Ok (i, BlockBuf.inMem it, set_bmap c s, r).

Definition bmap_mem (i : Z) (s : FsImpl) : res (list Z) := mem_of (bmapBlockBuf s) i.
Definition put_bmap_mem (i : Z) (bs : list Z) (s : FsImpl) : FsImpl :=
  set_bmap (set_mem i bs (bmapBlockBuf s)) s.
Definition release_bmap (i : Z) (s : FsImpl) : res FsImpl :=
  let! c := cache_releaseBlock i (bmapBlockBuf s) in
  Ok (set_bmap c s).

Definition isBlockBitmapImmutable (bno : Z) (s : FsImpl) : bool :=
  bool_decide (bno ∈ immutableBlockBitmaps s).

(** The number of a data block from its bitmap block and its bit. *)
Definition data_block_no (disk i bit : Z) : Z :=
  to_u64 ((to_u64 (disk - get_bmap_start_block_for_worker 0 + i)) * BPB + bit).

(** The search of a bitmap block for a single block, with the retry from the start
    when the region is one bitmap block. *)
Definition unit1_find (bs : list Z) (maxBmap : Z) (s : FsImpl) : res (Z * FsImpl) :=
  let! bit := find_block_free_bit_no_start_from bs (next_bit 1 s) BPB in
  if bit >=? 0 then Ok (bit, s)
  else
    let s := set_next_bit 1 (-1) s in
    if maxBmap =? 1 then
      let! bit := find_block_free_bit_no_start_from bs (next_bit 1 s) BPB in
      if bit >=? 0 then Ok (bit, s) else Ok (-1, set_next_bit 1 (-1) s)
    else Ok (-1, s).

Definition jump_find (unit : Z) (bs : list Z) (s : FsImpl) : res (Z * FsImpl) :=
  let! bit := find_block_free_jump_bits_no_start_from bs 0 BPB unit in
  Ok (bit, s).

(** The search of a region for a unit smaller than a bitmap block, in the rotated
    order [for (k = start; k < start + curMaxBmapBlocks; ++k)], of which [n]
    iterations are left.  [find] searches a bitmap block, and [mark] records the bit
    that was found. *)
Fixpoint bmap_loop (find : list Z -> FsImpl -> res (Z * FsImpl))
    (mark : Z -> FsImpl -> FsImpl) (unit : Z) (n : nat) (k disk maxBmap : Z)
    (s : FsImpl) (r : FsReq) : res (search * FsImpl * FsReq) :=
  match n with
  | O => Ok (Exhausted, s, r)
  | S n' =>
      let i := k mod maxBmap in
      let s := set_next_blk unit i s in
      let bno := to_u32 (disk + i) in
      if isBlockBitmapImmutable bno s
      then bmap_loop find mark unit n' (k + 1) disk maxBmap s r
      else
        let! (it, inmem, s, r) := get_bmap bno s r in
        if negb inmem then Ok (Pending, s, r)
        else
          let! bs := bmap_mem it s in
          let! (bit, s) := find bs s in
          if bit >=? 0 then
            let! (_, bs) := block_set_bit bit bs in
            let s := mark bit (put_bmap_mem it bs s) in
            let! s := release_bmap it s in
            Ok (Found (data_block_no disk i bit), s, r)
          else
            let! s := release_bmap it s in
            bmap_loop find mark unit n' (k + 1) disk maxBmap s r
  end.

Definition unit1_loop (disk maxBmap : Z) (s : FsImpl) (r : FsReq)
    : res (search * FsImpl * FsReq) :=
  bmap_loop (fun bs s => unit1_find bs maxBmap s) (set_next_bit 1) 1
    (Z.to_nat maxBmap) (next_blk 1 s) disk maxBmap s r.

Definition jump_loop (disk maxBmap unit : Z) (s : FsImpl) (r : FsReq)
    : res (search * FsImpl * FsReq) :=
  bmap_loop (jump_find unit) (fun _ s => s) unit
    (Z.to_nat maxBmap) (next_blk unit s) disk maxBmap s r.

(** Whether the first [int] of the block is 0. *)
Definition first_int_zero (bs : list Z) : res bool :=
  let! a := load bs 0 in
  let! b := load bs 1 in
  let! c := load bs 2 in
  let! d := load bs 3 in
  Ok ((a =? 0) && (b =? 0) && (c =? 0) && (d =? 0)).

(** The search for a unit of whole bitmap blocks: [step] bitmap blocks at a time; [n]
    bounds the iterations. *)
Fixpoint whole_loop (n : nat) (i disk maxBmap step : Z) (s : FsImpl) (r : FsReq)
    : res (search * FsImpl * FsReq) :=
  if i <? maxBmap then
    match n with
    | O => Crash NoFuel
    | S n' =>
        let bno := to_u32 (disk + i) in
        if isBlockBitmapImmutable bno s
        then whole_loop n' (to_u32 (i + step)) disk maxBmap step s r
        else
          let! (it, inmem, s, r) := get_bmap bno s r in
          if negb inmem then Ok (Pending, s, r)
          else
            let! bs := bmap_mem it s in
            let! free := first_int_zero bs in
            if free then
              let! bs := write_at bs 0 (replicate (Z.to_nat BSIZE) 1) in
              let! s := release_bmap it (put_bmap_mem it bs s) in
              Ok (Found (data_block_no disk i 0), s, r)
            else
              let! s := release_bmap it s in
              whole_loop n' (to_u32 (i + step)) disk maxBmap step s r
    end
  else Ok (Exhausted, s, r).

(** Start-up: the searches begin before the first bit. *)
Definition initDataBlockAllocNextFreeBlockIdx (s : FsImpl) : FsImpl :=
  foldl (fun s i => let u := extentArrIdx2BlockAllocUnit i in set_next_bit u (-1) (set_next_blk u 0 s))
    s (seqZ 0 NEXTENT_ARR).

(** The three searches of [allocateDataBlocks] for the first block of an extent. *)
Definition find_extent (extIdx : Z) (s : FsImpl) (r : FsReq)
    : res (search * FsImpl * FsReq) :=
  let! (start, maxBmap) :=
    getDataBMapStartBlockNoForExtentArrIdx extIdx (get_dev_bmap_num_blocks_for_worker (idx_ s)) in
  let disk := to_u32 (get_bmap_start_block_for_worker (idx_ s) + start) in
  let unit := extentArrIdx2BlockAllocUnit extIdx in
  if unit =? 1 then
    unit1_loop disk maxBmap s r
  else if unit <? BPB then
    jump_loop disk maxBmap unit s r
  else
    whole_loop (Z.to_nat maxBmap) 0 disk maxBmap (unit / BPB) s r.

Definition get_extent (i : Z) (inode : InMemInode) : res cfs_extent :=
  load (ext_array (inodeData inode)) i.

(** Stores the extent and logs it. *)
Definition store_extent (i : Z) (x : cfs_extent) (bmap_modified : bool) (inode : InMemInode)
    : res InMemInode :=
  let! a := store (ext_array (inodeData inode)) i x in
  Ok (mk_inode (InodeLog.with_ext_array a (inodeData inode))
        (InodeLog.update_extent x true bmap_modified (logEntry inode))).

(** [i_block_count] in the inode and in the log. *)
Definition set_block_count (n : Z) (inode : InMemInode) : InMemInode :=
  mk_inode (InodeLog.direct_set (InodeLog.SetBlockCount n) (inodeData inode))
    (InodeLog.set_field (InodeLog.SetBlockCount n) (logEntry inode)).

(** The loop of [allocateDataBlocks]; the result is the value returned. *)
Fixpoint alloc_loop (fuel : nat) (n numBlocks curIblockCount : Z) (inode : InMemInode)
    (s : FsImpl) (r : FsReq) : res (Z * InMemInode * FsImpl * FsReq) :=
  if n <? numBlocks then
    match fuel with
    | O => Crash NoFuel
    | S fuel' =>
        let '(extIdx, _, extentMaxBlockNum) := getCurrentExtentArrIdx curIblockCount in
        if extIdx <? 0 then Ok (-1, inode, s, r) else
        let! x := get_extent extIdx inode in
        if num_blocks x =? 0 then
          let! (found, s, r) := find_extent extIdx s r in
          match found with
          | Found no =>
              let! inode := store_extent extIdx (mk_extent curIblockCount 1 no) true inode in
              alloc_loop fuel' (n + 1) numBlocks (to_u32 (curIblockCount + 1)) inode s r
          | Pending => Ok (0, set_block_count curIblockCount inode, s, r)
          | Exhausted => Ok (-1, inode, s, r)
          end
        else
          let num := Z.min (to_u32 (numBlocks - n)) (to_u32 (extentMaxBlockNum - num_blocks x)) in
          let! inode := store_extent extIdx
            (mk_extent (i_block_offset x) (to_u32 (num_blocks x + num)) (block_no x)) false inode in
          alloc_loop fuel' (to_u32 (n + num)) numBlocks (to_u32 (curIblockCount + num)) inode s r
    end
  else
    let allocated := to_u32 (curIblockCount - i_block_count (inodeData inode)) in
    Ok (allocated, set_block_count curIblockCount inode, s, r).

(** Two iterations per extent and one more, see [alloc_loop_ends]. *)
Definition alloc_fuel : nat := 15.

Definition allocateDataBlocks (fuel : nat) (numBlocks : Z) (inode : InMemInode)
    (s : FsImpl) (r : FsReq) : res (Z * InMemInode * FsImpl * FsReq) :=
  alloc_loop fuel 0 numBlocks (i_block_count (inodeData inode)) inode s r.

(** [for (j = 0; j < curAllocationUnit; j++) block_clear_bit(bmapBitOff + j, ...)] *)
Fixpoint clear_bits (n : nat) (bit : Z) (bs : list Z) : res (list Z) :=
  match n with
  | O => Ok bs
  | S n' =>
      let! (_, bs) := block_clear_bit bit bs in
      clear_bits n' (bit + 1) bs
  end.

(** What is done to the bitmap block of a released extent. *)
Definition free_unit (unit bit : Z) (bs : list Z) : res (list Z) :=
  if unit =? 1 then
    let! t := block_test_bit bit bs in
    let! _ := check (negb (t =? 0)) in
    let! (_, bs) := block_clear_bit bit bs in
    Ok bs
  else if unit <? BPB then clear_bits (Z.to_nat unit) bit bs
  else write_at bs 0 (replicate (Z.to_nat BSIZE) 0).

Fixpoint release_loop (n : nat) (i : Z) (inode : InMemInode) (s : FsImpl) (r : FsReq)
    : res (FsImpl * FsReq) :=
  match n with
  | O => Ok (s, r)
  | S n' =>
      let! x := get_extent i inode in
      if block_no x >? 0 then
        let! (it, inmem, s, r) :=
          get_bmap (to_u32 (block_no x / BPB + get_bmap_start_block_for_worker 0)) s r in
        if inmem then
          let! bs := bmap_mem it s in
          let! bs := free_unit (extentArrIdx2BlockAllocUnit i) (block_no x mod BPB) bs in
          let! s := release_bmap it (put_bmap_mem it bs s) in
          release_loop n' (i + 1) inode s r
        else Ok (s, r)
      else Ok (s, r)
  end.

(** Returns 0 whether or not it is done. *)
Definition releaseInodeDataBlocks (inode : InMemInode) (s : FsImpl) (r : FsReq)
    : res (Z * FsImpl * FsReq) :=
  let! (s, r) := release_loop (Z.to_nat NEXTENT_ARR) 0 inode s r in
  Ok (0, s, r).

End Blocks.

(** ** Invariants *)

(** The inode bitmap in memory and its cursor. *)
Definition imap_ok (s : FsImpl) : Prop :=
  Z.of_nat (length (iMapBlockPtr s)) = IMAPBLOCK_NUM /\
  (forall blk, blk ∈ iMapBlockPtr s -> bytes_ok blk /\ Z.of_nat (length blk) = BSIZE) /\
  0 <= nextImapNo s < IMAPBLOCK_NUM /\ -1 <= nextImapBlockFreeBitNo s < BPB.

Definition inode_used (m : list (list Z)) (ino : Z) : bool :=
  match m !! Z.to_nat (ino / BPB) with
  | Some blk => get_bit blk (ino mod BPB)
  | None => true
  end.

(** The bitmaps of a worker: blocks of bytes in a quiet buffer without inodes. *)
Definition bmap_ok (c : cache) : Prop :=
  quiet (fun _ => 0) BSIZE c /\
  forall b d bs, look c b = Present d bs -> bytes_ok bs.

(** States that differ in the bitmap buffer and in the search cursors only. *)
Definition frame (s s' : FsImpl) : Prop :=
  exists c u b, s' = set_next u b (set_bmap c s).

(** The request [r] waits for block [bno] as well. *)
Definition pending_on (bno : Z) (r r' : FsReq) : Prop :=
  is_Some (ioUnitPendingMap (blockIo r') !! bno) /\ blockIoDoneMap r' = blockIoDoneMap r /\
  append_start_off r' = append_start_off r.

(** The cursor of the search for single blocks. *)
Definition cursor_ok (s : FsImpl) : Prop := -1 <= next_bit 1 s < BPB.

(** Bit [bit] of bitmap block [bno] was free and is set; nothing else changed. *)
Definition took (c c' : cache) (bno bit : Z) : Prop :=
  exists d bs bs', look c bno = Present d bs /\ get_bit bs bit = false /\
    bit_written bs bs' bit true /\ kept c c' bno (Present d bs').

Definition same_blocks (c c' : cache) : Prop := forall b, look c' b = look c b.

(** No further block is busy. *)
Notation calm := (later (fun _ => False)).

(** What a search leaves; [found] says what was found at which bitmap block, and
    [gone] why nothing was. *)
Definition search_left (found : Z -> Z -> cache -> Prop) (gone : Prop) (disk maxBmap : Z)
    (s : FsImpl) (r : FsReq) (out : res (search * FsImpl * FsReq)) : Prop :=
  match out with
  | Ok (o, s', r') => frame s s' /\ cursor_ok s' /\ bmap_ok (bmapBlockBuf s') /\
      match o with
      | Found no => r' = r /\ calm (bmapBlockBuf s) (bmapBlockBuf s') /\ exists i, 0 <= i < maxBmap /\
          to_u32 (disk + i) ∉ immutableBlockBitmaps s /\ found no i (bmapBlockBuf s')
      | Pending => exists i, 0 <= i < maxBmap /\
          moved (bmapBlockBuf s) (bmapBlockBuf s') (to_u32 (disk + i)) Reading /\
          pending_on (to_u32 (disk + i)) r r'
      | Exhausted => r' = r /\ same_blocks (bmapBlockBuf s) (bmapBlockBuf s') /\ gone
      end
  | Crash f => f = AssertFail /\ no_room (fun _ => 0) BSIZE (fun _ => False) (bmapBlockBuf s)
  end.

(** ** One bitmap block *)

Lemma fs_frame_refl s : frame s s.
Proof.
  exists (bmapBlockBuf s), (nextDataBlockAllocWithinUnitBlockIdx s),
    (nextDataBlockAllocCurBlkBitNo s). by destruct s.
Qed.

Lemma fs_frame_trans s1 s2 s3 : frame s1 s2 -> frame s2 s3 -> frame s1 s3.
Proof. intros (c & u & b & ->) (c' & u' & b' & ->). by exists c', u', b'. Qed.

Lemma fs_frame_bmap s c : frame s (set_bmap c s).
Proof. by exists c, (nextDataBlockAllocWithinUnitBlockIdx s), (nextDataBlockAllocCurBlkBitNo s). Qed.

Lemma fs_frame_next s u b : frame s (set_next u b s).
Proof. exists (bmapBlockBuf s), u, b. by destruct s. Qed.

#[local] Hint Resolve fs_frame_refl fs_frame_bmap fs_frame_next : ufs.

(** ** Inode numbers *)

Lemma imap_block s i : imap_ok s -> 0 <= i < IMAPBLOCK_NUM ->
  exists blk, iMapBlockPtr s !! Z.to_nat i = Some blk /\ load (iMapBlockPtr s) i = Ok blk /\
    bytes_ok blk /\ 8 * Z.of_nat (length blk) = BPB.
Proof.
  intros (Hl & Hb & _) Hi. destruct (load_in_range (iMapBlockPtr s) i) as [blk E]; [lia |].
  pose proof E as [_ Hx]%load_ok. exists blk. destruct (Hb blk) as [? Hlen];
    [by eapply list_elem_of_lookup_2 |]. rewrite Hlen. by split_and!.
Qed.

(** What the search has seen after [n] blocks from block [i] on. *)
Definition scanned (m : list (list Z)) (i b : Z) (n : nat) : Prop :=
  forall k blk, 0 <= k < Z.of_nat n -> m !! Z.to_nat ((i + k) mod IMAPBLOCK_NUM) = Some blk ->
    all_set blk (if k =? 0 then b + 1 else 0) BPB.

Lemma imap_loop_spec n i d s :
  imap_ok s -> 0 <= i ->
  exists r no bit, imap_loop n i d s = Ok (r, set_imap (iMapBlockPtr s) no bit s) /\
    imap_ok (set_imap (iMapBlockPtr s) no bit s) /\
    ((0 <= r < BPB /\ bit = r /\
      exists blk, iMapBlockPtr s !! Z.to_nat no = Some blk /\ get_bit blk r = false) \/
     (r = (if decide (n = 0%nat) then d else -1) /\
      scanned (iMapBlockPtr s) i (nextImapBlockFreeBitNo s) n)).
Proof.
  revert i d s. induction n as [| n IH]; intros i d s Hok Hi.
  - exists d, (nextImapNo s), (nextImapBlockFreeBitNo s). split; [by destruct s |].
    split; [by destruct s |]. right. split; [done |]. intros k blk Hk. lia.
  - cbn [imap_loop]. assert (Hm : 0 <= i mod IMAPBLOCK_NUM < IMAPBLOCK_NUM)
      by by apply Z.mod_pos_bound.
    destruct (imap_block s _ Hok Hm) as (blk & Hblk & -> & Hbytes & Hlen). cbn [res_bind].
    pose proof Hok as (Hl & Hb & Hno & Hbit).
    destruct (find_block_free_bit_no_start_from_ok blk BPB ltac:(done) ltac:(lia)
      (nextImapBlockFreeBitNo s) Hbit) as (r & -> & [[-> Hset] | Hr]); cbn [res_bind].
    + change (-1 >=? 0) with false. cbv iota. set (s1 := set_imap _ _ _ s).
      destruct (IH (i + 1) (-1) s1) as (r & no & bit & -> & Hok' & Hr); [| lia |].
      { by split; [| split; [| split]]. }
      exists r, no, bit. split; [done |]. split; [done |].
      destruct Hr as [Hr | [-> Hs]]; [by left | right]. split; [by destruct (decide _) |].
      intros k b Hk Hb'. destruct (decide (k = 0)) as [-> | Hne].
      * rewrite Z.add_0_r in Hb'. assert (b = blk) as -> by congruence. exact Hset.
      * rewrite (proj2 (Z.eqb_neq k 0)) by done.
        specialize (Hs (k - 1) b ltac:(lia)). replace (i + 1 + (k - 1)) with (i + k) in Hs by lia.
        specialize (Hs Hb'). cbn in Hs. by destruct (k - 1 =? 0).
    + destruct Hr as (Hr & Hf & _). rewrite (proj2 (Z.geb_le _ _)) by lia.
      exists r, (i mod IMAPBLOCK_NUM), r. split; [done |].
      split; [split; [done | split; [done | split; [done | cbn; lia]]] |].
      left. split; [lia |]. split; [done |]. eauto.
Qed.

Lemma ino_split no bit : 0 <= bit < BPB ->
  (BPB * no + bit) / BPB = no /\ (BPB * no + bit) mod BPB = bit.
Proof.
  intros Hb. rewrite (Z.mul_comm BPB), Z.add_comm. rewrite Z.div_add, Z.mod_add by done.
  rewrite Z.div_small, Z.mod_small by done. lia.
Qed.

(** Writing one bit of the inode bitmap. *)
Lemma write_inode_bit s ino blk blk' v :
  imap_ok s -> 0 <= ino < BPB * IMAPBLOCK_NUM ->
  iMapBlockPtr s !! Z.to_nat (ino / BPB) = Some blk -> bit_written blk blk' (ino mod BPB) v ->
  exists m, store (iMapBlockPtr s) (ino / BPB) blk' = Ok m /\
    imap_ok (set_imap m (nextImapNo s) (nextImapBlockFreeBitNo s) s) /\
    forall j, 0 <= j -> inode_used m j = if j =? ino then v else inode_used (iMapBlockPtr s) j.
Proof.
  intros (Hl & Hb & Hno & Hbit) Hi Hblk (Hlen & Hby & Hw). pose proof (lookup_lt_Some _ _ _ Hblk) as Hlt.
  assert (HB : 0 < BPB) by done.
  assert (Hq : 0 <= ino / BPB < IMAPBLOCK_NUM)
    by (split; [apply Z.div_pos | apply Z.div_lt_upper_bound]; lia).
  rewrite store_ok by lia. eexists. split; [done |]. split.
  - split; [cbn; by rewrite length_insert |]. split; [| by split].
    intros b (k & Hk)%list_elem_of_lookup. cbn in Hk.
    apply list_lookup_insert_Some in Hk as [(_ & <- & _) | [_ Hk]];
      [| apply Hb; by eapply list_elem_of_lookup_2].
    split; [done |]. rewrite Hlen. apply Hb. by eapply list_elem_of_lookup_2.
  - intros j Hj. unfold inode_used. pose proof (Z.mod_pos_bound j BPB HB).
    destruct (decide (j / BPB = ino / BPB)) as [E | E].
    + rewrite E, list_lookup_insert_eq, Hblk by done. rewrite Hw by lia.
      destruct (j mod BPB =? ino mod BPB) eqn:Em, (j =? ino) eqn:Ej; b2p; try done.
      * destruct Ej. by rewrite (Z.div_mod j BPB), (Z.div_mod ino BPB), E, Em.
      * by subst.
    + assert (0 <= j / BPB) by (apply Z.div_pos; lia).
      rewrite list_lookup_insert_ne by lia. rewrite (proj2 (Z.eqb_neq j ino)); [done | by intros ->].
Qed.

(** One block more than there are: the first block is seen from its start. *)
Lemma scanned_all s j :
  imap_ok s -> scanned (iMapBlockPtr s) (nextImapNo s) (nextImapBlockFreeBitNo s)
    (Z.to_nat (IMAPBLOCK_NUM + 1)) ->
  0 <= j < BPB * IMAPBLOCK_NUM -> inode_used (iMapBlockPtr s) j = true.
Proof.
  intros Hok Hsc Hj. pose proof Hok as (_ & _ & Hno & _).
  assert (HB : 0 < BPB) by done.
  assert (Hq : 0 <= j / BPB < IMAPBLOCK_NUM)
    by (split; [apply Z.div_pos | apply Z.div_lt_upper_bound]; lia).
  destruct (imap_block s _ Hok Hq) as (blk & Hblk & _). unfold inode_used. rewrite Hblk.
  pose proof (Z.mod_pos_bound j BPB HB).
  set (k := (j / BPB - nextImapNo s - 1) mod IMAPBLOCK_NUM).
  assert (Hk : 0 <= k < IMAPBLOCK_NUM) by by apply Z.mod_pos_bound.
  assert (Ek : (nextImapNo s + (k + 1)) mod IMAPBLOCK_NUM = j / BPB).
  { unfold k. replace (nextImapNo s + _) with (nextImapNo s + 1 + k) by (unfold k; lia).
    unfold k. rewrite Z.add_mod_idemp_r by done.
    replace (_ + _) with (j / BPB) by lia. by apply Z.mod_small. }
  specialize (Hsc (k + 1) blk ltac:(change (IMAPBLOCK_NUM) with 4 in *; lia)). rewrite Ek in Hsc.
  specialize (Hsc Hblk). rewrite (proj2 (Z.eqb_neq (k + 1) 0)) in Hsc by lia. by apply Hsc.
Qed.

Lemma GetFreeInum_spec s :
  imap_ok s -> inode_used (iMapBlockPtr s) 0 = true -> inode_used (iMapBlockPtr s) 1 = true ->
  exists ino s', GetFreeInum s = Ok (ino, s') /\ imap_ok s' /\ bmapBlockBuf s' = bmapBlockBuf s /\
    ((ino = 0 /\ iMapBlockPtr s' = iMapBlockPtr s /\
      forall j, 0 <= j < BPB * IMAPBLOCK_NUM -> inode_used (iMapBlockPtr s) j = true) \/
     (1 < ino < BPB * IMAPBLOCK_NUM /\ inode_used (iMapBlockPtr s) ino = false /\
      forall j, 0 <= j -> inode_used (iMapBlockPtr s') j =
        if j =? ino then true else inode_used (iMapBlockPtr s) j)).
Proof.
  intros Hok H0 H1. pose proof Hok as (_ & _ & Hno & _). unfold GetFreeInum.
  destruct (imap_loop_spec (Z.to_nat (IMAPBLOCK_NUM + 1)) (nextImapNo s) (-1) s Hok ltac:(lia))
    as (r & no & bit & -> & Hok1 & Hr). cbn [res_bind].
  destruct Hr as [(Hr & -> & blk & Hblk & Hfree) | [-> Hsc]].
  - rewrite (proj2 (Z.ltb_ge _ _)) by lia. set (s1 := set_imap _ _ _ s) in *.
    pose proof Hok1 as (_ & _ & Hno1 & _). change (0 <= no < IMAPBLOCK_NUM) in Hno1.
    change (nextImapNo s1) with no. destruct (ino_split no r Hr) as [Ed Em].
    set (ino := BPB * no + r) in *.
    assert (Hu : inode_used (iMapBlockPtr s) ino = false) by (unfold inode_used; by rewrite Ed, Hblk, Em).
    assert (Hino : 1 < ino < BPB * IMAPBLOCK_NUM).
    { assert (ino <> 0) by congruence. assert (ino <> 1) by congruence.
      change IMAPBLOCK_NUM with 4 in *. change BPB with 32768 in *. unfold ino in *. lia. }
    rewrite (proj2 (Z.eqb_neq ino 0)), (proj2 (Z.eqb_neq ino 1)) by lia. cbn [check negb andb res_bind].
    destruct (imap_block s1 no Hok1 Hno1) as (blk' & Hblk' & -> & Hby & Hlen).
    assert (blk' = blk) as -> by (cbn in Hblk'; congruence). cbn [res_bind].
    destruct (block_set_bit_spec blk r Hby) as (b2 & -> & Hw); [unfold in_block; lia |].
    cbn [res_bind]. rewrite <- Ed in Hblk'. rewrite <- Em in Hw.
    destruct (write_inode_bit s1 ino blk b2 true Hok1) as (m & E & Hok2 & Hj); [lia | done | done |].
    rewrite Ed in E. rewrite E. cbn [res_bind]. eexists _, _. split; [done |].
    split; [exact Hok2 |]. split; [done |]. right. split; [exact Hino |]. split; [done | exact Hj].
  - change (-1 <? 0) with true. cbv iota. eexists _, _. split; [done |]. split; [done |].
    split; [done |]. left. split; [done |]. split; [done |]. intros j Hj.
    by eapply scanned_all.
Qed.

Lemma returnInode_spec inode s :
  let ino := i_no (inodeData inode) in
  imap_ok s -> 0 <= ino < BPB * IMAPBLOCK_NUM ->
  if inode_used (iMapBlockPtr s) ino then
    exists inode' s', returnInode inode s = Ok (0, inode', s') /\ imap_ok s' /\
      inodeData inode' = inodeData inode /\ ino ∉ inodeMap s' /\ ino ∉ dirtyInodeSet s' /\
      forall j, 0 <= j -> inode_used (iMapBlockPtr s') j =
        if j =? ino then false else inode_used (iMapBlockPtr s) j
  else returnInode inode s = Crash AssertFail.
Proof.
  intros ino Hok Hi. assert (HB : 0 < BPB) by done.
  assert (Hq : 0 <= ino / BPB < IMAPBLOCK_NUM)
    by (split; [apply Z.div_pos | apply Z.div_lt_upper_bound]; lia).
  pose proof (Z.mod_pos_bound ino BPB HB).
  destruct (imap_block s _ Hok Hq) as (blk & Hblk & E & Hby & Hlen).
  unfold returnInode. fold ino. rewrite E. cbn [res_bind].
  rewrite block_test_bit_eq by (unfold in_block; lia). unfold inode_used at 1. rewrite Hblk.
  cbn [res_bind]. destruct (get_bit blk (ino mod BPB)) eqn:Eg; [| done].
  rewrite (proj2 (Z.eqb_neq (2 ^ _) 0)) by (apply Z.pow_nonzero; [lia | apply Z.mod_pos_bound; lia]).
  cbn [negb check res_bind].
  destruct (block_clear_bit_spec blk (ino mod BPB) Hby) as (b2 & -> & Hw); [unfold in_block; lia |].
  cbn [res_bind]. destruct (write_inode_bit s ino blk b2 false Hok Hi Hblk Hw) as (m & -> & Hok2 & Hj).
  cbn [res_bind]. eexists _, _. split; [done |]. split; [exact Hok2 |]. split; [done |].
  split; [cbn; set_solver |]. split; [cbn; set_solver |]. exact Hj.
Qed.

Lemma pending_wait bno r : pending_on bno r
  (set_ioHelper false (addIoUnitReq bno false (ioHelper false r)) r).
Proof.
  split; [| done]. unfold addIoUnitReq. cbn. destruct (ioUnitPendingMap (blockIo r) !! bno) eqn:E; cbn.
  - by rewrite E.
  - by rewrite lookup_insert_eq.
Qed.

Lemma pending_submit bno i r : pending_on bno r
  (set_ioHelper false (addIoUnitSubmitReq bno i (ioHelper false r)) r).
Proof.
  split; [| done]. unfold addIoUnitSubmitReq. cbn.
  assert (H : is_Some (ioUnitPendingMap (addIoUnitReq bno true (blockIo r)) !! bno)).
  { unfold addIoUnitReq. destruct (ioUnitPendingMap (blockIo r) !! bno) eqn:E; cbn;
      [by rewrite E | by rewrite lookup_insert_eq]. }
  by destruct (submitIoUnitReqMap _ !! _).
Qed.

Lemma look_length own c b d bs :
  quiet own BSIZE c -> look c b = Present d bs -> Z.of_nat (length bs) = BSIZE.
Proof.
  intros Hq Hl. pose proof (look_cases own BSIZE c b Hq) as H. rewrite Hl in H.
  by destruct H as (i & it & _ & _ & _ & _ & _ & _ & ?).
Qed.

Lemma same_kept c c' bno e : kept c c' bno e -> look c bno = e -> same_blocks c c'.
Proof. intros Hk He b. rewrite Hk. destruct (b =? bno) eqn:E; b2p; [by subst | done]. Qed.

(** A bitmap block in memory can be read, rewritten and released. *)
Lemma get_bmap_present s r bno d bs :
  bmap_ok (bmapBlockBuf s) -> look (bmapBlockBuf s) bno = Present d bs ->
  exists i c1, get_bmap bno s r = Ok (i, true, set_bmap c1 s, r) /\ mem_of c1 i = Ok bs /\
    same_pool (bmapBlockBuf s) c1 /\
    (forall bs', Z.of_nat (length bs') = BSIZE -> bytes_ok bs' ->
      exists c2, cache_releaseBlock i (set_mem i bs' c1) = Ok c2 /\ bmap_ok c2 /\
        kept (bmapBlockBuf s) c2 bno (Present d bs')) /\
    exists c2, cache_releaseBlock i c1 = Ok c2 /\ bmap_ok c2 /\ same_blocks (bmapBlockBuf s) c2.
Proof.
  intros [Hq Hb] Hl. destruct (fs_get_present _ _ _ _ _ _ Hq Hl) as (i & c1 & Hh & Hbi & Hm & E).
  exists i, c1. unfold get_bmap. rewrite E. cbn [res_bind].
  destruct (hd_item _ _ _ _ _ _ _ Hh) as (it & Hi & Hin & _).
  rewrite (get_item_lookup _ _ _ Hi). cbn [res_bind]. rewrite Hin. split; [done |].
  split; [done |]. split; [by eapply held_pool |].
  assert (Hrel : forall bs', Z.of_nat (length bs') = BSIZE -> bytes_ok bs' ->
    exists c2, cache_releaseBlock i (set_mem i bs' c1) = Ok c2 /\ bmap_ok c2 /\
      kept (bmapBlockBuf s) c2 bno (Present d bs')).
  { intros bs' Hlen Hok'.
  destruct (held_release (fun _ => 0) BSIZE (bmapBlockBuf s) c1 bno i d bs' (<[i := bs']> (c_mem c1)))
    as (c2 & E2 & Hq2 & _ & Hk); try done.
  - apply lookup_insert_eq.
  - intros j Hj. by rewrite lookup_insert_ne.
  - exists c2. specialize (Hk Hbi). split_and!; [done | | done]. split; [done |].
    intros b d' bs'' Hlb. rewrite Hk in Hlb. destruct (b =? bno); [congruence | by eapply Hb]. }
  split; [done |]. destruct (Hrel bs) as (c2 & E2 & Hok2 & Hk2);
    [by eapply look_length | by eapply Hb |].
  exists c2. split_and!; [| done | by eapply same_kept]. rewrite <- E2. f_equal.
  unfold set_mem. unfold mem_of in Hm. destruct (c_mem c1 !! i) eqn:Ec; [| done].
  injection Hm as ->. rewrite insert_id by done. by destruct c1.
Qed.

(** A block whose contents are replaced is as busy as before. *)
Lemma calm_rewritten c c1 c2 it bno d bs bs' :
  same_pool c c1 -> cache_releaseBlock it (set_mem it bs' c1) = Ok c2 -> look c bno = Present d bs ->
  kept c c2 bno (Present d bs') -> calm c c2.
Proof.
  intros Hp Hr%release_pool Hl Hk. split.
  - eapply same_pool_trans; [exact Hp |]. eapply same_pool_trans; [| exact Hr]. by apply same_pool_buf.
  - intros b Hb. unfold busy in *. pose proof (Hk b) as Eb. destruct (b =? bno) eqn:E.
    + apply Z.eqb_eq in E. subst b. left. right. destruct Hb as [? | [? ?]]; [congruence |].
      assert (d = true) as -> by congruence. eauto.
    + left. by rewrite <- Eb.
Qed.

(** Otherwise a read of it is pending, unless the buffer is full. *)
Lemma get_bmap_missing s r bno :
  bmap_ok (bmapBlockBuf s) -> (forall d bs, look (bmapBlockBuf s) bno <> Present d bs) ->
  (full (bmapBlockBuf s) /\ get_bmap bno s r = Crash AssertFail) \/
  exists i c1 r1, get_bmap bno s r = Ok (i, false, set_bmap c1 s, r1) /\ bmap_ok c1 /\
    moved (bmapBlockBuf s) c1 bno Reading /\ pending_on bno r r1.
Proof.
  intros [Hq Hb] Hn. unfold get_bmap.
  assert (Hbytes : forall c1, moved (bmapBlockBuf s) c1 bno Reading ->
    forall b d bs, look c1 b = Present d bs -> bytes_ok bs).
  { intros c1 [Hr Ho] b d bs Hlb. destruct (decide (b = bno)) as [-> | Hne]; [congruence |].
    destruct (Ho b Hne) as [E | [E _]]; rewrite E in Hlb; [by eapply Hb | done]. }
  destruct (look (bmapBlockBuf s) bno) as [| | d bs] eqn:El; [| | by destruct (Hn d bs)].
  - destruct (fs_get_absent _ _ _ _ Hq El) as [[Hf E] | (i & c1 & Hh & E)]; rewrite E; [by left |].
    right. destruct (held_read _ _ _ _ _ _ Hq Hh) as [Hq1 Hmv].
    destruct (hd_item _ _ _ _ _ _ _ Hh) as (it & Hi & Hin & _). cbn [res_bind].
    rewrite (get_item_lookup _ _ _ Hi). cbn [res_bind]. rewrite Hin.
    eexists _, _, _. split; [done |]. split_and!; [split; eauto | done | apply pending_submit].
  - right. destruct (fs_get_reading _ _ _ _ Hq El) as (i & c1 & it & Hq1 & Hv & Hi & Hin & E).
    rewrite E. cbn [res_bind]. rewrite (get_item_lookup _ _ _ Hi). cbn [res_bind]. rewrite Hin.
    assert (Hmv : moved (bmapBlockBuf s) c1 bno Reading).
    { split; [by rewrite Hv |]. intros b _. left. apply Hv. }
    eexists _, _, _. split; [done |]. split_and!; [split; eauto | done | apply pending_wait].
Qed.

(** ** The search of a region *)

Lemma same_refl c : same_blocks c c.
Proof. done. Qed.


Lemma moved_same c c1 c' bno e : same_blocks c c1 -> moved c1 c' bno e -> moved c c' bno e.
Proof. intros Hs [H1 H2]. split; [done |]. intros b Hb. rewrite <- Hs. by apply H2. Qed.

Lemma took_same c c1 c' bno bit : same_blocks c c1 -> took c1 c' bno bit -> took c c' bno bit.
Proof.
  intros Hs (d & bs & bs' & Hl & Hg & Hw & Hk). exists d, bs, bs'. rewrite <- Hs.
  split_and!; try done. intros b. rewrite Hk. by rewrite Hs.
Qed.

Lemma search_left_same (P Q : Z -> Z -> cache -> Prop) (G G' : Prop) disk maxBmap s s1 r out :
  frame s s1 -> same_blocks (bmapBlockBuf s) (bmapBlockBuf s1) ->
  same_pool (bmapBlockBuf s) (bmapBlockBuf s1) -> (forall no i c, 0 <= i < maxBmap -> P no i c -> Q no i c) ->
  (G -> G') -> search_left P G disk maxBmap s1 r out -> search_left Q G' disk maxBmap s r out.
Proof.
  intros Hf Hs Hsp HPQ HG. pose proof (later_same (fun _ => False) _ _ Hsp Hs) as Hcalm. destruct out as [[[o s'] r'] | f]; cbn.
  - intros (Hf' & Hc & Hok & Ho). split_and!; [by eapply fs_frame_trans | done.. |].
    assert (Ei : immutableBlockBitmaps s1 = immutableBlockBitmaps s)
      by by destruct Hf as (c & u & b & ->).
    destruct o.
    + destruct Ho as (-> & Hcm & i & Hi & Him & HP). split; [done |]. split; [by eapply later_trans |].
      exists i. rewrite <- Ei. auto.
    + destruct Ho as (i & Hi & Hm & Hp). exists i.
      split; [done |]. split; [by eapply moved_same | done].
    + destruct Ho as (-> & Ho & Hg). split; [done |]. split; [| by apply HG]. intros b. by rewrite Ho, Hs.
  - intros [-> Hn]. split; [done | by eapply no_room_later].
Qed.


(** The part the searches share: the bitmap block is read first if need be, and [K]
    goes on with it. *)
Lemma visit_block found gone disk maxBmap s s1 r i K :
  frame s s1 -> bmapBlockBuf s1 = bmapBlockBuf s -> bmap_ok (bmapBlockBuf s) -> cursor_ok s1 ->
  0 <= i < maxBmap ->
  (forall it c1 d bs, look (bmapBlockBuf s) (to_u32 (disk + i)) = Present d bs ->
     mem_of c1 it = Ok bs -> same_pool (bmapBlockBuf s) c1 ->
     (forall bs', Z.of_nat (length bs') = BSIZE -> bytes_ok bs' ->
       exists c2, cache_releaseBlock it (set_mem it bs' c1) = Ok c2 /\ bmap_ok c2 /\
         kept (bmapBlockBuf s) c2 (to_u32 (disk + i)) (Present d bs')) ->
     (exists c2, cache_releaseBlock it c1 = Ok c2 /\ bmap_ok c2 /\
        same_blocks (bmapBlockBuf s) c2) ->
     search_left found gone disk maxBmap s r (K it (set_bmap c1 s1) r)) ->
  search_left found gone disk maxBmap s r
    (let! (it, inmem, s, r) := get_bmap (to_u32 (disk + i)) s1 r in
     if negb inmem then Ok (Pending, s, r) else K it s r).
Proof.
  intros Hf Eb Hok Hcur Hi HK. set (bno := to_u32 (disk + i)).
  destruct (look (bmapBlockBuf s) bno) as [| | d bs] eqn:El.
  3: { destruct (get_bmap_present s1 r bno d bs) as (it & c1 & E & Hm & Hsp & Hrel & Hrel0);
         [by rewrite Eb.. |].
       rewrite E. cbn [res_bind negb]. rewrite Eb in *. by eapply HK. }
  all: destruct (get_bmap_missing s1 r bno) as [[Hfu E] | (it & c1 & r1 & E & Hok1 & Hmv & Hp)];
    [by rewrite Eb | intros d bs; rewrite Eb; congruence | ..];
    rewrite E; cbn [res_bind negb search_left].
  all: try (split; [done |]; apply no_room_now; [apply Hok | by rewrite <- Eb]).
  all: split; [by eapply fs_frame_trans, fs_frame_bmap |]; split; [done |]; split; [done |].
  all: exists i; split; [done |]; split; [by rewrite <- Eb | done].
Qed.

(** The units of a bitmap block that a search looks at are in use: single blocks are
    searched from the cursor on, unless the region is one bitmap block. *)
Definition units_set (unit maxBmap from : Z) (bs : list Z) : Prop :=
  forall b, 0 <= b -> b + unit <= BPB -> (unit | b) -> (unit = 1 -> maxBmap <> 1 -> from < b) ->
    get_bit bs b = true.

Section Loop.
Context (find : list Z -> FsImpl -> res (Z * FsImpl)) (mark : Z -> FsImpl -> FsImpl).
Context (unit disk maxBmap : Z).
Hypothesis (Hmax : 0 < maxBmap).
Hypothesis find_spec : forall bs s, bytes_ok bs -> Z.of_nat (length bs) = BSIZE -> cursor_ok s ->
  exists bit s1, find bs s = Ok (bit, s1) /\ bmapBlockBuf s1 = bmapBlockBuf s /\ frame s s1 /\
    cursor_ok s1 /\
    (0 <= bit -> bit + unit <= BPB /\ (unit | bit) /\ bit < BPB /\ get_bit bs bit = false) /\
    (bit < 0 -> units_set unit maxBmap (next_bit 1 s) bs /\ (unit = 1 -> next_bit 1 s1 = -1)).
Hypothesis mark_spec : forall bit s, 0 <= bit < BPB -> cursor_ok s ->
  bmapBlockBuf (mark bit s) = bmapBlockBuf s /\ frame s (mark bit s) /\ cursor_ok (mark bit s).

Definition found_bit (c : cache) (no i : Z) (c' : cache) : Prop :=
  exists bit, 0 <= bit /\ bit + unit <= BPB /\ (unit | bit) /\ no = data_block_no disk i bit /\
    took c c' (to_u32 (disk + i)) bit.

(** [n] bitmap blocks from [k] on have been searched in vain, the first one from the
    cursor [from] on and the others from their start. *)
Definition swept (n : nat) (k : Z) (imm : gset Z) (from : Z) (c : cache) : Prop :=
  exists first, forall j, 0 <= j < Z.of_nat n ->
    let i := (k + j) mod maxBmap in to_u32 (disk + i) ∉ imm ->
    exists d bs, look c (to_u32 (disk + i)) = Present d bs /\
      units_set unit maxBmap (if decide (i = first) then from else -1) bs.

Lemma swept_skip n k imm from c :
  to_u32 (disk + k mod maxBmap) ∈ imm -> swept n (k + 1) imm from c -> swept (S n) k imm from c.
Proof.
  intros Him [f Hf]. exists f. intros j Hj i Hi. destruct (decide (j = 0)) as [-> | Hne].
  - unfold i in Hi. by rewrite Z.add_0_r in Hi.
  - specialize (Hf (j - 1) ltac:(lia)). cbn zeta in Hf.
    replace (k + 1 + (j - 1)) with (k + j) in Hf by lia. by apply Hf.
Qed.

Lemma units_set_from from bs : unit = 1 -> units_set unit maxBmap (-1) bs -> units_set unit maxBmap from bs.
Proof. intros _ H b Hb Hle Hd _. apply H; try done. lia. Qed.

(** The first block has been searched; the cursor is before the start. *)
Lemma swept_first n k imm from from' c d bs :
  look c (to_u32 (disk + k mod maxBmap)) = Present d bs -> units_set unit maxBmap from bs ->
  (unit = 1 -> from' = -1) -> swept n (k + 1) imm from' c -> swept (S n) k imm from c.
Proof.
  intros Hl Hu Hfr [f Hf]. exists (k mod maxBmap). intros j Hj i Hi.
  destruct (decide (j = 0)) as [-> | Hne].
  - unfold i. rewrite Z.add_0_r, decide_True by done. eauto.
  - destruct (Hf (j - 1) ltac:(lia)) as (d' & bs' & Hl' & Hu');
      [by replace (k + 1 + (j - 1)) with (k + j) by lia |].
    replace (k + 1 + (j - 1)) with (k + j) in * by lia. fold i in Hl', Hu'. exists d', bs'.
    split; [done |]. intros b Hb Hle Hd _. apply Hu'; try done.
    intros Hu1 _. destruct (decide _); [rewrite Hfr by done |]; lia.
Qed.

Lemma swept_same n k imm from c c' : same_blocks c c' -> swept n k imm from c' -> swept n k imm from c.
Proof. intros Hs [f Hf]. exists f. intros j Hj i Hi. rewrite <- Hs. by apply Hf. Qed.

Lemma bmap_loop_spec n k s r :
  bmap_ok (bmapBlockBuf s) -> cursor_ok s ->
  search_left (found_bit (bmapBlockBuf s))
    (swept n k (immutableBlockBitmaps s) (next_bit 1 s) (bmapBlockBuf s)) disk maxBmap s r
    (bmap_loop find mark unit n k disk maxBmap s r).
Proof.
  revert k s. induction n as [| n IH]; intros k s Hok Hcur.
  { split; [apply fs_frame_refl |]. split; [done |]. split; [done |]. split; [done |].
    split; [done |]. exists 0. intros j Hj. lia. }
  assert (Hgo : forall s2, frame s s2 -> cursor_ok s2 -> bmap_ok (bmapBlockBuf s2) ->
    same_blocks (bmapBlockBuf s) (bmapBlockBuf s2) -> same_pool (bmapBlockBuf s) (bmapBlockBuf s2) ->
    (swept n (k + 1) (immutableBlockBitmaps s) (next_bit 1 s2) (bmapBlockBuf s) ->
     swept (S n) k (immutableBlockBitmaps s) (next_bit 1 s) (bmapBlockBuf s)) ->
    search_left (found_bit (bmapBlockBuf s))
      (swept (S n) k (immutableBlockBitmaps s) (next_bit 1 s) (bmapBlockBuf s)) disk maxBmap s r
      (bmap_loop find mark unit n (k + 1) disk maxBmap s2 r)).
  { intros s2 Hf2 Hc2 Ho2 Hs2 Hsp2 Hsw. eapply search_left_same; [exact Hf2 | done | done | | | by apply IH].
    - intros no j c _ (bit & ? & ? & ? & ? & ?). exists bit. split_and!; try done. by eapply took_same.
    - intros Hg. apply Hsw. eapply swept_same; [exact Hs2 |]. by destruct Hf2 as (? & ? & ? & ->). }
  cbn [bmap_loop]. unfold isBlockBitmapImmutable. case_bool_decide as Him.
  { apply Hgo; try done; [apply fs_frame_next | by apply swept_skip]. }
  assert (Hi : 0 <= k mod maxBmap < maxBmap) by (apply Z.mod_pos_bound; lia).
  apply visit_block; [apply fs_frame_next | done.. |].
  intros it c1 d bs El Hm Hsp Hrel (c0 & Er0 & Hok0 & Hs0).
  unfold bmap_mem. cbn [set_bmap bmapBlockBuf]. rewrite Hm. cbn [res_bind].
  assert (Hlen : Z.of_nat (length bs) = BSIZE) by (eapply look_length; [apply Hok | exact El]).
  destruct (find_spec bs (set_bmap c1 (set_next_blk unit (k mod maxBmap) s)))
    as (bit & s2 & Ef & Eb2 & Hf2 & Hc2 & Hbit & Hno); [by eapply Hok | done.. |].
  assert (Hf3 : frame s s2).
  { eapply fs_frame_trans; [| exact Hf2]. eapply fs_frame_trans; [apply fs_frame_next | apply fs_frame_bmap]. }
  rewrite Ef. cbn [res_bind]. rewrite Z.geb_leb. case_if.
  - destruct Hbit as (Hb1 & Hb2 & Hb3 & Hb4); [done |].
    destruct (block_set_bit_spec bs bit) as (bs' & Es & Hw);
      [by eapply Hok | unfold in_block; unfold BPB in *; lia |].
    rewrite Es. cbn [res_bind]. pose proof Hw as (Hw1 & Hw2 & _).
    destruct (mark_spec bit (put_bmap_mem it bs' s2)) as (Em & Hfm & Hcm); [done.. |].
    destruct (Hrel bs') as (c2 & Er & Hok2 & Hk2); [lia | done |].
    unfold release_bmap. rewrite Em. cbn [put_bmap_mem set_bmap bmapBlockBuf]. rewrite Eb2.
    cbn [set_bmap bmapBlockBuf]. rewrite Er. cbn [res_bind search_left].
    split.
    { eapply fs_frame_trans; [exact Hf3 |]. eapply fs_frame_trans; [apply fs_frame_bmap |].
      eapply fs_frame_trans; [exact Hfm | apply fs_frame_bmap]. }
    split; [exact Hcm |]. split; [exact Hok2 |]. split; [done |]. split; [by eapply calm_rewritten |].
    exists (k mod maxBmap). split; [done |]. split; [exact Him |]. exists bit.
    split_and!; try done. by exists d, bs, bs'.
  - unfold release_bmap. rewrite Eb2. cbn [set_bmap bmapBlockBuf]. rewrite Er0. cbn [res_bind].
    apply Hgo; [| done | done | done | by eapply same_pool_trans, release_pool |].
    + eapply fs_frame_trans; [exact Hf3 | apply fs_frame_bmap].
    + destruct Hno as [Hset Hm1]; [lia |]. by eapply swept_first.
Qed.
End Loop.

(** The two searches of a bitmap block. *)

Lemma bpb_bounds (bs : list Z) : Z.of_nat (length bs) = BSIZE ->
  BPB <= INT_MAX /\ BPB <= 8 * Z.of_nat (length bs).
Proof. intros ->. by_compute. Qed.

Lemma cursor_set v s : -1 <= v < BPB -> cursor_ok (set_next_bit 1 v s).
Proof. unfold cursor_ok, next_bit. cbn. by rewrite lookup_insert_eq. Qed.

Lemma unit1_find_spec maxBmap bs s :
  bytes_ok bs -> Z.of_nat (length bs) = BSIZE -> cursor_ok s ->
  exists bit s1, unit1_find bs maxBmap s = Ok (bit, s1) /\ bmapBlockBuf s1 = bmapBlockBuf s /\
    frame s s1 /\ cursor_ok s1 /\
    (0 <= bit -> bit + 1 <= BPB /\ (1 | bit) /\ bit < BPB /\ get_bit bs bit = false) /\
    (bit < 0 -> units_set 1 maxBmap (next_bit 1 s) bs /\ (1 = 1 -> next_bit 1 s1 = -1)).
Proof.
  intros Hb Hlen Hcur. destruct (bpb_bounds bs Hlen) as [H1 H2].
  assert (Hr : forall lo r, first_free bs lo BPB r -> 0 <= r ->
    r + 1 <= BPB /\ (1 | r) /\ r < BPB /\ get_bit bs r = false).
  { intros lo r [[-> _] | (? & ? & _)] ?; [lia |]. split_and!; try done; [lia | apply Z.divide_1_l | lia]. }
  assert (Hc1 : cursor_ok (set_next_bit 1 (-1) s)) by (apply cursor_set; by_compute).
  assert (Hz : forall s, next_bit 1 (set_next_bit 1 (-1) s) = -1)
    by (intros; unfold next_bit; cbn; by rewrite lookup_insert_eq).
  assert (Hnone : forall lo r, first_free bs lo BPB r -> 0 <= lo -> r < 0 -> all_set bs lo BPB)
    by (intros lo r [[_ ?] | ?] ? ?; [done | lia]).
  unfold unit1_find.
  destruct (find_block_free_bit_no_start_from_ok bs BPB H1 H2 (next_bit 1 s) Hcur) as (r & -> & Hf).
  cbn [res_bind]. rewrite Z.geb_leb. case_if.
  { eexists _, _. split; [done |]. split; [done |]. split; [apply fs_frame_refl |]. split; [done |].
    split; [eauto | lia]. }
  unfold cursor_ok in Hcur. assert (Hset : all_set bs (next_bit 1 s + 1) BPB) by (eapply Hnone; [done | lia..]).
  case_if; b2p.
  2: { eexists _, _. split; [done |]. split; [done |]. split; [apply fs_frame_next |].
       split; [apply Hc1 |]. split; [lia |]. intros _. split; [| by intros _].
       intros b Hb0 Hb1 _ Hfr. apply Hset. specialize (Hfr eq_refl ltac:(done)). lia. }
  destruct (find_block_free_bit_no_start_from_ok bs BPB H1 H2 (next_bit 1 (set_next_bit 1 (-1) s)) Hc1)
    as (r' & -> & Hf').
  cbn [res_bind]. rewrite Z.geb_leb. case_if.
  - eexists _, _. split; [done |]. split; [done |]. split; [apply fs_frame_next |].
    split; [done |]. split; [eauto | lia].
  - eexists _, _. split; [done |]. split; [done |].
    split; [by eapply fs_frame_trans; apply fs_frame_next |].
    split; [apply cursor_set; by_compute |]. split; [lia |]. intros _. split; [| by intros _].
    rewrite Hz in Hf'. intros b Hb0 Hb1 _ _. apply (Hnone 0 r'); [exact Hf' | lia..].
Qed.

Lemma jump_find_spec unit maxBmap bs s :
  0 < unit < BPB -> unit <> 1 -> bytes_ok bs -> Z.of_nat (length bs) = BSIZE -> cursor_ok s ->
  exists bit s1, jump_find unit bs s = Ok (bit, s1) /\ bmapBlockBuf s1 = bmapBlockBuf s /\
    frame s s1 /\ cursor_ok s1 /\
    (0 <= bit -> bit + unit <= BPB /\ (unit | bit) /\ bit < BPB /\ get_bit bs bit = false) /\
    (bit < 0 -> units_set unit maxBmap (next_bit 1 s) bs /\ (unit = 1 -> next_bit 1 s1 = -1)).
Proof.
  intros Hu Hu1 Hb Hlen Hcur. destruct (bpb_bounds bs Hlen) as [H1 H2].
  assert (Hbpb : BPB = 32768) by done.
  destruct (find_jump_ok bs 0 BPB unit) as (r & E & Hf); [ints.. |].
  unfold jump_find. rewrite E. cbn [res_bind]. exists r, s. split; [done |]. split; [done |].
  split; [apply fs_frame_refl |]. split; [apply Hcur |]. split.
  - intros Hr. destruct Hf as [[-> _] | (k & Hk & -> & Hle & Hg & _)]; [lia |].
    split_and!; try done; [| lia]. by exists k.
  - intros Hr. split; [| done]. destruct Hf as [[_ Hall] | (k & Hk & -> & _)]; [| cbn in Hr; nia].
    intros b Hb0 Hb1 [q ->] _. apply (Hall q); cbn; nia.
Qed.

(** ** Units of whole bitmap blocks *)

Definition found_whole (disk step : Z) (c : cache) (no i : Z) (c' : cache) : Prop :=
  no = data_block_no disk i 0 /\ (step | i) /\
  exists d bs, look c (to_u32 (disk + i)) = Present d bs /\ first_int_zero bs = Ok true /\
    kept c c' (to_u32 (disk + i)) (Present d (replicate (Z.to_nat BSIZE) 1)).

Lemma first_int_ok bs : Z.of_nat (length bs) = BSIZE -> exists v, first_int_zero bs = Ok v.
Proof.
  intros Hlen. assert (Hb : BSIZE = 4096) by done. unfold first_int_zero.
  destruct (load_in_range bs 0) as (a0 & ->); [lia |].
  destruct (load_in_range bs 1) as (a1 & ->); [lia |].
  destruct (load_in_range bs 2) as (a2 & ->); [lia |].
  destruct (load_in_range bs 3) as (a3 & ->); [lia |]. cbn. by eexists.
Qed.

Lemma write_block_full (bs : list Z) v : Z.of_nat (length bs) = BSIZE ->
  write_at bs 0 (replicate (Z.to_nat BSIZE) v) = Ok (replicate (Z.to_nat BSIZE) v).
Proof.
  intros Hlen. unfold write_at. rewrite length_replicate.
  destruct (_ <=? _)%nat eqn:E; [| apply Nat.leb_gt in E; lia].
  cbn [take app]. rewrite drop_ge, app_nil_r; [done | lia].
Qed.

(** The bitmap blocks of the units from [i] on have been looked at in vain. *)
Definition whole_swept (disk maxBmap step i : Z) (imm : gset Z) (c : cache) : Prop :=
  forall j, i <= j < maxBmap -> (step | j) -> to_u32 (disk + j) ∉ imm ->
    exists d bs, look c (to_u32 (disk + j)) = Present d bs /\ first_int_zero bs = Ok false.

Lemma whole_swept_next disk maxBmap step i imm c :
  0 < step -> (step | i) ->
  (to_u32 (disk + i) ∉ imm -> exists d bs, look c (to_u32 (disk + i)) = Present d bs /\
     first_int_zero bs = Ok false) ->
  whole_swept disk maxBmap step (i + step) imm c -> whole_swept disk maxBmap step i imm c.
Proof.
  intros Hst [q ->] Hi Hsw j Hj [p ->] Him. destruct (decide (p = q)) as [-> | Hne]; [auto |].
  apply Hsw; [nia | by exists p | done].
Qed.

Lemma whole_loop_spec disk maxBmap step n i s r :
  0 < step -> maxBmap + step < 2 ^ 32 -> 0 <= i -> (step | i) -> maxBmap - i <= Z.of_nat n ->
  i < maxBmap + step -> bmap_ok (bmapBlockBuf s) -> cursor_ok s ->
  search_left (found_whole disk step (bmapBlockBuf s))
    (whole_swept disk maxBmap step i (immutableBlockBitmaps s) (bmapBlockBuf s)) disk maxBmap s r
    (whole_loop n i disk maxBmap step s r).
Proof.
  intros Hst Hmx. revert i s. induction n as [| n IH]; intros i s Hi Hdiv Hn Hle Hok Hcur.
  { cbn [whole_loop]. destruct (i <? maxBmap) eqn:E; b2p; [lia |].
    split; [apply fs_frame_refl |]. do 4 (split; [done |]). intros j Hj. lia. }
  cbn [whole_loop]. destruct (i <? maxBmap) eqn:E; b2p.
  2: { split; [apply fs_frame_refl |]. do 4 (split; [done |]). intros j Hj. lia. }
  assert (Hgo : forall s2, frame s s2 -> cursor_ok s2 -> bmap_ok (bmapBlockBuf s2) ->
    same_blocks (bmapBlockBuf s) (bmapBlockBuf s2) -> same_pool (bmapBlockBuf s) (bmapBlockBuf s2) ->
    (to_u32 (disk + i) ∉ immutableBlockBitmaps s -> exists d bs,
       look (bmapBlockBuf s) (to_u32 (disk + i)) = Present d bs /\ first_int_zero bs = Ok false) ->
    search_left (found_whole disk step (bmapBlockBuf s))
      (whole_swept disk maxBmap step i (immutableBlockBitmaps s) (bmapBlockBuf s)) disk maxBmap s r
      (whole_loop n (to_u32 (i + step)) disk maxBmap step s2 r)).
  { intros s2 Hf2 Hc2 Ho2 Hs2 Hsp2 Hi0. rewrite to_u32_small by lia.
    eapply search_left_same; [exact Hf2 | done | done | | |].
    3: { apply IH; [lia | by apply Z.divide_add_r; [| apply Z.divide_refl] | lia | lia | done..]. }
    - intros no j c _ (? & ? & d & bs & Hl & ? & Hk). split_and!; try done. exists d, bs.
      rewrite <- Hs2. split_and!; try done. intros b. rewrite Hk. by rewrite Hs2.
    - intros Hsw. eapply whole_swept_next; [done.. |]. intros j Hj Hd Him. rewrite <- Hs2.
      apply Hsw; [done.. |]. by destruct Hf2 as (? & ? & ? & ->). }
  unfold isBlockBitmapImmutable. case_bool_decide as Him.
  { apply Hgo; try done. apply fs_frame_refl. }
  apply visit_block; [apply fs_frame_refl | done.. |].
  intros it c1 d bs El Hm Hsp Hrel (c0 & Er0 & Hok0 & Hs0).
  unfold bmap_mem. cbn [set_bmap bmapBlockBuf]. rewrite Hm. cbn [res_bind].
  assert (Hlen : Z.of_nat (length bs) = BSIZE) by (eapply look_length; [apply Hok | exact El]).
  destruct (first_int_ok bs Hlen) as (v & Ev). rewrite Ev. cbn [res_bind].
  unfold release_bmap. destruct v.
  - rewrite write_block_full by done. cbn [res_bind put_bmap_mem set_bmap bmapBlockBuf].
    destruct (Hrel (replicate (Z.to_nat BSIZE) 1)) as (c2 & Er & Hok2 & Hk2).
    { by rewrite length_replicate. }
    { apply Forall_replicate. lia. }
    rewrite Er. cbn [res_bind search_left].
    split; [eapply fs_frame_trans; apply fs_frame_bmap |]. split; [exact Hcur |]. split; [exact Hok2 |].
    split; [done |]. split; [by eapply calm_rewritten |].
    exists i. split; [done |]. split; [exact Him |]. split_and!; try done.
    by exists d, bs.
  - cbn [set_bmap bmapBlockBuf]. rewrite Er0. cbn [res_bind].
    apply Hgo; [eapply fs_frame_trans; apply fs_frame_bmap | done | done | done | |].
    + by eapply same_pool_trans, release_pool.
    + intros _. by exists d, bs.
Qed.

(** ** Units of allocation *)

(** The blocks of an extent, and its region of bitmap blocks, counted from the first
    bitmap block of the device. *)
Definition unit_of {cfg : ExtentConfig} (e : nat) : Z := extentArrIdx2BlockAllocUnit (Z.of_nat e).

Definition region {cfg : ExtentConfig} (w : Z) (e : nat) : Z := w * 640 + region_start 640 e.

(** A unit of extent [e] starts at bit [bit] of bitmap block [i] of the region. *)
Definition unit_at {cfg : ExtentConfig} (e : nat) (i bit : Z) : Prop :=
  if unit_of e <? BPB
  then 0 <= bit /\ bit + unit_of e <= BPB /\ (unit_of e | bit)
  else bit = 0 /\ (unit_of e / BPB | i).

(** [no] is the first block of a unit of extent [e] in the share of worker [w]. *)
Definition is_unit {cfg : ExtentConfig} (w : Z) (e : nat) (no : Z) : Prop :=
  exists i bit, 0 <= i < region_size 640 e /\ no = (region w e + i) * BPB + bit /\ unit_at e i bit.

(** The bitmaps record the unit as used. *)
Definition taken {cfg : ExtentConfig} (c : cache) (e : nat) (no : Z) : Prop :=
  exists d bs, look c (get_bmap_start_block_for_worker 0 + no / BPB) = Present d bs /\
    if unit_of e <? BPB then get_bit bs (no mod BPB) = true else first_int_zero bs = Ok false.

Definition overlap {cfg : ExtentConfig} (e : nat) (no : Z) (e' : nat) (no' : Z) : Prop :=
  exists b, no <= b < no + unit_of e /\ no' <= b < no' + unit_of e'.

(** Regions are a whole number of units. *)
Class AlignedConfig (cfg : ExtentConfig) : Prop := {
  al_ok : ExtentConfigOk cfg;
  al_last : LAST_EXTENT_MAX_BMAP_BLOCK_NUM <= 640;
  al_unit : forall e, (e < 7)%nat -> 0 < unit_of e /\
    (BPB <= unit_of e ->
     unit_of e mod BPB = 0 /\ region_size 640 e mod (unit_of e / BPB) = 0)
}.

#[global] Instance default_aligned : AlignedConfig cfg_default.
Proof.
  split; [apply _ | by_compute |]. intros e He.
  do 7 (destruct e as [| e]; [split; [by_compute | intros H; (by_compute || by destruct H)] |]). lia.
Qed.

#[global] Instance ldb_aligned : AlignedConfig cfg_ldb.
Proof.
  split; [apply _ | by_compute |]. intros e He.
  do 7 (destruct e as [| e]; [split; [by_compute | intros H; (by_compute || by destruct H)] |]). lia.
Qed.

Section Units.
Context {cfg : ExtentConfig} {Hal : AlignedConfig cfg}.

#[local] Instance al_ok' : ExtentConfigOk cfg := al_ok.

(** The blocks of a unit lie in its region. *)
Lemma unit_in_region w e no :
  (e < 7)%nat -> is_unit w e no ->
  region w e * BPB <= no /\ no + unit_of e <= (region w e + region_size 640 e) * BPB.
Proof.
  intros He (i & bit & Hi & -> & Hu). unfold unit_at in Hu. destruct (al_unit e He) as [Hpos Hwhole].
  assert (HB : 0 < BPB) by done. destruct (unit_of e <? BPB) eqn:E; b2p; [nia |].
  destruct Hwhole as [Hm Hr]; [done |]. destruct Hu as [-> [k Hk]].
  apply Z.mod_divide in Hm as [q Hq]; [| lia]. rewrite Hq, Z.div_mul in * by lia.
  apply Z.mod_divide in Hr as [m Hr]; [| nia].
  assert (0 < q) by nia. assert (k < m) by nia. assert (i + q <= region_size 640 e) by nia. nia.
Qed.

Lemma regions_apart w e w' e' :
  (e < 7)%nat -> (e' < 7)%nat -> (w, e) <> (w', e') ->
  region w e + region_size 640 e <= region w' e' \/
  region w' e' + region_size 640 e' <= region w e.
Proof.
  intros He He' Hne. pose proof al_last.
  assert (Ht : LAST_EXTENT_MAX_BMAP_BLOCK_NUM <= 640 < 2 ^ 32) by lia.
  pose proof (region_end 640 e Ht He). pose proof (region_end 640 e' Ht He').
  destruct (region_bounds 640 e Ht) as (_ & ? & _), (region_bounds 640 e' Ht) as (_ & ? & _).
  pose proof (region_size_nonneg 640 e Ht). pose proof (region_size_nonneg 640 e' Ht).
  unfold region. destruct (Z.lt_trichotomy w w') as [? | [-> | ?]]; [lia | | lia].
  destruct (Nat.lt_trichotomy e e') as [? | [-> | ?]]; [| by destruct Hne |].
  - pose proof (region_order 640 e e' Ht ltac:(lia)). lia.
  - pose proof (region_order 640 e' e Ht ltac:(lia)). lia.
Qed.

(** Two units share no block, whatever the workers and the extents. *)
Lemma units_apart w e no w' e' no' :
  (e < 7)%nat -> (e' < 7)%nat -> is_unit w e no -> is_unit w' e' no' ->
  (w, e, no) <> (w', e', no') -> ~ overlap e no e' no'.
Proof.
  intros He He' Hu Hu' Hne (b & Hb & Hb').
  pose proof (unit_in_region _ _ _ He Hu) as [H1 H2].
  pose proof (unit_in_region _ _ _ He' Hu') as [H3 H4]. assert (HB : 0 < BPB) by done.
  destruct (decide ((w, e) = (w', e'))) as [[= <- <-] | Hwe].
  2: { destruct (regions_apart w e w' e' He He' Hwe); nia. }
  assert (Hno : no <> no') by congruence. clear H1 H2 H3 H4.
  destruct Hu as (i & bit & Hi & -> & Hu), Hu' as (i' & bit' & Hi' & -> & Hu'). unfold unit_at in Hu, Hu'.
  destruct (al_unit e He) as [Hpos Hwhole]. destruct (unit_of e <? BPB) eqn:E; b2p.
  - destruct Hu as (? & ? & q & ->), Hu' as (? & ? & q' & ->).
    assert (i = i') as <- by nia. assert (q <> q') by congruence. nia.
  - destruct Hwhole as [Hm _]; [done |]. destruct Hu as [-> [q ->]], Hu' as [-> [q' ->]].
    apply Z.mod_divide in Hm as [m Hm]; [| lia]. rewrite Hm, Z.div_mul in * by lia.
    assert (q <> q') by congruence. nia.
Qed.

Definition bmap0 : Z := get_bmap_start_block_for_worker 0.

(** Block 0 is marked as used when the file system is made. *)
Definition reserved (c : cache) : Prop :=
  forall d bs, look c bmap0 = Present d bs -> get_bit bs 0 = true.

(** The effect of a granted unit on the bitmaps of its worker. *)
Definition granted (w : Z) (e : nat) (c : cache) (no : Z) (c' : cache) : Prop :=
  is_unit w e no /\ ~ taken c e no /\ taken c' e no /\
  (forall e' no', (e' < 7)%nat -> is_unit w e' no' -> (e', no') <> (e, no) ->
    taken c' e' no' <-> taken c e' no') /\
  (reserved c -> no <> 0 /\ reserved c').

(** No unit of extent [e] that a search looks at is free in the bitmaps of worker [w],
    those in [imm] left out.  Where units are single blocks and the region has several
    bitmap blocks, one of these is searched from the cursor [from] on only. *)
Definition exhausted (w : Z) (imm : gset Z) (from : Z) (c : cache) (e : nat) : Prop :=
  exists first, forall i bit, 0 <= i < region_size 640 e -> unit_at e i bit ->
    bmap0 + region w e + i ∉ imm ->
    (unit_of e = 1 -> region_size 640 e <> 1 -> i = first -> from < bit) ->
    taken c e ((region w e + i) * BPB + bit).

Lemma reserved_kept c c' bno d bs :
  reserved c -> kept c c' bno (Present d bs) -> (bno = bmap0 -> get_bit bs 0 = true) -> reserved c'.
Proof.
  intros Hr Hk Hb d' bs' Hl. rewrite Hk in Hl. case_if_in Hl; [injection Hl as <- <-; auto |].
  by eapply Hr.
Qed.

Lemma reserved_moved c c' bno : reserved c -> moved c c' bno Reading -> reserved c'.
Proof.
  intros Hr [Hb Ho] d bs Hl. destruct (decide (bmap0 = bno)) as [E | E]; [congruence |].
  destruct (Ho bmap0 E) as [E' | [E' _]]; rewrite E' in Hl; [by eapply Hr | done].
Qed.

Lemma reserved_same c c' : reserved c -> same_blocks c c' -> reserved c'.
Proof. intros Hr Hs d bs. rewrite Hs. apply Hr. Qed.

Lemma first_int_bit bs : first_int_zero bs = Ok true -> get_bit bs 0 = false.
Proof.
  unfold first_int_zero, get_bit. destruct (load bs 0) as [a | f] eqn:E; [| done].
  destruct (load bs 1), (load bs 2), (load bs 3); try done. cbn [res_bind]. intros [= H]. b2p. subst a.
  apply load_ok in E as [_ E]. change (Z.to_nat (0 / 8)) with (Z.to_nat 0). by rewrite E.
Qed.

Lemma bmap0_val : bmap0 = 10485766.
Proof. done. Qed.

Lemma region_range w e : 0 <= w < NMAX_FSP_WORKER -> (e < 7)%nat ->
  0 <= region w e /\ 0 <= region_size 640 e /\ region w e + region_size 640 e <= 6400.
Proof.
  intros Hw He. change NMAX_FSP_WORKER with 10 in Hw. pose proof al_last.
  assert (Ht : LAST_EXTENT_MAX_BMAP_BLOCK_NUM <= 640 < 2 ^ 32) by lia.
  pose proof (region_end 640 e Ht He). destruct (region_bounds 640 e Ht) as (_ & ? & _).
  pose proof (region_size_nonneg 640 e Ht). unfold region. lia.
Qed.

(** The numbers computed by the search. *)
Lemma unit_address w e i bit :
  0 <= w < NMAX_FSP_WORKER -> (e < 7)%nat -> 0 <= i < region_size 640 e -> 0 <= bit < BPB ->
  let disk := bmap0 + region w e in
  let no := (region w e + i) * BPB + bit in
  data_block_no disk i bit = no /\ to_u32 (disk + i) = bmap0 + no / BPB /\ no mod BPB = bit.
Proof.
  intros Hw He Hi Hb disk no. pose proof (region_range w e Hw He) as (? & ? & ?).
  assert (HB : BPB = 32768) by done. rewrite HB in *.
  assert (Hd : no / BPB = region w e + i).
  { unfold no. rewrite HB, Z.add_comm, Z.div_add, Z.div_small by lia. lia. }
  unfold data_block_no, disk. fold bmap0. rewrite HB in *.
  rewrite (to_u64_small (_ + _ - _ + _)), to_u64_small, to_u32_small
    by (rewrite ?bmap0_val; lia). rewrite Hd. split_and!; [lia.. |].
  unfold no. by rewrite Z.add_comm, Z.mod_add, Z.mod_small by lia.
Qed.

Lemma taken_kept c c' e bno x no :
  kept c c' bno x -> bmap0 + no / BPB <> bno -> taken c' e no <-> taken c e no.
Proof.
  intros Hk Hne. unfold taken. fold bmap0. rewrite Hk.
  destruct (_ =? _) eqn:E; b2p; [done |]. done.
Qed.

Lemma unit_bitmap_block w e no :
  (e < 7)%nat -> is_unit w e no -> region w e <= no / BPB < region w e + region_size 640 e.
Proof.
  intros He Hu. assert (HB : 0 < BPB) by done.
  pose proof (unit_in_region _ _ _ He Hu) as [H1 H2]. destruct (al_unit e He) as [Hpos _].
  pose proof (Z.mul_div_le no BPB HB). pose proof (Z.mul_succ_div_gt no BPB HB). nia.
Qed.

(** Units of one worker in the same bitmap block belong to the same extent. *)
Lemma same_bitmap_block w e no e' no' :
  0 <= w < NMAX_FSP_WORKER -> (e < 7)%nat -> (e' < 7)%nat -> is_unit w e no -> is_unit w e' no' ->
  no / BPB = no' / BPB -> e = e'.
Proof.
  intros Hw He He' Hu Hu' Hd. assert (HB : 0 < BPB) by done.
  destruct (decide (e = e')) as [| Hne]; [done | exfalso].
  pose proof (unit_bitmap_block w e no He Hu). pose proof (unit_bitmap_block w e' no' He' Hu').
  destruct (regions_apart w e w e' He He'); [congruence | lia..].
Qed.

Lemma granted_bit w e c c' i bit :
  0 <= w < NMAX_FSP_WORKER -> (e < 7)%nat -> 0 <= i < region_size 640 e -> unit_of e < BPB ->
  0 <= bit -> bit + unit_of e <= BPB -> (unit_of e | bit) ->
  took c c' (to_u32 (bmap0 + region w e + i)) bit ->
  granted w e c (data_block_no (bmap0 + region w e) i bit) c'.
Proof.
  intros Hw He Hi Hu Hb Hbu Hdiv (d & bs & bs' & Hl & Hg & Hwr & Hk).
  destruct (al_unit e He) as [Hpos _].
  destruct (unit_address w e i bit Hw He Hi ltac:(lia)) as (-> & Ebno & Emod).
  set (no := (region w e + i) * BPB + bit) in *. rewrite Ebno in Hl, Hk.
  assert (Hlt : unit_of e <? BPB = true) by by apply Z.ltb_lt.
  assert (Hunit : is_unit w e no) by (exists i, bit; unfold unit_at; rewrite Hlt; auto).
  destruct Hwr as (_ & _ & Hbits). split_and!; [done | | | |].
  - intros (d1 & bs1 & Hl1 & Ht). fold bmap0 in Hl1. rewrite Hl in Hl1. injection Hl1 as <- <-.
    rewrite Hlt, Emod in Ht. congruence.
  - exists d, bs'. fold bmap0. rewrite Hk, Z.eqb_refl, Hlt, Emod, Hbits by done.
    by rewrite Z.eqb_refl.
  - intros e' no' He' Hu' Hne. destruct (decide (no' / BPB = no / BPB)) as [Ed | Ed].
    2: { eapply taken_kept; [exact Hk | lia]. }
    assert (e' = e) as -> by by eapply same_bitmap_block. unfold taken. fold bmap0.
    rewrite Ed, Hk, Z.eqb_refl, Hl, Hlt.
    assert (Hmod : no' mod BPB <> bit).
    { intros Em. apply Hne. f_equal. rewrite (Z.div_mod no' BPB), (Z.div_mod no BPB) by done.
      congruence. }
    pose proof (Z.mod_pos_bound no' BPB ltac:(done)).
    split; intros (d1 & bs1 & [= <- <-] & Ht); eexists _, _; (split; [done |]).
    + rewrite Hbits in Ht by lia. destruct (_ =? _) eqn:E; b2p; [done | exact Ht].
    + rewrite Hbits by lia. destruct (_ =? _) eqn:E; b2p; [done | exact Ht].
  - intros Hr. split.
    + intros E0. rewrite E0 in Hl, Emod. change (0 / BPB) with 0 in Hl. change (0 mod BPB) with 0 in Emod.
      rewrite Z.add_0_r in Hl. apply Hr in Hl. congruence.
    + eapply reserved_kept; [done | exact Hk |]. intros Eb. rewrite Hbits by done.
      rewrite Eb in Hl. apply Hr in Hl. by destruct (0 =? bit).
Qed.

Lemma first_int_ones : first_int_zero (replicate (Z.to_nat BSIZE) 1) = Ok false.
Proof. done. Qed.

Lemma granted_whole w e c c' i :
  0 <= w < NMAX_FSP_WORKER -> (e < 7)%nat -> 0 <= i < region_size 640 e -> BPB <= unit_of e ->
  found_whole (bmap0 + region w e) (unit_of e / BPB) c
    (data_block_no (bmap0 + region w e) i 0) i c' ->
  granted w e c (data_block_no (bmap0 + region w e) i 0) c'.
Proof.
  intros Hw He Hi Hu (_ & Hdiv & d & bs & Hl & Hg & Hk).
  destruct (unit_address w e i 0 Hw He Hi) as (-> & Ebno & Emod); [done |].
  set (no := (region w e + i) * BPB + 0) in *. rewrite Ebno in Hl, Hk.
  assert (Hlt : unit_of e <? BPB = false) by by apply Z.ltb_ge.
  assert (Hunit : is_unit w e no) by (exists i, 0; unfold unit_at; rewrite Hlt; auto).
  split_and!; [done | | | |].
  - intros (d1 & bs1 & Hl1 & Ht). fold bmap0 in Hl1. rewrite Hl in Hl1. injection Hl1 as <- <-.
    rewrite Hlt in Ht. congruence.
  - exists d, (replicate (Z.to_nat BSIZE) 1). fold bmap0. rewrite Hk, Z.eqb_refl, Hlt.
    split; [done | apply first_int_ones].
  - intros e' no' He' Hu' Hne. eapply taken_kept; [exact Hk |]. intros Ed.
    assert (no' / BPB = no / BPB) as Ed' by lia.
    assert (e' = e) as -> by by eapply same_bitmap_block. apply Hne. f_equal.
    destruct Hu' as (i' & bit' & Hi' & -> & Hx). unfold unit_at in Hx. rewrite Hlt in Hx. destruct Hx as [-> _].
    unfold no in *. rewrite !Z.add_0_r, !Z.div_mul in Ed' by done. congruence.
  - intros Hr. apply first_int_bit in Hg. split.
    + intros E0. rewrite E0 in Hl. change (0 / BPB) with 0 in Hl. rewrite Z.add_0_r in Hl.
      apply Hr in Hl. congruence.
    + by eapply reserved_kept.
Qed.

Lemma unit_lt e : unit_of e < 2 ^ 32.
Proof.
  unfold unit_of, extentArrIdx2BlockAllocUnit.
  repeat case_if; try lia; apply Z.mod_pos_bound; lia.
Qed.

Section Search.
Context (e : nat) (s : FsImpl) (r : FsReq).
Hypothesis (He : (e < 7)%nat) (Hw : 0 <= idx_ s < NMAX_FSP_WORKER).
Hypothesis (Hok : bmap_ok (bmapBlockBuf s)) (Hcur : cursor_ok s).

Let disk := bmap0 + region (idx_ s) e.
Let maxBmap := region_size 640 e.

Definition grants (out : res (search * FsImpl * FsReq)) : Prop :=
  search_left (fun no _ c' => granted (idx_ s) e (bmapBlockBuf s) no c')
    (exhausted (idx_ s) (immutableBlockBitmaps s) (next_bit 1 s) (bmapBlockBuf s) e) disk maxBmap s r out.

(** The bitmap block of a unit, as the search computes it. *)
Lemma search_address i : 0 <= i < maxBmap -> to_u32 (disk + i) = bmap0 + region (idx_ s) e + i.
Proof.
  intros Hi. pose proof (region_range (idx_ s) e Hw He) as (? & _ & ?). unfold maxBmap, disk in *.
  apply to_u32_small. rewrite bmap0_val. lia.
Qed.

(** Every residue is visited. *)
Lemma rotation k i : 0 <= i < maxBmap -> exists j, 0 <= j < maxBmap /\ (k + j) mod maxBmap = i.
Proof.
  intros Hi. exists ((i - k) mod maxBmap). split; [apply Z.mod_pos_bound; lia |].
  rewrite Z.add_mod_idemp_r by lia. replace (k + (i - k)) with i by lia. by apply Z.mod_small.
Qed.

Lemma swept_exhausted k :
  unit_of e < BPB ->
  swept (unit_of e) disk maxBmap (Z.to_nat maxBmap) k (immutableBlockBitmaps s) (next_bit 1 s) (bmapBlockBuf s) ->
  exhausted (idx_ s) (immutableBlockBitmaps s) (next_bit 1 s) (bmapBlockBuf s) e.
Proof.
  intros Hlt [first Hf]. exists first. intros i bit Hi Hu Him Hfr. fold maxBmap in Hi, Hfr.
  unfold unit_at in Hu. rewrite (proj2 (Z.ltb_lt _ _) Hlt) in Hu. destruct Hu as (Hb0 & Hb1 & Hdiv).
  destruct (al_unit e He) as [Hpos _]. destruct (rotation k i Hi) as (j & Hj & Ej).
  destruct (Hf j ltac:(lia)) as (d & bs & Hl & Hset); [rewrite Ej, search_address by done; done |].
  rewrite Ej in Hl, Hset.
  destruct (unit_address (idx_ s) e i bit Hw He Hi ltac:(lia)) as (_ & Ebno & Emod).
  exists d, bs. fold bmap0. rewrite <- Ebno, Emod, (proj2 (Z.ltb_lt _ _) Hlt). split; [done |].
  apply Hset; [done.. |]. intros H1 H2. destruct (decide (i = first)); [by apply Hfr | lia].
Qed.

Lemma whole_exhausted :
  BPB <= unit_of e ->
  whole_swept disk maxBmap (unit_of e / BPB) 0 (immutableBlockBitmaps s) (bmapBlockBuf s) ->
  exhausted (idx_ s) (immutableBlockBitmaps s) (next_bit 1 s) (bmapBlockBuf s) e.
Proof.
  intros Hge Hsw. exists 0. intros i bit Hi Hu Him _. fold maxBmap in Hi. unfold unit_at in Hu.
  rewrite (proj2 (Z.ltb_ge _ _) Hge) in Hu. destruct Hu as [-> Hdiv].
  destruct (Hsw i Hi Hdiv) as (d & bs & Hl & Hz); [rewrite search_address by done; done |].
  destruct (unit_address (idx_ s) e i 0 Hw He Hi) as (_ & Ebno & _); [done |].
  exists d, bs. fold bmap0. rewrite <- Ebno, (proj2 (Z.ltb_ge _ _) Hge). done.
Qed.

Lemma region_loop_grants find mark k :
  unit_of e < BPB ->
  (forall bs s, bytes_ok bs -> Z.of_nat (length bs) = BSIZE -> cursor_ok s ->
     exists bit s1, find bs s = Ok (bit, s1) /\ bmapBlockBuf s1 = bmapBlockBuf s /\ frame s s1 /\
       cursor_ok s1 /\ (0 <= bit -> bit + unit_of e <= BPB /\ (unit_of e | bit) /\ bit < BPB /\
         get_bit bs bit = false) /\
       (bit < 0 -> units_set (unit_of e) maxBmap (next_bit 1 s) bs /\
         (unit_of e = 1 -> next_bit 1 s1 = -1))) ->
  (forall bit s, 0 <= bit < BPB -> cursor_ok s -> bmapBlockBuf (mark bit s) = bmapBlockBuf s /\
     frame s (mark bit s) /\ cursor_ok (mark bit s)) ->
  grants (bmap_loop find mark (unit_of e) (Z.to_nat maxBmap) k disk maxBmap s r).
Proof.
  intros Hlt Hfind Hmark. pose proof (region_range (idx_ s) e Hw He) as (_ & Hrs & _).
  destruct (decide (maxBmap = 0)) as [E0 | E0].
  - rewrite E0. cbn. split; [apply fs_frame_refl |]. do 4 (split; [done |]).
    exists 0. intros i bit Hi. fold maxBmap in Hi. lia.
  - eapply search_left_same; [apply fs_frame_refl | apply same_refl | done | | by apply swept_exhausted |].
    2: { apply bmap_loop_spec; eauto. unfold maxBmap in *. lia. }
    intros no i c Hi (bit & ? & ? & ? & -> & Ht). by apply granted_bit.
Qed.

Lemma whole_loop_grants :
  BPB <= unit_of e ->
  grants (whole_loop (Z.to_nat maxBmap) 0 disk maxBmap (unit_of e / BPB) s r).
Proof.
  intros Hle. assert (HB : BPB = 32768) by done.
  pose proof (region_range (idx_ s) e Hw He) as (? & Hrs & ?). pose proof (unit_lt e).
  assert (Hst : 0 < unit_of e / BPB) by (apply Z.div_str_pos; lia).
  assert (Hup : unit_of e / BPB < 131072) by (apply Z.div_lt_upper_bound; rewrite ?HB; lia).
  eapply search_left_same; [apply fs_frame_refl | apply same_refl | done | | by apply whole_exhausted |].
  2: { apply whole_loop_spec; [exact Hst | | lia | apply Z.divide_0_r | | | exact Hok | exact Hcur];
         unfold maxBmap; lia. }
  intros no i c Hi Hf. pose proof Hf as (-> & _). by apply granted_whole.
Qed.

Lemma find_extent_spec : grants (find_extent (Z.of_nat e) s r).
Proof.
  pose proof (region_range (idx_ s) e Hw He) as (Hr0 & Hrs & Hr1).
  pose proof al_last. unfold find_extent. rewrite bmap_worker_blocks, getDataBMapStart_ok by lia.
  cbn [res_bind].
  assert (to_u32 (get_bmap_start_block_for_worker (idx_ s) + region_start 640 e) = disk) as ->.
  { rewrite bmap_start_ok by lia. change NMAX_FSP_WORKER with 10 in Hw. unfold disk.
    unfold region in *. rewrite bmap0_val in *. rewrite to_u32_small by lia. lia. }
  fold (unit_of e) maxBmap. destruct (unit_of e =? 1) eqn:E1; b2p.
  { unfold unit1_loop. rewrite <- E1. apply region_loop_grants; [by rewrite E1 | |].
    - rewrite E1. intros bs s1. apply unit1_find_spec.
    - rewrite E1. intros bit s1 Hb Hc. split; [done |]. split; [apply fs_frame_next | apply cursor_set; lia]. }
  destruct (unit_of e <? BPB) eqn:E2; b2p; [| by apply whole_loop_grants].
  destruct (al_unit e He) as [Hpos _]. apply region_loop_grants; [done | |].
  - intros bs s1. apply jump_find_spec; [lia | done].
  - intros bit s1 Hb Hc. split; [done |]. split; [apply fs_frame_refl | done].
Qed.

End Search.

(** ** The extents of an inode *)

(** How many blocks extent [e] has when the file has [n]. *)
Definition filled (n : Z) (e : nat) : Z := Z.max 0 (Z.min (n - ext_base e) (unit_of e)).

Definition extents_ok (n : Z) (a : list cfs_extent) : Prop :=
  length a = 7%nat /\ 0 <= n <= ext_base 7 /\
  forall e x, a !! e = Some x -> num_blocks x = filled n e.

(** The extents are filled in order, up to the number of blocks of the inode. *)
Definition inode_ok (d : cfs_dinode) : Prop := extents_ok (i_block_count d) (ext_array d).

(** Extents that were there keep their place. *)
Definition in_place (a a' : list cfs_extent) : Prop :=
  forall e x x', a !! e = Some x -> a' !! e = Some x' -> num_blocks x <> 0 ->
    block_no x' = block_no x /\ num_blocks x' <> 0.

(** New extents are units of worker [w] that were free in [c], and not block 0. *)
Definition placed_by (w : Z) (c : cache) (a a' : list cfs_extent) : Prop :=
  forall e x x', a !! e = Some x -> a' !! e = Some x' -> num_blocks x = 0 -> num_blocks x' <> 0 ->
    is_unit w e (block_no x') /\ (reserved c -> block_no x' <> 0) /\ ~ taken c e (block_no x').

(** Extent [e] is new in [a'], at block [no]. *)
Definition added (a a' : list cfs_extent) (e : nat) (no : Z) : Prop :=
  exists x x', a !! e = Some x /\ a' !! e = Some x' /\ num_blocks x = 0 /\ num_blocks x' <> 0 /\
    block_no x' = no.

(** The units of worker [w] that are in use in [c'] are those that are in use in [c] and
    the new extents. *)
Definition recorded (w : Z) (c c' : cache) (a a' : list cfs_extent) : Prop :=
  forall e no, (e < 7)%nat -> is_unit w e no -> taken c' e no <-> taken c e no \/ added a a' e no.

(** Block [n] of a file is block [inside] of extent [e], or the file is full. *)
Definition position (n : Z) (e : nat) (inside : Z) : Prop :=
  (e <= 7)%nat /\ n = ext_base e + inside /\ 0 <= inside /\
  ((e < 7)%nat /\ inside < unit_of e \/ e = 7%nat /\ inside = 0).

Lemma base_next e : ext_base (S e) = ext_base e + unit_of e.
Proof. done. Qed.

Lemma position_extent n e inside :
  (e < 7)%nat -> position n e inside -> 0 <= inside < unit_of e.
Proof. unfold position. lia. Qed.

Lemma position_bound n e inside : position n e inside -> 0 <= n <= ext_base 7.
Proof.
  intros (He & -> & Hi & Hu). pose proof (ext_base_mono e 7 ltac:(lia)).
  destruct (decide (e = 7%nat)) as [-> | Hne]; [lia |].
  pose proof (ext_base_mono (S e) 7 ltac:(lia)) as Hb. rewrite base_next in Hb. lia.
Qed.

Lemma position_add n e inside k :
  (e < 7)%nat -> position n e inside -> 0 <= k -> inside + k <= unit_of e ->
  if decide (inside + k < unit_of e) then position (n + k) e (inside + k)
  else position (n + k) (S e) 0.
Proof.
  intros He (_ & -> & Hi & Hu) Hk Hle. unfold position. destruct (decide _).
  - lia.
  - rewrite base_next. split; [lia |]. split; [lia |]. split; [lia |].
    destruct (decide (S e < 7)%nat) as [Hlt | Hge]; [| right; lia].
    left. split; [done | by apply al_unit].
Qed.

Lemma position_exists n : 0 <= n <= ext_base 7 -> exists e inside, position n e inside.
Proof.
  intros Hn. assert (H : forall k, (k <= 7)%nat -> n <= ext_base k ->
    exists e inside, position n e inside).
  { induction k as [| k IH]; intros Hk Hle.
    - exists 0%nat, 0. cbn in Hle. split; [lia |]. cbn. split; [lia |]. split; [lia |]. left.
      split; [lia | apply al_unit; lia].
    - rewrite base_next in Hle. destruct (decide (n <= ext_base k)); [by apply IH; lia |].
      destruct (decide (n = ext_base k + unit_of k)) as [-> | Hne].
      + exists (S k), 0. rewrite <- base_next. split; [lia |]. split; [lia |]. split; [lia |].
        destruct (decide (S k < 7)%nat); [left; split; [done | by apply al_unit] | right; lia].
      + exists k, (n - ext_base k). unfold position. lia. }
  apply (H 7%nat); lia.
Qed.

Lemma base_split e f : (f < e)%nat -> ext_base f + unit_of f <= ext_base e.
Proof. intros H. rewrite <- base_next. apply ext_base_mono. lia. Qed.

(** The extent the code computes is the one of the position. *)
Lemma current_extent n e inside :
  position n e inside ->
  exists i m, getCurrentExtentArrIdx n =
    (if decide (e < 7)%nat then (Z.of_nat e, inside, unit_of e) else (-1, i, m)).
Proof.
  intros Hp. pose proof (position_bound _ _ _ Hp). pose proof ok_file_blocks.
  pose proof (extent_loop_spec 7 0 n eq_refl ltac:(cbn [ext_base]; lia)) as Hl.
  unfold getCurrentExtentArrIdx. change (Z.to_nat NEXTENT_ARR) with 7%nat.
  change (Z.of_nat 0) with 0 in Hl. change (ext_base 0) with 0 in Hl.
  destruct (extent_loop 7 0 n 0) as [[i inside'] m]. destruct Hl as [H1 H2].
  destruct Hp as (He & Hn & Hi & Hu). destruct (decide (e < 7)%nat) as [Hlt | Hge].
  - pose proof (base_split 7 e Hlt). destruct H1 as (f & -> & Hf & -> & Hin & E); [lia |].
    fold (unit_of f) in *. exists 0, 0.
    destruct (Nat.lt_trichotomy e f) as [Hl | [<- | Hl]].
    + pose proof (base_split f e Hl). lia.
    + by replace inside' with inside by lia.
    + pose proof (base_split e f Hl). lia.
  - assert (e = 7%nat) as -> by lia. rewrite H2 by lia. eauto.
Qed.

Lemma filled_at n e inside : (e < 7)%nat -> position n e inside -> filled n e = inside.
Proof. intros He (_ & -> & Hi). unfold filled. lia. Qed.

Lemma filled_other n k e inside f :
  (e < 7)%nat -> f <> e -> position n e inside -> 0 <= k -> inside + k <= unit_of e ->
  filled (n + k) f = filled n f.
Proof.
  intros He Hne (_ & -> & Hi & Hu) Hk Hle. unfold filled.
  pose proof (unit_nonneg (Z.of_nat f)). fold (unit_of f) in *.
  destruct (decide (f < e)%nat).
  - pose proof (base_split e f ltac:(lia)). lia.
  - pose proof (base_split f e ltac:(lia)). lia.
Qed.

Lemma extents_ok_add n e inside k x' a :
  (e < 7)%nat -> position n e inside -> 0 <= k -> inside + k <= unit_of e ->
  extents_ok n a -> num_blocks x' = inside + k -> extents_ok (n + k) (<[e := x']> a).
Proof.
  intros He Hp Hk Hle (Hlen & Hn & Ha) Hx. pose proof (position_add _ _ _ k He Hp Hk Hle) as Hp'.
  split; [by rewrite length_insert |].
  split; [destruct (decide _); by eapply position_bound |].
  intros f y Hf. destruct (decide (f = e)) as [-> | Hne].
  - rewrite list_lookup_insert_eq in Hf by lia. injection Hf as <-. rewrite Hx.
    destruct Hp as (_ & -> & Hi & Hu). unfold filled. lia.
  - rewrite list_lookup_insert_ne in Hf by done. rewrite (Ha _ _ Hf). symmetry.
    by eapply filled_other.
Qed.

Lemma in_place_refl a : in_place a a.
Proof. intros e x x' H H' Hx. split; congruence. Qed.

Lemma in_place_trans a a1 a2 :
  length a1 = length a -> in_place a a1 -> in_place a1 a2 -> in_place a a2.
Proof.
  intros Hlen H1 H2 e x x2 Hx Hx2 Hn.
  destruct (lookup_lt_is_Some_2 a1 e) as [x1 Hx1].
  { rewrite Hlen. by eapply lookup_lt_Some. }
  destruct (H1 _ _ _ Hx Hx1 Hn) as [E1 N1]. destruct (H2 _ _ _ Hx1 Hx2 N1) as [E2 N2].
  split; congruence.
Qed.

Lemma added_same a e no : ~ added a a e no.
Proof. intros (x & x' & H & H' & Hx & Hx' & _). congruence. Qed.

Lemma recorded_refl w c a : recorded w c c a a.
Proof. intros e no _ _. pose proof (added_same a e no). tauto. Qed.

Lemma added_trans a a1 a2 e no :
  length a1 = length a -> in_place a a1 -> in_place a1 a2 -> length a2 = length a1 ->
  added a a2 e no <-> added a a1 e no \/ added a1 a2 e no.
Proof.
  intros Hlen Hp1 Hp2 Hlen2. split.
  - intros (x & x2 & Hx & Hx2 & Hn & Hn2 & Eno).
    destruct (lookup_lt_is_Some_2 a1 e) as [x1 Hx1]; [rewrite Hlen; by eapply lookup_lt_Some |].
    destruct (decide (num_blocks x1 = 0)) as [E | E]; [right; by exists x1, x2 | left].
    destruct (Hp2 _ _ _ Hx1 Hx2 E) as [E2 _]. exists x, x1. split_and!; congruence.
  - intros [(x & x1 & Hx & Hx1 & Hn & Hn1 & Eno) | (x1 & x2 & Hx1 & Hx2 & Hn & Hn1 & Eno)].
    + destruct (lookup_lt_is_Some_2 a2 e) as [x2 Hx2]; [rewrite Hlen2; by eapply lookup_lt_Some |].
      destruct (Hp2 _ _ _ Hx1 Hx2 Hn1) as [E2 N2]. exists x, x2. split_and!; congruence.
    + destruct (lookup_lt_is_Some_2 a e) as [x Hx]; [rewrite <- Hlen; by eapply lookup_lt_Some |].
      exists x, x2. split_and!; try done. destruct (decide (num_blocks x = 0)) as [| E]; [done |].
      destruct (Hp1 _ _ _ Hx Hx1 E) as [_ ?]. congruence.
Qed.

Lemma recorded_trans w c c1 c2 a a1 a2 :
  length a1 = length a -> length a2 = length a1 -> in_place a a1 -> in_place a1 a2 ->
  recorded w c c1 a a1 -> recorded w c1 c2 a1 a2 -> recorded w c c2 a a2.
Proof.
  intros Hl1 Hl2 Hp1 Hp2 H1 H2 e no He Hu. rewrite (H2 e no He Hu), (H1 e no He Hu).
  rewrite (added_trans a a1 a2) by done. tauto.
Qed.

Lemma placed_refl w c a : placed_by w c a a.
Proof. intros e x x' H H' Hx Hx'. congruence. Qed.

Lemma placed_trans w c c1 a a1 a2 :
  length a = 7%nat -> length a1 = length a -> in_place a1 a2 -> (reserved c -> reserved c1) ->
  recorded w c c1 a a1 -> placed_by w c a a1 -> placed_by w c1 a1 a2 -> placed_by w c a a2.
Proof.
  intros H7 Hlen Hp Hr Hrec H1 H2 e x x2 Hx Hx2 Hn Hn2.
  assert (He : (e < 7)%nat) by (rewrite <- H7; by eapply lookup_lt_Some).
  destruct (lookup_lt_is_Some_2 a1 e) as [x1 Hx1]; [rewrite Hlen; by eapply lookup_lt_Some |].
  destruct (decide (num_blocks x1 = 0)) as [E | E].
  - destruct (H2 _ _ _ Hx1 Hx2 E Hn2) as (Hu & H0 & Ht). split_and!; [done | auto |].
    intros Hc. apply Ht, Hrec; auto.
  - destruct (H1 _ _ _ Hx Hx1 Hn E) as (Hu & H0 & Ht).
    destruct (Hp _ _ _ Hx1 Hx2 E) as [-> _]. auto.
Qed.

(** Storing a granted unit, and growing an extent in place. *)
Lemma put_granted w c c' e x no o a :
  (e < 7)%nat -> a !! e = Some x -> num_blocks x = 0 -> granted w e c no c' ->
  let a' := <[e := mk_extent o 1 no]> a in
  in_place a a' /\ recorded w c c' a a' /\ placed_by w c a a' /\ (reserved c -> reserved c').
Proof.
  intros He Hx Hn (Hu & Hf & Ht & Ho & Hr) a'. pose proof (lookup_lt_Some _ _ _ Hx) as Hlt.
  assert (Hat : forall f y', a' !! f = Some y' -> f = e /\ y' = mk_extent o 1 no \/ f <> e /\ a !! f = Some y').
  { intros f y' Hy'. unfold a' in Hy'. destruct (decide (f = e)) as [-> | Hne].
    - rewrite list_lookup_insert_eq in Hy' by done. left. by injection Hy' as <-.
    - rewrite list_lookup_insert_ne in Hy' by done. by right. }
  split; [| split; [| split]].
  - intros f y y' Hy Hy' Hny. destruct (Hat _ _ Hy') as [[-> ->] | [_ Hy2]]; [congruence |].
    split; congruence.
  - intros f m Hf7 Hum. split.
    + intros Htm. destruct (decide ((f, m) = (e, no))) as [[= -> ->] | Hne].
      * right. exists x, (mk_extent o 1 no). unfold a'. rewrite list_lookup_insert_eq by done. done.
      * left. by apply Ho.
    + intros [Htm | (y & y' & Hy & Hy' & Hny & Hny' & <-)].
      * destruct (decide ((f, m) = (e, no))) as [[= -> ->] | Hne]; [done |]. by apply Ho.
      * destruct (Hat _ _ Hy') as [[-> ->] | [_ Hy2]]; [done | congruence].
  - intros f y y' Hy Hy' Hny Hny'. destruct (Hat _ _ Hy') as [[-> ->] | [_ Hy2]]; [| congruence].
    split; [done |]. split; [by intros [? _]%Hr | done].
  - by intros [_ ?]%Hr.
Qed.

Lemma put_grown w c e x k a :
  a !! e = Some x -> num_blocks x <> 0 -> k <> 0 ->
  let a' := <[e := mk_extent (i_block_offset x) k (block_no x)]> a in
  in_place a a' /\ recorded w c c a a' /\ placed_by w c a a' /\ (reserved c -> reserved c).
Proof.
  intros Hx Hn Hk a'. pose proof (lookup_lt_Some _ _ _ Hx).
  assert (Hno : forall f y y', a !! f = Some y -> a' !! f = Some y' -> num_blocks y = 0 -> num_blocks y' = 0).
  { intros f y y' Hy Hy' Hny. unfold a' in Hy'. destruct (decide (f = e)) as [-> | Hne]; [congruence |].
    rewrite list_lookup_insert_ne in Hy' by done. congruence. }
  split; [| split; [| split; [| done]]].
  - intros f y y' Hy Hy' Hny. unfold a' in Hy'. destruct (decide (f = e)) as [-> | Hne].
    + rewrite list_lookup_insert_eq in Hy' by done. injection Hy' as <-. assert (y = x) as -> by congruence. done.
    + rewrite list_lookup_insert_ne in Hy' by done. split; congruence.
  - intros f no _ _. split; [by left |]. intros [? | (y & y' & Hy & Hy' & Hny & Hny' & _)]; [done |].
    by destruct (Hno _ _ _ Hy Hy' Hny).
  - intros f y y' Hy Hy' Hny Hny'. by destruct (Hno _ _ _ Hy Hy' Hny).
Qed.

(** Inodes that differ in their extents and their number of blocks only. *)
Definition same_inode (d d' : cfs_dinode) : Prop :=
  d' = InodeLog.with_ext_array (ext_array d') (InodeLog.direct_set (InodeLog.SetBlockCount (i_block_count d')) d).

Lemma same_inode_fields d d' :
  same_inode d d' ->
  i_no d' = i_no d /\ Layout.size d' = Layout.size d /\ i_dentry_count d' = i_dentry_count d.
Proof. unfold same_inode. destruct d, d'. cbn. intros [=]. by subst. Qed.

Lemma same_inode_refl d : same_inode d d.
Proof. by destruct d. Qed.

Lemma same_inode_trans d d1 d2 : same_inode d d1 -> same_inode d1 d2 -> same_inode d d2.
Proof. unfold same_inode. destruct d, d1, d2. cbn. intros [=] [=]. by subst. Qed.

(** The extents stored, in order, and whether each store follows a change of the bitmaps. *)
Notation stores := (list (nat * cfs_extent * bool)).

Definition store_all (ws : stores) (a : list cfs_extent) : list cfs_extent :=
  foldl (fun a w => <[w.1.1 := w.1.2]> a) a ws.
Definition log_all (ws : stores) (l : InodeLog.InodeLogEntry) : InodeLog.InodeLogEntry :=
  foldl (fun l w => InodeLog.update_extent w.1.2 true w.2 l) l ws.

(** The bitmaps change for an extent that was empty, and only then. *)
Fixpoint flags_right (a : list cfs_extent) (ws : stores) : Prop :=
  match ws with
  | [] => True
  | (e, x, bm) :: ws' =>
      (exists y, a !! e = Some y /\ bm = (num_blocks y =? 0)) /\ flags_right (<[e := x]> a) ws'
  end.

(** The log has every extent that was stored, and with [count] the number of blocks; it
    has no other change. *)
Definition logged (count : bool) (inode inode' : InMemInode) : Prop :=
  exists ws, ext_array (inodeData inode') = store_all ws (ext_array (inodeData inode)) /\
    flags_right (ext_array (inodeData inode)) ws /\
    logEntry inode' =
      (if count then InodeLog.set_field (InodeLog.SetBlockCount (i_block_count (inodeData inode')))
       else id) (log_all ws (logEntry inode)).

Lemma flags_right_app a ws1 ws2 :
  flags_right a ws1 -> flags_right (store_all ws1 a) ws2 -> flags_right a (ws1 ++ ws2).
Proof.
  revert a. induction ws1 as [| [[e x] bm] ws1 IH]; intros a H1 H2; [done |].
  destruct H1 as [Hy H1]. cbn. split; [done |]. by apply IH.
Qed.

Lemma logged_refl inode : logged false inode inode.
Proof. by exists []. Qed.

Lemma logged_trans count inode inode1 inode2 :
  logged false inode inode1 -> logged count inode1 inode2 -> logged count inode inode2.
Proof.
  intros (ws1 & E1 & F1 & L1) (ws2 & E2 & F2 & L2). exists (ws1 ++ ws2).
  unfold store_all, log_all in *. rewrite !foldl_app, <- E1. cbn [id] in L1. rewrite <- L1.
  split; [done |]. split; [| done]. apply flags_right_app; [done |]. unfold store_all. by rewrite <- E1.
Qed.

Definition set_extent (e : nat) (x : cfs_extent) (bm : bool) (inode : InMemInode) : InMemInode :=
  mk_inode (InodeLog.with_ext_array (<[e := x]> (ext_array (inodeData inode))) (inodeData inode))
    (InodeLog.update_extent x true bm (logEntry inode)).

Lemma store_extent_ok e x y bm inode :
  ext_array (inodeData inode) !! e = Some y ->
  store_extent (Z.of_nat e) x bm inode = Ok (set_extent e x bm inode).
Proof.
  intros H. unfold store_extent. apply lookup_lt_Some in H. rewrite store_ok by lia.
  cbn [res_bind]. by rewrite Nat2Z.id.
Qed.

Lemma set_extent_fields e x bm inode :
  ext_array (inodeData (set_extent e x bm inode)) = <[e := x]> (ext_array (inodeData inode)) /\
  i_block_count (inodeData (set_extent e x bm inode)) = i_block_count (inodeData inode) /\
  same_inode (inodeData inode) (inodeData (set_extent e x bm inode)).
Proof. unfold set_extent, same_inode. by destruct (inodeData inode). Qed.

Lemma set_extent_logged e x y bm inode :
  ext_array (inodeData inode) !! e = Some y -> bm = (num_blocks y =? 0) ->
  logged false inode (set_extent e x bm inode).
Proof.
  intros Hy Hb. exists [(e, x, bm)]. destruct (set_extent_fields e x bm inode) as (-> & _).
  split; [done |]. split; [split; [by exists y | done] | done].
Qed.

Lemma set_block_count_fields n inode :
  ext_array (inodeData (set_block_count n inode)) = ext_array (inodeData inode) /\
  i_block_count (inodeData (set_block_count n inode)) = n /\
  same_inode (inodeData inode) (inodeData (set_block_count n inode)).
Proof. unfold set_block_count, same_inode. by destruct (inodeData inode). Qed.

Lemma set_block_count_logged n inode : logged true inode (set_block_count n inode).
Proof.
  exists []. destruct (set_block_count_fields n inode) as (-> & E & _). split; [done |]. split; [done |].
  rewrite E. done.
Qed.

(** Why an allocation that is to bring the file to [goal] blocks finds no space: a file
    cannot have so many blocks, or the next extent it needs is empty and no unit for it
    is free.  The first extent is searched from the cursor of [s] on. *)
Definition out_of_space (goal : Z) (s : FsImpl) (inode' : InMemInode) (c' : cache) : Prop :=
  ext_base 7 < goal \/
  exists e x from, (e < 7)%nat /\ ext_base e < goal /\
    ext_array (inodeData inode') !! e = Some x /\ num_blocks x = 0 /\
    (e = 0%nat -> from = next_bit 1 s) /\
    exhausted (idx_ s) (immutableBlockBitmaps s) from c' e.

(** How an allocation that is to bring the file to [goal] blocks ends: done, to be
    called again when a bitmap block has been read, or out of space. *)
Definition alloc_ends (goal : Z) (inode : InMemInode) (s : FsImpl) (r : FsReq)
    (out : res (Z * InMemInode * FsImpl * FsReq)) : Prop :=
  match out with
  | Ok (v, inode', s', r') =>
      let a := ext_array (inodeData inode) in let a' := ext_array (inodeData inode') in
      same_inode (inodeData inode) (inodeData inode') /\
      frame s s' /\ cursor_ok s' /\ bmap_ok (bmapBlockBuf s') /\ in_place a a' /\
      placed_by (idx_ s) (bmapBlockBuf s) a a' /\
      (reserved (bmapBlockBuf s) -> reserved (bmapBlockBuf s')) /\
      ((v = to_u32 (goal - i_block_count (inodeData inode)) /\ r' = r /\
        inode_ok (inodeData inode') /\ i_block_count (inodeData inode') = goal /\
        recorded (idx_ s) (bmapBlockBuf s) (bmapBlockBuf s') a a' /\ logged true inode inode') \/
       (v = 0 /\ (exists bno, pending_on bno r r') /\ inode_ok (inodeData inode') /\
        i_block_count (inodeData inode) <= i_block_count (inodeData inode') < goal /\
        logged true inode inode') \/
       (v = -1 /\ r' = r /\ i_block_count (inodeData inode') = i_block_count (inodeData inode) /\
        recorded (idx_ s) (bmapBlockBuf s) (bmapBlockBuf s') a a' /\ logged false inode inode' /\
        length a' = length a /\ out_of_space goal s inode' (bmapBlockBuf s')))
  | Crash f => f = AssertFail /\ no_room (fun _ => 0) BSIZE (fun _ => False) (bmapBlockBuf s)
  end.

Lemma frame_idx s s' : frame s s' -> idx_ s' = idx_ s.
Proof. by intros (c & u & b & ->). Qed.

Lemma frame_imm s s' : frame s s' -> immutableBlockBitmaps s' = immutableBlockBitmaps s.
Proof. by intros (c & u & b & ->). Qed.

(** Progress made before the rest of the allocation: an extent has been stored, so that
    the first one is not empty any more. *)
Lemma alloc_ends_after goal inode inode1 s s1 r out :
  length (ext_array (inodeData inode)) = 7%nat ->
  length (ext_array (inodeData inode1)) = 7%nat ->
  i_block_count (inodeData inode1) = i_block_count (inodeData inode) ->
  same_inode (inodeData inode) (inodeData inode1) -> logged false inode inode1 -> frame s s1 ->
  (exists x0, ext_array (inodeData inode1) !! 0%nat = Some x0 /\ num_blocks x0 <> 0) ->
  in_place (ext_array (inodeData inode)) (ext_array (inodeData inode1)) /\
  recorded (idx_ s) (bmapBlockBuf s) (bmapBlockBuf s1)
    (ext_array (inodeData inode)) (ext_array (inodeData inode1)) /\
  placed_by (idx_ s) (bmapBlockBuf s) (ext_array (inodeData inode)) (ext_array (inodeData inode1)) /\
  (reserved (bmapBlockBuf s) -> reserved (bmapBlockBuf s1)) -> calm (bmapBlockBuf s) (bmapBlockBuf s1) ->
  alloc_ends goal inode1 s1 r out -> alloc_ends goal inode s r out.
Proof.
  intros Hl Hl1 Hc Hsi Hlog Hf (x0 & Hx0 & Hn0) (Hp & Hr & Hpl & Hres) Hcm H.
  destruct out as [[[[v inode'] s'] r'] | f].
  2: { destruct H as [-> H]. split; [done | by eapply no_room_later]. }
  destruct H as (Hsi' & Hf' & Hcur & Hb & Hp' & Hpl' & Hres' & H). cbn zeta in *.
  rewrite (frame_idx _ _ Hf) in H, Hpl'. rewrite Hc in H.
  assert (Htr : forall c', length (ext_array (inodeData inode')) = 7%nat -> recorded (idx_ s) (bmapBlockBuf s1) c'
    (ext_array (inodeData inode1)) (ext_array (inodeData inode')) -> recorded (idx_ s)
    (bmapBlockBuf s) c' (ext_array (inodeData inode)) (ext_array (inodeData inode'))).
  { intros c' Hl' Hr'. refine (recorded_trans _ _ _ _ _ _ _ _ _ Hp Hp' Hr Hr'); congruence. }
  split; [by eapply same_inode_trans |].
  split; [by eapply fs_frame_trans |]. split; [done |]. split; [done |].
  split; [refine (in_place_trans _ _ _ _ Hp Hp'); congruence |].
  split; [refine (placed_trans _ _ _ _ _ _ Hl _ Hp' Hres Hr Hpl Hpl'); congruence |]. split; [auto |].
  destruct H as [(? & ? & Hi' & ? & Hr' & Hg') | [(? & ? & ? & ? & Hg') | (? & ? & ? & Hr' & Hg' & Hl' & Hout)]];
    pose proof (logged_trans _ _ _ _ Hlog Hg'); [left | right; left; done | right; right].
  - pose proof (Htr _ (proj1 Hi') Hr'). done.
  - pose proof (Htr _ ltac:(congruence) Hr'). do 5 (split; [done |]). split; [congruence |].
    destruct Hout as [? | (e & x & from & He & Hg & Hx & Hx0' & _ & Hex)]; [by left | right].
    exists e, x, from. rewrite <- (frame_imm _ _ Hf), <- (frame_idx _ _ Hf). split_and!; try done.
    intros ->. by destruct (Hp' _ _ _ Hx0 Hx Hn0) as [_ ?].
Qed.

Lemma alloc_done cur inode s r :
  bmap_ok (bmapBlockBuf s) -> cursor_ok s -> extents_ok cur (ext_array (inodeData inode)) ->
  alloc_ends cur inode s r
    (Ok (to_u32 (cur - i_block_count (inodeData inode)), set_block_count cur inode, s, r)).
Proof.
  intros Hb Hc He. destruct (set_block_count_fields cur inode) as (Ea & Ec & Esi).
  unfold alloc_ends, inode_ok. cbn zeta. rewrite Ea, Ec.
  split; [done |].
  split; [apply fs_frame_refl |]. split; [done |]. split; [done |]. split; [apply in_place_refl |].
  split; [apply placed_refl |]. split; [done |]. left.
  pose proof (recorded_refl (idx_ s) (bmapBlockBuf s) (ext_array (inodeData inode))).
  pose proof (set_block_count_logged cur inode). done.
Qed.

Lemma alloc_no_space goal inode s s' r :
  frame s s' -> bmap_ok (bmapBlockBuf s') -> cursor_ok s' ->
  same_blocks (bmapBlockBuf s) (bmapBlockBuf s') -> out_of_space goal s inode (bmapBlockBuf s') ->
  alloc_ends goal inode s r (Ok (-1, inode, s', r)).
Proof.
  intros Hf Hb Hc Hs Ho. split; [apply same_inode_refl |].
  split; [done |]. split; [done |]. split; [done |].
  split; [apply in_place_refl |]. split; [apply placed_refl |].
  split; [intros Hr; by eapply reserved_same |]. right. right. split_and!; try done; [| apply logged_refl].
  intros e no _ _. pose proof (added_same (ext_array (inodeData inode)) e no). unfold taken. rewrite Hs. tauto.
Qed.

(** The loop ends well when [fuel] covers the extents that are left. *)
Definition loop_ends (fuel : nat) : Prop := forall n numBlocks cur e inside inode s r,
  position cur e inside -> (2 * (7 - e) < fuel + if decide (inside = 0%Z) then 0 else 1)%nat ->
  0 <= n <= numBlocks -> numBlocks < 2 ^ 32 -> 0 <= idx_ s < NMAX_FSP_WORKER ->
  bmap_ok (bmapBlockBuf s) -> cursor_ok s -> extents_ok cur (ext_array (inodeData inode)) ->
  i_block_count (inodeData inode) <= cur ->
  alloc_ends (cur + (numBlocks - n)) inode s r (alloc_loop fuel n numBlocks cur inode s r).

Section Iteration.
Context (fuel : nat) (n numBlocks cur : Z) (e : nat) (inside : Z) (x : cfs_extent).
Context (inode : InMemInode) (s : FsImpl) (r : FsReq).
Hypothesis (IH : loop_ends fuel) (He : (e < 7)%nat) (Hp : position cur e inside).
Hypothesis (Hfuel : (2 * (7 - e) < S fuel + if decide (inside = 0%Z) then 0 else 1)%nat).
Hypothesis (Hn : 0 <= n < numBlocks) (Hnb : numBlocks < 2 ^ 32).
Hypothesis (Hw : 0 <= idx_ s < NMAX_FSP_WORKER) (Hb : bmap_ok (bmapBlockBuf s)) (Hc : cursor_ok s).
Hypothesis (Hext : extents_ok cur (ext_array (inodeData inode))).
Hypothesis (Hle : i_block_count (inodeData inode) <= cur).
Hypothesis (Hx : ext_array (inodeData inode) !! e = Some x) (Hnum : num_blocks x = inside).

(** The rest of the loop, after [k] blocks have been added to the extent. *)
Lemma alloc_rest k y bm s1 :
  bm = (inside =? 0) ->
  0 < k -> k <= numBlocks - n -> inside + k <= unit_of e ->
  (inside + k < unit_of e -> k = numBlocks - n \/ inside = 0) -> num_blocks y = inside + k ->
  frame s s1 -> cursor_ok s1 -> bmap_ok (bmapBlockBuf s1) -> calm (bmapBlockBuf s) (bmapBlockBuf s1) ->
  (let a' := <[e := y]> (ext_array (inodeData inode)) in
   in_place (ext_array (inodeData inode)) a' /\
   recorded (idx_ s) (bmapBlockBuf s) (bmapBlockBuf s1) (ext_array (inodeData inode)) a' /\
   placed_by (idx_ s) (bmapBlockBuf s) (ext_array (inodeData inode)) a' /\
   (reserved (bmapBlockBuf s) -> reserved (bmapBlockBuf s1))) ->
  alloc_ends (cur + (numBlocks - n)) inode s r
    (alloc_loop fuel (n + k) numBlocks (cur + k) (set_extent e y bm inode) s1 r).
Proof.
  intros Hbm Hk Hkn Hku Hpart Hy Hf Hc1 Hb1 Hcm Hrec.
  destruct (set_extent_fields e y bm inode) as (Ea & Ec & Esi).
  pose proof (extents_ok_add _ _ _ k y _ He Hp ltac:(lia) Hku Hext Hy) as Hext'.
  pose proof Hext as (Hlen & _ & Ha).
  eapply alloc_ends_after; [exact Hlen | by rewrite Ea, length_insert | exact Ec
    | exact Esi | eapply set_extent_logged; [exact Hx | by rewrite Hnum] | exact Hf | | by rewrite Ea | exact Hcm |].
  { rewrite Ea. pose proof (position_extent _ _ _ He Hp) as Hin. destruct (decide (e = 0%nat)) as [-> | Hne].
    - rewrite list_lookup_insert_eq by lia. exists y. split; [done | lia].
    - destruct (lookup_lt_is_Some_2 (ext_array (inodeData inode)) 0%nat) as [x0 Hx0]; [lia |].
      exists x0. rewrite list_lookup_insert_ne by done. split; [done |]. rewrite (Ha _ _ Hx0).
      destruct (al_unit 0 ltac:(lia)) as [Hpos _]. pose proof (base_split e 0 ltac:(lia)) as Hbs.
      destruct Hp as (_ & Hcur & _). unfold filled.
      change (ext_base 0) with 0 in *. lia. }
  replace (cur + (numBlocks - n)) with (cur + k + (numBlocks - (n + k))) by lia.
  destruct (decide (k = numBlocks - n)) as [-> | Hne].
  { replace (n + (numBlocks - n)) with numBlocks by lia.
    destruct fuel; cbn [alloc_loop]; rewrite Z.ltb_irrefl, Z.sub_diag, Z.add_0_r;
      apply alloc_done; by rewrite ?Ea. }
  pose proof (position_add _ _ _ k He Hp ltac:(lia) Hku) as Hp'.
  destruct (decide (inside + k < unit_of e)) as [Hlt | Hge].
  - destruct (Hpart Hlt) as [? | Hin]; [done |].
    eapply IH; [exact Hp' | | lia | done | by rewrite (frame_idx _ _ Hf) | done | done | by rewrite Ea | lia].
    rewrite (decide_False (P := inside + k = 0)) by lia. rewrite decide_True in Hfuel by done. lia.
  - eapply IH; [exact Hp' | | lia | done | by rewrite (frame_idx _ _ Hf) | done | done | by rewrite Ea | lia].
    rewrite decide_True by done. destruct (decide (inside = 0)); lia.
Qed.

Lemma alloc_first :
  inside = 0 ->
  alloc_ends (cur + (numBlocks - n)) inode s r
    (let! (found, s, r) := find_extent (Z.of_nat e) s r in
     match found with
     | Found no =>
         let! inode := store_extent (Z.of_nat e) (mk_extent cur 1 no) true inode in
         alloc_loop fuel (n + 1) numBlocks (to_u32 (cur + 1)) inode s r
     | Pending => Ok (0, set_block_count cur inode, s, r)
     | Exhausted => Ok (-1, inode, s, r)
     end).
Proof.
  intros Hin. pose proof (find_extent_spec e s r He Hw Hb Hc) as H. unfold grants, search_left in H.
  destruct (find_extent _ _ _) as [[[o s'] r'] | f]; [| exact H].
  destruct H as (Hf & Hc' & Hb' & H). cbn [res_bind]. destruct (al_unit e He) as [Hpos _].
  pose proof (position_bound _ _ _ Hp) as Hbd.
  destruct o as [no | |].
  - destruct H as (-> & Hcm & i & _ & _ & Hg). rewrite (store_extent_ok _ _ x) by done. cbn [res_bind].
    assert (Hlt : cur < ext_base 7).
    { pose proof (base_split 7 e He). destruct Hp as (_ & -> & _). lia. }
    pose proof ok_file_blocks. rewrite to_u32_small by lia.
    apply alloc_rest; try done; try lia; cbn [num_blocks]; [by rewrite Hin |].
    apply put_granted with (x := x); try done. congruence.
  - destruct H as (i & _ & Hmv & Hpend). destruct (set_block_count_fields cur inode) as (Ea & Ec & Esi).
    unfold alloc_ends, inode_ok. cbn zeta. rewrite Ea, Ec.
    split; [done |]. split; [done |]. split; [done |]. split; [done |]. split; [apply in_place_refl |].
    split; [apply placed_refl |]. split; [intros Hr; by eapply reserved_moved |]. right. left. split; [done |]. split; [eauto |]. split; [done |].
    split; [lia | apply set_block_count_logged].
  - destruct H as (-> & Hs & Hex). apply alloc_no_space; try done. right. exists e, x, (next_bit 1 s).
    pose proof (position_extent _ _ _ He Hp). destruct Hp as (_ & Hcur & _).
    split_and!; try done; [lia | congruence |]. destruct Hex as [first Hex]. exists first.
    intros i bit Hi Hu Him Hfr. destruct (Hex i bit Hi Hu Him Hfr) as (d & bs & Hl & Ht).
    exists d, bs. by rewrite Hs.
Qed.

Lemma alloc_grow :
  inside <> 0 ->
  alloc_ends (cur + (numBlocks - n)) inode s r
    (let num := Z.min (to_u32 (numBlocks - n)) (to_u32 (unit_of e - num_blocks x)) in
     let! inode := store_extent (Z.of_nat e)
       (mk_extent (i_block_offset x) (to_u32 (num_blocks x + num)) (block_no x)) false inode in
     alloc_loop fuel (to_u32 (n + num)) numBlocks (to_u32 (cur + num)) inode s r).
Proof.
  intros Hin. pose proof (position_extent _ _ _ He Hp) as Hi. pose proof (unit_lt e).
  pose proof (base_split 7 e He). pose proof ok_file_blocks.
  destruct Hp as (_ & Hcur & _). cbn zeta. rewrite !Hnum.
  rewrite (to_u32_small (numBlocks - n)), (to_u32_small (unit_of e - inside)) by lia.
  set (num := Z.min _ _). assert (0 < num) by lia.
  rewrite (store_extent_ok _ _ x) by done. cbn [res_bind].
  pose proof (ext_base_mono 0 e ltac:(lia)). rewrite !to_u32_small by lia.
  apply alloc_rest; cbn [num_blocks]; try done; try lia;
    [apply fs_frame_refl | apply later_refl |].
  apply put_grown; [done | lia..].
Qed.

End Iteration.

Lemma alloc_loop_ends fuel : loop_ends fuel.
Proof.
  induction fuel as [| fuel IH]; intros n numBlocks cur e inside inode s r Hp Hfuel Hn Hnb Hw Hb Hc Hext Hle.
  { destruct (decide (inside = 0)); [lia |]. destruct Hp as (? & ? & ? & [? | ?]); lia. }
  cbn [alloc_loop]. case_if.
  2: { replace (cur + (numBlocks - n)) with cur by lia. by apply alloc_done. }
  destruct (current_extent _ _ _ Hp) as (i0 & m0 & ->).
  destruct (decide (e < 7)%nat) as [He | Hge].
  2: { apply alloc_no_space; [apply fs_frame_refl | done | done | done |].
       left. destruct Hp as (? & -> & ? & [? | [-> ?]]); lia. }
  replace (Z.of_nat e <? 0) with false by (symmetry; apply Z.ltb_ge; lia).
  pose proof Hext as (Hlen & _ & Ha).
  destruct (lookup_lt_is_Some_2 (ext_array (inodeData inode)) e) as [x Hx]; [lia |].
  pose proof (Ha _ _ Hx) as Hnum. rewrite (filled_at _ _ _ He Hp) in Hnum.
  unfold get_extent. replace (load _ _) with (Ok x)
    by (symmetry; apply load_ok; rewrite Nat2Z.id; split; [lia | done]).
  cbn [res_bind]. case_if; [eapply alloc_first | eapply alloc_grow]; eauto; lia.
Qed.

Lemma allocate_ends numBlocks inode s r :
  0 <= numBlocks < 2 ^ 32 -> 0 <= idx_ s < NMAX_FSP_WORKER ->
  bmap_ok (bmapBlockBuf s) -> cursor_ok s -> inode_ok (inodeData inode) ->
  alloc_ends (i_block_count (inodeData inode) + numBlocks) inode s r
    (allocateDataBlocks alloc_fuel numBlocks inode s r).
Proof.
  intros Hn Hw Hb Hc Hi. destruct (position_exists _ (proj1 (proj2 Hi))) as (e & inside & Hp).
  unfold allocateDataBlocks.
  replace (_ + numBlocks) with (i_block_count (inodeData inode) + (numBlocks - 0)) by lia.
  eapply alloc_loop_ends; try done; try lia. unfold alloc_fuel. lia.
Qed.

(** The cursors are in range from start-up on. *)
Lemma init_cursor_ok s : cursor_ok s -> cursor_ok (initDataBlockAllocNextFreeBlockIdx s).
Proof.
  unfold initDataBlockAllocNextFreeBlockIdx. generalize (seqZ 0 NEXTENT_ARR). intros l.
  revert s. induction l as [| i l IH]; intros s Hc; [done |]. cbn [foldl]. apply IH.
  unfold cursor_ok, next_bit, set_next_bit in *. cbn.
  destruct (decide (extentArrIdx2BlockAllocUnit i = 1)) as [-> | Hne].
  - rewrite lookup_insert_eq. by cbn.
  - by rewrite lookup_insert_ne.
Qed.

(** An extent that is full although it holds block [cur] of the file is never left. *)
Lemma alloc_loop_stuck fuel n numBlocks cur inode s r e inside m x :
  n < numBlocks -> 0 <= cur < 2 ^ 32 -> 0 <= n < 2 ^ 32 -> 0 < m < 2 ^ 32 ->
  getCurrentExtentArrIdx cur = (Z.of_nat e, inside, m) ->
  ext_array (inodeData inode) !! e = Some x -> num_blocks x = m ->
  alloc_loop fuel n numBlocks cur inode s r = Crash NoFuel.
Proof.
  intros Hn Hc Hn0 Hm Hg. revert inode x. induction fuel as [| fuel IH]; intros inode x Hx Hnum;
    cbn [alloc_loop]; rewrite (proj2 (Z.ltb_lt _ _) Hn); [done |]. rewrite Hg.
  rewrite (proj2 (Z.ltb_ge (Z.of_nat e) 0)) by lia. unfold get_extent.
  replace (load _ _) with (Ok x) by (symmetry; apply load_ok; rewrite Nat2Z.id; split; [lia | done]).
  cbn [res_bind]. rewrite (proj2 (Z.eqb_neq _ _)) by lia. rewrite Hnum, Z.sub_diag.
  change (to_u32 0) with 0. pose proof (Z.mod_pos_bound (numBlocks - n) (2 ^ 32) ltac:(lia)) as Hp.
  fold (to_u32 (numBlocks - n)) in Hp. rewrite Z.min_r, !Z.add_0_r, !to_u32_small by lia.
  rewrite (store_extent_ok _ _ x) by done. cbn [res_bind].
  eapply IH; [rewrite (proj1 (set_extent_fields _ _ _ _)) |].
  - apply list_lookup_insert_eq. by eapply lookup_lt_Some.
  - done.
Qed.

End Units.

(** ** Properties *)


(** C28. For configurations whose regions hold whole extents: an extent that an
    allocation adds to an inode, whether it adds all blocks, has to wait or runs out of
    space, shares no block with any unit of another worker, of another extent of a file,
    or of the same extent that was in use. *)
Theorem allocated_extents_disjoint (cfg : ExtentConfig) (Hal : AlignedConfig cfg)
    numBlocks inode s r v inode' s' r' e x x' w1 e1 no1 :
  0 <= numBlocks < 2 ^ 32 -> 0 <= idx_ s < NMAX_FSP_WORKER ->
  bmap_ok (bmapBlockBuf s) -> cursor_ok s -> inode_ok (inodeData inode) ->
  allocateDataBlocks alloc_fuel numBlocks inode s r = Ok (v, inode', s', r') ->
  ext_array (inodeData inode) !! e = Some x -> num_blocks x = 0 ->
  ext_array (inodeData inode') !! e = Some x' -> num_blocks x' <> 0 ->
  (e1 < 7)%nat -> is_unit w1 e1 no1 ->
  (w1 = idx_ s -> e1 = e -> taken (bmapBlockBuf s) e1 no1) ->
  ~ overlap e (block_no x') e1 no1.
Proof.
  intros Hn Hw Hb Hc Hi E Hx Hx0 Hx' Hx1 He1 Hu1 Ht1.
  pose proof (allocate_ends numBlocks inode s r Hn Hw Hb Hc Hi) as H.
  rewrite E in H. destruct H as (_ & _ & _ & _ & _ & Hpl & _).
  destruct (Hpl _ _ _ Hx Hx' Hx0 Hx1) as (Hu & _ & Hf).
  assert (He : (e < 7)%nat) by (rewrite <- (proj1 Hi); by eapply lookup_lt_Some).
  apply (units_apart (idx_ s) _ _ w1); try done. intros [= <- <- <-]. auto.
Qed.

(** A file system in which the first bitmap block of worker 0 has been read. *)
Definition ex_req : FsReq := mk_req (mk_helper ∅ ∅) (mk_helper ∅ ∅) ∅ 0.
Definition ex_block : list Z := replicate (Z.to_nat BSIZE) 0.
Definition ex_fetch (bno : Z) (bs : list Z) (c : cache) : cache :=
  match fetch (fun _ => 0) bno bs ex_req c with Ok c' => c' | Crash _ => c end.
Definition ex_cache : cache := ex_fetch bmap0 ex_block (new_cache 4 BSIZE).
Definition ex_fs (imm : gset Z) (c : cache) : FsImpl :=
  initDataBlockAllocNextFreeBlockIdx (cfg := cfg_default)
    (mk_fs 0 (replicate 4 ex_block) 0 (-1) c imm ∅ ∅ ∅ ∅).
Definition ex_dinode (n : Z) (a : list cfs_extent) : cfs_dinode :=
  let t := mk_timeval 0 0 in mk_dinode 1 0 1 7 0 0 n 0 0 t t t a.
Definition ex_inode : InMemInode :=
  let t := mk_timeval 0 0 in
  mk_inode (ex_dinode 0 (replicate 7 (mk_extent 0 0 0)))
    (InodeLog.mk_log 7 0 0 0 0 0 0 0 0 0 0 t t t 0 ∅ ∅ ∅).
Definition ex_alloc (n : Z) (inode : InMemInode) (s : FsImpl) : Z * InMemInode * FsImpl * FsReq :=
  match allocateDataBlocks (cfg := cfg_default) alloc_fuel n inode s ex_req with
  | Ok out => out
  | Crash _ => (0, inode, s, ex_req)
  end.

(** The bitmap blocks of the second extent are frozen. *)
Definition ex_frozen : gset Z :=
  list_to_set (seqZ (bmap0 + region (cfg := cfg_default) 0 1) (region_size (cfg := cfg_default) 640 1)).

Lemma ex_fetch_ok c bno bs :
  bmap_ok c -> look c bno = Absent -> bytes_ok bs -> Z.of_nat (length bs) = BSIZE ->
  bmap_ok (ex_fetch bno bs c).
Proof.
  intros [Hq Hb] Hl Hok Hlen. unfold ex_fetch. destruct (fetch _ _ _ _ _) as [c' |] eqn:E; [| done].
  destruct (fetch_absent (fun _ => 0) BSIZE _ _ _ _ _ Hq Hl Hlen E) as [Hq' [Hr Ho]].
  split; [done |]. intros b d bs' Hlb. destruct (decide (b = bno)) as [-> | Hne].
  - rewrite Hr in Hlb. by injection Hlb as <- <-.
  - destruct (Ho b Hne) as [E' | [E' _]]; rewrite E' in Hlb; [by eapply Hb | done].
Qed.

Lemma new_bmap_ok num : 0 < num -> bmap_ok (new_cache num BSIZE).
Proof.
  intros Hn. destruct (new_cache_quiet (fun _ => 0) num BSIZE Hn ltac:(done)) as [Hq Hl].
  split; [done |]. intros b d bs. by rewrite Hl.
Qed.

Lemma ex_cache_ok : bmap_ok ex_cache.
Proof.
  apply ex_fetch_ok; [by apply new_bmap_ok | by apply (new_cache_quiet (fun _ => 0))
    | apply Forall_replicate; lia | by_compute].
Qed.

Lemma ex_inode_ok : inode_ok (cfg := cfg_default) (inodeData ex_inode).
Proof.
  split; [done |]. split; [by_compute |]. intros e x He. cbn in He.
  do 7 (destruct e as [| e]; [injection He as <-; by vm_compute |]). done.
Qed.


Lemma allocated_extents_disjoint_witness :
  let x' := mk_extent 0 1 0 in
  ~ overlap (cfg := cfg_default) 0 (block_no x') 1 (region (cfg := cfg_default) 0 1 * BPB).
Proof.
  assert (H : let '(v, inode', _, _) := ex_alloc 1 ex_inode (ex_fs ∅ ex_cache) in
    v = 1 /\ ext_array (inodeData inode') !! 0%nat = Some (mk_extent 0 1 0)) by by vm_compute.
  destruct (ex_alloc 1 ex_inode (ex_fs ∅ ex_cache)) as [[[v inode'] s'] r'] eqn:E.
  destruct H as [-> Hx].
  apply (allocated_extents_disjoint cfg_default default_aligned 1 ex_inode (ex_fs ∅ ex_cache) ex_req
    1 inode' s' r' 0 (mk_extent 0 0 0) (mk_extent 0 1 0) 0 1).
  - lia.
  - by_compute.
  - apply ex_cache_ok.
  - by_compute.
  - apply ex_inode_ok.
  - transitivity (Ok (ex_alloc 1 ex_inode (ex_fs ∅ ex_cache))); [by vm_compute | by rewrite E].
  - done.
  - done.
  - exact Hx.
  - done.
  - lia.
  - exists 0, 0. split; [by_compute |]. split; [by_compute |].
    split; [done |]. split; [by_compute | apply Z.divide_0_r].
  - done.
Defined.

(** Where the region of the first extent has several bitmap blocks, the one at the cursor
    is searched from the cursor on only: with the other bitmap blocks frozen and the
    cursor at the last bit, no block is found although all others are free. *)
Lemma free_block_before_cursor :
  let others : gset Z := list_to_set (seqZ (bmap0 + 1) (region_size (cfg := cfg_default) 640 0 - 1)) in
  let s := set_next_bit 1 (BPB - 1) (ex_fs others ex_cache) in
  ~ taken (cfg := cfg_default) ex_cache 0 1 /\
  exists s', allocateDataBlocks (cfg := cfg_default) alloc_fuel 1 ex_inode s ex_req =
    Ok (-1, ex_inode, s', ex_req).
Proof.
  split; [| eexists; by vm_compute]. intros (d & bs & Hl & Ht).
  assert (E : look ex_cache bmap0 = Present false ex_block) by by vm_compute.
  change (look ex_cache bmap0 = Present d bs) in Hl. rewrite E in Hl. by injection Hl as <- <-.
Qed.

(** C29. When the extent that holds block [i_block_count] of a file is already full, an
    allocation never ends.  The witness reaches such an inode: an allocation that runs out
    of space after filling an extent leaves the number of blocks as it was, and the next
    allocation for that file hangs. *)
Theorem failed_allocation_hangs (cfg : ExtentConfig) numBlocks inode s r e inside m x :
  0 < numBlocks -> 0 <= i_block_count (inodeData inode) < 2 ^ 32 -> 0 < m < 2 ^ 32 ->
  getCurrentExtentArrIdx (i_block_count (inodeData inode)) = (Z.of_nat e, inside, m) ->
  ext_array (inodeData inode) !! e = Some x -> num_blocks x = m ->
  forall fuel, allocateDataBlocks fuel numBlocks inode s r = Crash NoFuel.
Proof.
  intros Hn Hc Hm Hg Hx Hnum fuel.
  apply (alloc_loop_stuck _ _ _ _ _ _ _ e inside m x); [exact Hn | exact Hc | lia | exact Hm
    | exact Hg | exact Hx | exact Hnum].
Qed.

Lemma failed_allocation_hangs_witness :
  let '(v, inode', s', r') := ex_alloc 2 ex_inode (ex_fs ex_frozen ex_cache) in
  v = -1 /\
  forall fuel, allocateDataBlocks (cfg := cfg_default) fuel 1 inode' s' r' = Crash NoFuel.
Proof.
  assert (H : let '(v, inode', _, _) := ex_alloc 2 ex_inode (ex_fs ex_frozen ex_cache) in
    v = -1 /\ i_block_count (inodeData inode') = 0 /\
    ext_array (inodeData inode') !! 0%nat = Some (mk_extent 0 1 0)) by by vm_compute.
  destruct (ex_alloc 2 ex_inode (ex_fs ex_frozen ex_cache)) as [[[v inode'] s'] r'].
  destruct H as (-> & Hc & Hx). split; [done |].
  apply (failed_allocation_hangs cfg_default 1 inode' s' r' 0 0 1 (mk_extent 0 1 0));
    rewrite ?Hc; done || by_compute.
Defined.

(** With inodes 0 and 1 in use, [GetFreeInum] either finds that every inode of the
    bitmap is in use, or takes an inode that was free, and [returnInode] of it restores
    the bitmap; returning it a second time fails. *)
Theorem inode_number_roundtrip s :
  imap_ok s -> inode_used (iMapBlockPtr s) 0 = true -> inode_used (iMapBlockPtr s) 1 = true ->
  exists ino s1, GetFreeInum s = Ok (ino, s1) /\
    ((ino = 0 /\ forall j, 0 <= j < BPB * IMAPBLOCK_NUM -> inode_used (iMapBlockPtr s) j = true) \/
     (1 < ino < BPB * IMAPBLOCK_NUM /\ inode_used (iMapBlockPtr s) ino = false /\
      (forall j, 0 <= j -> inode_used (iMapBlockPtr s1) j =
         if j =? ino then true else inode_used (iMapBlockPtr s) j) /\
      forall inode, i_no (inodeData inode) = ino ->
        exists inode' s2, returnInode inode s1 = Ok (0, inode', s2) /\
          (forall j, 0 <= j -> inode_used (iMapBlockPtr s2) j = inode_used (iMapBlockPtr s) j) /\
          returnInode inode s2 = Crash AssertFail)).
Proof.
  intros Hok H0 H1. destruct (GetFreeInum_spec s Hok H0 H1) as (ino & s1 & E & Hok1 & _ & H).
  exists ino, s1. split; [done |]. destruct H as [(-> & _ & H) | (Hr & Hf & Hj)]; [by left | right].
  split; [done |]. split; [done |]. split; [done |]. intros inode Hi.
  pose proof (returnInode_spec inode s1 Hok1) as H2. cbn zeta in H2. rewrite Hi in H2.
  rewrite Hj, Z.eqb_refl in H2 by lia.
  destruct H2 as (inode' & s2 & E2 & Hok2 & _ & _ & _ & Hj2); [lia |].
  exists inode', s2. split; [done |]. split.
  - intros j Hj0. rewrite Hj2, Hj by done. destruct (j =? ino) eqn:Ej; b2p; by subst.
  - pose proof (returnInode_spec inode s2 Hok2) as H3. cbn zeta in H3. rewrite Hi in H3.
    rewrite Hj2, Z.eqb_refl in H3 by lia. apply H3. lia.
Qed.

(** Inodes 0 to 7 are in use, and then all inodes of the inode table. *)
Definition ex_imap : list (list Z) :=
  (255 :: replicate (Z.to_nat BSIZE - 1) 0) :: replicate 3 ex_block.
Definition ex_imap_full : list (list Z) :=
  replicate 3 (replicate (Z.to_nat BSIZE) 255) ++
  [replicate (Z.to_nat (NINODES / 8 - 3 * BSIZE)) 255 ++
   replicate (Z.to_nat (4 * BSIZE - NINODES / 8)) 0].

Lemma inode_number_roundtrip_witness :
  let s := mk_fs 0 ex_imap 0 (-1) ex_cache ∅ ∅ ∅ ∅ ∅ in
  exists ino s1, GetFreeInum s = Ok (ino, s1) /\
    ((ino = 0 /\ forall j, 0 <= j < BPB * IMAPBLOCK_NUM -> inode_used (iMapBlockPtr s) j = true) \/
     (1 < ino < BPB * IMAPBLOCK_NUM /\ inode_used (iMapBlockPtr s) ino = false /\
      (forall j, 0 <= j -> inode_used (iMapBlockPtr s1) j =
         if j =? ino then true else inode_used (iMapBlockPtr s) j) /\
      forall inode, i_no (inodeData inode) = ino ->
        exists inode' s2, returnInode inode s1 = Ok (0, inode', s2) /\
          (forall j, 0 <= j -> inode_used (iMapBlockPtr s2) j = inode_used (iMapBlockPtr s) j) /\
          returnInode inode s2 = Crash AssertFail)).
Proof.
  apply (inode_number_roundtrip (mk_fs 0 ex_imap 0 (-1) ex_cache ∅ ∅ ∅ ∅ ∅)); [| by vm_compute..].
  split; [by_compute |]. split; [| by_compute]. apply Forall_forall.
  apply Forall_cons. split.
  - split; [apply Forall_cons; split; [lia | apply Forall_replicate; lia] | by_compute].
  - apply Forall_replicate. split; [apply Forall_replicate; lia | by_compute].
Defined.

(** The bitmap has more bits than the inode table has inodes: when all inodes of the
    table are in use, the next number is the first one after the table. *)
Lemma inode_number_beyond_table :
  exists s', GetFreeInum (mk_fs 0 ex_imap_full 3 (NINODES - 3 * BPB - 1) ex_cache ∅ ∅ ∅ ∅ ∅) =
    Ok (NINODES, s').
Proof. eexists. by vm_compute. Qed.

(** In the configuration for filebench a region does not hold a whole number of extents:
    the last unit of the fifth extent covers the first unit of the sixth. *)
Lemma filebench_extents_overlap :
  let e4 := 4%nat in let e5 := 5%nat in
  exists no no', is_unit (cfg := cfg_filebench) 0 e4 no /\ is_unit (cfg := cfg_filebench) 0 e5 no' /\
    overlap (cfg := cfg_filebench) e4 no e5 no'.
Proof.
  exists ((region (cfg := cfg_filebench) 0 4 + 8) * BPB), (region (cfg := cfg_filebench) 0 5 * BPB).
  split; [| split].
  - exists 8, 0. split; [by_compute |]. split; [by_compute |]. split; [done |]. by exists 2.
  - exists 0, 0. split; [by_compute |]. split; [by_compute |]. split; [done |]. by exists 0.
  - exists (region (cfg := cfg_filebench) 0 5 * BPB). by_compute.
Qed.

End Alloc.
