(* ===== verification/Ownership.v ===== *)
(** Which worker serves a file.  Every inode in memory belongs to one worker, which alone
    resolves the descriptors that are open on it; an inode is given to another worker by
    messages that pass through the primary worker.

    Modelled from FsProc_FileMng.cc (descriptor mappings, [exportInode], [importInode],
    [processOpen], [processClose]), FsProc_FileMngOps.cc ([ReassignmentOp], and the part of [UnlinkOp] that
    runs on the owner), FsProc_Worker.cc (routing of requests on descriptors), FsProc.cc
    ([AppProc::allocateFd]), FsProc_Fs.h and FsProc_FsImpl.h (bookkeeping of the primary,
    descriptors of an inode).  The state is that of all workers together; a history is any
    interleaving of their operations, and the messages of a worker are received in the order
    in which they were sent to it.  The theorems are about the histories in which the primary
    opens only inodes it owns ([opens_own]); they show that no two workers serve the same file,
    that a descriptor is never lost while its inode moves, and that the messages of a move
    are handled and run out. *)

From Stdlib Require Import ZArith List Bool Lia.
From stdpp Require Import base gmap list.
From S2P Require Import Prelude Unordered Layout InodeLog BlockBuf Alloc.
Import ListNotations.
Open Scope Z_scope.

Module Ownership.
Import Layout BlockBuf.

(** ** State *)

Definition kMasterWidConst : Z := 0.
Definition kUnknownManageWorkerId : Z := -1.
Definition kFdBase : Z := 100000.
Definition kBufferSlowLowWatermark : Z := 5000.
Definition T_FILE : Z := 2.
Definition O_APPEND : Z := 1024.

(** Return values of a request that fails. *)
Definition FS_REQ_ERROR_POSIX_RET : Z := -1.
Definition FS_REQ_ERROR_POSIX_EBADF : Z := -9.
Definition FS_REQ_ERROR_POSIX_EPERM : Z := -11.
Definition FS_REQ_ERROR_POSIX_EACCES : Z := -13.
Definition FS_REQ_ERROR_POSIX_EINVAL : Z := -22.
Definition FS_REQ_ERROR_INODE_IN_TRANSFER : Z := -102.
Definition FS_REQ_ERROR_INODE_REDIRECT : Z := -103.

(** Maps from processes to their descriptors. *)
Notation fdmap A := (gmap Z (gmap Z A)) (only parsing).

Record FileObj : Type := mk_fobj {
  ip : Z;
  flags : Z;
  mode : Z;
  off : Z;
  readOnlyFd : Z
}.

(** An inode in memory; [data] is what is read and written through it. *)
Record InMemInode : Type := mk_inode {
  i_no : Z;
  ref : Z;
  unlinkDeallocResourcesOnClose : bool;
  isDirty_ : bool;
  mngWid : Z;
  appFdMap : gmap Z (gmap Z Z);
  data : Alloc.InMemInode
}.

(** What a worker owns.  [appMap] holds the counter of descriptors of each application,
    [stableDataBitmaps] and [bmapInMem] the numbers of the bitmap blocks that the journal
    and the bitmap buffer have in memory, [pendingDeallocs] the inodes whose deallocation
    waits for bitmap blocks to be read, with the numbers of these blocks. *)
Record Worker : Type := mk_worker {
  inodeMap : gmap Z Z;
  dirtyInodeSet : gset Z;
  unlinkedInodeSet : gset Z;
  inodesToCheckpoint : gset Z;
  ownerAppFdMap : gmap Z (gmap Z Z);
  dataBlockBuf : BlockBuffer;
  datablock_buf_allow_migrate : bool;
  appMap : gmap Z Z;
  inodeInProgressFsReqMap : gmap Z (gset Z);
  stableDataBitmaps : gset Z;
  bmapInMem : gset Z;
  pendingDeallocs : list (Z * gset Z)
}.

Record ExportedInode : Type := mk_exp {
  inode : Z;
  exporter_wid : Z;
  importer_wid : Z;
  in_exporter_dirty_set : bool;
  in_exporter_unlinked_set : bool;
  in_exporter_journal : bool;
  block_buffers : gset Z
}.

Inductive State : Type :=
| kOwnerExportThroughPrimary
| kPrimaryRequestNewOwnerImport
| kNewOwnerImport
| kPrimaryImportSuccessNotification
| kOldOwnerExportSuccessNotification.

#[export] Instance State_eq_dec : EqDecision State.
Proof. solve_decision. Defined.

(** The callbacks that are passed to a reassignment: one that answers the request of the
    client that asked for it, those that only write to the log, and the one with which
    the deallocation of an unlinked inode goes on at its new owner. *)
Inductive CallbackFn : Type :=
| AnswerClient (req : Z)
| LogOnly
| DeallocResources.

#[export] Instance CallbackFn_eq_dec : EqDecision CallbackFn.
Proof. solve_decision. Defined.

Record Ctx : Type := mk_ctx {
  state : State;
  oldOwnerCallback : option CallbackFn;
  newOwnerCallback : option CallbackFn;
  exported_inode : ExportedInode
}.

Inductive FsProcMessage : Type :=
| kReassignment (ctx : Ctx)
| kOwnerUnlinkInode (ino : Z).

(** All workers, what only the primary has, and the shared memory.  [replies] lists the
    requests answered so far, with their return values. *)
Record System : Type := mk_sys {
  workers : gmap Z Worker;
  inodeToOwnerMap : gmap Z Z;
  recentlyReassignedAppFdToInodes : gmap Z (gmap Z Z);
  unsafe_reassigned_inodes : gmap Z Z;
  inodes : gmap Z InMemInode;
  fobjs : gmap Z FileObj;
  items : heap;
  rings : gmap Z (list FsProcMessage);
  replies : list (Z * Z)
}.

(** ** Updates of single fields *)

Definition set_inodeMap (m : gmap Z Z) (x : Worker) : Worker :=
  mk_worker m (dirtyInodeSet x) (unlinkedInodeSet x) (inodesToCheckpoint x) (ownerAppFdMap x)
    (dataBlockBuf x) (datablock_buf_allow_migrate x) (appMap x) (inodeInProgressFsReqMap x)
    (stableDataBitmaps x) (bmapInMem x) (pendingDeallocs x).
Definition set_sets (d u c : gset Z) (x : Worker) : Worker :=
  mk_worker (inodeMap x) d u c (ownerAppFdMap x)
    (dataBlockBuf x) (datablock_buf_allow_migrate x) (appMap x) (inodeInProgressFsReqMap x)
    (stableDataBitmaps x) (bmapInMem x) (pendingDeallocs x).
Definition set_ownerAppFdMap (m : gmap Z (gmap Z Z)) (x : Worker) : Worker :=
  mk_worker (inodeMap x) (dirtyInodeSet x) (unlinkedInodeSet x) (inodesToCheckpoint x) m
    (dataBlockBuf x) (datablock_buf_allow_migrate x) (appMap x) (inodeInProgressFsReqMap x)
    (stableDataBitmaps x) (bmapInMem x) (pendingDeallocs x).
Definition set_buf (b : BlockBuffer) (allow : bool) (x : Worker) : Worker :=
  mk_worker (inodeMap x) (dirtyInodeSet x) (unlinkedInodeSet x) (inodesToCheckpoint x)
    (ownerAppFdMap x) b allow (appMap x) (inodeInProgressFsReqMap x)
    (stableDataBitmaps x) (bmapInMem x) (pendingDeallocs x).
Definition set_appMap (m : gmap Z Z) (x : Worker) : Worker :=
  mk_worker (inodeMap x) (dirtyInodeSet x) (unlinkedInodeSet x) (inodesToCheckpoint x)
    (ownerAppFdMap x) (dataBlockBuf x) (datablock_buf_allow_migrate x) m
    (inodeInProgressFsReqMap x) (stableDataBitmaps x) (bmapInMem x) (pendingDeallocs x).
Definition set_progress (m : gmap Z (gset Z)) (x : Worker) : Worker :=
  mk_worker (inodeMap x) (dirtyInodeSet x) (unlinkedInodeSet x) (inodesToCheckpoint x)
    (ownerAppFdMap x) (dataBlockBuf x) (datablock_buf_allow_migrate x) (appMap x) m
    (stableDataBitmaps x) (bmapInMem x) (pendingDeallocs x).
Definition set_bitmaps (st mem : gset Z) (l : list (Z * gset Z)) (x : Worker) : Worker :=
  mk_worker (inodeMap x) (dirtyInodeSet x) (unlinkedInodeSet x) (inodesToCheckpoint x)
    (ownerAppFdMap x) (dataBlockBuf x) (datablock_buf_allow_migrate x) (appMap x)
    (inodeInProgressFsReqMap x) st mem l.

Definition set_refs (n : Z) (m : gmap Z (gmap Z Z)) (i : InMemInode) : InMemInode :=
  mk_inode (i_no i) n (unlinkDeallocResourcesOnClose i) (isDirty_ i) (mngWid i) m (data i).
Definition set_onClose (b : bool) (i : InMemInode) : InMemInode :=
  mk_inode (i_no i) (ref i) b (isDirty_ i) (mngWid i) (appFdMap i) (data i).
Definition set_isDirty (d : bool) (i : InMemInode) : InMemInode :=
  mk_inode (i_no i) (ref i) (unlinkDeallocResourcesOnClose i) d (mngWid i) (appFdMap i) (data i).
Definition set_mngWid (w : Z) (i : InMemInode) : InMemInode :=
  mk_inode (i_no i) (ref i) (unlinkDeallocResourcesOnClose i) (isDirty_ i) w (appFdMap i) (data i).
Definition set_data (d : Alloc.InMemInode) (i : InMemInode) : InMemInode :=
  mk_inode (i_no i) (ref i) (unlinkDeallocResourcesOnClose i) (isDirty_ i) (mngWid i)
    (appFdMap i) d.

Definition put_worker (w : Z) (x : Worker) (s : System) : System :=
  mk_sys (<[w := x]> (workers s)) (inodeToOwnerMap s) (recentlyReassignedAppFdToInodes s)
    (unsafe_reassigned_inodes s) (inodes s) (fobjs s) (items s) (rings s) (replies s).
Definition set_primary (om : gmap Z Z) (rec : gmap Z (gmap Z Z)) (un : gmap Z Z) (s : System)
    : System :=
  mk_sys (workers s) om rec un (inodes s) (fobjs s) (items s) (rings s) (replies s).
Definition put_inode (p : Z) (i : InMemInode) (s : System) : System :=
  mk_sys (workers s) (inodeToOwnerMap s) (recentlyReassignedAppFdToInodes s)
    (unsafe_reassigned_inodes s) (<[p := i]> (inodes s)) (fobjs s) (items s) (rings s) (replies s).
Definition set_fobjs (m : gmap Z FileObj) (s : System) : System :=
  mk_sys (workers s) (inodeToOwnerMap s) (recentlyReassignedAppFdToInodes s)
    (unsafe_reassigned_inodes s) (inodes s) m (items s) (rings s) (replies s).
Definition set_items (h : heap) (s : System) : System :=
  mk_sys (workers s) (inodeToOwnerMap s) (recentlyReassignedAppFdToInodes s)
    (unsafe_reassigned_inodes s) (inodes s) (fobjs s) h (rings s) (replies s).
Definition set_rings (r : gmap Z (list FsProcMessage)) (s : System) : System :=
  mk_sys (workers s) (inodeToOwnerMap s) (recentlyReassignedAppFdToInodes s)
    (unsafe_reassigned_inodes s) (inodes s) (fobjs s) (items s) r (replies s).
Definition answer (req ret : Z) (s : System) : System :=
  mk_sys (workers s) (inodeToOwnerMap s) (recentlyReassignedAppFdToInodes s)
    (unsafe_reassigned_inodes s) (inodes s) (fobjs s) (items s) (rings s)
    (replies s ++ [(req, ret)]).

Definition get_worker (w : Z) (s : System) : res Worker :=
  match workers s !! w with Some x => Ok x | None => Crash OutOfRange end.
Definition get_inode (p : Z) (s : System) : res InMemInode :=
  match inodes s !! p with Some i => Ok i | None => Crash OutOfRange end.
Definition get_fobj (fo : Z) (s : System) : res FileObj :=
  match fobjs s !! fo with Some f => Ok f | None => Crash OutOfRange end.

(** [rings[wid]->put_message(msg)] *)
Definition send_message (wid : Z) (msg : FsProcMessage) (s : System) : res System :=
  match rings s !! wid with
  | Some q => Ok (set_rings (<[wid := q ++ [msg]]> (rings s)) s)
  | None => Crash OutOfRange
  end.

(** ** Descriptors *)

Definition fd_at {A : Type} (m : fdmap A) (pid fd : Z) : option A := m !! pid ≫= (.!! fd).

Definition noAppReferring (i : InMemInode) : bool := ref i =? 0.

Definition addFd (pid fo fd : Z) (i : InMemInode) : InMemInode :=
  let fdmap := default ∅ (appFdMap i !! pid) in
  match fdmap !! fd with
  | Some _ => set_refs (ref i) (<[pid := fdmap]> (appFdMap i)) i
  | None => set_refs (ref i + 1) (<[pid := <[fd := fo]> fdmap]> (appFdMap i)) i
  end.

Definition delFd (pid fd : Z) (i : InMemInode) : res InMemInode :=
  match appFdMap i !! pid with
  | None => Ok i
  | Some fdmap =>
      let! n :=
        match fdmap !! fd with
        | Some _ => let! _ := check (ref i >? 0) in Ok (ref i - 1)
        | None => Ok (ref i)
        end in
      let fdmap := delete fd fdmap in
      Ok (set_refs n (if decide (fdmap = ∅) then delete pid (appFdMap i)
                      else <[pid := fdmap]> (appFdMap i)) i)
  end.

(** The object at [fo] is new: its fields are zero when [flags] is tested. *)
Definition allocateFd (w pid p openFlags openMode fo : Z) (s : System) : res System :=
  let! x := get_worker w s in
  match appMap x !! pid with
  | None => Crash OutOfRange
  | Some curFd =>
      let! next := i32_add curFd 1 in
      let! i := get_inode p s in
      let o := if negb (Z.land 0 O_APPEND =? 0) then Layout.size (Alloc.inodeData (data i)) else 0 in
      Ok (set_fobjs (<[fo := mk_fobj p openFlags openMode o curFd]> (fobjs s))
            (put_worker w (set_appMap (<[pid := next]> (appMap x)) x) s))
  end.

Definition updateFdIncrByWid (wid : Z) : Z := wid * 10000000 + kFdBase.

Definition initNewApp (w pid : Z) (s : System) : res System :=
  let! x := get_worker w s in
  match appMap x !! pid with
  | Some _ => Ok s
  | None => Ok (put_worker w (set_appMap (<[pid := updateFdIncrByWid w]> (appMap x)) x) s)
  end.

Definition addFdMappingOnOpen (w pid fo : Z) (s : System) : res System :=
  let! f := get_fobj fo s in
  let! i := get_inode (ip f) s in
  let! x := get_worker w s in
  let m := default ∅ (ownerAppFdMap x !! pid) in
  let m := match m !! readOnlyFd f with Some _ => m | None => <[readOnlyFd f := fo]> m end in
  Ok (put_inode (ip f) (addFd pid fo (readOnlyFd f) i)
        (put_worker w (set_ownerAppFdMap (<[pid := m]> (ownerAppFdMap x)) x) s)).

Definition delFdMappingOnClose (w pid fo : Z) (s : System) : res System :=
  let! f := get_fobj fo s in
  let! i := get_inode (ip f) s in
  let! i := delFd pid (readOnlyFd f) i in
  let! x := get_worker w s in
  match ownerAppFdMap x !! pid with
  | None => Crash AssertFail
  | Some m =>
      let m := <[pid := delete (readOnlyFd f) m]> (ownerAppFdMap x) in
      Ok (set_fobjs (delete fo (fobjs s))
            (put_inode (ip f) i (put_worker w (set_ownerAppFdMap m x) s)))
  end.

(** [own] is [ownerAppFdMap_] of the worker and [app] the descriptors of the inode. *)
Definition addImportedInodeFdMappings (app own : gmap Z (gmap Z Z)) : gmap Z (gmap Z Z) :=
  union_with (fun fdMap inodeFdMap => Some (fdMap ∪ inodeFdMap)) own app.

Definition delExportedInodeFdMappings (app own : gmap Z (gmap Z Z)) : gmap Z (gmap Z Z) :=
  difference_with (fun fdMap inodeFdMap =>
    let fdMap := fdMap ∖ inodeFdMap in
    if decide (fdMap = ∅) then None else Some fdMap) own app.

Definition getFileObjForFd (w pid fd : Z) (s : System) : option Z :=
  x ← workers s !! w; fd_at (ownerAppFdMap x) pid fd.

(** ** Ownership of an inode *)

Definition setManageWorkerId (curOwnerWid wid : Z) (i : InMemInode) : bool * InMemInode :=
  if negb (wid =? kUnknownManageWorkerId) && negb (curOwnerWid =? mngWid i) then (false, i)
  else (true, set_mngWid wid i).

Definition setManageWorkerUnknown (curOwnerWid : Z) (i : InMemInode) : bool * InMemInode :=
  if negb (curOwnerWid =? mngWid i) then (false, i)
  else (true, set_mngWid kUnknownManageWorkerId i).

Definition NumInProgressRequests (ino : Z) (x : Worker) : Z :=
  match inodeInProgressFsReqMap x !! ino with
  | Some reqs => Z.of_nat (base.size reqs)
  | None => 0
  end.

Definition GetCurrentItemNum (b : BlockBuffer) : Z :=
  Z.of_nat (length (cache_items_list b) + length (freeItems b)).

Section Operations.
Context `{UIter} `{SIter}.

Definition splitInodeDataBlockBufferSlot (i : InMemInode) (h : heap) (x : Worker)
    : res (gset Z * Worker) :=
  let! _ := check (i_no i =? Layout.i_no (Alloc.inodeData (data i))) in
  let! (_, bufs, b) := splitBufferItemsByIndex (i_no i) ∅ h (dataBlockBuf x) in
  let allow := if GetCurrentItemNum b <=? kBufferSlowLowWatermark then false
               else datablock_buf_allow_migrate x in
  Ok (bufs, set_buf b allow x).

(** [None]: the worker does not have the inode. *)
Definition exportInode (w inum : Z) (s : System) : res (option ExportedInode * System) :=
  let! x := get_worker w s in
  let! _ := check (NumInProgressRequests inum x =? 0) in
  match inodeMap x !! inum with
  | None => Ok (None, s)
  | Some p =>
      let! i := get_inode p s in
      let x := set_inodeMap (delete inum (inodeMap x)) x in
      let ino := i_no i in
      let d := bool_decide (ino ∈ dirtyInodeSet x) in
      let u := bool_decide (ino ∈ unlinkedInodeSet x) in
      let j := bool_decide (ino ∈ inodesToCheckpoint x) in
      let x := set_sets (dirtyInodeSet x ∖ {[ino]}) (unlinkedInodeSet x ∖ {[ino]})
                 (inodesToCheckpoint x ∖ {[ino]}) x in
      let x := set_ownerAppFdMap
                 (delExportedInodeFdMappings (appFdMap i) (ownerAppFdMap x)) x in
      let! (bufs, x) := splitInodeDataBlockBufferSlot i (items s) x in
      let '(canReset, i) := setManageWorkerUnknown w i in
      let! _ := check canReset in
      Ok (Some (mk_exp p w (-1) d u j bufs), put_inode p i (put_worker w x s))
  end.

Definition importInode (w : Z) (exp : ExportedInode) (s : System) : res System :=
  let! x := get_worker w s in
  let! i := get_inode (inode exp) s in
  let! _ := check (mngWid i =? w) in
  let ino := i_no i in
  let x := match inodeMap x !! ino with
           | Some _ => x
           | None => set_inodeMap (<[ino := inode exp]> (inodeMap x)) x
           end in
  let! _ := check (negb (in_exporter_dirty_set exp) || isDirty_ i) in
  let put (b : bool) (X : gset Z) := if b then X ∪ {[ino]} else X in
  let x := set_sets (put (in_exporter_dirty_set exp) (dirtyInodeSet x))
             (put (in_exporter_unlinked_set exp) (unlinkedInodeSet x))
             (put (in_exporter_journal exp) (inodesToCheckpoint x)) x in
  let x := set_ownerAppFdMap (addImportedInodeFdMappings (appFdMap i) (ownerAppFdMap x)) x in
  let! x :=
    if negb (bool_decide (block_buffers exp = ∅)) then
      let! (_, b) := installBufferItemsOfIndex ino (block_buffers exp) (items s)
                       (dataBlockBuf x) in
      Ok (set_buf b (datablock_buf_allow_migrate x) x)
    else Ok x in
  Ok (put_worker w x s).

(** ** Bookkeeping of the primary *)

Definition markInodeOwnershipChangeInProgress (ino : Z) (om : gmap Z Z) : gmap Z Z :=
  <[ino := -1]> om.

Definition markInodeOwnershipUpdated (ino wid : Z) (om : gmap Z Z) : gmap Z Z :=
  if wid =? kMasterWidConst then delete ino om else <[ino := wid]> om.

Definition getInodeOwner (ino : Z) (s : System) : Z :=
  default kMasterWidConst (inodeToOwnerMap s !! ino).

Definition addRecentlyReassignedInodeFds (ino : Z) (app rec : gmap Z (gmap Z Z))
    : gmap Z (gmap Z Z) :=
  union_with (fun fdmap new => Some (new ∪ fdmap)) rec
    ((fun m : gmap Z Z => (fun _ => ino) <$> m) <$> app).

Definition delRecentlyReassignedInodeEntries (pid fd : Z) (rec : gmap Z (gmap Z Z))
    : gmap Z (gmap Z Z) :=
  alter (delete fd) pid rec.

(** 0 when there is no entry. *)
Definition getRecentlyReassignedInodeFromFd (pid fd : Z) (s : System) : Z :=
  default 0 (fd_at (recentlyReassignedAppFdToInodes s) pid fd).

(** ** Moving an inode to another worker *)

Definition with_state (st : State) (c : Ctx) : Ctx :=
  mk_ctx st (oldOwnerCallback c) (newOwnerCallback c) (exported_inode c).

Section Exec.
(** [ProcessReassignmentCtx], for a message to the worker itself. *)
Variable exec : Z -> Ctx -> System -> res System.

Definition SendMessageOrExecute (w dst_wid : Z) (ctx : Ctx) (s : System) : res System :=
  if w =? dst_wid then exec w ctx s else send_message dst_wid (kReassignment ctx) s.

(** With [batched] false, as all callers but the batched form pass it. *)
Definition OwnerExportThroughPrimary (w ino new_owner_wid : Z) (oldcb newcb : option CallbackFn)
    (s : System) : res System :=
  let! _ := check (negb (new_owner_wid =? w)) in
  let! (exported, s) := exportInode w ino s in
  match exported with
  | None => Crash AssertFail
  | Some e =>
      let e := mk_exp (inode e) (exporter_wid e) new_owner_wid (in_exporter_dirty_set e)
                 (in_exporter_unlinked_set e) (in_exporter_journal e) (block_buffers e) in
      let! _ := check (negb (exporter_wid e =? -1) && negb (importer_wid e =? -1)) in
      let s := if exporter_wid e =? kMasterWidConst
               then set_primary (inodeToOwnerMap s) (recentlyReassignedAppFdToInodes s)
                      (<[ino := inode e]> (unsafe_reassigned_inodes s)) s
               else s in
      SendMessageOrExecute w kMasterWidConst
        (mk_ctx kPrimaryRequestNewOwnerImport oldcb newcb e) s
  end.

(** ** Deallocation of an unlinked inode on its owner *)

Definition to_i64 (z : Z) : Z := (z + 2 ^ 63) mod 2 ^ 64 - 2 ^ 63.

Fixpoint count_deallocs (arr : list cfs_extent) (file_size max_idx : Z) (bmap_counts : list Z)
    : res (Z * list Z) :=
  if file_size >? 0 then
    match arr with
    | [] => Crash OutOfRange
    | x :: arr' =>
        let file_size := file_size - to_u32 (num_blocks x * BSIZE) in
        let wid := getWidForBitmapBlock (get_bmap_block_for_lba (block_no x)) in
        let! n := load bmap_counts wid in
        let! bmap_counts := store bmap_counts wid (to_u64 (n + num_blocks x)) in
        let! m := load bmap_counts max_idx in
        let! n := load bmap_counts wid in
        count_deallocs arr' file_size (if m <? n then wid else max_idx) bmap_counts
    end
  else Ok (max_idx, bmap_counts).

Definition CalculateWorkerWithMaximumDeallocs (file_size : Z) (arr : list cfs_extent) : res Z :=
  let! (max_idx, bmap_counts) :=
    count_deallocs arr file_size 0 (replicate (Z.to_nat NMAX_FSP_WORKER) 0) in
  let! m := load bmap_counts max_idx in
  if m =? 0 then Ok (-1) else Ok max_idx.

Fixpoint local_bitmaps (arr : list cfs_extent) (sz lo hi : Z) (acc : gset Z) : res (gset Z) :=
  if sz >? 0 then
    match arr with
    | [] => Crash OutOfRange
    | x :: arr' =>
        let bmap := get_bmap_block_for_lba (block_no x) in
        local_bitmaps arr' (sz - to_u32 (num_blocks x * BSIZE)) lo hi
          (if (bmap >=? lo) && (bmap <? hi) then acc ∪ {[bmap]} else acc)
    end
  else Ok acc.

(** When bitmap blocks have to be read, a request of the worker waits for them. *)
Definition OwnerEnsureLocalBitmapsInMem (w p : Z) (s : System) : res (bool * System) :=
  let! x := get_worker w s in
  let! i := get_inode p s in
  let d := Alloc.inodeData (data i) in
  let! local_bmaps :=
    local_bitmaps (ext_array d) (to_i64 (Layout.size d)) (get_bmap_start_block_for_worker w)
      (get_bmap_start_block_for_worker (w + 1)) ∅ in
  let! _ := check (forallb isBitmapBlock (elements local_bmaps)) in
  let unloaded := local_bmaps ∖ stableDataBitmaps x in
  if bool_decide (unloaded = ∅) then Ok (true, s)
  else
    let! _ := check (bool_decide (unloaded ∩ bmapInMem x = ∅)) in
    Ok (false, put_worker w (set_bitmaps (stableDataBitmaps x) (bmapInMem x)
                               (pendingDeallocs x ++ [(p, unloaded)]) x) s).

(** The log entry of an inode whose blocks are given back. *)
Definition log_deallocs (d : Alloc.InMemInode) : Alloc.InMemInode :=
  let e := InodeLog.set_field (InodeLog.SetBitmapOp 0) (Alloc.logEntry d) in
  Alloc.mk_inode (Alloc.inodeData d)
    (foldl (fun e x => if (block_no x >? 0) && (num_blocks x >? 0)
                       then InodeLog.update_extent x false true e else e)
       e (take (Z.to_nat NEXTENT_ARR) (ext_array (Alloc.inodeData d)))).

Definition OwnerDeallocResources (w p : Z) (s : System) : res System :=
  let! i := get_inode p s in
  if negb (noAppReferring i) then Ok (put_inode p (set_onClose true i) s)
  else
    let d := Alloc.inodeData (data i) in
    let! best_wid := CalculateWorkerWithMaximumDeallocs (to_i64 (Layout.size d)) (ext_array d) in
    if negb (best_wid =? -1) && negb (best_wid =? w) then
      OwnerExportThroughPrimary w (i_no i) best_wid None (Some DeallocResources) s
    else
      let! (inMem, s) := OwnerEnsureLocalBitmapsInMem w p s in
      if negb inMem then Ok s
      else
        let! x := get_worker w s in
        let! _ := check (mngWid i =? w) in
        let! (h, b) := releaseUnlinkedInodeDirtyBlocks (i_no i) (items s) (dataBlockBuf x) in
        let x := set_buf b (datablock_buf_allow_migrate x) x in
        let x := set_sets (dirtyInodeSet x ∪ {[i_no i]}) (unlinkedInodeSet x ∪ {[i_no i]})
                   (inodesToCheckpoint x) x in
        Ok (put_inode p (set_isDirty true (set_data (log_deallocs (data i)) i))
              (put_worker w x (set_items h s))).

(** [inode]: the caller has the inode, [None] when it has to be looked up. *)
Definition OwnerUnlinkInode (w ino : Z) (inode : option Z) (s : System) : res System :=
  let! x := get_worker w s in
  match (match inode with Some p => Some p | None => inodeMap x !! ino end) with
  | None => Crash AssertFail
  | Some p =>
      let! i := get_inode p s in
      let! _ := check (mngWid i =? w) in
      let nl := to_u8 (nlink (Alloc.inodeData (data i)) - 1) in
      let d := Alloc.mk_inode (InodeLog.direct_set (InodeLog.SetNlink nl) (Alloc.inodeData (data i)))
                 (InodeLog.set_field (InodeLog.SetNlink nl) (Alloc.logEntry (data i))) in
      let s := put_inode p (set_data d i) s in
      if nl >=? 128 then Crash AssertFail
      else if nl =? 0 then OwnerDeallocResources w p s else Ok s
  end.

(** The part of [PrimaryHandoffToOwner] after the client has its answer. *)
Definition PrimaryHandoffToOwner (p : Z) (s : System) : res System :=
  let! i := get_inode p s in
  let owner_wid := getInodeOwner (i_no i) s in
  if owner_wid =? kMasterWidConst then OwnerUnlinkInode kMasterWidConst (i_no i) (Some p) s
  else send_message owner_wid (kOwnerUnlinkInode (i_no i)) s.

(** The bitmap blocks for which a deallocation waits are there: it is tried again. *)
Definition bitmaps_read (w : Z) (s : System) : res System :=
  let! x := get_worker w s in
  match pendingDeallocs x with
  | [] => Ok s
  | (p, bmaps) :: l =>
      OwnerDeallocResources w p
        (put_worker w (set_bitmaps (stableDataBitmaps x ∪ bmaps) (bmapInMem x ∪ bmaps) l x) s)
  end.

(** ** Messages *)

Definition run_callback (w : Z) (cb : option CallbackFn) (ctx : Ctx) (s : System) : res System :=
  match cb with
  | None | Some LogOnly => Ok s
  | Some (AnswerClient req) =>
      Ok (answer req (if decide (state ctx = kOldOwnerExportSuccessNotification) then 0
                      else FS_REQ_ERROR_POSIX_RET) s)
  | Some DeallocResources => OwnerDeallocResources w (inode (exported_inode ctx)) s
  end.

Definition PrimaryRequestNewOwnerImport (w : Z) (ctx : Ctx) (s : System) : res System :=
  let! _ := check (w =? kMasterWidConst) in
  let exp := exported_inode ctx in
  let! i := get_inode (inode exp) s in
  let s := set_primary (markInodeOwnershipChangeInProgress (i_no i) (inodeToOwnerMap s))
             (addRecentlyReassignedInodeFds (i_no i) (appFdMap i)
                (recentlyReassignedAppFdToInodes s))
             (unsafe_reassigned_inodes s) s in
  let '(canChange, i) := setManageWorkerId kUnknownManageWorkerId (importer_wid exp) i in
  let! _ := check canChange in
  SendMessageOrExecute w (importer_wid exp) (with_state kNewOwnerImport ctx)
    (put_inode (inode exp) i s).

Definition NewOwnerImport (w : Z) (ctx : Ctx) (s : System) : res System :=
  let exp := exported_inode ctx in
  let! s := importInode w exp s in
  let! s :=
    if importer_wid exp =? kMasterWidConst then
      let! _ := check (w =? kMasterWidConst) in
      let! i := get_inode (inode exp) s in
      let! _ := check (bool_decide (is_Some (unsafe_reassigned_inodes s !! i_no i))) in
      Ok (set_primary (inodeToOwnerMap s) (recentlyReassignedAppFdToInodes s)
            (delete (i_no i) (unsafe_reassigned_inodes s)) s)
    else Ok s in
  let! s := run_callback w (newOwnerCallback ctx) ctx s in
  SendMessageOrExecute w kMasterWidConst (with_state kPrimaryImportSuccessNotification ctx) s.

Definition PrimaryImportSuccessNotification (w : Z) (ctx : Ctx) (s : System) : res System :=
  let! _ := check (w =? kMasterWidConst) in
  let exp := exported_inode ctx in
  let! i := get_inode (inode exp) s in
  let s := set_primary (markInodeOwnershipUpdated (i_no i) (importer_wid exp) (inodeToOwnerMap s))
             (recentlyReassignedAppFdToInodes s) (unsafe_reassigned_inodes s) s in
  SendMessageOrExecute w (exporter_wid exp) (with_state kOldOwnerExportSuccessNotification ctx) s.

Definition OldOwnerExportSuccessNotification (w : Z) (ctx : Ctx) (s : System) : res System :=
  run_callback w (oldOwnerCallback ctx) ctx s.

Definition process_ctx (w : Z) (ctx : Ctx) (s : System) : res System :=
  match state ctx with
  | kPrimaryRequestNewOwnerImport => PrimaryRequestNewOwnerImport w ctx s
  | kNewOwnerImport => NewOwnerImport w ctx s
  | kPrimaryImportSuccessNotification => PrimaryImportSuccessNotification w ctx s
  | kOldOwnerExportSuccessNotification => OldOwnerExportSuccessNotification w ctx s
  | kOwnerExportThroughPrimary => Crash AssertFail
  end.

End Exec.

(** The longest chain: a request, an import, a notification to the primary and one to the
    old owner, all on the primary. *)
Definition exec_fuel : nat := 5.

Fixpoint ProcessReassignmentCtx (fuel : nat) (w : Z) (ctx : Ctx) (s : System) : res System :=
  match fuel with
  | O => Crash NoFuel
  | S fuel' => process_ctx (ProcessReassignmentCtx fuel') w ctx s
  end.

Definition onMessage (w : Z) (msg : FsProcMessage) (s : System) : res System :=
  match msg with
  | kReassignment ctx => ProcessReassignmentCtx exec_fuel w ctx s
  | kOwnerUnlinkInode ino => OwnerUnlinkInode (ProcessReassignmentCtx exec_fuel) w ino None s
  end.

(** A worker takes a message from its ring, if there is one. *)
Definition processInterWorkerMessages (w : Z) (s : System) : res System :=
  match rings s !! w with
  | Some (msg :: q) => onMessage w msg (set_rings (<[w := q]> (rings s)) s)
  | _ => Ok s
  end.

(** ** Requests *)

Definition recordInProgressFsReq (w req p : Z) (s : System) : res System :=
  let! x := get_worker w s in
  let! i := get_inode p s in
  let! _ := check (i_no i =? Layout.i_no (Alloc.inodeData (data i))) in
  if negb (Layout.type (Alloc.inodeData (data i)) =? T_FILE) then Ok s
  else
    let reqs := default ∅ (inodeInProgressFsReqMap x !! i_no i) in
    Ok (put_worker w (set_progress (<[i_no i := reqs ∪ {[req]}]> (inodeInProgressFsReqMap x)) x) s).

Definition delInProgressFsReq (w req ino : Z) (s : System) : res System :=
  let! x := get_worker w s in
  match inodeInProgressFsReqMap x !! ino with
  | None => Ok s
  | Some reqs =>
      let reqs := reqs ∖ {[req]} in
      let m := inodeInProgressFsReqMap x in
      Ok (put_worker w (set_progress (if decide (reqs = ∅) then delete ino m
                                      else <[ino := reqs]> m) x) s)
  end.

(** The end of a request on an open file: its record and its answer. *)
Definition finishFdReq (w req ino ret : Z) (s : System) : res System :=
  let! s := delInProgressFsReq w req ino s in
  Ok (answer req ret s).

(** Nothing is allocated, and nothing returned, for an application that the worker does not
    know. *)
Definition openCompletion (w pid p openFlags openMode fo req : Z) (s : System) : res System :=
  let! x := get_worker w s in
  match appMap x !! pid with
  | None => let! i := get_inode p s in delInProgressFsReq w req (i_no i) s
  | Some _ =>
      let! s := allocateFd w pid p openFlags openMode fo s in
      let! s := addFdMappingOnOpen w pid fo s in
      let! f := get_fobj fo s in
      let! i := get_inode p s in
      finishFdReq w req (i_no i) (readOnlyFd f) s
  end.

Definition processClose (w pid fo req : Z) (s : System) : res System :=
  let! f := get_fobj fo s in
  let fileInode := ip f in
  let! s := delFdMappingOnClose w pid fo s in
  let! i := get_inode fileInode s in
  let! s := finishFdReq w req (i_no i) 0 s in
  if unlinkDeallocResourcesOnClose i && noAppReferring i
  then OwnerDeallocResources (ProcessReassignmentCtx exec_fuel) w fileInode s
  else Ok s.

(** One descriptor of [closeAllFileDescriptors], and one of its inodes. *)
Definition close_fd (pid : Z) (st : gmap Z Z * System) (kv : Z * Z) : res (gmap Z Z * System) :=
  let '(ino_map, s) := st in
  let! f := get_fobj (snd kv) s in
  let! i := get_inode (ip f) s in
  let! i' := delFd pid (readOnlyFd f) i in
  Ok (<[i_no i := ip f]> ino_map,
      set_fobjs (delete (snd kv) (fobjs s)) (put_inode (ip f) i' s)).

Definition dealloc_closed (w : Z) (s : System) (kv : Z * Z) : res System :=
  let! i := get_inode (snd kv) s in
  if unlinkDeallocResourcesOnClose i && noAppReferring i
  then OwnerDeallocResources (ProcessReassignmentCtx exec_fuel) w (snd kv) s
  else Ok s.

Definition closeAllFileDescriptors (w pid : Z) (s : System) : res System :=
  let! x := get_worker w s in
  match ownerAppFdMap x !! pid with
  | None => Ok s
  | Some app_fd_map =>
      let! (ino_map, s) := foldM (close_fd pid) (uiter app_fd_map) (∅, s) in
      let! s := foldM (dealloc_closed w) (uiter ino_map) s in
      let! x := get_worker w s in
      Ok (put_worker w (set_ownerAppFdMap (delete pid (ownerAppFdMap x)) x) s)
  end.

(** The return value that tells a client to ask worker [wid]. *)
Definition redirect (wid : Z) : Z := FS_REQ_ERROR_INODE_REDIRECT - wid.

Definition primaryRouteToOwner (req ino : Z) (s : System) : res (Z * System) :=
  let owner := getInodeOwner ino s in
  let! _ := check (negb (owner =? kMasterWidConst)) in
  if owner =? -1 then
    Ok (FS_REQ_ERROR_INODE_IN_TRANSFER, answer req FS_REQ_ERROR_INODE_IN_TRANSFER s)
  else Ok (FS_REQ_ERROR_INODE_REDIRECT, answer req (redirect owner) s).

Definition primaryHandleUnknownFdReq (w pid fd req : Z) (s : System) : res System :=
  if negb (w =? kMasterWidConst) then Ok (answer req (redirect kMasterWidConst) s)
  else
    let ino := getRecentlyReassignedInodeFromFd pid fd s in
    if ino =? 0 then Ok (answer req FS_REQ_ERROR_POSIX_EBADF s)
    else
      let! (err, s) := primaryRouteToOwner req ino s in
      if err =? FS_REQ_ERROR_INODE_REDIRECT then
        Ok (set_primary (inodeToOwnerMap s)
              (delRecentlyReassignedInodeEntries pid fd (recentlyReassignedAppFdToInodes s))
              (unsafe_reassigned_inodes s) s)
      else Ok s.

(** A request on a descriptor: [close], or one that is in progress until it finishes. *)
Inductive fd_req : Type :=
| CloseReq
| OtherReq.

Definition ownerProcessFdReq (k : fd_req) (w pid fd req : Z) (s : System) : res System :=
  match getFileObjForFd w pid fd s with
  | None => primaryHandleUnknownFdReq w pid fd req s
  | Some fo =>
      let! f := get_fobj fo s in
      let! s := recordInProgressFsReq w req (ip f) s in
      match k with
      | CloseReq => processClose w pid fo req s
      | OtherReq => Ok s
      end
  end.

(** What the path cache knows of a path: the inode to which it leads, nothing, or that the
    client may not use it. *)
Inductive PCR : Type :=
| OK (target : Z)
| NOTFOUND
| DENIED.

(** For [NOTFOUND] the primary goes on with a lookup on the device. *)
Definition ownerHandleUnknownPathReq (w : Z) (perm : PCR) (req : Z) (s : System) : res System :=
  if negb (w =? kMasterWidConst) then Ok (answer req (redirect kMasterWidConst) s)
  else
    match perm with
    | OK target =>
        let! i := get_inode target s in
        let! (_, s) := primaryRouteToOwner req (i_no i) s in Ok s
    | NOTFOUND => Ok s
    | DENIED => Crash AssertFail
    end.

(** A request on a path: [open], or one that is in progress until it finishes. *)
Inductive path_req : Type :=
| OpenReq (openFlags openMode fo : Z)
| OtherPathReq.

Definition ownerProcessPathReq (k : path_req) (w pid : Z) (perm : PCR) (req : Z) (s : System)
    : res System :=
  match perm with
  | NOTFOUND => ownerHandleUnknownPathReq w perm req s
  | DENIED => Ok (answer req FS_REQ_ERROR_POSIX_EACCES s)
  | OK target =>
      let! x := get_worker w s in
      let! i := get_inode target s in
      match inodeMap x !! i_no i with
      | None => ownerHandleUnknownPathReq w perm req s
      | Some p =>
          let! s := recordInProgressFsReq w req p s in
          match k with
          | OpenReq openFlags openMode fo => openCompletion w pid target openFlags openMode fo req s
          | OtherPathReq => Ok s
          end
      end
  end.

Definition ProcessInodeReassignmentReq (w type_ ino curOwner newOwner req : Z) (s : System)
    : res System :=
  let! x := get_worker w s in
  if negb (w =? curOwner) then Ok (answer req FS_REQ_ERROR_POSIX_EACCES s)
  else
    match inodeMap x !! ino with
    | None => Ok (answer req FS_REQ_ERROR_POSIX_EPERM s)
    | Some p =>
        let! i := get_inode p s in
        if negb (mngWid i =? curOwner) then Ok (answer req FS_REQ_ERROR_POSIX_EPERM s)
        else if type_ =? 0 then Ok (answer req 0 s)
        else if type_ =? 1 then
          OwnerExportThroughPrimary (ProcessReassignmentCtx exec_fuel) w ino newOwner
            (Some (AnswerClient req)) (Some LogOnly) s
        else Ok (answer req FS_REQ_ERROR_POSIX_EINVAL s)
    end.

End Operations.

(** ** Other operations on the inodes of a worker *)

(** [FsImpl::getInode] on the primary, when the sector of the inode is in memory and holds
    [d]; a new inode is at [p].  Returns the address of the inode, which for an inode that
    the primary gave away is that of the inode of its new owner. *)
Definition getInode (p ino : Z) (d : Alloc.InMemInode) (s : System) : res (Z * System) :=
  let! x := get_worker kMasterWidConst s in
  match inodeMap x !! ino with
  | Some q => Ok (q, s)
  | None =>
      if negb (getInodeOwner ino s =? kMasterWidConst) then
        match unsafe_reassigned_inodes s !! ino with
        | Some q => Ok (q, s)
        | None => Crash AssertFail
        end
      else
        Ok (p, put_inode p (mk_inode ino 0 false false kMasterWidConst ∅ d)
                 (put_worker kMasterWidConst (set_inodeMap (<[ino := p]> (inodeMap x)) x) s))
  end.

(** [processOpen] on the primary once the directory has been read and names inode [ino]: the
    states [OPEN_GET_FILE_INODE] and [OPEN_FINI], with [p] and [d] as for [getInode].  Whether
    the primary owns the inode is not tested. *)
Definition processOpen (p : Z) (d : Alloc.InMemInode) (pid ino openFlags openMode fo req : Z)
    (s : System) : res System :=
  let! (target, s) := getInode p ino d s in
  let! s := recordInProgressFsReq kMasterWidConst req target s in
  openCompletion kMasterWidConst pid target openFlags openMode fo req s.

(** On a worker that has the inode. *)
Definition writeFileInode (w ino : Z) (s : System) : res System :=
  let! x := get_worker w s in
  match inodeMap x !! ino with
  | None => Crash AssertFail
  | Some p =>
      let! i := get_inode p s in
      let! _ := check (mngWid i =? w) in
      Ok (put_inode p (set_isDirty true i)
            (put_worker w (set_sets (dirtyInodeSet x ∪ {[ino]}) (unlinkedInodeSet x)
                             (inodesToCheckpoint x) x) s))
  end.

Definition resetFileIndoeDirty (w ino : Z) (s : System) : res System :=
  let! x := get_worker w s in
  match inodeMap x !! ino with
  | None => Crash AssertFail
  | Some p =>
      let! i := get_inode p s in
      let! _ := check (mngWid i =? w) in
      Ok (put_inode p (set_isDirty false i)
            (put_worker w (set_sets (dirtyInodeSet x ∖ {[ino]}) (unlinkedInodeSet x ∖ {[ino]})
                             (inodesToCheckpoint x) x) s))
  end.

(** ** Histories *)

(** What can happen next.  [OpOpen] is the end of an [open] whose path was not in the path
    cache, after the lookup on the device by the primary; [OpGetInode] is the end of such a
    lookup for any other request, which brings the inode into the table of the primary and
    leaves its descriptors alone.  Three operations stand for the work of a worker on its own files:
    [OpBuffer] for the use of its block buffer, [OpData] for changes of the size and the extents
    of an inode, [OpJournalled] for the commit of a log entry. *)
Inductive op : Type :=
| OpInitApp (w pid : Z)
| OpGetInode (p ino : Z) (d : Alloc.InMemInode)
| OpOpen (p : Z) (d : Alloc.InMemInode) (pid ino openFlags openMode fo req : Z)
| OpPathReq (k : path_req) (w pid : Z) (perm : PCR) (req : Z)
| OpFdReq (k : fd_req) (w pid fd req : Z)
| OpFinish (w req ino ret : Z)
| OpExit (w pid : Z)
| OpWriteInode (w ino : Z)
| OpResetDirty (w ino : Z)
| OpJournalled (w ino : Z)
| OpBuffer (w : Z) (b : BlockBuffer) (h : heap)
| OpData (w ino : Z) (d : Alloc.InMemInode)
| OpExport (w ino new_owner : Z)
| OpReassign (w type_ ino curOwner newOwner req : Z)
| OpUnlink (p : Z)
| OpBitmaps (w : Z)
| OpMessages (w : Z).

Section Histories.
Context `{UIter} `{SIter}.

Definition exec_op (o : op) (s : System) : res System :=
  match o with
  | OpInitApp w pid => initNewApp w pid s
  | OpGetInode p ino d => let! (_, s) := getInode p ino d s in Ok s
  | OpOpen p d pid ino openFlags openMode fo req => processOpen p d pid ino openFlags openMode fo req s
  | OpPathReq k w pid perm req => ownerProcessPathReq k w pid perm req s
  | OpFdReq k w pid fd req => ownerProcessFdReq k w pid fd req s
  | OpFinish w req ino ret => finishFdReq w req ino ret s
  | OpExit w pid => closeAllFileDescriptors w pid s
  | OpWriteInode w ino => writeFileInode w ino s
  | OpResetDirty w ino => resetFileIndoeDirty w ino s
  | OpJournalled w ino =>
      let! x := get_worker w s in
      Ok (put_worker w (set_sets (dirtyInodeSet x) (unlinkedInodeSet x)
                          (inodesToCheckpoint x ∪ {[ino]}) x) s)
  | OpBuffer w b h =>
      let! x := get_worker w s in
      Ok (set_items h (put_worker w (set_buf b (datablock_buf_allow_migrate x) x) s))
  | OpData w ino d =>
      let! x := get_worker w s in
      match inodeMap x !! ino with
      | Some p => let! i := get_inode p s in Ok (put_inode p (set_data d i) s)
      | None => Ok s
      end
  | OpExport w ino new_owner =>
      OwnerExportThroughPrimary (ProcessReassignmentCtx exec_fuel) w ino new_owner
        (Some LogOnly) (Some LogOnly) s
  | OpReassign w type_ ino curOwner newOwner req =>
      ProcessInodeReassignmentReq w type_ ino curOwner newOwner req s
  | OpUnlink p => PrimaryHandoffToOwner (ProcessReassignmentCtx exec_fuel) p s
  | OpBitmaps w => bitmaps_read (ProcessReassignmentCtx exec_fuel) w s
  | OpMessages w => processInterWorkerMessages w s
  end.

(** The descriptors that [w] gives to [pid] do not run into those of the next worker. *)
Definition fd_left (w pid : Z) (s : System) : Prop :=
  match x ← workers s !! w; appMap x !! pid with
  | Some n => n < updateFdIncrByWid (w + 1)
  | None => True
  end.

(** [new] returns memory that is not in use; an inode on the device has its number. *)
Definition allowed (o : op) (s : System) : Prop :=
  match o with
  | OpGetInode p ino d =>
      inodes s !! p = None /\ 0 < ino /\ Layout.i_no (Alloc.inodeData d) = ino
  | OpOpen p d pid ino _ _ fo _ =>
      inodes s !! p = None /\ 0 < ino /\ Layout.i_no (Alloc.inodeData d) = ino /\
      fobjs s !! fo = None /\ fd_left kMasterWidConst pid s
  | OpPathReq (OpenReq _ _ fo) w pid _ _ => fobjs s !! fo = None /\ fd_left w pid s
  | OpData _ ino d => Layout.i_no (Alloc.inodeData d) = ino
  | _ => True
  end.

(** The condition on the histories below: when the primary ends an [open] after a lookup on the
    device, it owns the inode.  The code does not ensure it, and without it a descriptor can
    have two servers; [OwnershipRuns] has such a run.  Every other request may find that the
    inode has moved. *)
Definition opens_own (o : op) (s : System) : Prop :=
  match o with
  | OpOpen _ _ _ ino _ _ _ _ => getInodeOwner ino s = kMasterWidConst
  | _ => True
  end.

(** Workers without applications, inodes or messages. *)
Definition initial (s : System) : Prop :=
  is_Some (workers s !! kMasterWidConst) /\ dom (rings s) = dom (workers s) /\
  inodeToOwnerMap s = ∅ /\ recentlyReassignedAppFdToInodes s = ∅ /\
  unsafe_reassigned_inodes s = ∅ /\ inodes s = ∅ /\ fobjs s = ∅ /\
  (forall w q, rings s !! w = Some q -> q = []) /\
  (forall w x, workers s !! w = Some x -> 0 <= w /\
     inodeMap x = ∅ /\ dirtyInodeSet x = ∅ /\ ownerAppFdMap x = ∅ /\ appMap x = ∅ /\
     pendingDeallocs x = []).

Inductive reachable : System -> Prop :=
| reach_init s : initial s -> reachable s
| reach_step s o s' :
    reachable s -> allowed o s -> opens_own o s -> exec_op o s = Ok s' -> reachable s'.

End Histories.

End Ownership.
