(* ===== verification/Transfer.v ===== *)
(** Moving an inode between workers keeps the system consistent.

    Each inode is at one stage of a move at a time ([stage]): it is in the table of one worker,
    or it is carried by one message.  [inv] says so of all inodes, [fd_inv] that the
    descriptors of a worker are those of its inodes, [pay] that a message carries what its
    receiver relies on.  They are stated on the part of the state that matters to them, a
    [view].  The lemmas on views show that each step of a move preserves them; the lemmas
    after these, that the code takes those steps. *)

From Stdlib Require Import ZArith List Bool Lia.
From stdpp Require Import base gmap list.
From S2P Require Import Prelude Unordered Layout InodeLog BlockBuf Alloc Ownership.
Import ListNotations.
Open Scope Z_scope.

Module Transfer.
Import Layout BlockBuf Ownership.

(** ** Where an inode is

    The stages of a move, as seen from one inode: the worker in whose table it is, its manager,
    the entry of the primary for it, and the messages about it, all in the ring of one worker. *)

Definition ptr (c : Ctx) : Z := inode (exported_inode c).
Definition importer (c : Ctx) : Z := importer_wid (exported_inode c).
Definition exporter (c : Ctx) : Z := exporter_wid (exported_inode c).

Definition about (p : Z) (l : list Ctx) : list Ctx :=
  filter (fun c => ptr c = p /\ state c <> kOldOwnerExportSuccessNotification) l.

(** The entry of [inodeToOwnerMap] for an inode that [w] owns. *)
Definition owner_entry (w : Z) : option Z := if w =? kMasterWidConst then None else Some w.

Inductive stage : option Z -> Z -> option Z -> Z -> list Ctx -> Prop :=
| st_owned w : stage (Some w) w (owner_entry w) kMasterWidConst []
| st_notify w c :
    state c = kPrimaryImportSuccessNotification -> importer c = w ->
    stage (Some w) w (Some (-1)) kMasterWidConst [c]
| st_asked w c :
    state c = kPrimaryRequestNewOwnerImport -> exporter c = w -> importer c <> w -> importer c <> -1 ->
    stage None kUnknownManageWorkerId (owner_entry w) kMasterWidConst [c]
| st_both w c0 c :
    state c0 = kPrimaryImportSuccessNotification -> importer c0 = w ->
    state c = kPrimaryRequestNewOwnerImport -> exporter c = w -> importer c <> w -> importer c <> -1 ->
    stage None kUnknownManageWorkerId (Some (-1)) kMasterWidConst [c0; c]
| st_importing d c :
    state c = kNewOwnerImport -> importer c = d -> d <> -1 ->
    stage None d (Some (-1)) d [c].

(** What the invariants are about: of a worker its inodes, descriptors, applications and
    dirty inodes; of an inode its number, manager and descriptors, and the facts on which a
    move relies; the maps of the primary, the open files, and the messages. *)
Record WKey : Type := mk_wkey {
  k_map : gmap Z Z;
  k_own : gmap Z (gmap Z Z);
  k_apps : gmap Z Z;
  k_dirty : gset Z
}.

Record IKey : Type := mk_ikey {
  k_no : Z;
  k_mng : Z;
  k_ref : Z;
  k_app : gmap Z (gmap Z Z);
  k_isdirty : bool;
  k_dno : Z;
  k_best : res Z
}.

Record view : Type := mk_view {
  v_w : gmap Z WKey;
  v_i : gmap Z IKey;
  v_owner : gmap Z Z;
  v_unsafe : gmap Z Z;
  v_fobjs : gmap Z FileObj;
  v_msgs : Z -> list Ctx
}.

Definition v_map (v : view) (w : Z) : gmap Z Z :=
  match v_w v !! w with Some k => k_map k | None => ∅ end.
Definition core (k : IKey) : Z * Z := (k_no k, k_mng k).
Definition v_core (v : view) : gmap Z (Z * Z) := core <$> v_i v.

Definition best (d : Alloc.InMemInode) : res Z :=
  CalculateWorkerWithMaximumDeallocs (to_i64 (Layout.size (Alloc.inodeData d)))
    (ext_array (Alloc.inodeData d)).

Definition wkey (x : Worker) : WKey :=
  mk_wkey (inodeMap x) (ownerAppFdMap x) (appMap x) (dirtyInodeSet x).
Definition ikey (i : InMemInode) : IKey :=
  mk_ikey (i_no i) (mngWid i) (ref i) (appFdMap i) (isDirty_ i)
    (Layout.i_no (Alloc.inodeData (data i))) (best (data i)).

Definition ctx_of (m : FsProcMessage) : option Ctx :=
  match m with kReassignment c => Some c | kOwnerUnlinkInode _ => None end.
Definition msgs (s : System) (w : Z) : list Ctx := omap ctx_of (default [] (rings s !! w)).

Definition view_of (s : System) (R : Z -> list Ctx) : view :=
  mk_view (wkey <$> workers s) (ikey <$> inodes s) (inodeToOwnerMap s) (unsafe_reassigned_inodes s)
    (fobjs s) R.

Record placed (v : view) (p ino : Z) (loc : option Z) (to : Z) (l : list Ctx) : Prop := mk_placed {
  pl_map : forall w, v_map v w !! ino = if decide (loc = Some w) then Some p else None;
  pl_unsafe : v_unsafe v !! ino = if decide (loc = Some kMasterWidConst) then None else Some p;
  pl_msgs : forall w, about p (v_msgs v w) = if decide (w = to) then l else []
}.

Record inv (v : view) : Prop := mk_inv {
  inv_stage : forall p ino m, v_core v !! p = Some (ino, m) -> exists loc to l,
    stage loc m (v_owner v !! ino) to l /\ placed v p ino loc to l;
  inv_inj : forall p q ino m n,
    v_core v !! p = Some (ino, m) -> v_core v !! q = Some (ino, n) -> p = q;
  inv_map : forall w ino p, v_map v w !! ino = Some p -> exists m, v_core v !! p = Some (ino, m);
  inv_owner : forall ino k, v_owner v !! ino = Some k -> exists p m, v_core v !! p = Some (ino, m);
  inv_unsafe : forall ino p, v_unsafe v !! ino = Some p -> exists m, v_core v !! p = Some (ino, m);
  inv_msgs : forall w c, c ∈ v_msgs v w ->
    is_Some (v_core v !! ptr c) /\ oldOwnerCallback c <> Some DeallocResources
}.

Lemma about_app p l1 l2 : about p (l1 ++ l2) = about p l1 ++ about p l2.
Proof. apply filter_app. Qed.

Lemma about_other p c : ptr c <> p -> about p [c] = [].
Proof. intros ?. unfold about. rewrite filter_cons_False; [done | naive_solver]. Qed.

Lemma about_old p c : state c = kOldOwnerExportSuccessNotification -> about p [c] = [].
Proof. intros ?. unfold about. rewrite filter_cons_False; [done | naive_solver]. Qed.

Lemma about_this c : state c <> kOldOwnerExportSuccessNotification -> about (ptr c) [c] = [c].
Proof. intros ?. unfold about. by rewrite filter_cons_True. Qed.

(** A change that concerns one inode. *)
Lemma inv_update v v' p ino m loc to l :
  inv v -> (forall q n, v_core v !! q = Some (ino, n) -> q = p) ->
  v_core v' !! p = Some (ino, m) ->
  (forall n k, v_core v !! p = Some (n, k) -> n = ino) ->
  (forall q, q <> p -> v_core v' !! q = v_core v !! q) ->
  (forall w n, n <> ino -> v_map v' w !! n = v_map v w !! n) ->
  (forall n, n <> ino -> v_owner v' !! n = v_owner v !! n) ->
  (forall n, n <> ino -> v_unsafe v' !! n = v_unsafe v !! n) ->
  (forall q w, q <> p -> about q (v_msgs v' w) = about q (v_msgs v w)) ->
  (forall w c, c ∈ v_msgs v' w ->
     (ptr c = p /\ oldOwnerCallback c <> Some DeallocResources) \/ c ∈ v_msgs v w) ->
  stage loc m (v_owner v' !! ino) to l -> placed v' p ino loc to l ->
  inv v'.
Proof.
  intros Hi Huniq Hp Hno Hcore Hmap Hown Hun Habout Hmsgs Hst Hpl.
  assert (Hold : forall q n k, q <> p -> v_core v !! q = Some (n, k) -> n <> ino).
  { intros q n k Hq E ->. by apply Huniq in E. }
  split.
  - intros q n k E. destruct (decide (q = p)) as [-> | Hq].
    + rewrite Hp in E. injection E as <- <-. eauto.
    + rewrite Hcore in E by done. pose proof (Hold q n k Hq E) as Hn.
      destruct (inv_stage _ Hi q n k E) as (loc' & to' & l' & Hst' & [H1 H2 H3]).
      exists loc', to', l'. rewrite Hown by done. split; [done |]. split.
      * intros w. by rewrite Hmap.
      * by rewrite Hun.
      * intros w. by rewrite Habout.
  - intros q1 q2 n k1 k2 E1 E2.
    destruct (decide (q1 = p)) as [-> | H1], (decide (q2 = p)) as [-> | H2]; [done | | |].
    + rewrite Hcore in E2 by done. rewrite Hp in E1. injection E1 as <- <-. by apply Huniq in E2.
    + rewrite Hcore in E1 by done. rewrite Hp in E2. injection E2 as <- <-. by apply Huniq in E1.
    + rewrite Hcore in E1, E2 by done. by eapply inv_inj.
  - intros w n q E. destruct (decide (n = ino)) as [-> | Hn].
    + rewrite (pl_map _ _ _ _ _ _ Hpl) in E. case_decide; [| done]. injection E as <-. eauto.
    + rewrite Hmap in E by done. destruct (inv_map _ Hi _ _ _ E) as [k Ek].
      exists k. rewrite Hcore; [done |]. intros ->. naive_solver.
  - intros n k E. destruct (decide (n = ino)) as [-> | Hn]; [eauto |].
    rewrite Hown in E by done. destruct (inv_owner _ Hi _ _ E) as (q & k' & Ek).
    exists q, k'. rewrite Hcore; [done |]. intros ->. naive_solver.
  - intros n q E. destruct (decide (n = ino)) as [-> | Hn].
    + rewrite (pl_unsafe _ _ _ _ _ _ Hpl) in E. case_decide; [done |]. injection E as <-. eauto.
    + rewrite Hun in E by done. destruct (inv_unsafe _ Hi _ _ E) as [k Ek].
      exists k. rewrite Hcore; [done |]. intros ->. naive_solver.
  - intros w c Hc. destruct (Hmsgs w c Hc) as [[-> ?] | Hin]; [by rewrite Hp |].
    destruct (inv_msgs _ Hi w c Hin). split; [| done].
    destruct (decide (ptr c = p)) as [-> | Hne]; [by rewrite Hp | by rewrite Hcore].
Qed.

(** A change that no inode notices. *)
Lemma inv_ext v v' :
  inv v -> (forall w, v_map v' w = v_map v w) -> v_core v' = v_core v ->
  v_owner v' = v_owner v -> v_unsafe v' = v_unsafe v ->
  (forall q w, about q (v_msgs v' w) = about q (v_msgs v w)) ->
  (forall w c, c ∈ v_msgs v' w ->
     is_Some (v_core v !! ptr c) /\ oldOwnerCallback c <> Some DeallocResources) ->
  inv v'.
Proof.
  intros [H1 H2 H3 H4 H5 H6] Em Ec Eo Eu Ea Hm.
  split; rewrite ?Ec, ?Eo, ?Eu; try done.
  - intros p ino m E. destruct (H1 p ino m E) as (loc & to & l & Hst & [P1 P2 P3]).
    exists loc, to, l. rewrite ?Eo. split; [done |]. split; intros; rewrite ?Em, ?Eu, ?Ea; auto.
  - intros w ino p. rewrite Em. eauto.
Qed.

(** ** Descriptors *)

Definition fds (m : gmap Z (gmap Z Z)) : gmap (Z * Z) Z :=
  map_uncurry (M1 := gmap Z) (M2 := gmap Z) (M12 := gmap (Z * Z)) m.

(** [p] is an inode in the table of the worker, with [fo] open as [fd] by [pid]. *)
Definition owns_fd (v : view) (k : WKey) (pid fd fo : Z) : Prop :=
  exists p i, v_i v !! p = Some i /\ k_map k !! k_no i = Some p /\ fd_at (k_app i) pid fd = Some fo.

(** While an application is being removed from a worker, [ex] holds the two. *)
Record fd_inv (ex : option (Z * Z)) (v : view) : Prop := mk_fd_inv {
  fi_obj : forall p i pid fd fo, v_i v !! p = Some i -> fd_at (k_app i) pid fd = Some fo ->
    exists f, v_fobjs v !! fo = Some f /\ ip f = p /\ readOnlyFd f = fd;
  fi_fd : forall p q i j pid fd fo fo', v_i v !! p = Some i -> v_i v !! q = Some j ->
    fd_at (k_app i) pid fd = Some fo -> fd_at (k_app j) pid fd = Some fo' -> p = q;
  fi_pid : forall p q i j pid pid' fd fd' fo, v_i v !! p = Some i -> v_i v !! q = Some j ->
    fd_at (k_app i) pid fd = Some fo -> fd_at (k_app j) pid' fd' = Some fo -> pid = pid';
  fi_own : forall w k pid fd fo, v_w v !! w = Some k -> owns_fd v k pid fd fo ->
    fd_at (k_own k) pid fd = Some fo;
  fi_only : forall w k pid fd fo, v_w v !! w = Some k -> ex <> Some (w, pid) ->
    fd_at (k_own k) pid fd = Some fo -> owns_fd v k pid fd fo;
  fi_ref : forall p i, v_i v !! p = Some i -> k_ref i = Z.of_nat (base.size (fds (k_app i)));
  fi_range : forall p i pid fd fo, v_i v !! p = Some i -> fd_at (k_app i) pid fd = Some fo ->
    exists w k n, v_w v !! w = Some k /\ k_apps k !! pid = Some n /\ updateFdIncrByWid w <= fd < n;
  fi_apps : forall w k pid n, v_w v !! w = Some k -> k_apps k !! pid = Some n ->
    updateFdIncrByWid w <= n <= updateFdIncrByWid (w + 1)
}.

(** ** What a move relies on *)

Definition carries (c : Ctx) : Prop :=
  state c = kPrimaryRequestNewOwnerImport \/ state c = kNewOwnerImport.

Record pay (v : view) : Prop := mk_pay {
  pay_no : forall p i, v_i v !! p = Some i -> k_dno i = k_no i;
  pay_pos : v_w v !! kUnknownManageWorkerId = None;
  pay_dirty : forall w k ino, v_w v !! w = Some k -> ino ∈ k_dirty k ->
    exists p i, v_i v !! p = Some i /\ k_no i = ino /\ k_mng i = w /\ k_isdirty i = true;
  pay_flag : forall w c i, c ∈ v_msgs v w -> carries c -> v_i v !! ptr c = Some i ->
    in_exporter_dirty_set (exported_inode c) = true -> k_isdirty i = true;
  pay_best : forall w c i, c ∈ v_msgs v w -> carries c -> v_i v !! ptr c = Some i ->
    newOwnerCallback c = Some DeallocResources -> k_best i = Ok (importer c)
}.

Record INV (ex : option (Z * Z)) (v : view) : Prop := mk_INV {
  I_place : inv v;
  I_fd : fd_inv ex v;
  I_pay : pay v
}.

(** ** Lemmas on maps of descriptors *)

Lemma fds_at m pid fd : fds m !! (pid, fd) = fd_at m pid fd.
Proof. apply lookup_map_uncurry. Qed.

Lemma fd_at_insert (m : gmap Z (gmap Z Z)) pid x pid' fd :
  fd_at (<[pid := x]> m) pid' fd = if decide (pid' = pid) then x !! fd else fd_at m pid' fd.
Proof.
  unfold fd_at. case_decide; [subst; by rewrite lookup_insert_eq | by rewrite lookup_insert_ne].
Qed.

Lemma fd_at_default (m : gmap Z (gmap Z Z)) pid fd : default ∅ (m !! pid) !! fd = fd_at m pid fd.
Proof. unfold fd_at. destruct (m !! pid); [done |]. apply lookup_empty. Qed.

Lemma fd_at_add (m : gmap Z (gmap Z Z)) pid fd fo pid' fd' :
  fd_at (<[pid := <[fd := fo]> (default ∅ (m !! pid))]> m) pid' fd' =
    if decide (pid' = pid /\ fd' = fd) then Some fo else fd_at m pid' fd'.
Proof.
  rewrite fd_at_insert. destruct (decide (pid' = pid)) as [-> |].
  - rewrite lookup_insert, fd_at_default. repeat case_decide; naive_solver.
  - by rewrite decide_False by naive_solver.
Qed.

Lemma fd_at_remove (m : gmap Z (gmap Z Z)) pid fd x pid' fd' :
  m !! pid = Some x ->
  fd_at (if decide (delete fd x = ∅) then delete pid m else <[pid := delete fd x]> m) pid' fd' =
    if decide (pid' = pid /\ fd' = fd) then None else fd_at m pid' fd'.
Proof.
  intros E. unfold fd_at. destruct (decide (pid' = pid)) as [-> | Hne].
  - rewrite E. cbn. case_decide as Hd.
    + rewrite lookup_delete_eq. cbn. case_decide; [done |].
      rewrite <- (lookup_delete_ne x fd fd') by naive_solver. by rewrite Hd, lookup_empty.
    + rewrite lookup_insert_eq. cbn. case_decide as Hc.
      * destruct Hc as [_ ->]. apply lookup_delete_eq.
      * apply lookup_delete_ne. naive_solver.
  - rewrite (decide_False (P := pid' = pid /\ _)) by naive_solver.
    case_decide; [by rewrite lookup_delete_ne | by rewrite lookup_insert_ne].
Qed.

Lemma fd_at_import app own pid fd :
  fd_at (addImportedInodeFdMappings app own) pid fd =
    match fd_at own pid fd with Some fo => Some fo | None => fd_at app pid fd end.
Proof.
  unfold fd_at, addImportedInodeFdMappings. rewrite lookup_union_with.
  destruct (own !! pid) as [a |], (app !! pid) as [b |]; cbn; try done.
  - rewrite lookup_union. by destruct (a !! fd), (b !! fd).
  - by destruct (a !! fd).
Qed.

Lemma fd_at_export app own pid fd :
  fd_at (delExportedInodeFdMappings app own) pid fd =
    match fd_at app pid fd with Some _ => None | None => fd_at own pid fd end.
Proof.
  unfold fd_at, delExportedInodeFdMappings. rewrite lookup_difference_with.
  destruct (app !! pid) as [b |], (own !! pid) as [a |]; [| by cbn; destruct (b !! fd) | done | done].
  assert (E : (a ∖ b) !! fd = match b !! fd with Some _ => None | None => a !! fd end).
  { rewrite lookup_difference. by destruct (b !! fd), (a !! fd). }
  unfold difference_with, option_difference_with. cbv zeta.
  destruct (decide (a ∖ b = ∅)) as [Hd | Hd]; cbn [mbind option_bind]; rewrite <- E; [| done].
  by rewrite Hd, lookup_empty.
Qed.

Lemma fds_add (m : gmap Z (gmap Z Z)) pid fd fo :
  fds (<[pid := <[fd := fo]> (default ∅ (m !! pid))]> m) = <[(pid, fd) := fo]> (fds m).
Proof.
  apply map_eq. intros [pid' fd']. rewrite lookup_insert, !fds_at, fd_at_add.
  repeat case_decide; naive_solver.
Qed.

Lemma fds_remove (m : gmap Z (gmap Z Z)) pid fd x :
  m !! pid = Some x ->
  fds (if decide (delete fd x = ∅) then delete pid m else <[pid := delete fd x]> m) =
    delete (pid, fd) (fds m).
Proof.
  intros E. apply map_eq. intros [pid' fd'].
  rewrite lookup_delete, !fds_at, (fd_at_remove m pid fd x pid' fd' E).
  repeat case_decide; naive_solver.
Qed.

(** ** Messages being handled *)

(** [c] in front of, or behind, the messages of [w]. *)
Definition push (w : Z) (c : Ctx) (R : Z -> list Ctx) : Z -> list Ctx :=
  fun u => if decide (u = w) then c :: R u else R u.
Definition snoc (w : Z) (c : Ctx) (R : Z -> list Ctx) : Z -> list Ctx :=
  fun u => if decide (u = w) then R u ++ [c] else R u.

Arguments push : simpl never.
Arguments snoc : simpl never.
Arguments about : simpl never.
Arguments fd_at : simpl never.

Definition with_msgs (R : Z -> list Ctx) (v : view) : view :=
  mk_view (v_w v) (v_i v) (v_owner v) (v_unsafe v) (v_fobjs v) R.

Lemma about_push q w c R u :
  about q (push w c R u) = if decide (u = w) then about q [c] ++ about q (R u) else about q (R u).
Proof. unfold push. case_decide; [| done]. apply (about_app q [c]). Qed.

Lemma about_snoc q w c R u :
  about q (snoc w c R u) = if decide (u = w) then about q (R u) ++ about q [c] else about q (R u).
Proof. unfold snoc. case_decide; [| done]. apply about_app. Qed.

Lemma elem_push w c R u c' : c' ∈ push w c R u <-> (u = w /\ c' = c) \/ c' ∈ R u.
Proof. unfold push. case_decide; set_solver. Qed.

Lemma elem_snoc w c R u c' : c' ∈ snoc w c R u <-> (u = w /\ c' = c) \/ c' ∈ R u.
Proof. unfold snoc. case_decide; set_solver. Qed.

Lemma elem_about p c l : c ∈ about p l <->
  c ∈ l /\ ptr c = p /\ state c <> kOldOwnerExportSuccessNotification.
Proof. unfold about. rewrite list_elem_of_filter. naive_solver. Qed.

(** ** What the descriptors depend on *)

Definition fkey (i : IKey) : Z * Z * gmap Z (gmap Z Z) := (k_no i, k_ref i, k_app i).
Definition fwkey (k : WKey) : gmap Z Z * gmap Z (gmap Z Z) * gmap Z Z := (k_map k, k_own k, k_apps k).

Lemma fmap_lookup_eq {A B} (f : A -> B) (m m' : gmap Z A) k a' :
  f <$> m' = f <$> m -> m' !! k = Some a' -> exists a, m !! k = Some a /\ f a' = f a.
Proof.
  intros E Ha. assert (E' : (f <$> m') !! k = (f <$> m) !! k) by by rewrite E.
  rewrite !lookup_fmap, Ha in E'. destruct (m !! k); cbn in E'; [| done].
  injection E' as E'. eauto.
Qed.

Lemma fmap_insert_same {A B} (f : A -> B) (m : gmap Z A) k a a' :
  m !! k = Some a -> f a' = f a -> f <$> <[k := a']> m = f <$> m.
Proof.
  intros Hk E. rewrite fmap_insert, E. apply insert_id. by rewrite lookup_fmap, Hk.
Qed.

Lemma owns_fd_frame v v' k k' pid fd fo :
  fkey <$> v_i v' = fkey <$> v_i v -> k_map k' = k_map k ->
  owns_fd v' k' pid fd fo -> owns_fd v k pid fd fo.
Proof.
  intros Hi Ek (p & i & Hp & Hm & Hf).
  destruct (fmap_lookup_eq _ _ _ _ _ Hi Hp) as (j & Hj & [= E1 _ E2]).
  exists p, j. rewrite <- E1, <- E2, <- Ek. done.
Qed.

Lemma fd_inv_frame ex v v' :
  fd_inv ex v -> fwkey <$> v_w v' = fwkey <$> v_w v -> fkey <$> v_i v' = fkey <$> v_i v ->
  v_fobjs v' = v_fobjs v -> fd_inv ex v'.
Proof.
  intros [H1 H2 H3 H4 H5 H6 H7 H8] Hw Hi Hf.
  pose proof (fun k a => fmap_lookup_eq _ _ _ k a Hi) as Li.
  pose proof (fun k a => fmap_lookup_eq _ _ _ k a Hw) as Lw.
  split; rewrite ?Hf.
  - intros p i pid fd fo Hp Hfd. destruct (Li _ _ Hp) as (j & Hj & [= _ _ E]). rewrite E in Hfd. eauto.
  - intros p q i j pid fd fo fo' Hp Hq Hf1 Hf2.
    destruct (Li _ _ Hp) as (i' & ? & [= _ _ E1]), (Li _ _ Hq) as (j' & ? & [= _ _ E2]).
    rewrite E1 in Hf1. rewrite E2 in Hf2. eauto.
  - intros p q i j pid pid' fd fd' fo Hp Hq Hf1 Hf2.
    destruct (Li _ _ Hp) as (i' & ? & [= _ _ E1]), (Li _ _ Hq) as (j' & ? & [= _ _ E2]).
    rewrite E1 in Hf1. rewrite E2 in Hf2. eauto.
  - intros w k pid fd fo Hk Ho. destruct (Lw _ _ Hk) as (k' & ? & [= E1 E2 _]).
    rewrite E2. eapply H4; [done |]. by eapply owns_fd_frame.
  - intros w k pid fd fo Hk Hex Ho. destruct (Lw _ _ Hk) as (k' & ? & [= E1 E2 _]).
    rewrite E2 in Ho. eapply (owns_fd_frame v' v); [by symmetry | | by eapply H5].
    by symmetry.
  - intros p i Hp. destruct (Li _ _ Hp) as (j & Hj & [= _ E1 E2]). rewrite E1, E2. eauto.
  - intros p i pid fd fo Hp Hfd. destruct (Li _ _ Hp) as (j & Hj & [= _ _ E]). rewrite E in Hfd.
    destruct (H7 _ _ _ _ _ Hj Hfd) as (w & k & n & Hk & Ha & Hr).
    destruct (fmap_lookup_eq _ _ _ _ _ (eq_sym Hw) Hk) as (k' & ? & [= _ _ E']).
    exists w, k', n. by rewrite <- E'.
  - intros w k pid n Hk Ha. destruct (Lw _ _ Hk) as (k' & ? & [= _ _ E]). rewrite E in Ha. eauto.
Qed.

(** Messages in another arrangement, or with more notifications to old owners. *)
Lemma INV_msgs ex v R :
  INV ex v -> (forall q w, about q (R w) = about q (v_msgs v w)) ->
  (forall w c, c ∈ R w ->
     is_Some (v_core v !! ptr c) /\ oldOwnerCallback c <> Some DeallocResources) ->
  INV ex (with_msgs R v).
Proof.
  intros [Hi Hf Hp] Ha Hc. split.
  - by eapply inv_ext.
  - by eapply fd_inv_frame.
  - assert (Hin : forall w c, c ∈ R w -> carries c -> c ∈ v_msgs v w).
    { intros w c Hin Hcar. assert (Hab : c ∈ about (ptr c) (R w)).
      { apply elem_about. split_and!; [done | done | destruct Hcar; congruence]. }
      rewrite Ha in Hab. by apply elem_about in Hab as [? _]. }
    destruct Hp as [H1 H0 H2 H3 H4]. split; cbn; eauto.
Qed.

(** ** The steps of a move *)

Definition ik_mng (m : Z) (i : IKey) : IKey :=
  mk_ikey (k_no i) m (k_ref i) (k_app i) (k_isdirty i) (k_dno i) (k_best i).

Lemma v_map_lookup v w k : v_w v !! w = Some k -> v_map v w = k_map k.
Proof. intros E. unfold v_map. by rewrite E. Qed.

Lemma v_core_lookup v p i : v_i v !! p = Some i -> v_core v !! p = Some (k_no i, k_mng i).
Proof. intros E. unfold v_core. by rewrite lookup_fmap, E. Qed.

Lemma v_core_inv v p ino m :
  v_core v !! p = Some (ino, m) -> exists i, v_i v !! p = Some i /\ k_no i = ino /\ k_mng i = m.
Proof.
  unfold v_core. rewrite lookup_fmap. destruct (v_i v !! p) as [i |]; [| done].
  intros [= <- <-]. eauto.
Qed.

(** An inode in the table of a worker is owned by it. *)
Lemma located v w k ino p :
  inv v -> v_w v !! w = Some k -> k_map k !! ino = Some p ->
  exists i to l, v_i v !! p = Some i /\ k_no i = ino /\ k_mng i = w /\
    stage (Some w) w (v_owner v !! ino) to l /\ placed v p ino (Some w) to l.
Proof.
  intros Hi Hk Hm. rewrite <- (v_map_lookup _ _ _ Hk) in Hm.
  destruct (inv_map _ Hi _ _ _ Hm) as [m Hc].
  destruct (inv_stage _ Hi _ _ _ Hc) as (loc & to & l & Hst & Hpl).
  destruct (v_core_inv _ _ _ _ Hc) as (i & Hp & <- & <-).
  rewrite (pl_map _ _ _ _ _ _ Hpl) in Hm. case_decide; [subst loc | done].
  assert (k_mng i = w) as E by by inversion Hst. rewrite E in Hst. by exists i, to, l.
Qed.

Lemma core_unique v p ino m q n :
  inv v -> v_core v !! p = Some (ino, m) -> v_core v !! q = Some (ino, n) -> q = p.
Proof. intros Hi H1 H2. by eapply (inv_inj _ Hi). Qed.

Lemma fkey_mng m (I : gmap Z IKey) p i : I !! p = Some i -> fkey <$> <[p := ik_mng m i]> I = fkey <$> I.
Proof. intros E. by apply (fmap_insert_same fkey _ _ i). Qed.

Lemma ikey_unique v p q i j :
  inv v -> v_i v !! p = Some i -> v_i v !! q = Some j -> k_no i = k_no j -> p = q.
Proof.
  intros Hi Hp Hq E. apply v_core_lookup in Hp, Hq. rewrite E in Hp. by eapply (inv_inj _ Hi).
Qed.

Section Steps.
Variables (ex : option (Z * Z)) (v : view).
Hypothesis HI : INV ex v.

(** *** Leaving the old owner *)

Section Export.
Variables (w ino p : Z) (k : WKey) (i : IKey) (c : Ctx).
Hypotheses (Hk : v_w v !! w = Some k) (Hm : k_map k !! ino = Some p) (Hp : v_i v !! p = Some i)
  (Hc : ptr c = p) (Hst : state c = kPrimaryRequestNewOwnerImport) (Hex : exporter c = w)
  (Hne : importer c <> w) (Hd : importer c <> -1)
  (Hflag : in_exporter_dirty_set (exported_inode c) = true -> ino ∈ k_dirty k)
  (Hbest : newOwnerCallback c = Some DeallocResources -> k_best i = Ok (importer c))
  (Hold : oldOwnerCallback c <> Some DeallocResources).

Definition wk_export : WKey :=
  mk_wkey (delete ino (k_map k)) (delExportedInodeFdMappings (k_app i) (k_own k)) (k_apps k)
    (k_dirty k ∖ {[ino]}).

Definition v_export : view :=
  mk_view (<[w := wk_export]> (v_w v)) (<[p := ik_mng kUnknownManageWorkerId i]> (v_i v)) (v_owner v)
    (if w =? kMasterWidConst then <[ino := p]> (v_unsafe v) else v_unsafe v) (v_fobjs v)
    (snoc kMasterWidConst c (v_msgs v)).

Lemma export_facts : exists to l, k_no i = ino /\ k_mng i = w /\
  stage (Some w) w (v_owner v !! ino) to l /\ placed v p ino (Some w) to l.
Proof.
  destruct (located v w k ino p (I_place _ _ HI) Hk Hm) as (j & to & l & Hj & ? & ? & ? & ?).
  rewrite Hp in Hj. injection Hj as <-. by exists to, l.
Qed.

Lemma export_place : inv v_export.
Proof.
  destruct export_facts as (to & l & Eno & Emng & Hs & Hpl). pose proof (I_place _ _ HI) as Hi.
  pose proof (v_core_lookup _ _ _ Hp) as Hcp. rewrite Eno in Hcp.
  assert (Hs' : stage None kUnknownManageWorkerId (v_owner v !! ino) kMasterWidConst (l ++ [c]) /\
    (l = [] \/ to = kMasterWidConst)).
  { inversion Hs; subst; cbn; split; eauto; [by apply st_asked | by apply st_both with (exporter c)]. }
  destruct Hs' as [Hs' Hto].
  eapply (inv_update v v_export p ino kUnknownManageWorkerId None kMasterWidConst (l ++ [c])); try done.
  - intros q n Hq. by eapply core_unique.
  - unfold v_core, v_export. cbn. rewrite lookup_fmap, lookup_insert_eq. cbn. by rewrite <- Eno.
  - intros n m E. rewrite Hcp in E. by injection E as <- <-.
  - intros q Hq. unfold v_core, v_export. cbn. by rewrite !lookup_fmap, lookup_insert_ne.
  - intros u n Hn. unfold v_map, v_export. cbn. destruct (decide (u = w)) as [-> |].
    + rewrite lookup_insert_eq, Hk. cbn. by rewrite lookup_delete_ne.
    + by rewrite lookup_insert_ne.
  - intros n Hn. cbn. case_match; [by rewrite lookup_insert_ne | done].
  - intros q u Hq. cbn. rewrite about_snoc, (about_other q c) by congruence. rewrite app_nil_r.
    by case_decide.
  - intros u c'. cbn. rewrite elem_snoc. naive_solver.
  - split; cbn.
    + intros u. destruct (decide (None = Some u)); [done |]. unfold v_map. cbn.
      destruct (decide (u = w)) as [-> |].
      * rewrite lookup_insert_eq. cbn. apply lookup_delete_eq.
      * rewrite lookup_insert_ne by done. fold (v_map v u). rewrite (pl_map _ _ _ _ _ _ Hpl).
        by rewrite decide_False by congruence.
    + pose proof (pl_unsafe _ _ _ _ _ _ Hpl) as Hu. destruct (w =? kMasterWidConst) eqn:E; b2p.
      * by rewrite lookup_insert_eq.
      * rewrite decide_False in Hu by congruence. done.
    + intros u. rewrite about_snoc, <- Hc, about_this by congruence. rewrite Hc.
      rewrite (pl_msgs _ _ _ _ _ _ Hpl). destruct Hto as [-> | ->]; repeat case_decide; congruence.
Qed.

Lemma export_owns u j pid fd fo :
  v_w v_export !! u = Some j -> owns_fd v_export j pid fd fo -> exists j', v_w v !! u = Some j' /\
    owns_fd v j' pid fd fo /\ (u = w -> fd_at (k_app i) pid fd = None).
Proof.
  destruct export_facts as (to & l & Eno & _). intros Hj (q & a & Hq & Hma & Hfa).
  destruct (fmap_lookup_eq _ _ _ _ _ (fkey_mng _ _ _ _ Hp) Hq) as (b & Hb & [= E1 _ E2]).
  rewrite E1 in Hma. rewrite E2 in Hfa. cbn in Hj. destruct (decide (u = w)) as [-> |].
  - rewrite lookup_insert_eq in Hj. injection Hj as <-. cbn in Hma.
    apply lookup_delete_Some in Hma as [Hno Hma]. exists k. split; [done |]. split; [by exists q, b |].
    intros _. destruct (fd_at (k_app i) pid fd) as [fo' |] eqn:E; [| done]. exfalso.
    assert (p = q) as <- by by eapply (fi_fd _ _ (I_fd _ _ HI) p q i b).
    rewrite Hp in Hb. injection Hb as <-. congruence.
  - rewrite lookup_insert_ne in Hj by done. exists j. split; [done |]. split; [by exists q, b | done].
Qed.

Lemma export_fd : fd_inv ex v_export.
Proof.
  pose proof (I_fd _ _ HI) as Hfd. pose proof (fkey_mng kUnknownManageWorkerId _ _ _ Hp) as Hi.
  destruct export_facts as (to & l & Eno & _).
  assert (Hf : fd_inv ex (mk_view (v_w v) (v_i v_export) (v_owner v) (v_unsafe v) (v_fobjs v) (v_msgs v)))
    by by eapply fd_inv_frame.
  destruct Hf as [H1 H2 H3 _ _ H6 H7 H8]. split; try done.
  - intros u j pid fd fo Hj Ho. destruct (export_owns u j pid fd fo Hj Ho) as (j' & Hj' & Ho' & Hn).
    apply (fi_own _ _ Hfd u j') in Ho'; [| done]. cbn in Hj. destruct (decide (u = w)) as [-> |].
    + rewrite lookup_insert_eq in Hj. injection Hj as <-. cbn. rewrite fd_at_export, Hn by done.
      rewrite Hk in Hj'. by injection Hj' as <-.
    + rewrite lookup_insert_ne in Hj by done. rewrite Hj in Hj'. by injection Hj' as <-.
  - intros u j pid fd fo Hj He Ho. cbn in Hj. destruct (decide (u = w)) as [-> |].
    + rewrite lookup_insert_eq in Hj. injection Hj as <-. cbn in Ho. rewrite fd_at_export in Ho.
      destruct (fd_at (k_app i) pid fd) eqn:Ea; [done |].
      destruct (fi_only _ _ Hfd w k pid fd fo Hk He Ho) as (q & b & Hb & Hmb & Hfb).
      assert (q <> p) by (intros ->; rewrite Hp in Hb; injection Hb as <-; congruence).
      exists q, b. cbn. rewrite lookup_insert_ne by done. split_and!; try done.
      rewrite lookup_delete_ne; [done | congruence].
    + rewrite lookup_insert_ne in Hj by done. eapply (owns_fd_frame v_export v j j); [by symmetry | done |].
      by eapply (fi_only _ _ Hfd u).
  - intros q a pid fd fo Hq Hfa. destruct (H7 q a pid fd fo Hq Hfa) as (u & j & n & Hj & Ha & Hr).
    cbn. destruct (decide (u = w)) as [-> |].
    + cbn in Hj. rewrite Hk in Hj. injection Hj as <-. exists w, wk_export, n.
      by rewrite lookup_insert_eq.
    + exists u, j, n. by rewrite lookup_insert_ne.
  - intros u j pid n Hj Ha. cbn in Hj. destruct (decide (u = w)) as [-> |].
    + rewrite lookup_insert_eq in Hj. injection Hj as <-. by apply (H8 w k pid n).
    + rewrite lookup_insert_ne in Hj by done. by apply (H8 u j pid n).
Qed.

Lemma export_pay : pay v_export.
Proof.
  destruct export_facts as (to & l & Eno & Emng & _). destruct (I_pay _ _ HI) as [H1 H0 H2 H3 H4].
  assert (w <> kUnknownManageWorkerId) by (intros ->; congruence).
  assert (Hv : forall q a, v_i v_export !! q = Some a -> exists b, v_i v !! q = Some b /\
    k_no b = k_no a /\ k_dno b = k_dno a /\ k_isdirty b = k_isdirty a /\ k_best b = k_best a).
  { intros q a. cbn. rewrite lookup_insert. case_decide; [| eauto 10].
    intros [= <-]. subst q. by exists i. }
  split.
  - intros q a Hq. destruct (Hv q a Hq) as (b & Hb & <- & <- & _). eauto.
  - cbn. rewrite lookup_insert_ne; [done | congruence].
  - intros u j n Hj Hn. cbn in Hj.
    assert (exists j', v_w v !! u = Some j' /\ n ∈ k_dirty j' /\ (u = w -> n <> ino))
      as (j' & Hj' & Hn' & Hne').
    { destruct (decide (u = w)) as [-> |].
      - rewrite lookup_insert_eq in Hj. injection Hj as <-. exists k. set_solver.
      - rewrite lookup_insert_ne in Hj by done. by exists j. }
    destruct (H2 u j' n Hj' Hn') as (q & b & Hb & Eb & Emb & Hd'). exists q, b. cbn.
    rewrite lookup_insert_ne; [done |]. intros <-. rewrite Hp in Hb. injection Hb as <-.
    apply Hne'; congruence.
  - intros u c' a Hin Hcar Ha Hfl. destruct (Hv _ _ Ha) as (b & Hb & _ & _ & <- & _).
    cbn in Hin. apply elem_snoc in Hin as [[_ ->] | Hin]; [| by eapply H3].
    apply Hflag in Hfl. destruct (H2 w k ino Hk Hfl) as (q & b' & Hb' & Eb & _ & Hd').
    rewrite Hc, Hp in Hb. injection Hb as <-.
    assert (q = p) as -> by (eapply ikey_unique; [apply (I_place _ _ HI) | done | done | congruence]).
    congruence.
  - intros u c' a Hin Hcar Ha Hcb. destruct (Hv _ _ Ha) as (b & Hb & _ & _ & _ & <-).
    cbn in Hin. apply elem_snoc in Hin as [[_ ->] | Hin]; [| by eapply H4].
    rewrite Hc, Hp in Hb. injection Hb as <-. auto.
Qed.

Lemma export_INV : INV ex v_export.
Proof. split; [apply export_place | apply export_fd | apply export_pay]. Qed.

End Export.

(** A message in the hands of its receiver is the first about its inode. *)
Lemma in_hand w c R p ino loc to l :
  v_msgs v = push w c R -> placed v p ino loc to l -> ptr c = p ->
  state c <> kOldOwnerExportSuccessNotification ->
  to = w /\ exists l', l = c :: l' /\ forall u, about p (R u) = if decide (u = w) then l' else [].
Proof.
  intros HR Hpl Hc Hs. pose proof (pl_msgs _ _ _ _ _ _ Hpl) as Hm. rewrite HR in Hm.
  pose proof (about_this c Hs) as Ht. rewrite Hc in Ht.
  pose proof (Hm w) as Hw. rewrite about_push, decide_True, Ht in Hw by done. cbn in Hw.
  case_decide as E; [| done]. subst to. split; [done |]. exists (about p (R w)). split; [done |].
  intros u. specialize (Hm u). rewrite about_push in Hm. case_decide; [congruence | done].
Qed.

Lemma hand_old w c R : v_msgs v = push w c R -> oldOwnerCallback c <> Some DeallocResources.
Proof.
  intros HR. apply (inv_msgs _ (I_place _ _ HI) w). rewrite HR. apply elem_push. by left.
Qed.

Lemma in_hand_stage w c R i :
  v_msgs v = push w c R -> v_i v !! ptr c = Some i -> state c <> kOldOwnerExportSuccessNotification ->
  exists loc l, stage loc (k_mng i) (v_owner v !! k_no i) w (c :: l) /\
    placed v (ptr c) (k_no i) loc w (c :: l) /\
    forall u, about (ptr c) (R u) = if decide (u = w) then l else [].
Proof.
  intros HR Hp Hs.
  destruct (inv_stage _ (I_place _ _ HI) _ _ _ (v_core_lookup _ _ _ Hp)) as (loc & to & l & Hst & Hpl).
  destruct (in_hand w c R (ptr c) (k_no i) loc to l HR Hpl eq_refl Hs) as (-> & l' & -> & Hu).
  by exists loc, l'.
Qed.

(** *** The request at the primary *)

Section Request.
Variables (c : Ctx) (R : Z -> list Ctx) (i : IKey).
Hypotheses (HR : v_msgs v = push kMasterWidConst c R) (Hp : v_i v !! ptr c = Some i)
  (Hst : state c = kPrimaryRequestNewOwnerImport).

Definition v_request : view :=
  mk_view (v_w v) (<[ptr c := ik_mng (importer c) i]> (v_i v)) (<[k_no i := -1]> (v_owner v))
    (v_unsafe v) (v_fobjs v) (snoc (importer c) (with_state kNewOwnerImport c) R).

Lemma request_facts : k_mng i = kUnknownManageWorkerId /\ importer c <> -1 /\
  placed v (ptr c) (k_no i) None kMasterWidConst [c] /\ forall u, about (ptr c) (R u) = [].
Proof.
  destruct (in_hand_stage _ _ _ _ HR Hp) as (loc & l & Hs & Hpl & Hu); [congruence |].
  inversion Hs; subst; try congruence. split_and!; try done. intros u. rewrite Hu. by case_decide.
Qed.

Lemma request_place : inv v_request.
Proof.
  destruct request_facts as (Em & Hd & Hpl & Hu). pose proof (I_place _ _ HI) as Hi.
  pose proof (v_core_lookup _ _ _ Hp) as Hcp.
  eapply (inv_update v v_request (ptr c) (k_no i) (importer c) None (importer c)
            [with_state kNewOwnerImport c]); try done.
  - intros q n Hq. by eapply core_unique.
  - unfold v_core, v_request. cbn. by rewrite lookup_fmap, lookup_insert_eq.
  - intros n m E. rewrite Hcp in E. by injection E as <- <-.
  - intros q Hq. unfold v_core, v_request. cbn. by rewrite !lookup_fmap, lookup_insert_ne.
  - intros n Hn. cbn. by rewrite lookup_insert_ne.
  - intros q u Hq. cbn. rewrite HR, about_snoc, about_push, !about_other by done.
    rewrite app_nil_r. by repeat case_decide.
  - intros u c'. cbn. rewrite elem_snoc, HR, elem_push. intros [[_ ->] | ?]; [left | by right; right].
    split; [done | exact (hand_old _ c R HR)].
  - cbn. rewrite lookup_insert_eq. by apply st_importing.
  - destruct Hpl as [P1 P2 P3]. split; cbn; [done | done |]. intros u.
    rewrite about_snoc, Hu. repeat case_decide; try done.
    by apply (about_this (with_state kNewOwnerImport c)).
Qed.

Lemma request_INV : INV ex v_request.
Proof.
  split; [apply request_place | |].
  - eapply fd_inv_frame; [apply (I_fd _ _ HI) | done | by apply fkey_mng | done].
  - destruct (I_pay _ _ HI) as [H1 H0 H2 H3 H4].
    assert (Hv : forall q a, v_i v_request !! q = Some a -> exists b, v_i v !! q = Some b /\
      k_no b = k_no a /\ k_dno b = k_dno a /\ k_isdirty b = k_isdirty a /\ k_best b = k_best a).
    { intros q a. cbn. rewrite lookup_insert. case_decide; [| eauto 10].
      intros [= <-]. subst q. by exists i. }
    assert (Hin : forall u c', c' ∈ v_msgs v_request u -> carries c' -> exists u0 c0, c0 ∈ v_msgs v u0 /\
      carries c0 /\ ptr c0 = ptr c' /\ importer c0 = importer c' /\
      exported_inode c0 = exported_inode c' /\ newOwnerCallback c0 = newOwnerCallback c').
    { intros u c'. cbn. rewrite elem_snoc, HR. intros [[_ ->] | Hin] Hcar.
      - exists kMasterWidConst, c. split_and!; try done; [apply elem_push; by left | by left].
      - exists u, c'. split_and!; try done. apply elem_push. by right. }
    split.
    + intros q a Hq. destruct (Hv q a Hq) as (b & Hb & <- & <- & _). eauto.
    + done.
    + intros u j n Hj Hn. destruct (H2 u j n Hj Hn) as (q & b & Hb & Eb & Emb & Hd'). exists q, b.
      cbn. rewrite lookup_insert_ne; [done |]. intros <-. rewrite Hp in Hb. injection Hb as <-.
      destruct request_facts as (E & _). cbn in Hj. congruence.
    + intros u c' a Hc' Hcar Ha Hfl. destruct (Hv _ _ Ha) as (b & Hb & _ & _ & <- & _).
      destruct (Hin u c' Hc' Hcar) as (u0 & c0 & Hc0 & Hcar0 & E1 & _ & E2 & _).
      rewrite <- E1 in Hb. rewrite <- E2 in Hfl. eauto.
    + intros u c' a Hc' Hcar Ha Hcb. destruct (Hv _ _ Ha) as (b & Hb & _ & _ & _ & <-).
      destruct (Hin u c' Hc' Hcar) as (u0 & c0 & Hc0 & Hcar0 & E1 & <- & _ & E2).
      rewrite <- E1 in Hb. rewrite <- E2 in Hcb. eauto.
Qed.

End Request.

(** *** The import at the new owner *)

Section Import.
Variables (w : Z) (k : WKey) (c : Ctx) (R : Z -> list Ctx) (i : IKey).
Hypotheses (HR : v_msgs v = push w c R) (Hk : v_w v !! w = Some k) (Hp : v_i v !! ptr c = Some i)
  (Hst : state c = kNewOwnerImport) (Hex : forall pid, ex <> Some (w, pid)).

Definition wk_import : WKey :=
  mk_wkey (<[k_no i := ptr c]> (k_map k)) (addImportedInodeFdMappings (k_app i) (k_own k)) (k_apps k)
    (if in_exporter_dirty_set (exported_inode c) then k_dirty k ∪ {[k_no i]} else k_dirty k).

Definition v_import : view :=
  mk_view (<[w := wk_import]> (v_w v)) (v_i v) (v_owner v)
    (if w =? kMasterWidConst then delete (k_no i) (v_unsafe v) else v_unsafe v) (v_fobjs v)
    (snoc kMasterWidConst (with_state kPrimaryImportSuccessNotification c) R).

Lemma import_facts : k_mng i = w /\ importer c = w /\ v_owner v !! k_no i = Some (-1) /\
  placed v (ptr c) (k_no i) None w [c] /\ forall u, about (ptr c) (R u) = [].
Proof.
  destruct (in_hand_stage _ _ _ _ HR Hp) as (loc & l & Hs & Hpl & Hu); [congruence |].
  inversion Hs; subst; try congruence. split_and!; try done. intros u. rewrite Hu. by case_decide.
Qed.

Lemma import_absent : k_map k !! k_no i = None.
Proof.
  destruct import_facts as (_ & _ & _ & Hpl & _).
  rewrite <- (v_map_lookup _ _ _ Hk). by rewrite (pl_map _ _ _ _ _ _ Hpl).
Qed.

Lemma import_place : inv v_import.
Proof.
  destruct import_facts as (Em & Hd & Eo & Hpl & Hu). pose proof (I_place _ _ HI) as Hi.
  pose proof (v_core_lookup _ _ _ Hp) as Hcp.
  eapply (inv_update v v_import (ptr c) (k_no i) (k_mng i) (Some w) kMasterWidConst
            [with_state kPrimaryImportSuccessNotification c]); try done.
  - intros q n Hq. by eapply core_unique.
  - intros n m E. rewrite Hcp in E. by injection E as <- <-.
  - intros u n Hn. unfold v_map, v_import. cbn. destruct (decide (u = w)) as [-> |].
    + rewrite lookup_insert_eq, Hk. cbn. by rewrite lookup_insert_ne.
    + by rewrite lookup_insert_ne.
  - intros n Hn. cbn. case_match; [by rewrite lookup_delete_ne | done].
  - intros q u Hq. cbn. rewrite HR, about_snoc, about_push, !about_other by done.
    rewrite app_nil_r. by repeat case_decide.
  - intros u c'. cbn. rewrite elem_snoc, HR, elem_push. intros [[_ ->] | ?]; [left | by right; right].
    split; [done | exact (hand_old _ c R HR)].
  - cbn. rewrite Eo, Em. by apply st_notify.
  - destruct Hpl as [P1 P2 P3]. split; unfold v_import; cbn [v_unsafe v_msgs].
    + intros u. unfold v_map. cbn [v_w]. destruct (decide (u = w)) as [-> |].
      * rewrite lookup_insert_eq, decide_True by done. cbn. apply lookup_insert_eq.
      * rewrite lookup_insert_ne by done. rewrite decide_False by congruence. apply P1.
    + destruct (w =? kMasterWidConst) eqn:E; b2p.
      * subst w. rewrite decide_True by congruence. apply lookup_delete_eq.
      * rewrite decide_False by congruence. done.
    + intros u. rewrite about_snoc, Hu. repeat case_decide; try done.
      by apply (about_this (with_state kPrimaryImportSuccessNotification c)).
Qed.

Lemma import_fd : fd_inv ex v_import.
Proof.
  pose proof (I_fd _ _ HI) as [H1 H2 H3 H4 H5 H6 H7 H8]. pose proof import_absent as Hab.
  assert (Hlk : forall u j, v_w v_import !! u = Some j -> (u = w /\ j = wk_import) \/ v_w v !! u = Some j).
  { intros u j. cbn. rewrite lookup_insert. case_decide; [| by right]. intros [= <-]. by left. }
  split; try done.
  - intros u j pid fd fo Hj (q & b & Hb & Hmb & Hfb).
    apply Hlk in Hj as [[-> ->] | Hj]; [| eapply H4; [done | by exists q, b]].
    cbn in Hmb |- *. rewrite fd_at_import. apply lookup_insert_Some in Hmb as [[En <-] | [Hn Hmb]].
    + cbn in Hb. rewrite Hp in Hb. injection Hb as <-.
      destruct (fd_at (k_own k) pid fd) as [fo' |] eqn:E; [| done]. exfalso.
      destruct (H5 w k pid fd fo' Hk (Hex pid) E) as (q & b & Hb & Hmb & Hfb').
      assert (q = ptr c) as -> by by eapply (H2 q (ptr c) b i).
      rewrite Hp in Hb. injection Hb as <-. congruence.
    + assert (fd_at (k_own k) pid fd = Some fo) as ->; [| done].
      eapply H4; [done |]. by exists q, b.
  - intros u j pid fd fo Hj He Ho. apply Hlk in Hj as [[-> ->] | Hj]; [| by eapply H5].
    cbn in Ho. rewrite fd_at_import in Ho. destruct (fd_at (k_own k) pid fd) as [fo' |] eqn:E.
    + injection Ho as ->. destruct (H5 w k pid fd fo Hk (Hex pid) E) as (q & b & Hb & Hmb & Hfb).
      exists q, b. cbn. split_and!; try done. rewrite lookup_insert_ne; [done | congruence].
    + exists (ptr c), i. cbn. split_and!; try done. apply lookup_insert_eq.
  - intros q a pid fd fo Hq Hfa. destruct (H7 q a pid fd fo Hq Hfa) as (u & j & n & Hj & Ha & Hr).
    cbn. destruct (decide (u = w)) as [-> |].
    + rewrite Hk in Hj. injection Hj as <-. exists w, wk_import, n. by rewrite lookup_insert_eq.
    + exists u, j, n. by rewrite lookup_insert_ne.
  - intros u j pid n Hj Ha. apply Hlk in Hj as [[-> ->] | Hj]; [| by eapply H8].
    by apply (H8 w k pid n).
Qed.

Lemma import_pay : pay v_import.
Proof.
  destruct (I_pay _ _ HI) as [H1 H0 H2 H3 H4]. destruct import_facts as (Em & _).
  assert (Hin : forall u c', c' ∈ v_msgs v_import u -> carries c' -> c' ∈ v_msgs v u).
  { intros u c'. cbn. rewrite elem_snoc, HR, elem_push. intros [[_ ->] | ?] [Hs | Hs]; try done; by right. }
  split; try done; [| | eauto | eauto].
  { cbn. rewrite lookup_insert_ne; [done | congruence]. }
  intros u j n Hj Hn. cbn in Hj. rewrite lookup_insert in Hj. case_decide as E; [| by eapply H2].
  injection Hj as <-. subst u. cbn in Hn |- *.
  destruct (in_exporter_dirty_set (exported_inode c)) eqn:Ef; [| by eapply H2].
  apply elem_of_union in Hn as [Hn | ->%elem_of_singleton]; [by eapply H2 |].
  exists (ptr c), i. split_and!; try done.
  eapply (H3 w c i); try done; [| by right]. rewrite HR. apply elem_push. by left.
Qed.

Lemma import_INV : INV ex v_import.
Proof. split; [apply import_place | apply import_fd | apply import_pay]. Qed.

End Import.

(** *** The notification to the primary *)

Section Success.
Variables (c : Ctx) (R : Z -> list Ctx) (i : IKey).
Hypotheses (HR : v_msgs v = push kMasterWidConst c R) (Hp : v_i v !! ptr c = Some i)
  (Hst : state c = kPrimaryImportSuccessNotification).

Definition v_success : view :=
  mk_view (v_w v) (v_i v) (markInodeOwnershipUpdated (k_no i) (importer c) (v_owner v))
    (v_unsafe v) (v_fobjs v) R.

Lemma success_place : inv v_success.
Proof.
  destruct (in_hand_stage _ _ _ _ HR Hp) as (loc & l & Hs & Hpl & Hu); [congruence |].
  pose proof (I_place _ _ HI) as Hi. pose proof (v_core_lookup _ _ _ Hp) as Hcp.
  assert (Eo : markInodeOwnershipUpdated (k_no i) (importer c) (v_owner v) !! k_no i =
    owner_entry (importer c)).
  { unfold markInodeOwnershipUpdated, owner_entry.
    case_match; [apply lookup_delete_eq | apply lookup_insert_eq]. }
  eapply (inv_update v v_success (ptr c) (k_no i) (k_mng i) loc kMasterWidConst l); try done.
  - intros q n Hq. by eapply core_unique.
  - intros n m E. rewrite Hcp in E. by injection E as <- <-.
  - intros n Hn. cbn. unfold markInodeOwnershipUpdated.
    case_match; [by rewrite lookup_delete_ne | by rewrite lookup_insert_ne].
  - intros q u Hq. cbn. rewrite HR, about_push, about_other by done. by case_decide.
  - intros u c'. cbn. rewrite HR, elem_push. by right; right.
  - cbn. rewrite Eo. inversion Hs; subst; try congruence.
    + replace (importer c) with (k_mng i) by done. apply st_owned.
    + by apply st_asked.
  - destruct Hpl as [P1 P2 P3]. by split.
Qed.

Lemma success_INV : INV ex v_success.
Proof.
  split; [apply success_place | by eapply fd_inv_frame; [apply (I_fd _ _ HI) | ..] |].
  destruct (I_pay _ _ HI) as [H1 H0 H2 H3 H4].
  assert (Hin : forall u c', c' ∈ R u -> c' ∈ v_msgs v u).
  { intros u c' Hc'. rewrite HR. apply elem_push. by right. }
  split; cbn; eauto.
Qed.

End Success.

(** *** Changes of an inode by its owner *)

(** No inode moves while it is in the table of a worker. *)
Lemma at_rest w k ino p u c :
  v_w v !! w = Some k -> k_map k !! ino = Some p -> c ∈ v_msgs v u -> ptr c = p -> ~ carries c.
Proof.
  intros Hk Hm Hc Hp Hcar.
  destruct (located v w k ino p (I_place _ _ HI) Hk Hm) as (i & to & l & _ & _ & _ & Hs & Hpl).
  assert (Hin : c ∈ about p (v_msgs v u)).
  { apply elem_about. split_and!; [done | done | destruct Hcar; congruence]. }
  rewrite (pl_msgs _ _ _ _ _ _ Hpl) in Hin. case_decide; [| set_solver].
  inversion Hs; subst; [set_solver |]. apply list_elem_of_singleton in Hin as ->.
  destruct Hcar; congruence.
Qed.

Definition wk_dirty (D : gset Z) (k : WKey) : WKey := mk_wkey (k_map k) (k_own k) (k_apps k) D.
Definition ik_touch (b : bool) (r : res Z) (i : IKey) : IKey :=
  mk_ikey (k_no i) (k_mng i) (k_ref i) (k_app i) b (k_dno i) r.

Lemma touch_INV w k p i D b r :
  v_w v !! w = Some k -> v_i v !! p = Some i -> k_mng i = w ->
  (forall n, n ∈ D -> n <> k_no i -> n ∈ k_dirty k) -> (k_no i ∈ D -> b = true) ->
  (b = true /\ r = k_best i) \/ (forall u c, c ∈ v_msgs v u -> ptr c = p -> ~ carries c) ->
  INV ex (mk_view (<[w := wk_dirty D k]> (v_w v)) (<[p := ik_touch b r i]> (v_i v)) (v_owner v)
            (v_unsafe v) (v_fobjs v) (v_msgs v)).
Proof.
  intros Hk Hp Hw HD Hb Hcase. destruct HI as [Hi Hf [H1 H0 H2 H3 H4]].
  assert (Hcore : core <$> <[p := ik_touch b r i]> (v_i v) = core <$> v_i v)
    by by apply (fmap_insert_same core _ _ i).
  split.
  - eapply inv_ext; [done | | done | done | done | done |].
    + intros u. unfold v_map. cbn. rewrite lookup_insert. case_decide; [subst u; by rewrite Hk | done].
    + intros u c Hc. by apply (inv_msgs _ Hi u).
  - eapply fd_inv_frame; [done | | | done]; cbn.
    + by apply (fmap_insert_same fwkey _ _ k).
    + by apply (fmap_insert_same fkey _ _ i).
  - split; cbn.
    + intros q a. rewrite lookup_insert. case_decide; [| by apply H1]. intros [= <-]. exact (H1 p i Hp).
    + rewrite lookup_insert_ne; [done | congruence].
    + intros u j n Hj Hn. assert (Hn' : u = w /\ n = k_no i \/ exists j', v_w v !! u = Some j' /\ n ∈ k_dirty j' /\
        (u = w -> n <> k_no i)).
      { destruct (decide (u = w)) as [-> |].
        - rewrite lookup_insert_eq in Hj. injection Hj as <-.
          destruct (decide (n = k_no i)); [by left | right]. exists k. split_and!; auto.
        - rewrite lookup_insert_ne in Hj by done. right. by exists j. }
      destruct Hn' as [[-> ->] | (j' & Hj' & Hn' & Hne)].
      * rewrite lookup_insert_eq in Hj. injection Hj as <-. eexists p, _. rewrite lookup_insert_eq. eauto.
      * destruct (H2 u j' n Hj' Hn') as (q & a & Ha & Ea & Em & Hd). exists q, a.
        rewrite lookup_insert_ne; [done |]. intros <-. rewrite Hp in Ha. injection Ha as <-.
        apply Hne; congruence.
    + intros u c a Hc Hcar. rewrite lookup_insert. case_decide as E; [| by eapply H3].
      intros [= <-] _. cbn. destruct Hcase as [[-> _] | Hno]; [done |]. by destruct (Hno u c).
    + intros u c a Hc Hcar. rewrite lookup_insert. case_decide as E; [| by eapply H4].
      intros [= <-] Hcb. cbn. destruct Hcase as [[_ ->] | Hno]; [| by destruct (Hno u c)].
      eapply H4; try done. by rewrite <- E.
Qed.

End Steps.

(** ** From the code to the views *)

(** A message is in the ring of its receiver, and a worker does not send to itself. *)
Definition sent (u : Z) (c : Ctx) : Prop :=
  match state c with
  | kPrimaryRequestNewOwnerImport => u = kMasterWidConst /\ exporter c <> kMasterWidConst
  | kNewOwnerImport => u <> kMasterWidConst
  | kPrimaryImportSuccessNotification => u = kMasterWidConst /\ importer c <> kMasterWidConst
  | _ => True
  end.

Definition SINV (ex : option (Z * Z)) (s : System) : Prop :=
  INV ex (view_of s (msgs s)) /\ forall u c, c ∈ msgs s u -> sent u c.

(** States that differ in what the invariants do not mention. *)
Definition same (s s' : System) : Prop := (forall R, view_of s' R = view_of s R) /\ rings s' = rings s.

#[export] Instance same_refl : Reflexive same.
Proof. by split. Qed.
#[export] Instance same_trans : Transitive same.
Proof. intros s1 s2 s3 [H1 H2] [H3 H4]. split; [intros R; by rewrite H3 | congruence]. Qed.

Lemma same_msgs s s' : same s s' -> msgs s' = msgs s.
Proof. intros [_ E]. unfold msgs. by rewrite E. Qed.

Lemma same_SINV ex s s' : same s s' -> SINV ex s -> SINV ex s'.
Proof. intros Hs [H1 H2]. unfold SINV. rewrite (same_msgs _ _ Hs). destruct Hs as [E _]. by rewrite E. Qed.

Lemma same_answer req ret s : same s (answer req ret s).
Proof. done. Qed.

Lemma same_worker w x x' s : workers s !! w = Some x -> wkey x' = wkey x -> same s (put_worker w x' s).
Proof.
  intros Hx E. split; [| done]. intros R. unfold view_of. cbn. f_equal.
  by apply (fmap_insert_same wkey _ _ x).
Qed.

Lemma same_inode p i i' s : inodes s !! p = Some i -> ikey i' = ikey i -> same s (put_inode p i' s).
Proof.
  intros Hp E. split; [| done]. intros R. unfold view_of. cbn. f_equal.
  by apply (fmap_insert_same ikey _ _ i).
Qed.

Lemma same_items h s : same s (set_items h s).
Proof. done. Qed.

Lemma same_recent rec s :
  same s (set_primary (inodeToOwnerMap s) rec (unsafe_reassigned_inodes s) s).
Proof. done. Qed.

#[export] Hint Resolve same_answer same_items same_recent : ufs.

Lemma get_worker_ok w s x : get_worker w s = Ok x <-> workers s !! w = Some x.
Proof. unfold get_worker. destruct (workers s !! w); naive_solver. Qed.
Lemma get_inode_ok p s i : get_inode p s = Ok i <-> inodes s !! p = Some i.
Proof. unfold get_inode. destruct (inodes s !! p); naive_solver. Qed.
Lemma get_fobj_ok fo s f : get_fobj fo s = Ok f <-> fobjs s !! fo = Some f.
Proof. unfold get_fobj. destruct (fobjs s !! fo); naive_solver. Qed.

(** Takes a successful run apart, and the tests on the way. *)
Ltac run_in H :=
  repeat match type of H with
  | res_bind _ _ = Ok _ => let E := fresh "E" in
      apply res_bind_ok in H as (? & E & H);
      try (first [apply get_worker_ok in E | apply get_inode_ok in E | apply get_fobj_ok in E
                 | apply check_ok in E])
  | match ?p with _ => _ end = _ =>
      lazymatch type of p with prod _ _ => destruct p eqn:? end
  end.

Lemma view_lookup_i s R p i : inodes s !! p = Some i -> v_i (view_of s R) !! p = Some (ikey i).
Proof. intros E. cbn. by rewrite lookup_fmap, E. Qed.
Lemma view_lookup_w s R w x : workers s !! w = Some x -> v_w (view_of s R) !! w = Some (wkey x).
Proof. intros E. cbn. by rewrite lookup_fmap, E. Qed.

Lemma view_core s R p : is_Some (v_core (view_of s R) !! p) <-> is_Some (inodes s !! p).
Proof. unfold v_core. cbn. by rewrite !lookup_fmap, !fmap_is_Some. Qed.

Lemma send_view d m s s' :
  send_message d m s = Ok s' -> (forall R, view_of s' R = view_of s R) /\
  forall u, msgs s' u = match ctx_of m with Some c => snoc d c (msgs s) u | None => msgs s u end.
Proof.
  unfold send_message. destruct (rings s !! d) as [q |] eqn:E; [| done]. intros [= <-].
  split; [done |]. intros u. unfold msgs, snoc. cbn [rings set_rings].
  destruct (decide (u = d)) as [-> | Hu].
  - rewrite lookup_insert_eq, E. change (omap ctx_of (q ++ [m]) =
      match ctx_of m with Some c => omap ctx_of q ++ [c] | None => omap ctx_of q end).
    rewrite omap_app. destruct m; [done | apply app_nil_r].
  - rewrite lookup_insert_ne by done. by destruct (ctx_of m).
Qed.

Lemma SINV_send ex s d c s' :
  INV ex (view_of s (snoc d c (msgs s))) -> (forall u c, c ∈ msgs s u -> sent u c) -> sent d c ->
  send_message d (kReassignment c) s = Ok s' -> SINV ex s'.
Proof.
  intros HI Hs Hc [Hv Hm]%send_view. cbn in Hm. split.
  - rewrite Hv. apply (INV_msgs ex _ (msgs s')) in HI; [done | |].
    + intros q w. by rewrite Hm.
    + intros w c'. rewrite Hm. by apply (inv_msgs _ (I_place _ _ HI) w).
  - intros u c'. rewrite Hm, elem_snoc. intros [[-> ->] | ?]; auto.
Qed.

(** A message to oneself is handled at once. *)
Lemma INV_front ex s w c :
  INV ex (view_of s (snoc w c (msgs s))) -> about (ptr c) (msgs s w) = [] ->
  INV ex (view_of s (push w c (msgs s))).
Proof.
  intros HI Hn. apply (INV_msgs ex _ (push w c (msgs s))) in HI; [done | |].
  - intros q u. cbn. rewrite about_push, about_snoc. case_decide as E; [| done]. subst u.
    destruct (decide (q = ptr c)) as [-> | Hq]; [by rewrite Hn, app_nil_r |].
    by rewrite about_other, app_nil_r by done.
  - intros u c' Hc. apply (inv_msgs _ (I_place _ _ HI) u). cbn. rewrite elem_snoc.
    by rewrite elem_push in Hc.
Qed.

Lemma INV_old ex s d c :
  INV ex (view_of s (msgs s)) -> state c = kOldOwnerExportSuccessNotification ->
  is_Some (inodes s !! ptr c) -> oldOwnerCallback c <> Some DeallocResources ->
  INV ex (view_of s (snoc d c (msgs s))).
Proof.
  intros HI Hst Hp Hcb. apply (INV_msgs ex _ (snoc d c (msgs s))) in HI; [done | |].
  - intros q u. cbn. rewrite about_snoc, about_old, app_nil_r by done. by case_decide.
  - intros u c' [[-> ->] | Hc]%elem_snoc; [by rewrite view_core |].
    by apply (inv_msgs _ (I_place _ _ HI) u).
Qed.

Lemma INV_drop_old ex s w c :
  INV ex (view_of s (push w c (msgs s))) -> state c = kOldOwnerExportSuccessNotification ->
  INV ex (view_of s (msgs s)).
Proof.
  intros HI Hst. apply (INV_msgs ex _ (msgs s)) in HI; [done | |].
  - intros q u. cbn. rewrite about_push, about_old by done. by case_decide.
  - intros u c' Hc. apply (inv_msgs _ (I_place _ _ HI) u). cbn. rewrite elem_push. by right.
Qed.

(** A change that takes inodes from the table of [w] at most, and no descriptors from inodes. *)
Definition dkey (i : IKey) : Z * gmap Z (gmap Z Z) := (k_no i, k_app i).
Definition shrinks (w : Z) (v v' : view) : Prop :=
  (forall k', v_w v' !! w = Some k' -> exists k, v_w v !! w = Some k /\ k_map k' ⊆ k_map k) /\
  dkey <$> v_i v' = dkey <$> v_i v.

#[export] Instance shrinks_refl w : Reflexive (shrinks w).
Proof. intros v. split; [| done]. intros k Hk. by exists k. Qed.
#[export] Instance shrinks_trans w : Transitive (shrinks w).
Proof.
  intros v1 v2 v3 [H1 E1] [H2 E2]. split; [| congruence]. intros k3 Hk3.
  destruct (H2 _ Hk3) as (k2 & Hk2 & Hs2), (H1 _ Hk2) as (k1 & Hk1 & Hs1).
  exists k1. split; [done |]. by transitivity (k_map k2).
Qed.

Section Handlers.
Context `{UIter} `{SIter}.

(** The callbacks that do not move inodes. *)
Lemma callback_same exec w cb c s s' :
  cb <> Some DeallocResources -> run_callback exec w cb c s = Ok s' -> same s s'.
Proof. intros Hn E. destruct cb as [[| |] |]; [| | done |]; injection E as <-; done. Qed.

Lemma old_ok f w c s s' :
  state c = kOldOwnerExportSuccessNotification -> oldOwnerCallback c <> Some DeallocResources ->
  ProcessReassignmentCtx f w c s = Ok s' -> same s s'.
Proof.
  intros Hst Hcb. destruct f as [| f]; [done |]. cbn. unfold process_ctx. rewrite Hst.
  by apply callback_same.
Qed.

Lemma success_ok ex f w c s s' :
  INV ex (view_of s (push kMasterWidConst c (msgs s))) -> (forall u c, c ∈ msgs s u -> sent u c) ->
  state c = kPrimaryImportSuccessNotification -> ProcessReassignmentCtx f w c s = Ok s' -> SINV ex s'.
Proof.
  intros HI Hs Hst. destruct f as [| f]; [done |]. cbn. unfold process_ctx. rewrite Hst.
  unfold PrimaryImportSuccessNotification. intros E. run_in E.
  match goal with H : inodes s !! _ = Some ?a |- _ => rename a into i, H into Hp end.
  pose proof (success_INV ex _ HI c (msgs s) (ikey i) eq_refl (view_lookup_i _ _ _ _ Hp) Hst) as HI'.
  pose proof (hand_old ex _ HI kMasterWidConst c (msgs s) eq_refl) as Hcb.
  set (s1 := set_primary _ _ _ s) in E. change (INV ex (view_of s1 (msgs s1))) in HI'.
  unfold SendMessageOrExecute in E. case_if_in E.
  - apply (old_ok f) in E; [| done | done]. by eapply same_SINV.
  - eapply (SINV_send ex s1); [| exact Hs | | exact E]; [| done].
    apply INV_old; [done | done | by exists i | done].
Qed.

(** What [importInode] does. *)
Lemma importInode_view w e s s' :
  importInode w e s = Ok s' -> exists x i, workers s !! w = Some x /\ inodes s !! inode e = Some i /\
    mngWid i = w /\ rings s' = rings s /\ inodes s' = inodes s /\
    unsafe_reassigned_inodes s' = unsafe_reassigned_inodes s /\
    (inodeMap x !! i_no i = None -> forall R, view_of s' R =
       mk_view (<[w := mk_wkey (<[i_no i := inode e]> (inodeMap x))
                         (addImportedInodeFdMappings (appFdMap i) (ownerAppFdMap x)) (appMap x)
                         (if in_exporter_dirty_set e then dirtyInodeSet x ∪ {[i_no i]}
                          else dirtyInodeSet x)]> (wkey <$> workers s))
         (ikey <$> inodes s) (inodeToOwnerMap s) (unsafe_reassigned_inodes s) (fobjs s) R).
Proof.
  unfold importInode. intros E. run_in E. b2p.
  assert (Ex : exists y, wkey y = mk_wkey
      (match inodeMap x !! i_no x0 with Some _ => inodeMap x | None => <[i_no x0 := inode e]> (inodeMap x) end)
      (addImportedInodeFdMappings (appFdMap x0) (ownerAppFdMap x)) (appMap x)
      (if in_exporter_dirty_set e then dirtyInodeSet x ∪ {[i_no x0]} else dirtyInodeSet x) /\
      s' = put_worker w y s).
  { injection E as <-. eexists. split; [| done].
    case_if_in E4; run_in E4; injection E4 as <-; by destruct (inodeMap x !! i_no x0), (in_exporter_dirty_set e). }
  destruct Ex as (y & Ey & ->). exists x, x0. split_and!; try done.
  intros Hno R. unfold view_of. cbn. f_equal. rewrite fmap_insert, Ey. by rewrite Hno.
Qed.

(** Either the inode is sent to the worker with most of its bitmaps, or the invariants do not
    notice the deallocation. *)
Lemma dealloc_cases exec w p s s' :
  OwnerDeallocResources exec w p s = Ok s' -> exists i, inodes s !! p = Some i /\
  ((exists b, best (data i) = Ok b /\ b <> w /\
     OwnerExportThroughPrimary exec w (i_no i) b None (Some DeallocResources) s = Ok s') \/
   (rings s' = rings s /\ (forall R, shrinks w (view_of s R) (view_of s' R)) /\
    forall ex R, INV ex (view_of s R) -> INV ex (view_of s' R))).
Proof.
  unfold OwnerDeallocResources. intros E. run_in E. rename x into i.
  exists i. split; [done |]. case_if_in E.
  { injection E as <-. right. destruct (same_inode p i (set_onClose true i) s E0 eq_refl) as [Hv _].
    split_and!; [done | intros R; by rewrite Hv | intros ex R; by rewrite Hv]. }
  run_in E. rename x into b. fold (best (data i)) in E1. case_if_in E; [left; eauto |]. right.
  run_in E. unfold OwnerEnsureLocalBitmapsInMem in E2. run_in E2.
  assert (Hs : same s s0).
  { case_if_in E2; [by injection E2 as _ <- |]. run_in E2. injection E2 as _ <-. by eapply same_worker. }
  case_if_in E.
  { injection E as <-. destruct Hs as [Hv Er].
    split_and!; [done | intros R; by rewrite Hv | intros ex R; by rewrite Hv]. }
  run_in E. b2p. injection E as <-. split_and!; [cbn; apply Hs | |].
  { intros R. destruct Hs as [Hv _]. rewrite <- (Hv R). split; cbn.
    - intros k'. rewrite lookup_fmap, lookup_insert_eq. intros [= <-]. eexists. rewrite lookup_fmap.
      match goal with Hx : workers s0 !! w = Some _ |- _ => rewrite Hx end. by split.
    - specialize (Hv R). injection Hv as _ Ei _ _ _. rewrite fmap_insert.
      apply (fmap_insert_same dkey _ _ (ikey i)); [| done]. by rewrite Ei, lookup_fmap, E0. }
  intros ex R HI. destruct Hs as [Hv _]. specialize (Hv R). rewrite <- Hv in HI.
  assert (Ei : ikey <$> inodes s0 = ikey <$> inodes s) by by injection Hv.
  assert (Hi0 : v_i (view_of s0 R) !! p = Some (ikey i)) by (cbn; by rewrite Ei, lookup_fmap, E0).
  match goal with Hx : workers s0 !! w = Some ?a |- _ => rename a into y, Hx into Hy end.
  epose proof (touch_INV ex _ HI w (wkey y) p (ikey i) (dirtyInodeSet y ∪ {[i_no i]}) true
                 (best (data i)) (view_lookup_w _ _ _ _ Hy) Hi0 _ _ _ _) as HT.
  cbn in HT. unfold view_of. cbn. rewrite !fmap_insert. exact HT.
  Unshelve. all: cbn.
  - congruence.
  - set_solver.
  - done.
  - by left.
Qed.

Lemma sent_other s s' : rings s' = rings s -> msgs s' = msgs s.
Proof. intros E. unfold msgs. by rewrite E. Qed.

Lemma import_ok f w c s s' :
  INV None (view_of s (push w c (msgs s))) -> (forall u c, c ∈ msgs s u -> sent u c) ->
  state c = kNewOwnerImport -> ProcessReassignmentCtx f w c s = Ok s' -> SINV None s'.
Proof.
  intros HI Hs Hst. destruct f as [| f]; [done |]. cbn. unfold process_ctx. rewrite Hst.
  unfold NewOwnerImport. intros E. run_in E.
  apply importInode_view in E0 as (y & i & Hy & Hp & Hm & Er & Ei & Eun & Hv).
  pose proof (view_lookup_i _ (push w c (msgs s)) _ _ Hp) as Hpi.
  pose proof (view_lookup_w _ (push w c (msgs s)) _ _ Hy) as Hyw.
  assert (Hex : forall pid, (None : option (Z * Z)) <> Some (w, pid)) by done.
  destruct (import_facts None _ HI w (wkey y) c (msgs s) (ikey i) eq_refl Hyw Hpi Hst Hex)
    as (Emg & Eimp & _ & _ & Hab).
  pose proof (import_absent None _ HI w (wkey y) c (msgs s) (ikey i) eq_refl Hyw Hpi Hst Hex) as Hno.
  cbn in Hno. specialize (Hv Hno).
  pose proof (import_INV None _ HI w (wkey y) c (msgs s) (ikey i) eq_refl Hyw Hpi Hst Hex) as HI'.
  set (c' := with_state kPrimaryImportSuccessNotification c) in *.
  assert (H1 : rings x0 = rings s /\ inodes x0 = inodes s /\ INV None (view_of x0 (snoc kMasterWidConst c' (msgs s)))).
  { replace (importer_wid (exported_inode c)) with w in E1 by done.
    unfold v_import in HI'. cbn in HI'. destruct (w =? kMasterWidConst) eqn:Ew.
    - run_in E1. injection E1 as <-. cbn. rewrite Er, Ei. split_and!; [done | done |].
      unfold view_of in Hv |- *. cbn. specialize (Hv (snoc kMasterWidConst c' (msgs s))).
      injection Hv as -> Hi' -> _ ->. rewrite Ei, Eun.
      match goal with Hx : inodes x !! _ = Some _ |- _ => rewrite Ei, Hp in Hx; injection Hx as <- end.
      exact HI'.
    - injection E1 as <-. split_and!; [done | done |]. rewrite Hv. exact HI'. }
  destruct H1 as (Er1 & Ei1 & HI1).
  assert (H2 : rings x1 = rings s /\ INV None (view_of x1 (snoc kMasterWidConst c' (msgs s)))).
  { destruct (decide (newOwnerCallback c = Some DeallocResources)) as [Ecb | Ecb].
    - rewrite Ecb in E2. cbn in E2. apply dealloc_cases in E2 as (i' & Hi' & [(b & Hb & Hne & _) | (Er2 & _ & H2)]).
      + exfalso. rewrite Ei1 in Hi'. rewrite Hp in Hi'. injection Hi' as <-. apply Hne.
        pose proof (pay_best _ (I_pay _ _ HI) w c (ikey i)) as Hpb. cbn in Hpb.
        rewrite Hpb in Hb; try done; [by injection Hb as <- | apply elem_push; by left | by right].
      + split; [congruence | auto].
    - apply callback_same in E2 as [Hv2 Er2]; [| done]. split; [congruence | by rewrite Hv2]. }
  destruct H2 as (Er2 & HI2). rewrite <- (sent_other s x1 Er2) in HI2, Hs, Hab.
  unfold SendMessageOrExecute in E. case_if_in E.
  - eapply success_ok; [| done | | done]; [| done]. apply INV_front; [done |]. apply Hab.
  - eapply SINV_send; [done | done | | done]. split; [done |]. change (importer c <> kMasterWidConst). congruence.
Qed.

Lemma request_ok ex f w c s s' :
  INV ex (view_of s (push kMasterWidConst c (msgs s))) -> (forall u c, c ∈ msgs s u -> sent u c) ->
  state c = kPrimaryRequestNewOwnerImport -> ex = None \/ importer c <> kMasterWidConst ->
  ProcessReassignmentCtx f w c s = Ok s' -> SINV ex s'.
Proof.
  intros HI Hs Hst Hex. destruct f as [| f]; [done |]. cbn. unfold process_ctx. rewrite Hst.
  unfold PrimaryRequestNewOwnerImport. intros E. run_in E. b2p. subst w b.
  rename i into i', x0 into i, E1 into Hp.
  pose proof (view_lookup_i _ (push kMasterWidConst c (msgs s)) _ _ Hp) as Hpi.
  destruct (request_facts ex _ HI c (msgs s) (ikey i) eq_refl Hpi Hst) as (Em & Hd & _ & Hab).
  pose proof (request_INV ex _ HI c (msgs s) (ikey i) eq_refl Hpi Hst) as HI'.
  cbn in Em. unfold setManageWorkerId in Heqp. rewrite Em, andb_false_r in Heqp. injection Heqp as <-.
  set (s1 := put_inode _ _ _) in E. set (c' := with_state kNewOwnerImport c) in *.
  assert (HI1 : INV ex (view_of s1 (snoc (importer c) c' (msgs s1)))).
  { unfold view_of, s1. cbn. rewrite fmap_insert. exact HI'. }
  unfold SendMessageOrExecute in E. case_if_in E.
  - destruct Hex as [-> | Hne]; [| by unfold importer in Hne; congruence].
    eapply (import_ok f _ c' s1); [| exact Hs | done | exact E].
    rewrite Heqb. apply INV_front; [done | apply Hab].
  - eapply (SINV_send ex s1); [done | exact Hs | exact (not_eq_sym Heqb) | exact E].
Qed.

(** What [exportInode] does. *)
Lemma exportInode_view w ino e s s' :
  exportInode w ino s = Ok (Some e, s') -> exists x p i, workers s !! w = Some x /\
    inodeMap x !! ino = Some p /\ inodes s !! p = Some i /\ inode e = p /\ exporter_wid e = w /\
    NumInProgressRequests ino x = 0 /\ rings s' = rings s /\
    in_exporter_dirty_set e = bool_decide (i_no i ∈ dirtyInodeSet x) /\
    (i_no i = ino -> forall R, view_of s' R =
       mk_view (<[w := wk_export ino (wkey x) (ikey i)]> (wkey <$> workers s))
         (<[p := ik_mng kUnknownManageWorkerId (ikey i)]> (ikey <$> inodes s)) (inodeToOwnerMap s)
         (unsafe_reassigned_inodes s) (fobjs s) R).
Proof.
  unfold exportInode. intros E. run_in E. b2p.
  destruct (inodeMap x !! ino) as [p |] eqn:Em; [| done]. run_in E.
  unfold splitInodeDataBlockBufferSlot in *. run_in E3. injection E3 as <- <-.
  match goal with Hx : setManageWorkerUnknown _ _ = _ |- _ =>
    unfold setManageWorkerUnknown in Hx; case_if_in Hx; injection Hx as <- <-; [done |] end.
  injection E as <- <-. exists x, p, x1. split_and!; try done.
  intros Eno R. unfold view_of. cbn. rewrite !fmap_insert, Eno. done.
Qed.

Lemma export_ok ex f w ino d oldcb newcb s s' :
  SINV ex s -> oldcb <> Some DeallocResources ->
  (newcb = Some DeallocResources -> forall x p i, workers s !! w = Some x ->
     inodeMap x !! ino = Some p -> inodes s !! p = Some i -> best (data i) = Ok d) ->
  OwnerExportThroughPrimary (ProcessReassignmentCtx f) w ino d oldcb newcb s = Ok s' -> SINV ex s'.
Proof.
  intros [HI Hs] Hold Hbest. unfold OwnerExportThroughPrimary. intros E. run_in E. b2p.
  rename s0 into s1. destruct o as [e |]; [| done].
  apply exportInode_view in E1 as (x2 & p & i & Hx & Hm & Hp & Ee & Ew & _ & Er & Ed & Hv).
  pose proof (view_lookup_w _ (msgs s) _ _ Hx) as Hxw. pose proof (view_lookup_i _ (msgs s) _ _ Hp) as Hpi.
  destruct (located _ w (wkey x2) ino p (I_place _ _ HI) Hxw Hm) as (k & to & l & Hk & Eno & Emg & Hst & Hpl).
  rewrite Hpi in Hk. injection Hk as <-. cbn in Eno. specialize (Hv Eno). run_in E. b2p.
  cbn [exporter_wid importer_wid] in *.
  match type of E with SendMessageOrExecute _ _ _ ?cc ?ss = _ => set (c := cc) in E; set (s2 := ss) in E end.
  assert (HI2 : INV ex (view_of s2 (snoc kMasterWidConst c (msgs s)))).
  { pose proof (export_INV ex _ HI w ino p (wkey x2) (ikey i) c Hxw Hm Hpi) as HE.
    rewrite Eno in Ed.
    assert (Es : view_of s2 (snoc kMasterWidConst c (msgs s)) = v_export (view_of s (msgs s)) w ino p (wkey x2) (ikey i) c).
    { unfold s2. rewrite Ew. unfold v_export. cbn. specialize (Hv (snoc kMasterWidConst c (msgs s))).
      destruct (w =? kMasterWidConst); [| done]. unfold view_of in Hv |- *. cbn.
      injection Hv as -> -> -> -> ->. by rewrite Ee. }
    rewrite Es. apply HE; try done.
    - cbn. rewrite Ed. apply bool_decide_eq_true.
    - cbn. intros Hcb. by eapply Hbest. }
  assert (Er2 : rings s2 = rings s) by (unfold s2; by case_match).
  rewrite <- (sent_other s s2 Er2) in HI2, Hs. unfold SendMessageOrExecute in E. case_if_in E.
  - eapply (request_ok ex f _ c s2); [| exact Hs | done | | exact E]; [| right; cbn; congruence].
    apply INV_front; [done |]. change (about (inode e) (msgs s2 kMasterWidConst) = []).
    rewrite (sent_other s s2 Er2) in Hs |- *. rewrite Ee.
    pose proof (pl_msgs _ _ _ _ _ _ Hpl kMasterWidConst) as Hab. cbn [v_msgs view_of] in Hab. rewrite Hab.
    case_decide as Eto; [| done]. inversion Hst as [| w0 c0 Hc0 Hi0 | | |]; [done |].
    assert (Hin : c0 ∈ about p (msgs s kMasterWidConst)) by (rewrite Hab; match goal with Hx : [c0] = l |- _ => rewrite <- Hx end; set_solver).
    apply elem_about in Hin as [Hin%Hs _]. unfold sent in Hin. rewrite Hc0 in Hin.
    destruct Hin as [_ []]. congruence.
  - eapply (SINV_send ex s2); [done | exact Hs | | exact E]. split; [done |]. cbn. congruence.
Qed.

(** The table of a worker leads to the inode with the number. *)
Lemma table_unique ex s w x p i q :
  SINV ex s -> workers s !! w = Some x -> inodes s !! p = Some i -> inodeMap x !! i_no i = Some q -> q = p.
Proof.
  intros [HI _] Hx Hp Hm.
  destruct (located _ w (wkey x) (i_no i) q (I_place _ _ HI) (view_lookup_w _ _ _ _ Hx) Hm)
    as (k & _ & _ & Hk & Eno & _).
  eapply (ikey_unique _ q p k (ikey i) (I_place _ _ HI)); [done | by apply view_lookup_i | done].
Qed.

(** The deallocation of an unlinked inode. *)
Lemma dealloc_ok ex f w p s s' :
  SINV ex s -> OwnerDeallocResources (ProcessReassignmentCtx f) w p s = Ok s' -> SINV ex s'.
Proof.
  intros HS E. apply dealloc_cases in E as (i & Hp & [(b & Hb & _ & E) | (Er & _ & Hv)]).
  - apply (export_ok ex f w (i_no i) b None (Some DeallocResources) s); [done | done | | done].
    intros _ x q j Hx Hm Hq. rewrite (table_unique _ _ _ _ _ _ _ HS Hx Hp Hm) in Hq. congruence.
  - destruct HS as [HI Hs]. unfold SINV. rewrite (sent_other _ _ Er). auto.
Qed.

Lemma request_shrinks f w c s s' R :
  state c = kPrimaryRequestNewOwnerImport -> importer c <> w ->
  ProcessReassignmentCtx f w c s = Ok s' -> shrinks w (view_of s R) (view_of s' R).
Proof.
  intros Hst Hne. destruct f as [| f]; [done |]. cbn. unfold process_ctx. rewrite Hst.
  unfold PrimaryRequestNewOwnerImport. intros E. run_in E. b2p.
  unfold SendMessageOrExecute in E. case_if_in E; [by destruct Hne |].
  apply send_view in E as [Hv _]. rewrite Hv.
  match goal with Hx : setManageWorkerId _ _ _ = _ |- _ => unfold setManageWorkerId in Hx;
    case_if_in Hx; injection Hx as <- <-; [done |] end.
  split; cbn.
  - intros k' Hk'. by exists k'.
  - rewrite fmap_insert. match goal with Hx : inodes s !! _ = Some ?a |- _ =>
      apply (fmap_insert_same dkey _ _ (ikey a)); [by rewrite lookup_fmap, Hx | done] end.
Qed.

Lemma export_shrinks ex f w ino d oldcb newcb s s' R :
  SINV ex s -> OwnerExportThroughPrimary (ProcessReassignmentCtx f) w ino d oldcb newcb s = Ok s' ->
  shrinks w (view_of s R) (view_of s' R).
Proof.
  intros [HI Hs]. unfold OwnerExportThroughPrimary. intros E. run_in E. b2p.
  rename s0 into s1. destruct o as [e |]; [| done].
  apply exportInode_view in E1 as (x2 & p & i & Hx & Hm & Hp & Ee & Ew & _ & Er & Ed & Hv).
  destruct (located _ w (wkey x2) ino p (I_place _ _ HI) (view_lookup_w _ _ _ _ Hx) Hm) as (k & _ & _ & Hk & Eno & _).
  rewrite (view_lookup_i _ _ _ _ Hp) in Hk. injection Hk as <-. specialize (Hv Eno R). run_in E. b2p.
  match type of E with SendMessageOrExecute _ _ _ ?cc ?ss = _ => set (c := cc) in E; set (s2 := ss) in E end.
  transitivity (view_of s2 R).
  - assert (E2 : v_w (view_of s2 R) = v_w (view_of s1 R) /\ v_i (view_of s2 R) = v_i (view_of s1 R))
      by (unfold s2; by case_match).
    destruct E2 as [E2 E3]. unfold shrinks. rewrite E2, E3, Hv. split; cbn [v_w v_i].
    + intros k'. rewrite lookup_insert_eq. intros [= <-]. exists (wkey x2). split; [by apply view_lookup_w |].
      apply delete_subseteq.
    + apply (fmap_insert_same dkey _ _ (ikey i)); [by apply (view_lookup_i s R) | done].
  - unfold SendMessageOrExecute in E. case_if_in E.
    + eapply request_shrinks; [| | exact E]; done.
    + apply send_view in E as [Hv' _]. by rewrite Hv'.
Qed.

Lemma dealloc_shrinks ex f w p s s' R :
  SINV ex s -> OwnerDeallocResources (ProcessReassignmentCtx f) w p s = Ok s' ->
  shrinks w (view_of s R) (view_of s' R).
Proof.
  intros HS E. apply dealloc_cases in E as (i & Hp & [(b & _ & _ & E) | (_ & Hv & _)]); [| apply Hv].
  by eapply export_shrinks.
Qed.

(** A message about a move. *)
Lemma reassignment_ok f u c s s' :
  INV None (view_of s (push u c (msgs s))) -> (forall u c, c ∈ msgs s u -> sent u c) -> sent u c ->
  ProcessReassignmentCtx f u c s = Ok s' -> SINV None s'.
Proof.
  intros HI Hs Hc E. unfold sent in Hc. destruct (state c) eqn:Hst.
  - destruct f; [done |]. cbn in E. unfold process_ctx in E. by rewrite Hst in E.
  - destruct Hc as [-> _]. eapply request_ok; eauto.
  - eapply import_ok; eauto.
  - destruct Hc as [-> _]. eapply success_ok; eauto.
  - pose proof (hand_old None _ HI u c (msgs s) eq_refl) as Hcb.
    apply (old_ok f) in E; [| done | done]. eapply same_SINV; [done |].
    split; [by eapply INV_drop_old | done].
Qed.

Lemma ikey_nlink n l i :
  ikey (set_data (Alloc.mk_inode (InodeLog.direct_set (InodeLog.SetNlink n) (Alloc.inodeData (data i))) l) i)
    = ikey i.
Proof. by destruct i as [? ? ? ? ? ? [[] ?]]. Qed.

Lemma unlink_ok ex f w ino o s s' :
  SINV ex s -> OwnerUnlinkInode (ProcessReassignmentCtx f) w ino o s = Ok s' -> SINV ex s'.
Proof.
  intros HS E. unfold OwnerUnlinkInode in E. run_in E.
  destruct (match o with Some p => Some p | None => inodeMap x !! ino end) as [p |]; [| done].
  run_in E. match goal with Hx : inodes s !! p = Some _ |- _ => rename Hx into Hp end.
  case_if_in E; [done |]. match type of E with (if _ then OwnerDeallocResources _ _ _ ?a else _) = _ =>
    assert (HS' : SINV ex a) by (eapply same_SINV; [eapply same_inode; [exact Hp | apply ikey_nlink] | done]) end.
  case_if_in E; [by eapply dealloc_ok | by injection E as <-].
Qed.

(** Taking a message from a ring. *)
Lemma pop_view w c q s :
  rings s !! w = Some (kReassignment c :: q) ->
  (forall R, view_of (set_rings (<[w := q]> (rings s)) s) R = view_of s R) /\
  forall u, msgs s u = push w c (msgs (set_rings (<[w := q]> (rings s)) s)) u.
Proof.
  intros E. split; [done |]. intros u. unfold push, msgs. cbn [rings set_rings].
  case_decide as Eu; [subst u; by rewrite E, lookup_insert_eq | by rewrite lookup_insert_ne].
Qed.

Lemma SINV_rings ex s s' :
  SINV ex s -> (forall R, view_of s' R = view_of s R) -> (forall u, msgs s' u = msgs s u) -> SINV ex s'.
Proof.
  intros [HI Hs] Hv Hm. split.
  - rewrite Hv. apply (INV_msgs _ _ (msgs s')) in HI; [done | |].
    + intros p u. by rewrite Hm.
    + intros u c. rewrite Hm. by apply (inv_msgs _ (I_place _ _ HI) u).
  - intros u c. rewrite Hm. apply Hs.
Qed.

Lemma messages_ok w s s' : SINV None s -> processInterWorkerMessages w s = Ok s' -> SINV None s'.
Proof.
  intros HS E. unfold processInterWorkerMessages in E.
  destruct (rings s !! w) as [[| [c | ino] q] |] eqn:Er; [by injection E as <- | | | by injection E as <-].
  - destruct (pop_view _ _ _ _ Er) as [Hv Hm]. set (s1 := set_rings _ s) in *. destruct HS as [HI Hs].
    eapply reassignment_ok; [| | | exact E].
    + rewrite Hv. apply (INV_msgs _ _ (push w c (msgs s1))) in HI; [done | |].
      * intros p u. cbn. by rewrite Hm.
      * intros u c'. rewrite <- Hm. by apply (inv_msgs _ (I_place _ _ HI) u).
    + intros u c' Hc. apply Hs. rewrite Hm, elem_push. by right.
    + apply Hs. rewrite Hm, elem_push. by left.
  - eapply (unlink_ok None exec_fuel w ino None); [| exact E]. eapply SINV_rings; [done | done |]. intros u. unfold msgs.
    cbn [rings set_rings]. destruct (decide (u = w)) as [-> |]; [| by rewrite lookup_insert_ne].
    by rewrite Er, lookup_insert_eq.
Qed.

End Handlers.

End Transfer.
