(* ===== verification/Descriptors.v ===== *)
(** Descriptors are opened, closed and given back on exit without losing track of who serves
    them.

    The lemmas of the first part say that loading an inode, opening and closing a file
    preserve the invariants of [Transfer] on views; those of the second part, that the
    requests of a client and the other operations of a worker take such steps.  Together with
    the messages of [Transfer] they give that every history of the system keeps the
    invariants. *)

From Stdlib Require Import ZArith List Bool Lia.
From stdpp Require Import base gmap list.
From S2P Require Import Prelude Unordered Layout InodeLog BlockBuf Alloc Ownership Transfer.
Import ListNotations.
Open Scope Z_scope.

Module Descriptors.
Import Layout BlockBuf Ownership Transfer.

(** [fo] is open as [fd] by [pid] on the inode at [q], number [ino]. *)
Definition has (v : view) (q ino pid fd fo : Z) : Prop :=
  exists j, v_i v !! q = Some j /\ k_no j = ino /\ fd_at (k_app j) pid fd = Some fo.

Lemma has_i v q j pid fd fo :
  v_i v !! q = Some j -> fd_at (k_app j) pid fd = Some fo -> has v q (k_no j) pid fd fo.
Proof. intros. by exists j. Qed.

Lemma owns_has v k pid fd fo :
  owns_fd v k pid fd fo <-> exists p ino, has v p ino pid fd fo /\ k_map k !! ino = Some p.
Proof. unfold owns_fd, has. naive_solver. Qed.

(** What [pay] depends on. *)
Definition pkey (i : IKey) : Z * Z * bool * Z * res Z := (k_no i, k_mng i, k_isdirty i, k_dno i, k_best i).

Lemma pay_frame v v' :
  pay v -> k_dirty <$> v_w v' = k_dirty <$> v_w v -> pkey <$> v_i v' = pkey <$> v_i v ->
  v_msgs v' = v_msgs v -> pay v'.
Proof.
  intros [H1 H0 H2 H3 H4] Hw Hi Hm.
  pose proof (fun q a => fmap_lookup_eq _ _ _ q a Hi) as Li.
  split; rewrite ?Hm.
  - intros q j Hq. destruct (Li _ _ Hq) as (j0 & Hj0 & [= -> _ _ -> _]). eauto.
  - destruct (v_w v' !! kUnknownManageWorkerId) as [k |] eqn:E; [| done].
    destruct (fmap_lookup_eq _ _ _ _ _ Hw E) as (? & ? & _). congruence.
  - intros w k ino Hk Hd. destruct (fmap_lookup_eq _ _ _ _ _ Hw Hk) as (k0 & Hk0 & Ed). rewrite Ed in Hd.
    destruct (H2 _ _ _ Hk0 Hd) as (q & j & Hq & Hj).
    destruct (fmap_lookup_eq _ _ _ _ _ (eq_sym Hi) Hq) as (j' & Hj' & [= E1 E2 E3 _ _]).
    exists q, j'. rewrite <- E1, <- E2, <- E3. done.
  - intros w c j Hc Hcar Hq. destruct (Li _ _ Hq) as (j0 & Hj0 & [= _ _ -> _ _]). eauto.
  - intros w c j Hc Hcar Hq. destruct (Li _ _ Hq) as (j0 & Hj0 & [= _ _ _ _ ->]). eauto.
Qed.

(** ** An inode is loaded *)

Section Load.
Variables (ex : option (Z * Z)) (v : view) (k : WKey) (p ino : Z) (b : res Z).
Hypotheses (HI : INV ex v) (Hk : v_w v !! kMasterWidConst = Some k) (Hp : v_i v !! p = None)
  (Hno : forall q i, v_i v !! q = Some i -> k_no i <> ino).

Definition v_load : view :=
  mk_view
    (<[kMasterWidConst := mk_wkey (<[ino := p]> (k_map k)) (k_own k) (k_apps k) (k_dirty k)]> (v_w v))
    (<[p := mk_ikey ino kMasterWidConst 0 ∅ false ino b]> (v_i v)) (v_owner v) (v_unsafe v)
    (v_fobjs v) (v_msgs v).

Lemma load_core q n m : v_core v !! q = Some (n, m) -> n <> ino /\ q <> p.
Proof.
  intros (i & Hi & <- & <-)%v_core_inv. split; [by eapply Hno |]. intros ->. congruence.
Qed.

Lemma load_about w : about p (v_msgs v w) = [].
Proof.
  destruct (about p (v_msgs v w)) as [| c l] eqn:E; [done |]. exfalso.
  assert (Hc : c ∈ about p (v_msgs v w)) by (rewrite E; left).
  apply elem_about in Hc as (Hc & Hpc & _).
  destruct (inv_msgs _ (I_place _ _ HI) w c Hc) as [[[n m] Hn] _]. rewrite Hpc in Hn.
  by apply load_core in Hn as [_ ?].
Qed.

Lemma load_place : inv v_load.
Proof.
  pose proof (I_place _ _ HI) as Hi.
  assert (Hown : v_owner v !! ino = None).
  { destruct (v_owner v !! ino) eqn:E; [| done].
    destruct (inv_owner _ Hi _ _ E) as (q & m & Hq). by apply load_core in Hq as [? _]. }
  eapply (inv_update v v_load p ino kMasterWidConst (Some kMasterWidConst) kMasterWidConst []); try done.
  - intros q n Hq. by apply load_core in Hq as [? _].
  - unfold v_core, v_load. cbn. by rewrite lookup_fmap, lookup_insert_eq.
  - intros n m Hq. by apply load_core in Hq as [_ ?].
  - intros q Hq. unfold v_core, v_load. cbn. by rewrite !lookup_fmap, lookup_insert_ne.
  - intros u n Hn. unfold v_map, v_load. cbn. rewrite lookup_insert. case_decide as E; [| done].
    subst u. rewrite Hk. cbn. by rewrite lookup_insert_ne.
  - by right.
  - cbn. rewrite Hown. apply (st_owned kMasterWidConst).
  - split; cbn.
    + intros u. unfold v_map, v_load. cbn. rewrite lookup_insert. case_decide as E.
      * subst u. rewrite decide_True by done. apply lookup_insert_eq.
      * rewrite decide_False by congruence. destruct (v_w v !! u) as [k' |] eqn:Eu; [| by rewrite lookup_empty].
        destruct (k_map k' !! ino) as [q |] eqn:Eq; [| done]. exfalso.
        rewrite <- (v_map_lookup _ _ _ Eu) in Eq.
        destruct (inv_map _ Hi _ _ _ Eq) as [m Hm]. by apply load_core in Hm as [? _].
    + destruct (v_unsafe v !! ino) as [q |] eqn:E; [| done].
      destruct (inv_unsafe _ Hi _ _ E) as [m Hm]. by apply load_core in Hm as [? _].
    + intros u. rewrite load_about. by case_decide.
Qed.

Lemma load_at q j pid fd fo :
  v_i v_load !! q = Some j -> fd_at (k_app j) pid fd = Some fo -> v_i v !! q = Some j /\ k_no j <> ino.
Proof.
  cbn. rewrite lookup_insert. case_decide; [intros [= <-]; done | eauto].
Qed.

Lemma load_old q j : v_i v !! q = Some j -> v_i v_load !! q = Some j.
Proof. intros Hq. cbn. rewrite lookup_insert_ne; [done | congruence]. Qed.

Lemma load_w u k' : v_w v_load !! u = Some k' -> exists k0, v_w v !! u = Some k0 /\
  k_own k' = k_own k0 /\ k_apps k' = k_apps k0 /\ k_dirty k' = k_dirty k0 /\
  forall n, n <> ino -> k_map k' !! n = k_map k0 !! n.
Proof.
  cbn. rewrite lookup_insert. case_decide as E; [| by exists k'].
  subst u. intros [= <-]. exists k. split_and!; try done. intros n Hn. cbn. by rewrite lookup_insert_ne.
Qed.

Lemma load_fd : fd_inv ex v_load.
Proof.
  destruct (I_fd _ _ HI) as [H1 H2 H3 H4 H5 H6 H7 H8]. split.
  - intros q j pid fd fo Hq Hf. destruct (load_at _ _ _ _ _ Hq Hf). eauto.
  - intros q q' i j pid fd fo fo' Hq Hq' Hf Hf'.
    destruct (load_at _ _ _ _ _ Hq Hf), (load_at _ _ _ _ _ Hq' Hf'). eauto.
  - intros q q' i j pid pid' fd fd' fo Hq Hq' Hf Hf'.
    destruct (load_at _ _ _ _ _ Hq Hf), (load_at _ _ _ _ _ Hq' Hf'). eauto.
  - intros u k' pid fd fo Hu (q & j & Hq & Hm & Hf). destruct (load_at _ _ _ _ _ Hq Hf) as [Hj Hn].
    destruct (load_w _ _ Hu) as (k0 & Hk0 & -> & _ & _ & Em). rewrite Em in Hm by done.
    eapply H4; [done |]. by exists q, j.
  - intros u k' pid fd fo Hu Hex Hf. destruct (load_w _ _ Hu) as (k0 & Hk0 & Eo & _ & _ & Em).
    rewrite Eo in Hf. destruct (H5 _ _ _ _ _ Hk0 Hex Hf) as (q & j & Hq & Hm & Hfj).
    exists q, j. split_and!; [by apply load_old | | done]. rewrite Em; [done | by eapply Hno].
  - intros q j. cbn. rewrite lookup_insert. case_decide; [| apply H6]. by intros [= <-].
  - intros q j pid fd fo Hq Hf. destruct (load_at _ _ _ _ _ Hq Hf) as [Hj _].
    destruct (H7 _ _ _ _ _ Hj Hf) as (u & k0 & n & Hu & Ha & Hr).
    destruct (decide (u = kMasterWidConst)) as [-> | Hne].
    + rewrite Hk in Hu. injection Hu as <-. eexists _, _, n. cbn. rewrite lookup_insert_eq. done.
    + exists u, k0, n. cbn. by rewrite lookup_insert_ne.
  - intros u k' pid n Hu. destruct (load_w _ _ Hu) as (k0 & Hk0 & _ & -> & _). eauto.
Qed.

Lemma load_INV : INV ex v_load.
Proof.
  split; [apply load_place | apply load_fd |]. destruct (I_pay _ _ HI) as [H1 H0 H2 H3 H4].
  assert (Hc : forall w c j, c ∈ v_msgs v w -> v_i v_load !! ptr c = Some j -> v_i v !! ptr c = Some j).
  { intros w c j Hc. cbn. rewrite lookup_insert. case_decide as E; [| done].
    destruct (inv_msgs _ (I_place _ _ HI) w c Hc) as [[[n m] Hn] _]. by apply load_core in Hn as [_ ?]. }
  split.
  - intros q j. cbn. rewrite lookup_insert. case_decide; [by intros [= <-] | apply H1].
  - cbn. by rewrite lookup_insert_ne.
  - intros u k' n Hu Hn. destruct (load_w _ _ Hu) as (k0 & Hk0 & _ & _ & Ed & _). rewrite Ed in Hn.
    destruct (H2 _ _ _ Hk0 Hn) as (q & j & Hq & ?). exists q, j. split; [by apply load_old | done].
  - intros w c j Hin Hcar Hj. eapply H3; eauto.
  - intros w c j Hin Hcar Hj. eapply H4; eauto.
Qed.

End Load.

(** ** A file is opened *)

Lemma ranges_disjoint w u n :
  updateFdIncrByWid w <= n < updateFdIncrByWid (w + 1) ->
  updateFdIncrByWid u <= n < updateFdIncrByWid (u + 1) -> u = w.
Proof. unfold updateFdIncrByWid. lia. Qed.

Definition add_fd (pid fd fo : Z) (m : gmap Z (gmap Z Z)) : gmap Z (gmap Z Z) :=
  <[pid := <[fd := fo]> (default ∅ (m !! pid))]> m.

Section Open.
Variables (v : view) (w : Z) (k : WKey) (p : Z) (i : IKey) (pid n fo : Z) (f : FileObj).
Hypotheses (HI : INV None v) (Hk : v_w v !! w = Some k) (Hp : v_i v !! p = Some i)
  (Hm : k_map k !! k_no i = Some p) (Ha : k_apps k !! pid = Some n)
  (Hn : n < updateFdIncrByWid (w + 1)) (Hfo : v_fobjs v !! fo = None)
  (Hip : ip f = p) (Hfd : readOnlyFd f = n).

(** No inode has a file open under the next number. *)
Lemma open_fresh q j : v_i v !! q = Some j -> fd_at (k_app j) pid n = None.
Proof.
  intros Hq. destruct (fd_at (k_app j) pid n) as [o |] eqn:E; [exfalso | done].
  destruct (I_fd _ _ HI) as [_ _ _ _ _ _ H7 H8].
  destruct (H7 _ _ _ _ _ Hq E) as (u & k' & n' & Hu & Hn' & Hr).
  pose proof (H8 _ _ _ _ Hk Ha). pose proof (H8 _ _ _ _ Hu Hn').
  assert (u = w) as -> by (apply (ranges_disjoint w u n); lia).
  rewrite Hk in Hu. injection Hu as <-. rewrite Ha in Hn'. injection Hn' as <-. lia.
Qed.

Lemma open_unused : fd_at (k_own k) pid n = None.
Proof.
  destruct (fd_at (k_own k) pid n) as [o |] eqn:E; [exfalso | done].
  destruct (fi_only _ _ (I_fd _ _ HI) w k pid n o Hk) as (q & j & Hq & _ & Hf); [done | done |].
  by rewrite (open_fresh _ _ Hq) in Hf.
Qed.

Definition v_open : view :=
  mk_view
    (<[w := mk_wkey (k_map k) (add_fd pid n fo (k_own k)) (<[pid := n + 1]> (k_apps k)) (k_dirty k)]> (v_w v))
    (<[p := mk_ikey (k_no i) (k_mng i) (k_ref i + 1) (add_fd pid n fo (k_app i)) (k_isdirty i) (k_dno i)
              (k_best i)]> (v_i v))
    (v_owner v) (v_unsafe v) (<[fo := f]> (v_fobjs v)) (v_msgs v).

Lemma open_has q ino a b o :
  has v_open q ino a b o <->
  has v q ino a b o \/ (q = p /\ ino = k_no i /\ a = pid /\ b = n /\ o = fo).
Proof.
  unfold has. cbn. split.
  - intros (j & Hj & <- & Hf). destruct (decide (q = p)) as [-> | Hne].
    + rewrite lookup_insert_eq in Hj. injection Hj as <-. cbn in *. unfold add_fd in Hf.
      rewrite fd_at_add in Hf. case_decide; [right; naive_solver | left; eauto].
    + rewrite lookup_insert_ne in Hj by done. left. eauto.
  - destruct (decide (q = p)) as [-> | Hne].
    + rewrite lookup_insert_eq. intros [(j & Hj & <- & Hf) | (_ & -> & -> & -> & ->)].
      * rewrite Hp in Hj. injection Hj as <-. eexists. split_and!; [done | done |]. cbn. unfold add_fd.
        rewrite fd_at_add. case_decide as E; [| done]. destruct E as [-> ->].
        by rewrite (open_fresh _ _ Hp) in Hf.
      * eexists. split_and!; [done | done |]. cbn. unfold add_fd. rewrite fd_at_add. by rewrite decide_True.
    + rewrite lookup_insert_ne by done. intros [(j & Hj & <- & Hf) | (-> & _)]; [eauto | done].
Qed.

Lemma open_w u k' : v_w v_open !! u = Some k' -> exists k0, v_w v !! u = Some k0 /\
  k_map k' = k_map k0 /\ k_dirty k' = k_dirty k0 /\
  (u = w /\ k0 = k /\ k_own k' = add_fd pid n fo (k_own k) /\ k_apps k' = <[pid := n + 1]> (k_apps k) \/
   u <> w /\ k' = k0).
Proof.
  cbn. rewrite lookup_insert. case_decide as E; [subst u | naive_solver].
  intros [= <-]. exists k. naive_solver.
Qed.

Lemma has_obj q ino a b o : has v q ino a b o -> exists f', v_fobjs v !! o = Some f' /\ ip f' = q /\
  readOnlyFd f' = b /\ o <> fo.
Proof.
  intros (j & Hj & _ & Hf). destruct (fi_obj _ _ (I_fd _ _ HI) _ _ _ _ _ Hj Hf) as (f' & Hf' & ? & ?).
  exists f'. split_and!; try done. congruence.
Qed.

Lemma has_fresh q ino o : ~ has v q ino pid n o.
Proof. intros (j & Hj & _ & Hf). by rewrite (open_fresh _ _ Hj) in Hf. Qed.

Lemma open_own u k' a b o :
  v_w v_open !! u = Some k' -> owns_fd v_open k' a b o -> fd_at (k_own k') a b = Some o.
Proof.
  intros Hu (q & ino & Hh & Hmap)%owns_has.
  destruct (open_w _ _ Hu) as (k0 & Hk0 & Em & _ & Hc). rewrite Em in Hmap.
  apply open_has in Hh as [Hh | (-> & -> & -> & -> & ->)].
  - assert (Ho : fd_at (k_own k0) a b = Some o) by (eapply (fi_own _ _ (I_fd _ _ HI)), owns_has; eauto).
    destruct Hc as [(-> & -> & -> & _) | [_ ->]]; [| done]. unfold add_fd. rewrite fd_at_add.
    case_decide as E; [| done]. destruct E as [-> ->]. by apply has_fresh in Hh.
  - assert (u = w) as ->.
    { destruct (located v u k0 (k_no i) p (I_place _ _ HI) Hk0 Hmap) as (j & _ & _ & Hj & _ & <- & _).
      destruct (located v w k (k_no i) p (I_place _ _ HI) Hk Hm) as (j' & _ & _ & Hj' & _ & <- & _).
      congruence. }
    destruct Hc as [(_ & -> & -> & _) | [? _]]; [| done]. unfold add_fd. rewrite fd_at_add.
    by rewrite decide_True.
Qed.

Lemma open_only u k' a b o :
  v_w v_open !! u = Some k' -> fd_at (k_own k') a b = Some o -> owns_fd v_open k' a b o.
Proof.
  intros Hu Hf. destruct (open_w _ _ Hu) as (k0 & Hk0 & Em & _ & Hc).
  apply owns_has. rewrite Em. setoid_rewrite open_has.
  assert (Hf' : fd_at (k_own k0) a b = Some o \/ u = w /\ a = pid /\ b = n /\ o = fo).
  { destruct Hc as [(-> & -> & Eo & _) | [_ ->]]; [| by left]. rewrite Eo in Hf. unfold add_fd in Hf.
    rewrite fd_at_add in Hf. case_decide; [right; naive_solver | by left]. }
  destruct Hf' as [Hf' | (-> & -> & -> & ->)].
  - apply (fi_only _ _ (I_fd _ _ HI) u k0) in Hf'; [| done | done].
    apply owns_has in Hf' as (q & ino & ? & ?). eauto 10.
  - rewrite Hk in Hk0. injection Hk0 as <-. exists p, (k_no i). naive_solver.
Qed.

Lemma open_range q ino a b o :
  has v_open q ino a b o ->
  exists u k' m, v_w v_open !! u = Some k' /\ k_apps k' !! a = Some m /\ updateFdIncrByWid u <= b < m.
Proof.
  intros Hh. destruct (I_fd _ _ HI) as [_ _ _ _ _ _ H7 H8].
  assert (Hr : exists u k0 n0, v_w v !! u = Some k0 /\ k_apps k0 !! a = Some n0 /\ updateFdIncrByWid u <= b /\
    (b < n0 \/ u = w /\ a = pid /\ b = n)).
  { apply open_has in Hh as [(j0 & Hj0 & _ & Hf0) | (_ & _ & -> & -> & _)].
    - destruct (H7 _ _ _ _ _ Hj0 Hf0) as (u & k0 & n0 & ? & ? & ?). exists u, k0, n0. naive_solver.
    - exists w, k, n. pose proof (H8 _ _ _ _ Hk Ha). naive_solver. }
  destruct Hr as (u & k0 & n0 & Hu & Hn0 & Hlo & Hhi). destruct (decide (u = w)) as [-> | Hne].
  - rewrite Hk in Hu. injection Hu as <-. destruct (decide (a = pid)) as [-> | Hna].
    + eexists w, _, (n + 1). cbn. rewrite lookup_insert_eq. split; [done |]. cbn.
      rewrite lookup_insert_eq. split; [done |]. rewrite Ha in Hn0. injection Hn0 as <-. lia.
    + eexists w, _, n0. cbn. rewrite lookup_insert_eq. split; [done |]. cbn.
      rewrite lookup_insert_ne by done. split; [done |]. naive_solver.
  - exists u, k0, n0. cbn. rewrite lookup_insert_ne by done. naive_solver.
Qed.

Lemma open_fd : fd_inv None v_open.
Proof.
  destruct (I_fd _ _ HI) as [H1 H2 H3 H4 H5 H6 H7 H8].
  assert (Hh : forall q j a b o, v_i v_open !! q = Some j -> fd_at (k_app j) a b = Some o ->
    has v q (k_no j) a b o \/ (q = p /\ k_no j = k_no i /\ a = pid /\ b = n /\ o = fo)).
  { intros q j a b o Hq Hf. by apply open_has, has_i. }
  split; [| | | apply open_own | intros u k' a b o Hu _; by eapply open_only | | |].
  - intros q j a b o Hq Hf. destruct (Hh _ _ _ _ _ Hq Hf) as [G | (-> & _ & -> & -> & ->)].
    + destruct (has_obj _ _ _ _ _ G) as (f' & Hf' & ? & ? & Ho). exists f'. cbn. by rewrite lookup_insert_ne.
    + exists f. cbn. by rewrite lookup_insert_eq.
  - intros q q' i1 i2 a b o o' Hq Hq' Hf Hf'.
    destruct (Hh _ _ _ _ _ Hq Hf) as [G1 | (-> & _ & -> & -> & ->)],
      (Hh _ _ _ _ _ Hq' Hf') as [G2 | (-> & _ & E1 & E2 & ->)]; subst; try done.
    + destruct G1 as (? & ? & _ & ?), G2 as (? & ? & _ & ?). eauto.
    + by apply has_fresh in G1.
    + by apply has_fresh in G2.
  - intros q q' i1 i2 a a' b b' o Hq Hq' Hf Hf'.
    destruct (Hh _ _ _ _ _ Hq Hf) as [G1 | (-> & _ & -> & -> & ->)],
      (Hh _ _ _ _ _ Hq' Hf') as [G2 | (-> & _ & -> & -> & E)]; try done.
    + destruct G1 as (? & ? & _ & ?), G2 as (? & ? & _ & ?). eauto.
    + apply has_obj in G1 as (? & _ & _ & _ & []). done.
    + apply has_obj in G2 as (? & _ & _ & _ & []). done.
  - intros q j. cbn. rewrite lookup_insert. case_decide as E; [| apply H6]. intros [= <-]. cbn.
    unfold add_fd. rewrite fds_add, map_size_insert_None; [rewrite (H6 p i Hp); lia |].
    rewrite fds_at. by apply (open_fresh p).
  - intros q j a b o Hq Hf. eapply open_range. by apply has_i.
  - intros u k' a m Hu. destruct (open_w _ _ Hu) as (k0 & Hk0 & _ & _ & [(-> & -> & _ & ->) | [_ ->]]).
    + rewrite lookup_insert. case_decide; [| eauto]. intros [= <-]. pose proof (H8 _ _ _ _ Hk Ha). lia.
    + eauto.
Qed.

Lemma open_INV : INV None v_open.
Proof.
  assert (Ec : v_core v_open = v_core v) by (by apply (fmap_insert_same core _ _ i)).
  split; [| apply open_fd |].
  - eapply inv_ext; [apply (I_place _ _ HI) | | done | done | done | done | apply (inv_msgs _ (I_place _ _ HI))].
    intros u. unfold v_map. cbn. rewrite lookup_insert. case_decide; [subst u; by rewrite Hk | done].
  - eapply (pay_frame v); [apply (I_pay _ _ HI) | | | done]; cbn.
    + by apply (fmap_insert_same k_dirty _ _ k).
    + by apply (fmap_insert_same pkey _ _ i).
Qed.

End Open.

(** ** A file is closed *)

(** [own'] are the descriptors of the worker afterwards; while an application is being removed
    they still hold the closed ones. *)
Section Close.
Variables (ex : option (Z * Z)) (v : view) (w : Z) (k : WKey) (p : Z) (i : IKey) (pid fd fo : Z)
  (app' own' : gmap Z (gmap Z Z)).
Hypotheses (HI : INV ex v) (Hk : v_w v !! w = Some k) (Hp : v_i v !! p = Some i)
  (Hm : k_map k !! k_no i = Some p) (Hfd : fd_at (k_app i) pid fd = Some fo)
  (Happ : fds app' = delete (pid, fd) (fds (k_app i)))
  (Hown : forall a b, (a, b) <> (pid, fd) -> fd_at own' a b = fd_at (k_own k) a b)
  (Hend : ex = Some (w, pid) \/ fd_at own' pid fd = None).

Definition v_close : view :=
  mk_view (<[w := mk_wkey (k_map k) own' (k_apps k) (k_dirty k)]> (v_w v))
    (<[p := mk_ikey (k_no i) (k_mng i) (k_ref i - 1) app' (k_isdirty i) (k_dno i) (k_best i)]> (v_i v))
    (v_owner v) (v_unsafe v) (delete fo (v_fobjs v)) (v_msgs v).

Lemma close_app a b :
  fd_at app' a b = if decide (a = pid /\ b = fd) then None else fd_at (k_app i) a b.
Proof.
  rewrite <- !fds_at, Happ, lookup_delete. repeat case_decide; naive_solver.
Qed.

Lemma close_has q ino a b o :
  has v_close q ino a b o <-> has v q ino a b o /\ (a, b) <> (pid, fd).
Proof.
  unfold has. cbn. destruct (decide (q = p)) as [-> | Hne].
  - rewrite lookup_insert_eq. split.
    + intros (j & [= <-] & <- & Hf). cbn in *. rewrite close_app in Hf. case_decide; [done |].
      split; [eauto | naive_solver].
    + intros [(j & Hj & <- & Hf) Hn]. rewrite Hp in Hj. injection Hj as <-. eexists.
      split_and!; [done | done |]. cbn. rewrite close_app, decide_False by naive_solver. done.
  - rewrite lookup_insert_ne by done. split; [| naive_solver]. intros (j & Hj & <- & Hf). split; [eauto |].
    intros [= -> ->]. by destruct Hne, (fi_fd _ _ (I_fd _ _ HI) p q i j pid fd fo o).
Qed.

Lemma close_w u k' : v_w v_close !! u = Some k' -> exists k0, v_w v !! u = Some k0 /\
  k_map k' = k_map k0 /\ k_dirty k' = k_dirty k0 /\ k_apps k' = k_apps k0 /\
  (u = w /\ k0 = k /\ k_own k' = own' \/ u <> w /\ k' = k0).
Proof.
  cbn. rewrite lookup_insert. case_decide as E; [subst u | naive_solver].
  intros [= <-]. exists k. naive_solver.
Qed.

(** The object belongs to this descriptor alone. *)
Lemma close_obj q ino a b o :
  has v q ino a b o -> (a, b) <> (pid, fd) -> o <> fo.
Proof.
  intros (j & Hj & _ & Hf) Hn ->. apply Hn.
  destruct (I_fd _ _ HI) as [H1 _ H3 _ _ _ _ _].
  destruct (H1 _ _ _ _ _ Hj Hf) as (f1 & Hf1 & _ & <-), (H1 _ _ _ _ _ Hp Hfd) as (f2 & Hf2 & _ & <-).
  rewrite Hf1 in Hf2. injection Hf2 as <-. f_equal. by eapply (H3 q p j i).
Qed.

Lemma close_own u k' a b o :
  v_w v_close !! u = Some k' -> owns_fd v_close k' a b o -> fd_at (k_own k') a b = Some o.
Proof.
  intros Hu (q & ino & [Hh Hn]%close_has & Hmap)%owns_has.
  destruct (close_w _ _ Hu) as (k0 & Hk0 & Em & _ & _ & Hc). rewrite Em in Hmap.
  assert (Ho : fd_at (k_own k0) a b = Some o) by (eapply (fi_own _ _ (I_fd _ _ HI)), owns_has; eauto).
  destruct Hc as [(-> & -> & ->) | [_ ->]]; [by rewrite Hown | done].
Qed.

Lemma close_only u k' a b o :
  v_w v_close !! u = Some k' -> ex <> Some (u, a) -> fd_at (k_own k') a b = Some o ->
  owns_fd v_close k' a b o.
Proof.
  intros Hu Hex Hf. destruct (close_w _ _ Hu) as (k0 & Hk0 & Em & _ & _ & Hc).
  assert (Hf' : fd_at (k_own k0) a b = Some o /\ (u = w -> (a, b) <> (pid, fd))).
  { destruct Hc as [(-> & -> & Eo) | [? ->]]; [| done]. rewrite Eo in Hf.
    assert ((a, b) <> (pid, fd)) as Hn by (intros [= -> ->]; destruct Hend; congruence).
    by rewrite <- Hown. }
  destruct Hf' as [Hf' Hn].
  destruct (proj1 (owns_has _ _ _ _ _) (fi_only _ _ (I_fd _ _ HI) _ _ _ _ _ Hk0 Hex Hf')) as (q & ino & Hh & Hq).
  apply owns_has. exists q, ino. rewrite Em, close_has. split_and!; [done | | done].
  intros E. apply Hn; [| done]. injection E as -> ->. destruct Hh as (j & Hj & <- & Hjf).
  assert (p = q) as <- by (by eapply (fi_fd _ _ (I_fd _ _ HI) p q i j pid fd fo o)).
  destruct (located v u k0 _ p (I_place _ _ HI) Hk0 Hq) as (j1 & _ & _ & Hj1 & _ & <- & _).
  destruct (located v w k _ p (I_place _ _ HI) Hk Hm) as (j2 & _ & _ & Hj2 & _ & <- & _). congruence.
Qed.

Lemma close_fd_inv : fd_inv ex v_close.
Proof.
  destruct (I_fd _ _ HI) as [H1 H2 H3 H4 H5 H6 H7 H8].
  assert (Hh : forall q j a b o, v_i v_close !! q = Some j -> fd_at (k_app j) a b = Some o ->
    exists j0, v_i v !! q = Some j0 /\ fd_at (k_app j0) a b = Some o /\ o <> fo).
  { intros q j a b o Hq Hf. destruct (proj1 (close_has _ _ _ _ _) (has_i _ _ _ _ _ _ Hq Hf)) as [Hh Hn].
    pose proof (close_obj _ _ _ _ _ Hh Hn). destruct Hh as (j0 & ? & _ & ?). eauto. }
  split; [| | | apply close_own | apply close_only | | |].
  - intros q j a b o Hq Hf. destruct (Hh _ _ _ _ _ Hq Hf) as (j0 & Hj0 & Hf0 & Ho).
    destruct (H1 _ _ _ _ _ Hj0 Hf0) as (f' & ? & ?). exists f'. cbn. by rewrite lookup_delete_ne.
  - intros q q' i1 i2 a b o o' Hq Hq' Hf Hf'.
    destruct (Hh _ _ _ _ _ Hq Hf) as (? & ? & ? & _), (Hh _ _ _ _ _ Hq' Hf') as (? & ? & ? & _). eauto.
  - intros q q' i1 i2 a a' b b' o Hq Hq' Hf Hf'.
    destruct (Hh _ _ _ _ _ Hq Hf) as (? & ? & ? & _), (Hh _ _ _ _ _ Hq' Hf') as (? & ? & ? & _). eauto.
  - intros q j. cbn. rewrite lookup_insert. case_decide as E; [| apply H6]. intros [= <-]. cbn.
    rewrite Happ, (H6 p i Hp). assert (Hin : fds (k_app i) !! (pid, fd) = Some fo) by by rewrite fds_at.
    rewrite map_size_delete_Some by (by exists fo).
    assert (base.size (fds (k_app i)) <> 0%nat); [| lia].
    intros E0%map_size_empty_iff. by rewrite E0, lookup_empty in Hin.
  - intros q j a b o Hq Hf. destruct (Hh _ _ _ _ _ Hq Hf) as (j0 & Hj0 & Hf0 & _).
    destruct (H7 _ _ _ _ _ Hj0 Hf0) as (u & k0 & n & Hu & Hn & Hr).
    destruct (decide (u = w)) as [-> |].
    + rewrite Hk in Hu. injection Hu as <-. eexists w, _, n. cbn. by rewrite lookup_insert_eq.
    + exists u, k0, n. cbn. by rewrite lookup_insert_ne.
  - intros u k' a n Hu. destruct (close_w _ _ Hu) as (k0 & Hk0 & _ & _ & -> & _). eauto.
Qed.

Lemma close_INV : INV ex v_close.
Proof.
  split; [| apply close_fd_inv |].
  - eapply inv_ext; [apply (I_place _ _ HI) | | | done | done | done | apply (inv_msgs _ (I_place _ _ HI))].
    + intros u. unfold v_map. cbn. rewrite lookup_insert. case_decide; [subst u; by rewrite Hk | done].
    + by apply (fmap_insert_same core _ _ i).
  - eapply (pay_frame v); [apply (I_pay _ _ HI) | | | done]; cbn.
    + by apply (fmap_insert_same k_dirty _ _ k).
    + by apply (fmap_insert_same pkey _ _ i).
Qed.

End Close.

(** ** A new application *)

Lemma apps_INV v w k pid :
  INV None v -> v_w v !! w = Some k -> k_apps k !! pid = None ->
  INV None (mk_view (<[w := mk_wkey (k_map k) (k_own k) (<[pid := updateFdIncrByWid w]> (k_apps k))
                              (k_dirty k)]> (v_w v)) (v_i v) (v_owner v) (v_unsafe v) (v_fobjs v) (v_msgs v)).
Proof.
  intros [Hi [H1 H2 H3 H4 H5 H6 H7 H8] Hpay] Hk Ha. set (v' := mk_view _ _ _ _ _ _).
  assert (Hw : forall u k', v_w v' !! u = Some k' -> exists k0, v_w v !! u = Some k0 /\
    k_map k' = k_map k0 /\ k_own k' = k_own k0 /\
    (u = w /\ k0 = k /\ k_apps k' = <[pid := updateFdIncrByWid w]> (k_apps k) \/ k' = k0)).
  { intros u k'. cbn. rewrite lookup_insert. case_decide; [subst u; intros [= <-]; exists k; naive_solver | naive_solver]. }
  split.
  - eapply inv_ext; [done | | done | done | done | done | apply (inv_msgs _ Hi)].
    intros u. unfold v_map. cbn. rewrite lookup_insert. case_decide; [subst u; by rewrite Hk | done].
  - split; try done.
    + intros u k' a b o Hu Ho. destruct (Hw _ _ Hu) as (k0 & Hk0 & Em & -> & _). eapply H4; [done |].
      by eapply (owns_fd_frame v v').
    + intros u k' a b o Hu Hex Ho. destruct (Hw _ _ Hu) as (k0 & Hk0 & Em & Eo & _). rewrite Eo in Ho.
      eapply (owns_fd_frame v' v); [done | by symmetry | by eapply H5].
    + intros q j a b o Hq Hf. destruct (H7 _ _ _ _ _ Hq Hf) as (u & k0 & n & Hu & Hn & Hr).
      destruct (decide (u = w)) as [-> | Hne]; [| exists u, k0, n; cbn; by rewrite lookup_insert_ne].
      rewrite Hk in Hu. injection Hu as <-. eexists w, _, n. cbn. rewrite lookup_insert_eq.
      split; [done |]. cbn. rewrite lookup_insert_ne; [done | congruence].
    + intros u k' a n Hu. destruct (Hw _ _ Hu) as (k0 & Hk0 & _ & _ & [(-> & -> & ->) | ->]); [| eauto].
      rewrite lookup_insert. case_decide; [| eauto]. intros [= <-]. unfold updateFdIncrByWid. lia.
  - eapply pay_frame; [done | | done | done]. by apply (fmap_insert_same k_dirty _ _ k).
Qed.

(** ** The operations of a worker *)

Section Ops.
Context `{UIter} `{SIter}.

Lemma initNewApp_ok w pid s s' : SINV None s -> initNewApp w pid s = Ok s' -> SINV None s'.
Proof.
  intros [HI Hs] E. unfold initNewApp in E. run_in E.
  destruct (appMap x !! pid) eqn:Ea; injection E as <-; [by split |]. split; [| done].
  pose proof (apps_INV _ w (wkey x) pid HI (view_lookup_w _ _ _ _ E0) Ea) as HI'.
  unfold view_of. cbn. rewrite fmap_insert. exact HI'.
Qed.

(** An inode that the primary does not have belongs, in its map, to another worker or is on
    its way. *)
Lemma primary_lacks ex s x q i :
  SINV ex s -> workers s !! kMasterWidConst = Some x -> inodes s !! q = Some i ->
  inodeMap x !! i_no i = None -> getInodeOwner (i_no i) s <> kMasterWidConst.
Proof.
  intros [HI Hs] Hx Hq Hno. pose proof (I_place _ _ HI) as Hi.
  destruct (inv_stage _ Hi q _ _ (v_core_lookup _ _ _ (view_lookup_i _ (msgs s) _ _ Hq)))
    as (loc & to & l & Hst & Hpl). cbn in Hst. unfold getInodeOwner.
  assert (Hl : loc <> Some kMasterWidConst).
  { intros ->. pose proof (pl_map _ _ _ _ _ _ Hpl kMasterWidConst) as Hm. rewrite decide_True in Hm by done.
    rewrite (v_map_lookup _ _ _ (view_lookup_w _ _ _ _ Hx)) in Hm. cbn in Hm. congruence. }
  assert (Hent : forall u, u <> kMasterWidConst -> default kMasterWidConst (owner_entry u) <> kMasterWidConst).
  { intros u Hu. unfold owner_entry. by rewrite (proj2 (Z.eqb_neq _ _) Hu). }
  inversion Hst; subst; try done.
  - apply Hent. congruence.
  - apply Hent. assert (Hc : c ∈ about q (msgs s kMasterWidConst)).
    { pose proof (pl_msgs _ _ _ _ _ _ Hpl kMasterWidConst) as Hab. cbn [v_msgs view_of] in Hab.
      rewrite Hab, decide_True by done. left. }
    apply elem_about in Hc as [Hc _]. apply Hs in Hc. unfold sent in Hc.
    match goal with Hx : state c = _ |- _ => rewrite Hx in Hc end. by destruct Hc.
Qed.

Lemma getInode_ok p ino d s r s' :
  SINV None s -> inodes s !! p = None -> Layout.i_no (Alloc.inodeData d) = ino ->
  getInode p ino d s = Ok (r, s') -> SINV None s'.
Proof.
  intros HS Hp Hd E. unfold getInode in E. run_in E.
  destruct (inodeMap x !! ino) as [q |] eqn:Em; [by injection E as _ <- |].
  case_if_in E.
  { destruct (unsafe_reassigned_inodes s !! ino); [by injection E as _ <- | done]. }
  b2p. injection E as _ <-. destruct HS as [HI Hs]. split; [| done].
  epose proof (load_INV None _ (wkey x) p ino (best d) HI (view_lookup_w _ _ _ _ E0) _ _) as HI'.
  unfold view_of. cbn. rewrite !fmap_insert. unfold v_load in HI'. cbn in HI' |- *.
  unfold ikey. cbn. rewrite Hd. exact HI'.
  Unshelve.
  - cbn. by rewrite lookup_fmap, Hp.
  - intros q j. cbn. rewrite lookup_fmap. destruct (inodes s !! q) as [i |] eqn:Eq; [| done].
    intros [= <-] E. cbn in E. eapply (primary_lacks None s x q i); [done | done | done | |].
    + by rewrite E.
    + by rewrite E.
Qed.

(** A worker changes an inode in its table. *)
Lemma touch_ok s w x ino p i i' D :
  SINV None s -> workers s !! w = Some x -> inodeMap x !! ino = Some p -> inodes s !! p = Some i ->
  ikey i' = ik_touch (isDirty_ i') (best (data i')) (ikey i) ->
  (forall n, n ∈ D -> n <> ino -> n ∈ dirtyInodeSet x) -> (ino ∈ D -> isDirty_ i' = true) ->
  forall x', wkey x' = wk_dirty D (wkey x) -> SINV None (put_inode p i' (put_worker w x' s)).
Proof.
  intros [HI Hs] Hx Hm Hp Hi' HD Hb x' Hx'. split; [| exact Hs].
  pose proof (view_lookup_w _ (msgs s) _ _ Hx) as Hxw.
  destruct (located _ w (wkey x) ino p (I_place _ _ HI) Hxw Hm) as (j & _ & _ & Hj & Eno & Emg & _).
  rewrite (view_lookup_i _ _ _ _ Hp) in Hj. injection Hj as <-.
  epose proof (touch_INV None _ HI w (wkey x) p (ikey i) D (isDirty_ i') (best (data i')) Hxw
    (view_lookup_i _ _ _ _ Hp) Emg _ _ _) as HT.
  unfold view_of. cbn. rewrite !fmap_insert, Hi', Hx'. exact HT.
  Unshelve.
  - rewrite Eno. exact HD.
  - rewrite Eno. exact Hb.
  - right. intros u c Hc Hpc. by eapply (at_rest None _ HI w (wkey x) ino p).
Qed.

Lemma writeFileInode_ok w ino s s' : SINV None s -> writeFileInode w ino s = Ok s' -> SINV None s'.
Proof.
  intros HS E. unfold writeFileInode in E. run_in E.
  destruct (inodeMap x !! ino) as [p |] eqn:Em; [| done]. run_in E. b2p. injection E as <-.
  eapply (touch_ok s w x ino p x0 _ (dirtyInodeSet x ∪ {[ino]})); try done. set_solver.
Qed.

Lemma resetFileIndoeDirty_ok w ino s s' :
  SINV None s -> resetFileIndoeDirty w ino s = Ok s' -> SINV None s'.
Proof.
  intros HS E. unfold resetFileIndoeDirty in E. run_in E.
  destruct (inodeMap x !! ino) as [p |] eqn:Em; [| done]. run_in E. b2p. injection E as <-.
  eapply (touch_ok s w x ino p x0 _ (dirtyInodeSet x ∖ {[ino]})); try done; set_solver.
Qed.

Lemma put_worker_id w x s : workers s !! w = Some x -> put_worker w x s = s.
Proof. intros Hx. unfold put_worker. rewrite insert_id by done. by destruct s. Qed.

Lemma data_ok w ino x p i d s :
  SINV None s -> workers s !! w = Some x -> inodeMap x !! ino = Some p -> inodes s !! p = Some i ->
  Layout.i_no (Alloc.inodeData d) = ino -> SINV None (put_inode p (set_data d i) s).
Proof.
  intros HS Hx Hm Hp Hd. rewrite <- (put_worker_id w x s Hx).
  pose proof (I_place _ _ (proj1 HS)) as Hi.
  destruct (located _ w (wkey x) ino p Hi (view_lookup_w _ _ _ _ Hx) Hm) as (j & _ & _ & Hj & Eno & _).
  rewrite (view_lookup_i _ _ _ _ Hp) in Hj. injection Hj as <-.
  eapply (touch_ok s w x ino p i _ (dirtyInodeSet x)); try done.
  - unfold ikey, ik_touch. cbn. rewrite Hd. f_equal. symmetry.
    rewrite <- Eno. exact (pay_no _ (I_pay _ _ (proj1 HS)) p (ikey i) (view_lookup_i _ _ _ _ Hp)).
  - intros Hin. destruct (pay_dirty _ (I_pay _ _ (proj1 HS)) w (wkey x) ino (view_lookup_w _ _ _ _ Hx) Hin)
      as (q & j & Hq & Ej & _ & Hb).
    assert (q = p) as -> by (eapply (ikey_unique _ q p j (ikey i) Hi); [done | by apply view_lookup_i | congruence]).
    rewrite (view_lookup_i _ _ _ _ Hp) in Hq. injection Hq as <-. exact Hb.
Qed.

(** ** Requests *)

Lemma same_at s s' w x : same s s' -> workers s' !! w = Some x ->
  exists x0, workers s !! w = Some x0 /\ wkey x = wkey x0.
Proof.
  intros [E _] Hx. specialize (E (msgs s)). injection E as Ew _ _ _ _. by eapply fmap_lookup_eq.
Qed.

Lemma same_at_i s s' p i : same s s' -> inodes s' !! p = Some i ->
  exists i0, inodes s !! p = Some i0 /\ ikey i = ikey i0.
Proof.
  intros [E _] Hx. specialize (E (msgs s)). injection E as _ Ei _ _ _. by eapply fmap_lookup_eq.
Qed.

Lemma same_fobjs s s' : same s s' -> fobjs s' = fobjs s.
Proof. intros [E _]. specialize (E (msgs s)). by injection E. Qed.

Lemma same_sym s s' : same s s' -> same s' s.
Proof. intros [E1 E2]. split; [intros R; by rewrite E1 | by symmetry]. Qed.

Lemma recordInProgressFsReq_same w req p s s' : recordInProgressFsReq w req p s = Ok s' -> same s s'.
Proof.
  unfold recordInProgressFsReq. intros E. run_in E. case_if_in E; injection E as <-; [done |].
  by eapply same_worker.
Qed.

Lemma delInProgressFsReq_same w req ino s s' : delInProgressFsReq w req ino s = Ok s' -> same s s'.
Proof.
  unfold delInProgressFsReq. intros E. run_in E.
  destruct (inodeInProgressFsReqMap _ !! ino); injection E as <-; [| done]. by eapply same_worker.
Qed.

Lemma finishFdReq_same w req ino ret s s' : finishFdReq w req ino ret s = Ok s' -> same s s'.
Proof.
  unfold finishFdReq. intros E. run_in E. injection E as <-.
  etransitivity; [by eapply delInProgressFsReq_same | apply same_answer].
Qed.

Lemma openCompletion_ok w x pid p i fl md fo req s s' :
  SINV None s -> workers s !! w = Some x -> inodes s !! p = Some i -> inodeMap x !! i_no i = Some p ->
  fobjs s !! fo = None -> fd_left w pid s -> openCompletion w pid p fl md fo req s = Ok s' -> SINV None s'.
Proof.
  intros HS Hx Hp Hm Hfo Hl E. unfold openCompletion in E.
  rewrite (proj2 (get_worker_ok _ _ _) Hx) in E. cbn [res_bind] in E.
  destruct (appMap x !! pid) as [n |] eqn:Ea;
    [| run_in E; by eapply same_SINV; [eapply delInProgressFsReq_same |]].
  destruct HS as [HI Hs]. unfold allocateFd in E. run_in E. run_in E0.
  rewrite Hx in E4. injection E4 as <-. rewrite Ea in E0.
  run_in E0. rewrite Hp in E5. injection E5 as <-. unfold i32_add in E4. case_if_in E4; [injection E4 as <- | done].
  injection E0 as <-. unfold addFdMappingOnOpen in E1. run_in E1.
  cbn [fobjs set_fobjs] in E0. rewrite lookup_insert_eq in E0. injection E0 as <-. cbn [ip readOnlyFd] in *.
  cbn [inodes set_fobjs put_worker] in E4. rewrite Hp in E4. injection E4 as <-.
  cbn [workers set_fobjs put_worker] in E5. rewrite lookup_insert_eq in E5. injection E5 as <-.
  cbn [ownerAppFdMap set_appMap] in E1.
  pose proof (view_lookup_w _ (msgs s) _ _ Hx) as Hxw. pose proof (view_lookup_i _ (msgs s) _ _ Hp) as Hpi.
  assert (Hn : n < updateFdIncrByWid (w + 1)) by (unfold fd_left in Hl; rewrite Hx in Hl; cbn in Hl; by rewrite Ea in Hl). rewrite !fd_at_default in E1.
  pose proof (open_unused _ w (wkey x) pid n HI Hxw Ea Hn) as Hu. cbn in Hu. rewrite Hu in E1.
  pose proof (open_fresh _ w (wkey x) pid n HI Hxw Ea Hn p _ Hpi) as Hf. cbn in Hf.
  set (f := mk_fobj p fl md _ n) in *.
  pose proof (open_INV _ w (wkey x) p (ikey i) pid n fo f HI Hxw Hpi Hm Ea Hn Hfo eq_refl eq_refl) as HI'.
  eapply same_SINV; [by eapply finishFdReq_same |]. injection E1 as <-. split; [| exact Hs].
  unfold addFd. rewrite fd_at_default, Hf. unfold view_of. cbn. rewrite insert_insert_eq, !fmap_insert. exact HI'.
Qed.

(** What a worker resolves is an open file of one of its inodes. *)
Lemma resolves s w pid fd fo :
  SINV None s -> getFileObjForFd w pid fd s = Some fo -> exists x p i f,
    workers s !! w = Some x /\ inodes s !! p = Some i /\ inodeMap x !! i_no i = Some p /\
    fd_at (appFdMap i) pid fd = Some fo /\ fd_at (ownerAppFdMap x) pid fd = Some fo /\
    fobjs s !! fo = Some f /\ ip f = p /\ readOnlyFd f = fd.
Proof.
  intros [HI _] E. unfold getFileObjForFd in E. destruct (workers s !! w) as [x |] eqn:Hx; [| done].
  cbn in E. destruct (fi_only _ _ (I_fd _ _ HI) w (wkey x) pid fd fo) as (p & j & Hj & Hm & Hf); [| done | done |].
  { by apply view_lookup_w. }
  destruct (fi_obj _ _ (I_fd _ _ HI) p j pid fd fo Hj Hf) as (f & Ho & Ep & Ef).
  cbn in Hj. rewrite lookup_fmap in Hj. destruct (inodes s !! p) as [i |] eqn:Hp; [| done].
  injection Hj as <-. by exists x, p, i, f.
Qed.

Lemma delFd_ok pid fd fo i i' :
  fd_at (appFdMap i) pid fd = Some fo -> delFd pid fd i = Ok i' ->
  exists app', i' = set_refs (ref i - 1) app' i /\ fds app' = delete (pid, fd) (fds (appFdMap i)).
Proof.
  intros Hf E. unfold fd_at in Hf. unfold delFd in E. destruct (appFdMap i !! pid) as [m |] eqn:Em; [| done].
  cbn in Hf. rewrite Hf in E. run_in E. run_in E0. injection E0 as <-. injection E as <-.
  eexists. split; [done |]. by apply fds_remove.
Qed.

Lemma processClose_ok w pid fd fo req s s' :
  SINV None s -> getFileObjForFd w pid fd s = Some fo -> processClose w pid fo req s = Ok s' -> SINV None s'.
Proof.
  intros HS Hg E. destruct (resolves _ _ _ _ _ HS Hg) as (x & p & i & f & Hx & Hp & Hm & Hf & Ho & Hfo & Ep & Ef).
  destruct HS as [HI Hs]. unfold processClose, delFdMappingOnClose in E. run_in E.
  rewrite Hfo in E0. injection E0 as <-. run_in E1. rewrite Hfo in E0. injection E0 as <-.
  rewrite Ep, Ef in *. rewrite Hp in E4. injection E4 as <-.
  destruct (delFd_ok _ _ _ _ _ Hf E5) as (app' & -> & Happ). rewrite Hx in E6. injection E6 as <-.
  destruct (ownerAppFdMap x !! pid) as [m |] eqn:Em; [| done]. injection E1 as <-.
  match goal with Hz : finishFdReq _ _ _ _ ?a = Ok ?b |- _ =>
    rename Hz into Hfin; assert (HS : SINV None a); [| assert (HS' : SINV None b)] end.
  - split; [| exact Hs].
    epose proof (close_INV None _ w (wkey x) p (ikey i) pid fd fo app'
      (<[pid := delete fd m]> (ownerAppFdMap x)) HI (view_lookup_w _ _ _ _ Hx) (view_lookup_i _ _ _ _ Hp)
      Hm Hf Happ _ _) as HI'.
    unfold view_of. cbn. rewrite !fmap_insert. exact HI'.
    Unshelve.
    + intros a b Hn. rewrite fd_at_insert. case_decide as Ea; [subst a | done].
      unfold fd_at. cbn. rewrite Em. cbn. apply lookup_delete_ne. congruence.
    + right. rewrite fd_at_insert, decide_True by done. apply lookup_delete_eq.
  - eapply same_SINV; [by eapply finishFdReq_same | exact HS].
  - case_if_in E; [by eapply dealloc_ok | by injection E as <-].
Qed.

(** ** An application ends *)

(** The descriptors in [l], and no others, are those [pid] still has at [w]. *)
Definition left_at (w pid : Z) (l : list (Z * Z)) (s : System) : Prop :=
  exists x, workers s !! w = Some x /\ NoDup l.*1 /\
    forall fd fo, owns_fd (view_of s (msgs s)) (wkey x) pid fd fo <-> (fd, fo) ∈ l.

Lemma close_fd_ok w pid m s fd fo l r :
  SINV (Some (w, pid)) s -> left_at w pid ((fd, fo) :: l) s -> close_fd pid (m, s) (fd, fo) = Ok r ->
  SINV (Some (w, pid)) (snd r) /\ left_at w pid l (snd r).
Proof.
  intros [HI Hs] (x & Hx & Hnd & Hl) E. cbn in E. run_in E. injection E as <-.
  rewrite fmap_cons in Hnd. apply NoDup_cons in Hnd as [Hni Hnd].
  destruct (proj2 (Hl fd fo)) as (p & j & Hj & Hm & Hf); [left |].
  destruct (fi_obj _ _ (I_fd _ _ HI) p j pid fd fo Hj Hf) as (f & Ho & Ep & Ef).
  cbn in Ho. rewrite Ho in E0. injection E0 as <-. rewrite Ep, Ef in *.
  cbn in Hj. rewrite lookup_fmap, E1 in Hj. injection Hj as <-.
  match goal with Hd : delFd pid fd ?a = Ok _ |- _ => rename a into i, Hd into Hdel end.
  destruct (delFd_ok _ _ _ _ _ Hf Hdel) as (app' & -> & Happ).
  pose proof (view_lookup_w _ (msgs s) _ _ Hx) as Hxw. pose proof (view_lookup_i _ (msgs s) _ _ E1) as Hpi.
  assert (Hv : forall R, view_of (snd (<[i_no i := p]> m, set_fobjs (delete fo (fobjs s))
                (put_inode p (set_refs (ref i - 1) app' i) s))) R =
    with_msgs R (v_close (view_of s (msgs s)) w (wkey x) p (ikey i) fo app' (ownerAppFdMap x))).
  { intros R. unfold view_of, v_close, with_msgs. cbn. rewrite fmap_insert. f_equal. symmetry.
    apply insert_id. by rewrite lookup_fmap, Hx. }
  split.
  - split; [| exact Hs]. rewrite Hv.
    exact (close_INV (Some (w, pid)) _ w (wkey x) p (ikey i) pid fd fo app' (ownerAppFdMap x) HI Hxw Hpi Hm Hf
             Happ (fun _ _ _ => eq_refl) (or_introl eq_refl)).
  - exists x. split_and!; [done | done |]. intros fd' fo'. rewrite Hv, owns_has.
    pose proof (close_has (Some (w, pid)) (view_of s (msgs s)) w (wkey x) p (ikey i) pid fd fo app'
      (ownerAppFdMap x) HI Hpi Hf Happ (fun _ _ _ => eq_refl) (or_introl eq_refl)) as Hc.
    unfold has in Hc |- *. cbn [v_i with_msgs] in Hc |- *. setoid_rewrite Hc. fold has in Hc |- *.
    specialize (Hl fd' fo'). rewrite owns_has, elem_of_cons in Hl. split.
    + intros (q & ino & [Hh Hn] & Hq). destruct (proj1 Hl) as [[= -> ->] | ?]; [eauto | done | done].
    + intros Hin. destruct (proj2 Hl) as (q & ino & Hh & Hq); [by right |]. exists q, ino.
      split_and!; [done | | done]. intros [= ->]. apply Hni. apply list_elem_of_fmap. by exists (fd, fo').
Qed.

Lemma close_all_ok w pid l st r :
  SINV (Some (w, pid)) (snd st) -> left_at w pid l (snd st) -> foldM (close_fd pid) l st = Ok r ->
  SINV (Some (w, pid)) (snd r) /\ left_at w pid [] (snd r).
Proof.
  revert st. induction l as [| [fd fo] l IH]; intros [m s] HS Hl E.
  - by injection E as <-.
  - cbn [foldM] in E. inv_bind E. destruct (close_fd_ok w pid m s fd fo l a HS Hl E0) as [HS' Hl'].
    by apply (IH a).
Qed.

(** [pid] has nothing open at [w]. *)
Definition gone (w pid : Z) (s : System) : Prop :=
  forall x fd fo, workers s !! w = Some x -> ~ owns_fd (view_of s (msgs s)) (wkey x) pid fd fo.

Lemma gone_shrinks w pid s s' :
  gone w pid s -> shrinks w (view_of s (msgs s)) (view_of s' (msgs s)) -> gone w pid s'.
Proof.
  intros Hg [H1 H2] x' fd fo Hx' (q & j & Hq & Hm & Hf).
  destruct (H1 (wkey x')) as (k & Hk & Hsub); [by apply (view_lookup_w s' (msgs s)) |].
  cbn in Hk. rewrite lookup_fmap in Hk. destruct (workers s !! w) as [x |] eqn:Hx; [| done]. injection Hk as <-.
  destruct (fmap_lookup_eq _ _ _ _ _ H2 Hq) as (j0 & Hj0 & [= E1 E2]).
  apply (Hg x fd fo Hx). exists q, j0. rewrite <- E1, <- E2. split_and!; [done | | done].
  by eapply lookup_weaken.
Qed.

Lemma dealloc_all_ok w pid l s s' :
  SINV (Some (w, pid)) s -> gone w pid s -> foldM (dealloc_closed w) l s = Ok s' ->
  SINV (Some (w, pid)) s' /\ gone w pid s'.
Proof.
  revert s. induction l as [| kv l IH]; intros s HS Hg E; [by injection E as <- |].
  cbn [foldM] in E. inv_bind E. unfold dealloc_closed in E0. run_in E0.
  case_if_in E0; [| injection E0 as <-; by apply (IH s)].
  apply (IH a); [by eapply dealloc_ok | | done].
  eapply gone_shrinks; [done |]. by eapply dealloc_shrinks.
Qed.

Lemma forget_INV v w k pid :
  INV (Some (w, pid)) v -> v_w v !! w = Some k -> (forall fd fo, ~ owns_fd v k pid fd fo) ->
  INV None (mk_view (<[w := mk_wkey (k_map k) (delete pid (k_own k)) (k_apps k) (k_dirty k)]> (v_w v))
              (v_i v) (v_owner v) (v_unsafe v) (v_fobjs v) (v_msgs v)).
Proof.
  intros [Hi [H1 H2 H3 H4 H5 H6 H7 H8] Hpay] Hk Hg. set (v' := mk_view _ _ _ _ _ _).
  assert (Hw : forall u k', v_w v' !! u = Some k' -> exists k0, v_w v !! u = Some k0 /\
    k_map k' = k_map k0 /\ k_apps k' = k_apps k0 /\
    (u = w /\ k0 = k /\ k_own k' = delete pid (k_own k) \/ u <> w /\ k' = k0)).
  { intros u k'. cbn. rewrite lookup_insert.
    case_decide; [subst u; intros [= <-]; exists k; naive_solver | naive_solver]. }
  split.
  - eapply inv_ext; [done | | done | done | done | done | apply (inv_msgs _ Hi)].
    intros u. unfold v_map. cbn. rewrite lookup_insert. case_decide; [subst u; by rewrite Hk | done].
  - split; try done.
    + intros u k' a b o Hu Ho. destruct (Hw _ _ Hu) as (k0 & Hk0 & Em & _ & Hc).
      assert (Ho' : owns_fd v k0 a b o) by (by eapply (owns_fd_frame v v')).
      destruct Hc as [(-> & -> & ->) | [_ ->]]; [| eauto].
      assert (a <> pid) by (intros ->; by apply Hg in Ho').
      unfold fd_at. rewrite lookup_delete_ne by done. by apply (H4 w).
    + intros u k' a b o Hu _ Ho. destruct (Hw _ _ Hu) as (k0 & Hk0 & Em & _ & Hc).
      eapply (owns_fd_frame v' v); [done | by symmetry |].
      destruct Hc as [(-> & -> & E) | [Hne ->]]; [| eapply H5; [done | congruence | done]].
      rewrite E in Ho. destruct (decide (a = pid)) as [-> | Hna].
      * unfold fd_at in Ho. by rewrite lookup_delete_eq in Ho.
      * unfold fd_at in Ho. rewrite lookup_delete_ne in Ho by done. eapply H5; [done | congruence | done].
    + intros q j a b o Hq Hf. destruct (H7 _ _ _ _ _ Hq Hf) as (u & k0 & n & Hu & Hn & Hr).
      destruct (decide (u = w)) as [-> | Hne]; [| exists u, k0, n; cbn; by rewrite lookup_insert_ne].
      rewrite Hk in Hu. injection Hu as <-. eexists w, _, n. cbn. by rewrite lookup_insert_eq.
    + intros u k' a n Hu. destruct (Hw _ _ Hu) as (k0 & Hk0 & _ & -> & _). eauto.
  - eapply pay_frame; [done | | done | done]. by apply (fmap_insert_same k_dirty _ _ k).
Qed.

Lemma SINV_weaken ex s : SINV None s -> SINV ex s.
Proof.
  intros [[Hi [H1 H2 H3 H4 H5 H6 H7 H8] Hp] Hs]. split; [| done]. split; [done | | done].
  split; try done. intros w k pid fd fo Hk _. by eapply H5.
Qed.

Lemma closeAllFileDescriptors_ok w pid s s' :
  SINV None s -> closeAllFileDescriptors w pid s = Ok s' -> SINV None s'.
Proof.
  intros HS E. unfold closeAllFileDescriptors in E. run_in E.
  destruct (ownerAppFdMap x !! pid) as [m |] eqn:Em; [| by injection E as <-]. run_in E.
  match goal with Hz : foldM (close_fd pid) _ _ = Ok _ |- _ => rename Hz into Hc end.
  assert (Hl0 : left_at w pid (uiter m) s).
  { exists x. split_and!; [done | |].
    - rewrite (fmap_Permutation fst _ _ (uiter_perm m)). apply NoDup_fst_map_to_list.
    - intros fd fo. rewrite (uiter_perm m), elem_of_map_to_list. destruct HS as [HI _].
      pose proof (view_lookup_w _ (msgs s) _ _ E0) as Hxw. split; intros Ho.
      + apply (fi_own _ _ (I_fd _ _ HI) w) in Ho; [| done]. unfold fd_at in Ho. cbn in Ho. by rewrite Em in Ho.
      + apply (fi_only _ _ (I_fd _ _ HI) w); [done | done |]. unfold fd_at. cbn. by rewrite Em. }
  destruct (close_all_ok w pid (uiter m) (∅, s) _ (SINV_weaken _ _ HS) Hl0 Hc) as [HS1 (y & Hy & _ & Hl)].
  cbn [snd] in *.
  match goal with Hz : foldM (dealloc_closed w) _ _ = Ok ?a |- _ => rename Hz into Hd, a into s2 end.
  assert (Hg : gone w pid s0).
  { intros y' fd fo Hy'. rewrite Hy in Hy'. injection Hy' as <-. intros Ho%Hl. by apply elem_of_nil in Ho. }
  destruct (dealloc_all_ok w pid _ _ _ HS1 Hg Hd) as [[HI2 Hs2] Hg2]. injection E as <-. split; [| exact Hs2].
  match goal with Hz : workers s2 !! w = Some ?a |- _ => rename Hz into Hz2, a into z end.
  pose proof (forget_INV _ w (wkey z) pid HI2 (view_lookup_w _ _ _ _ Hz2) (fun fd fo => Hg2 z fd fo Hz2)) as HI'.
  unfold view_of. cbn. rewrite fmap_insert. exact HI'.
Qed.

(** ** Histories *)

Lemma routing_same s s' req ino err : primaryRouteToOwner req ino s = Ok (err, s') -> same s s'.
Proof.
  unfold primaryRouteToOwner. intros E. run_in E. case_if_in E; injection E as _ <-; done.
Qed.

Lemma unknownFd_same w pid fd req s s' : primaryHandleUnknownFdReq w pid fd req s = Ok s' -> same s s'.
Proof.
  unfold primaryHandleUnknownFdReq. intros E. case_if_in E; [by injection E as <- |].
  case_if_in E; [by injection E as <- |]. run_in E.
  match goal with Hx : primaryRouteToOwner _ _ _ = _ |- _ => apply routing_same in Hx end.
  case_if_in E; injection E as <-; [| done]. etransitivity; [done |]. apply same_recent.
Qed.

Lemma unknownPath_same w perm req s s' : ownerHandleUnknownPathReq w perm req s = Ok s' -> same s s'.
Proof.
  unfold ownerHandleUnknownPathReq. intros E. case_if_in E; [by injection E as <- |].
  destruct perm; [| by injection E as <- | done]. run_in E. injection E as <-. by eapply routing_same.
Qed.

Lemma fdReq_ok k w pid fd req s s' :
  SINV None s -> ownerProcessFdReq k w pid fd req s = Ok s' -> SINV None s'.
Proof.
  intros HS E. unfold ownerProcessFdReq in E. destruct (getFileObjForFd w pid fd s) as [fo |] eqn:Hg.
  - run_in E. match goal with Hx : recordInProgressFsReq _ _ _ _ = Ok ?a |- _ => rename a into s1;
      apply recordInProgressFsReq_same in Hx as Hsame end.
    pose proof (same_SINV _ _ _ Hsame HS) as HS1. destruct k; [| by injection E as <-].
    apply (processClose_ok w pid fd fo req s1); [done | | done].
    unfold getFileObjForFd in Hg |- *. destruct (workers s !! w) as [y |] eqn:Hy; [| done].
    destruct (same_at s1 s w y) as (x1 & -> & Ek); [by apply same_sym | done |].
    injection Ek as _ Eo _ _. cbn in *. congruence.
  - eapply same_SINV; [by eapply unknownFd_same | done].
Qed.

(** An [open] on a worker that has the inode. *)
Lemma record_open_ok w x pid p i fl md fo req s s1 s' :
  SINV None s -> workers s !! w = Some x -> inodes s !! p = Some i -> inodeMap x !! i_no i = Some p ->
  fobjs s !! fo = None -> fd_left w pid s -> recordInProgressFsReq w req p s = Ok s1 ->
  openCompletion w pid p fl md fo req s1 = Ok s' -> SINV None s'.
Proof.
  intros HS Hx Hp Em Hfo Hl Hsame%recordInProgressFsReq_same E.
  destruct (same_at s1 s w x) as (x1 & Hx1 & Ek); [by apply same_sym | done |].
  destruct (same_at_i s1 s p i) as (i1 & Hi1 & Ei); [by apply same_sym | done |].
  injection Ek as Ek1 _ Ek2 _. injection Ei as Ei _ _ _ _ _ _.
  eapply (openCompletion_ok w x1 pid p i1 fl md fo req s1); try done.
  - by eapply same_SINV.
  - by rewrite <- Ek1, <- Ei.
  - by rewrite (same_fobjs _ _ Hsame).
  - unfold fd_left in Hl |- *. rewrite Hx in Hl. rewrite Hx1. cbn in *. by rewrite <- Ek2.
Qed.

Lemma pathReq_ok k w pid perm req s s' :
  SINV None s -> allowed (OpPathReq k w pid perm req) s ->
  ownerProcessPathReq k w pid perm req s = Ok s' -> SINV None s'.
Proof.
  intros HS Hal E. unfold ownerProcessPathReq in E. destruct perm as [p | |].
  - run_in E. destruct (inodeMap x !! i_no x0) as [q |] eqn:Em; [| eapply same_SINV; [by eapply unknownPath_same | done]].
    run_in E. pose proof (table_unique _ _ _ _ _ _ _ HS E0 E1 Em) as ->.
    destruct k as [fl md fo |]; [destruct Hal; by eapply (record_open_ok w x pid p x0) |].
    injection E as <-. eapply same_SINV; [by eapply recordInProgressFsReq_same | done].
  - eapply same_SINV; [by eapply unknownPath_same | done].
  - by injection E as <-.
Qed.

Lemma handoff_ok p s s' :
  SINV None s -> PrimaryHandoffToOwner (ProcessReassignmentCtx exec_fuel) p s = Ok s' -> SINV None s'.
Proof.
  intros HS E. unfold PrimaryHandoffToOwner in E. run_in E. case_if_in E; [by eapply unlink_ok |].
  apply send_view in E as [Hv Hm]. by eapply SINV_rings.
Qed.

Lemma reassignReq_ok w type_ ino cur new req s s' :
  SINV None s -> ProcessInodeReassignmentReq w type_ ino cur new req s = Ok s' -> SINV None s'.
Proof.
  intros HS E. unfold ProcessInodeReassignmentReq in E. run_in E. case_if_in E; [by injection E as <- |].
  destruct (inodeMap x !! ino); [| by injection E as <-]. run_in E.
  case_if_in E; [by injection E as <- |]. case_if_in E; [by injection E as <- |].
  case_if_in E; [| by injection E as <-].
  by apply (export_ok None exec_fuel w ino new (Some (AnswerClient req)) (Some LogOnly) s).
Qed.

Lemma bitmaps_ok w s s' :
  SINV None s -> bitmaps_read (ProcessReassignmentCtx exec_fuel) w s = Ok s' -> SINV None s'.
Proof.
  intros HS E. unfold bitmaps_read in E. run_in E. destruct (pendingDeallocs x) as [| [p bm] l]; [by injection E as <- |].
  eapply dealloc_ok; [| exact E]. eapply same_SINV; [| done]. by eapply same_worker.
Qed.

(** The inode that the primary gets is in its table, if it owns it. *)
Lemma getInode_own p ino d s r s' :
  getInode p ino d s = Ok (r, s') -> getInodeOwner ino s = kMasterWidConst ->
  fobjs s' = fobjs s /\ exists x x', workers s !! kMasterWidConst = Some x /\
    workers s' !! kMasterWidConst = Some x' /\ appMap x' = appMap x /\ inodeMap x' !! ino = Some r.
Proof.
  intros E Ho. unfold getInode in E. run_in E.
  destruct (inodeMap x !! ino) as [q |] eqn:Em; [injection E as <- <-; eauto 10 |].
  rewrite Ho in E. cbn in E. injection E as <- <-. split; [done |].
  exists x. eexists. cbn. rewrite !lookup_insert_eq. split; [done |]. split; [done |]. cbn. by rewrite lookup_insert_eq.
Qed.

Lemma processOpen_ok p d pid ino fl md fo req s s' :
  SINV None s -> inodes s !! p = None -> Layout.i_no (Alloc.inodeData d) = ino -> fobjs s !! fo = None ->
  fd_left kMasterWidConst pid s -> getInodeOwner ino s = kMasterWidConst ->
  processOpen p d pid ino fl md fo req s = Ok s' -> SINV None s'.
Proof.
  intros HS Hp Hd Hfo Hl Ho E. unfold processOpen in E. apply res_bind_ok in E as ([q s1] & Eg & E).
  apply res_bind_ok in E as (s2 & Er & E). pose proof (getInode_ok _ _ _ _ _ _ HS Hp Hd Eg) as HS1.
  destruct (getInode_own _ _ _ _ _ _ Eg Ho) as (Ef & x & x1 & Hx & Hx1 & Ea & Em).
  destruct (located _ _ (wkey x1) ino q (I_place _ _ (proj1 HS1)) (view_lookup_w _ _ _ _ Hx1) Em)
    as (j & _ & _ & Hj & Eno & _).
  cbn in Hj. rewrite lookup_fmap in Hj. destruct (inodes s1 !! q) as [i |] eqn:Hq; [| done].
  injection Hj as <-. cbn in Eno. eapply (record_open_ok _ x1 pid q i); try done; [by rewrite Eno | by rewrite Ef |].
  unfold fd_left in Hl |- *. rewrite Hx in Hl. rewrite Hx1. cbn in *. by rewrite Ea.
Qed.

(** Every operation preserves the invariants. *)
Lemma exec_op_ok o s s' :
  SINV None s -> allowed o s -> opens_own o s -> exec_op o s = Ok s' -> SINV None s'.
Proof.
  intros HS Hal Hoo E. destruct o; cbn [exec_op] in E.
  - by eapply initNewApp_ok.
  - destruct Hal as (Hp & _ & Hd). run_in E. injection E as <-. by eapply getInode_ok.
  - destruct Hal as (Hp & _ & Hd & Hfo & Hl). by eapply processOpen_ok.
  - by eapply pathReq_ok.
  - by eapply fdReq_ok.
  - eapply same_SINV; [by eapply finishFdReq_same | done].
  - by eapply closeAllFileDescriptors_ok.
  - by eapply writeFileInode_ok.
  - by eapply resetFileIndoeDirty_ok.
  - run_in E. injection E as <-. eapply same_SINV; [| done]. by eapply same_worker.
  - run_in E. injection E as <-. eapply same_SINV; [| done].
    etransitivity; [| apply same_items]. by eapply same_worker.
  - run_in E. destruct (inodeMap x !! ino) as [p |] eqn:Em; [| by injection E as <-]. run_in E.
    injection E as <-. by eapply data_ok.
  - by apply (export_ok None exec_fuel w ino new_owner (Some LogOnly) (Some LogOnly) s).
  - by eapply reassignReq_ok.
  - by eapply handoff_ok.
  - by eapply bitmaps_ok.
  - by eapply messages_ok.
Qed.

Lemma initial_ok s : initial s -> SINV None s.
Proof.
  intros (_ & Hd & Hom & _ & Hun & Hin & Hfo & Hr & Hw). unfold SINV.
  assert (Hm : forall u, msgs s u = []).
  { intros u. unfold msgs. destruct (rings s !! u) as [q |] eqn:E; [by rewrite (Hr u q E) | done]. }
  assert (Hk : forall u k, (wkey <$> workers s) !! u = Some k ->
    0 <= u /\ k_map k = ∅ /\ k_dirty k = ∅ /\ k_own k = ∅ /\ k_apps k = ∅).
  { intros u k. rewrite lookup_fmap. destruct (workers s !! u) as [x |] eqn:Hx; [| done]. intros [= <-].
    destruct (Hw u x Hx) as (? & ? & ? & ? & ? & _). done. }
  split; [split | intros u c; rewrite Hm; by intros ?%elem_of_nil].
  - split; unfold v_core; cbn; rewrite ?Hin, ?Hom, ?Hun, ?fmap_empty; try (intros *; by rewrite ?lookup_empty).
    + intros u ino p. unfold v_map. cbn. destruct ((wkey <$> workers s) !! u) as [k |] eqn:E; [| by rewrite lookup_empty].
      destruct (Hk u k E) as (_ & -> & _). by rewrite lookup_empty.
    + intros u c. rewrite Hm. by intros ?%elem_of_nil.
  - split; cbn; rewrite ?Hin, ?fmap_empty; try (intros *; by rewrite ?lookup_empty).
    + intros u k pid fd fo _ (p & i & Hp & _). cbn in Hp. by rewrite Hin, fmap_empty, lookup_empty in Hp.
    + intros u k pid fd fo Hu _. destruct (Hk u k Hu) as (_ & _ & _ & -> & _). unfold fd_at. by rewrite lookup_empty.
    + intros u k pid n Hu. destruct (Hk u k Hu) as (_ & _ & _ & _ & ->). by rewrite lookup_empty.
  - split; cbn; rewrite ?Hin, ?fmap_empty; try (intros *; by rewrite ?lookup_empty).
    + destruct ((wkey <$> workers s) !! kUnknownManageWorkerId) as [k |] eqn:E; [| done].
      destruct (Hk _ _ E) as [Hge _]. unfold kUnknownManageWorkerId in Hge. lia.
    + intros u k ino Hu Hd'. destruct (Hk u k Hu) as (_ & _ & E & _). rewrite E in Hd'. set_solver.
Qed.

Lemma reachable_ok s : reachable s -> SINV None s.
Proof. induction 1; [by apply initial_ok | by eapply exec_op_ok]. Qed.

End Ops.

End Descriptors.
