(* ===== verification/Serving.v ===== *)
(** Who serves a file, in every history of the system.

    The theorems of this file are about all states of [reachable], whose histories are those in
    which the primary opens only inodes it owns: a descriptor is resolved by at
    most one worker, the manager of its inode; an open descriptor stays open, on the same file,
    until it is closed or its application ends, and is resolved whenever no message carries its
    inode; the reference count of an inode is the number of its open descriptors; a request on
    a path is answered by the owner of the file or sent towards it. *)

From Stdlib Require Import ZArith List Bool Lia.
From stdpp Require Import base gmap list.
From S2P Require Import Prelude Unordered Layout InodeLog BlockBuf Alloc Ownership Transfer Descriptors.
Import ListNotations.
Open Scope Z_scope.

Module Serving.
Import Layout BlockBuf Ownership Transfer Descriptors.

(** ** What the messages leave alone *)

(** A relation between states that every single update satisfies. *)
Class Frame (R : System -> System -> Prop) : Prop := {
  fr_refl :: Reflexive R;
  fr_trans :: Transitive R;
  fr_worker : forall w x x' s, workers s !! w = Some x -> R s (put_worker w x' s);
  fr_inode : forall p i i' s, inodes s !! p = Some i -> dkey (ikey i') = dkey (ikey i) -> R s (put_inode p i' s);
  fr_primary : forall om rec un s, R s (set_primary om rec un s);
  fr_items : forall h s, R s (set_items h s);
  fr_answer : forall req ret s, R s (answer req ret s);
  fr_ring : forall d q q' s, rings s !! d = Some q -> R s (set_rings (<[d := q']> (rings s)) s)
}.

Section Walk.
Context `{UIter} `{SIter} (R : System -> System -> Prop) `{!Frame R}.

Lemma fr_send d m s s' : send_message d m s = Ok s' -> R s s'.
Proof.
  unfold send_message. destruct (rings s !! d) eqn:E; [| done]. intros [= <-]. by eapply fr_ring.
Qed.

Lemma fr_both w x x' p i i' s :
  workers s !! w = Some x -> inodes s !! p = Some i -> dkey (ikey i') = dkey (ikey i) ->
  R s (put_inode p i' (put_worker w x' s)).
Proof. intros Hx Hp E. etransitivity; [by eapply fr_worker |]. by eapply fr_inode. Qed.

Lemma exportInode_frame w ino s o s' : exportInode w ino s = Ok (o, s') -> R s s'.
Proof.
  unfold exportInode. intros E. run_in E. destruct (inodeMap x !! ino) as [p |]; [| by injection E as _ <-].
  run_in E. injection E as _ <-.
  match goal with Hx : setManageWorkerUnknown _ _ = _ |- _ =>
    unfold setManageWorkerUnknown in Hx; case_if_in Hx; injection Hx as <- <- end.
  all: by eapply fr_both.
Qed.

Lemma importInode_frame w e s s' : importInode w e s = Ok s' -> R s s'.
Proof. unfold importInode. intros E. run_in E. injection E as <-. by eapply fr_worker. Qed.

Section Exec.
Variable exec : Z -> Ctx -> System -> res System.
Hypothesis Hexec : forall w c s s', exec w c s = Ok s' -> R s s'.

Lemma sendOrExecute_frame w d c s s' : SendMessageOrExecute exec w d c s = Ok s' -> R s s'.
Proof. unfold SendMessageOrExecute. intros E. case_if_in E; [eauto | by eapply fr_send]. Qed.

Lemma ownerExport_frame w ino d o n s s' : OwnerExportThroughPrimary exec w ino d o n s = Ok s' -> R s s'.
Proof.
  unfold OwnerExportThroughPrimary. intros E. run_in E.
  match goal with Hx : exportInode _ _ _ = Ok _ |- _ => apply exportInode_frame in Hx as Hr end.
  destruct o0; [| done]. run_in E. apply sendOrExecute_frame in E. etransitivity; [exact Hr |].
  case_match; [etransitivity; [apply fr_primary | exact E] | exact E].
Qed.

Lemma dealloc_frame w p s s' : OwnerDeallocResources exec w p s = Ok s' -> R s s'.
Proof.
  unfold OwnerDeallocResources. intros E. run_in E.
  case_if_in E; [injection E as <-; by eapply fr_inode |]. run_in E.
  case_if_in E; [by eapply ownerExport_frame |]. run_in E.
  match goal with Hx : OwnerEnsureLocalBitmapsInMem _ _ _ = Ok (_, ?a) |- _ =>
    rename a into s1; assert (Hs : R s s1 /\ inodes s1 = inodes s) end.
  { match goal with Hx : OwnerEnsureLocalBitmapsInMem _ _ _ = _ |- _ =>
      unfold OwnerEnsureLocalBitmapsInMem in Hx; run_in Hx; case_if_in Hx; run_in Hx; injection Hx as _ <- end;
    [done |]. split; [| done]. by eapply fr_worker. }
  destruct Hs as [Hs Ei]. case_if_in E; [by injection E as <- |]. run_in E. injection E as <-.
  etransitivity; [exact Hs |]. etransitivity; [apply fr_items |].
  eapply (fr_both w x2 _ p x); [done | | done]. cbn. by rewrite Ei.
Qed.

Lemma ownerUnlink_frame w ino o s s' : OwnerUnlinkInode exec w ino o s = Ok s' -> R s s'.
Proof.
  unfold OwnerUnlinkInode. intros E. run_in E. case_match; [| done]. run_in E. case_if_in E; [done |].
  assert (Hi : forall j, R s (put_inode z (set_data j x0) s)) by (intros j; by eapply fr_inode).
  case_if_in E; [| by injection E as <-]. apply dealloc_frame in E. etransitivity; [apply Hi | exact E].
Qed.

Lemma callback_frame w cb c s s' : run_callback exec w cb c s = Ok s' -> R s s'.
Proof.
  unfold run_callback. intros E. destruct cb as [[| |] |]; [| by injection E as <- | by eapply dealloc_frame | by injection E as <-].
  injection E as <-. apply fr_answer.
Qed.

Lemma process_frame w c s s' : process_ctx exec w c s = Ok s' -> R s s'.
Proof.
  unfold process_ctx. intros E. destruct (state c); [done | | | |].
  - unfold PrimaryRequestNewOwnerImport in E. run_in E. apply sendOrExecute_frame in E.
    match goal with Hx : setManageWorkerId _ _ _ = _ |- _ => unfold setManageWorkerId in Hx; case_if_in Hx; injection Hx as <- <- end;
      (etransitivity; [apply fr_primary |]; etransitivity; [| exact E]; by eapply fr_inode).
  - unfold NewOwnerImport in E. run_in E. apply sendOrExecute_frame in E.
    repeat match goal with
    | Hx : importInode _ _ _ = Ok _ |- _ => apply importInode_frame in Hx
    | Hx : run_callback _ _ _ _ _ = Ok _ |- _ => apply callback_frame in Hx
    end.
    match goal with Hx : (if _ then _ else Ok ?a) = Ok ?b |- _ => assert (Hm : R a b) end.
    { match goal with Hx : (if _ then _ else Ok _) = Ok _ |- _ => case_if_in Hx; run_in Hx; injection Hx as <- end;
      [apply fr_primary | done]. }
    etransitivity; [eassumption |]. etransitivity; [exact Hm |]. by etransitivity.
  - unfold PrimaryImportSuccessNotification in E. run_in E. apply sendOrExecute_frame in E.
    etransitivity; [apply fr_primary | exact E].
  - by eapply callback_frame.
Qed.

End Exec.

Lemma reassignment_frame f w c s s' : ProcessReassignmentCtx f w c s = Ok s' -> R s s'.
Proof.
  revert w c s s'. induction f as [| f IH]; intros w c s s' E; [done |]. by eapply process_frame.
Qed.

Lemma messages_frame w s s' : processInterWorkerMessages w s = Ok s' -> R s s'.
Proof.
  unfold processInterWorkerMessages. intros E. destruct (rings s !! w) as [[| m q] |] eqn:Er; try (by injection E as <-).
  etransitivity; [by eapply fr_ring |]. destruct m; cbn [onMessage] in E.
  - by eapply reassignment_frame.
  - eapply ownerUnlink_frame; [| exact E]. intros *. apply reassignment_frame.
Qed.

End Walk.

(** ** Open descriptors *)

(** [fo] is open as [fd] by [pid] on the inode at [p]. *)
Definition open_at (s : System) (p pid fd fo : Z) : Prop :=
  exists i, inodes s !! p = Some i /\ fd_at (appFdMap i) pid fd = Some fo.

Definition keeps (s s' : System) : Prop :=
  dkey <$> (ikey <$> inodes s') = dkey <$> (ikey <$> inodes s).

#[export] Instance keeps_frame : Frame keeps.
Proof.
  split; try done.
  - intros s1 s2 s3 E1 E2. unfold keeps in *. congruence.
  - intros p i i' s Hp E. unfold keeps. cbn. rewrite fmap_insert.
    apply (fmap_insert_same dkey _ _ (ikey i)); [by rewrite lookup_fmap, Hp | done].
Qed.

Lemma keeps_open s s' p pid fd fo : keeps s s' -> open_at s p pid fd fo -> open_at s' p pid fd fo.
Proof.
  intros E (i & Hp & Hf). unfold keeps in E. rewrite <- !map_fmap_compose in E.
  destruct (fmap_lookup_eq _ _ _ _ _ (eq_sym E) Hp) as (i' & Hp' & [= _ Ea]).
  exists i'. split; [done |]. by rewrite <- Ea.
Qed.

Lemma same_keeps s s' : same s s' -> keeps s s'.
Proof. intros [E _]. specialize (E (msgs s)). injection E as _ Ei _ _ _. unfold keeps. by rewrite Ei. Qed.

(** The number of applications and workers does not change. *)
Definition same_dom (s s' : System) : Prop :=
  dom (workers s') = dom (workers s) /\ dom (rings s') = dom (rings s).

#[export] Instance same_dom_frame : Frame same_dom.
Proof.
  split; try done.
  - intros s1 s2 s3 [E1 E2] [E3 E4]. split; congruence.
  - intros w x x' s Hx. split; [| done]. cbn. apply dom_insert_lookup_L. by exists x.
  - intros d q q' s Hd. split; [done |]. cbn. apply dom_insert_lookup_L. by exists q.
Qed.

Section Open.
Context `{UIter} `{SIter}.

(** The operations that take a descriptor away. *)
Definition ends (o : op) (pid fd : Z) : Prop :=
  match o with
  | OpFdReq CloseReq _ pid' fd' _ => pid' = pid /\ fd' = fd
  | OpExit _ pid' => pid' = pid
  | _ => False
  end.

Lemma addFd_at i pid fo fd a b o :
  fd_at (appFdMap i) a b = Some o -> fd_at (appFdMap (addFd pid fo fd i)) a b = Some o.
Proof.
  intros Hf. unfold addFd. rewrite fd_at_default. destruct (fd_at (appFdMap i) pid fd) as [o' |] eqn:E; cbn.
  - rewrite fd_at_insert. case_decide as Ea; [subst a; by rewrite fd_at_default | done].
  - rewrite fd_at_add. case_decide as Ea; [| done]. destruct Ea as [-> ->]. congruence.
Qed.

Lemma delFd_at i i' pid fd a b o :
  delFd pid fd i = Ok i' -> (a, b) <> (pid, fd) -> fd_at (appFdMap i) a b = Some o ->
  fd_at (appFdMap i') a b = Some o.
Proof.
  intros E Hn Hf. unfold delFd in E. destruct (appFdMap i !! pid) as [m |] eqn:Em; [| by injection E as <-].
  run_in E. injection E as <-. cbn [appFdMap set_refs]. rewrite (fd_at_remove _ _ _ m) by done.
  by rewrite decide_False by naive_solver.
Qed.

Lemma put_open s p i' q pid fd fo :
  open_at s q pid fd fo ->
  (q = p -> forall i, inodes s !! p = Some i -> fd_at (appFdMap i') pid fd = Some fo) ->
  open_at (put_inode p i' s) q pid fd fo.
Proof.
  intros (i & Hq & Hf) Hp. unfold open_at. cbn. destruct (decide (q = p)) as [-> | Hne].
  - exists i'. rewrite lookup_insert_eq. split; [done |]. by eapply Hp.
  - exists i. by rewrite lookup_insert_ne.
Qed.

Lemma openCompletion_keeps w pid p fl md fo req s s' q a b o :
  openCompletion w pid p fl md fo req s = Ok s' -> open_at s q a b o -> open_at s' q a b o.
Proof.
  intros E Ho. unfold openCompletion in E. run_in E. destruct (appMap x !! pid);
    [| run_in E; eapply keeps_open; [by eapply same_keeps, delInProgressFsReq_same | done]]. run_in E.
  apply finishFdReq_same, same_keeps in E. eapply keeps_open; [exact E |]. clear E.
  match goal with Hx : allocateFd _ _ _ _ _ _ _ = Ok ?y |- _ => assert (Hy : inodes y = inodes s);
    [unfold allocateFd in Hx; run_in Hx; case_match; [run_in Hx; by injection Hx as <- | done] | clear Hx] end.
  match goal with Hx : addFdMappingOnOpen _ _ _ _ = Ok _ |- _ =>
    unfold addFdMappingOnOpen in Hx; run_in Hx; injection Hx as <- end.
  apply put_open; [destruct Ho as (j & Hj & Hf); exists j; cbn; by rewrite Hy |].
  intros -> j Hj. cbn in Hj. destruct Ho as (j' & Hj' & Hf). apply addFd_at. congruence.
Qed.

Lemma processClose_keeps w pid fo req fd s s' q a b o :
  SINV None s -> getFileObjForFd w pid fd s = Some fo -> processClose w pid fo req s = Ok s' ->
  (a, b) <> (pid, fd) -> open_at s q a b o -> open_at s' q a b o.
Proof.
  intros HS Hg E Hn Ho. destruct (resolves _ _ _ _ _ HS Hg) as (x & p & i & f & Hx & Hp & _ & _ & _ & Hfo & Ep & Ef).
  unfold processClose, delFdMappingOnClose in E. run_in E. run_in E1.
  rewrite Hfo in E0, E4. injection E0 as <-. injection E4 as <-. rewrite Ep, Ef in *.
  match type of E1 with match ?t with _ => _ end = _ => destruct t; [| done] end. injection E1 as <-.
  match goal with Hz : finishFdReq _ _ _ _ ?st = Ok ?st' |- _ =>
    apply finishFdReq_same, same_keeps in Hz; assert (H1 : open_at st q a b o) end.
  { destruct Ho as (j & Hj & Hf). unfold open_at. cbn. destruct (decide (q = p)) as [-> | Hne].
    - eexists. rewrite lookup_insert_eq. split; [done |]. eapply delFd_at; [done | done |]. congruence.
    - exists j. by rewrite lookup_insert_ne. }
  match goal with Hz : keeps _ _ |- _ => eapply keeps_open in Hz; [| exact H1] end.
  case_if_in E; [| by injection E as <-]. eapply keeps_open; [| done].
  eapply (dealloc_frame keeps); [intros *; apply (reassignment_frame keeps) | exact E].
Qed.

Lemma close_fd_keeps pid l st r q a b o :
  foldM (close_fd pid) l st = Ok r -> a <> pid -> open_at (snd st) q a b o -> open_at (snd r) q a b o.
Proof.
  revert st. induction l as [| kv l IH]; intros [m s] E Hn Ho; [by injection E as <- |].
  cbn [foldM] in E. inv_bind E. eapply IH; [done | done |]. cbn in E0. run_in E0. injection E0 as <-.
  cbn [snd] in *. destruct Ho as (j & Hj & Hf). unfold open_at. cbn.
  match goal with |- context [ip ?f] => destruct (decide (q = ip f)) as [-> | Hne] end.
  - eexists. rewrite lookup_insert_eq. split; [done |]. eapply delFd_at; [done | congruence |]. congruence.
  - exists j. by rewrite lookup_insert_ne.
Qed.

Lemma dealloc_closed_keeps w l s s' : foldM (dealloc_closed w) l s = Ok s' -> keeps s s'.
Proof.
  revert s. induction l as [| kv l IH]; intros s Hd; [by injection Hd as <- |]. cbn [foldM] in Hd. inv_bind Hd.
  etransitivity; [| by apply IH]. unfold dealloc_closed in E. run_in E.
  case_if_in E; [| by injection E as <-].
  eapply (dealloc_frame keeps); [intros *; apply (reassignment_frame keeps) | exact E].
Qed.

Lemma exit_keeps w pid s s' q a b o :
  closeAllFileDescriptors w pid s = Ok s' -> a <> pid -> open_at s q a b o -> open_at s' q a b o.
Proof.
  unfold closeAllFileDescriptors. intros E Hn Ho. run_in E.
  match type of E with match ?t with _ => _ end = _ => destruct t; [| by injection E as <-] end. run_in E.
  injection E as <-. match goal with Hx : foldM (close_fd pid) _ _ = Ok _ |- _ =>
    eapply close_fd_keeps in Hx; [| done | exact Ho] end. cbn [snd] in *.
  match goal with Hx : foldM (dealloc_closed w) _ _ = Ok _ |- _ => apply dealloc_closed_keeps in Hx as Hk end.
  eapply keeps_open; [| done]. etransitivity; [exact Hk |]. by eapply fr_worker.
Qed.

End Open.

(** ** The theorems *)

Section Theorems.
Context `{UIter} `{SIter}.

Lemma stage_of s p i :
  SINV None s -> inodes s !! p = Some i -> exists loc to l,
    stage loc (mngWid i) (inodeToOwnerMap s !! i_no i) to l /\
    placed (view_of s (msgs s)) p (i_no i) loc to l.
Proof.
  intros [HI _] Hp.
  exact (inv_stage _ (I_place _ _ HI) p _ _ (v_core_lookup _ _ _ (view_lookup_i _ _ _ _ Hp))).
Qed.

Lemma placed_at s p ino w to l :
  placed (view_of s (msgs s)) p ino (Some w) to l ->
  exists x, workers s !! w = Some x /\ inodeMap x !! ino = Some p.
Proof.
  intros Hpl. pose proof (pl_map _ _ _ _ _ _ Hpl w) as Hm. rewrite decide_True in Hm by done.
  unfold v_map in Hm. cbn in Hm. rewrite lookup_fmap in Hm.
  destruct (workers s !! w) as [x |]; [by exists x | by rewrite ?lookup_empty in Hm].
Qed.

(** A worker resolves the descriptors of the inodes in its table. *)
Lemma resolved_by_owner s w x p i pid fd fo :
  SINV None s -> workers s !! w = Some x -> inodes s !! p = Some i -> inodeMap x !! i_no i = Some p ->
  fd_at (appFdMap i) pid fd = Some fo -> getFileObjForFd w pid fd s = Some fo.
Proof.
  intros [HI _] Hx Hp Hm Hf. unfold getFileObjForFd. rewrite Hx. cbn.
  apply (fi_own _ _ (I_fd _ _ HI) w (wkey x)); [by apply view_lookup_w |].
  exists p, (ikey i). split_and!; [by apply view_lookup_i | done | done].
Qed.

(** What a worker resolves is open on the inode of which it is the manager. *)
Lemma resolver_is_manager s w p i pid fd fo fo' :
  SINV None s -> inodes s !! p = Some i -> fd_at (appFdMap i) pid fd = Some fo ->
  getFileObjForFd w pid fd s = Some fo' ->
  fo' = fo /\ mngWid i = w /\ exists x, workers s !! w = Some x /\ inodeMap x !! i_no i = Some p.
Proof.
  intros HS Hp Hf Hg. destruct (resolves _ _ _ _ _ HS Hg) as (x & q & j & f & Hx & Hq & Hm & Hf' & _).
  destruct HS as [HI _].
  assert (p = q) as <-.
  { by eapply (fi_fd _ _ (I_fd _ _ HI) p q (ikey i) (ikey j)); [apply view_lookup_i | apply view_lookup_i | |]. }
  rewrite Hp in Hq. injection Hq as <-. split_and!; [congruence | | by exists x].
  destruct (located _ w (wkey x) (i_no i) p (I_place _ _ HI) (view_lookup_w _ _ _ _ Hx) Hm)
    as (j & _ & _ & Hj & _ & Em & _).
  rewrite (view_lookup_i _ _ _ _ Hp) in Hj. by injection Hj as <-.
Qed.

(** C5. At most one worker serves a descriptor, in every state reached by a history in which
    the primary ends an [open] after a lookup on the device only for an inode it owns
    ([opens_own]): the worker that resolves the descriptor is the manager of the inode, has
    the inode in its table, and is the only one that resolves it. *)
Theorem descriptor_has_one_server s w pid fd fo :
  reachable s -> getFileObjForFd w pid fd s = Some fo ->
  exists x f i, workers s !! w = Some x /\ fobjs s !! fo = Some f /\ inodes s !! ip f = Some i /\
    readOnlyFd f = fd /\ mngWid i = w /\ inodeMap x !! i_no i = Some (ip f) /\
    forall u fo', getFileObjForFd u pid fd s = Some fo' -> u = w /\ fo' = fo.
Proof.
  intros HS%reachable_ok Hg.
  destruct (resolves _ _ _ _ _ HS Hg) as (x & p & i & f & Hx & Hp & Hm & Hf & _ & Hfo & <- & Hfd).
  destruct (resolver_is_manager _ _ _ _ _ _ _ _ HS Hp Hf Hg) as (_ & Em & _).
  exists x, f, i. split_and!; try done. intros u fo' Hu.
  destruct (resolver_is_manager _ _ _ _ _ _ _ _ HS Hp Hf Hu) as (-> & Em' & _). by subst w u.
Qed.

(** C6. An open descriptor is never lost while its inode moves: in every reachable state, where
    the primary has opened after a lookup on the device only inodes it owned ([opens_own]),
    either exactly one worker resolves it, to the file it was opened as, or no worker does and
    the inode is on its way in a message. *)
Theorem descriptor_served_or_moving s p pid fd fo :
  reachable s -> open_at s p pid fd fo ->
  (exists w, getFileObjForFd w pid fd s = Some fo /\
     forall u, u <> w -> getFileObjForFd u pid fd s = None) \/
  ((forall u, getFileObjForFd u pid fd s = None) /\
   exists u c, c ∈ msgs s u /\ carries c /\ ptr c = p).
Proof.
  intros HS%reachable_ok (i & Hp & Hf). destruct (stage_of _ _ _ HS Hp) as (loc & to & l & Hst & Hpl).
  destruct loc as [w |].
  - left. exists w. destruct (placed_at _ _ _ _ _ _ Hpl) as (x & Hx & Hm).
    split; [by eapply resolved_by_owner |]. intros u Hu.
    destruct (getFileObjForFd u pid fd s) as [fo' |] eqn:Hg; [exfalso | done].
    destruct (resolver_is_manager _ _ _ _ _ _ _ _ HS Hp Hf Hg) as (_ & <- & _). by inversion Hst.
  - right. split.
    + intros u. destruct (getFileObjForFd u pid fd s) as [fo' |] eqn:Hg; [exfalso | done].
      destruct (resolver_is_manager _ _ _ _ _ _ _ _ HS Hp Hf Hg) as (_ & _ & x & Hx & Hm).
      pose proof (pl_map _ _ _ _ _ _ Hpl u) as Hn. rewrite decide_False in Hn by done.
      rewrite (v_map_lookup _ _ _ (view_lookup_w _ _ _ _ Hx)) in Hn. cbn in Hn. congruence.
    + assert (Hc : exists c, c ∈ l /\ carries c)
        by (inversion Hst; subst; eexists; (split; [| (by left) || (by right)]); set_solver).
      destruct Hc as (c & Hc & Hcar). exists to, c.
      pose proof (pl_msgs _ _ _ _ _ _ Hpl to) as Hab. rewrite decide_True in Hab by done.
      rewrite <- Hab in Hc. apply elem_about in Hc as (Hc & Hpc & _). done.
Qed.

(** The operations that neither load inodes nor open or close files. *)
Definition plain (o : op) : Prop :=
  match o with OpGetInode _ _ _ | OpOpen _ _ _ _ _ _ _ _ | OpPathReq _ _ _ _ _ | OpFdReq _ _ _ _ _ | OpExit _ _ => False
  | _ => True end.

Lemma plain_keeps o s s' : exec_op o s = Ok s' -> plain o -> keeps s s'.
Proof.
  intros E Hpl.
  assert (Hexec : forall w c s s', ProcessReassignmentCtx exec_fuel w c s = Ok s' -> keeps s s')
    by (intros *; apply (reassignment_frame keeps)).
  destruct o; try done; cbn [exec_op] in E.
  - unfold initNewApp in E. run_in E. case_match; injection E as <-; [done | by eapply fr_worker].
  - apply same_keeps. by eapply finishFdReq_same.
  - unfold writeFileInode in E. run_in E. case_match; [| done]. run_in E.
    injection E as <-. by eapply (fr_both keeps).
  - unfold resetFileIndoeDirty in E. run_in E. case_match; [| done]. run_in E.
    injection E as <-. by eapply (fr_both keeps).
  - run_in E. injection E as <-. by eapply fr_worker.
  - run_in E. by injection E as <-.
  - run_in E. case_match; [| by injection E as <-]. run_in E. injection E as <-. by eapply fr_inode.
  - by eapply (ownerExport_frame keeps).
  - unfold ProcessInodeReassignmentReq in E. run_in E.
    case_if_in E; [by injection E as <- |]. case_match; [| by injection E as <-]. run_in E.
    repeat (case_if_in E; [by injection E as <- |]). case_if_in E; [| by injection E as <-].
    by eapply (ownerExport_frame keeps).
  - unfold PrimaryHandoffToOwner in E. run_in E.
    case_if_in E; [by eapply (ownerUnlink_frame keeps) | by eapply (fr_send keeps)].
  - unfold bitmaps_read in E. run_in E.
    destruct (pendingDeallocs x) as [| [q bm] l]; [by injection E as <- |].
    apply (dealloc_frame keeps) in E; [| done]. etransitivity; [| exact E]. by eapply fr_worker.
  - by eapply (messages_frame keeps).
Qed.

Lemma same_resolves s s' w pid fd :
  same s s' -> getFileObjForFd w pid fd s' = getFileObjForFd w pid fd s.
Proof.
  intros [E _]. specialize (E (msgs s)). injection E as Ew _ _ _ _. unfold getFileObjForFd.
  assert (El : (wkey <$> workers s') !! w = (wkey <$> workers s) !! w) by by rewrite Ew.
  rewrite !lookup_fmap in El. destruct (workers s' !! w), (workers s !! w); try done.
  cbn in *. by injection El as _ ->.
Qed.

Lemma getInode_keeps p ino d s q s' r pid fd fo :
  inodes s !! p = None -> getInode p ino d s = Ok (q, s') -> open_at s r pid fd fo -> open_at s' r pid fd fo.
Proof.
  intros Hp E Ho. unfold getInode in E. run_in E. destruct (inodeMap _ !! ino); [by injection E as _ <- |].
  case_if_in E; [case_match; [by injection E as _ <- | done] |]. injection E as _ <-.
  destruct Ho as (j & Hj & Hf). exists j. split; [| done]. cbn. rewrite lookup_insert_ne; [done | congruence].
Qed.

(** C7. A descriptor stays open, on the same file, whatever happens next, unless it is closed
    or its application ends; what happens next may also be an [open] by the primary of an inode
    that it does not own. *)
Theorem descriptor_stays_open s o s' p pid fd fo :
  reachable s -> exec_op o s = Ok s' -> allowed o s -> ~ ends o pid fd ->
  open_at s p pid fd fo -> open_at s' p pid fd fo.
Proof.
  intros HS%reachable_ok E Hal Hn Ho.
  destruct o; try exact (keeps_open _ _ _ _ _ _ (plain_keeps _ _ _ E I) Ho); cbn [exec_op ends] in E, Hn.
  - destruct Hal as (Hp & _). apply res_bind_ok in E as ([q s1] & E & [= <-]). by eapply getInode_keeps.
  - destruct Hal as (Hp & _). apply res_bind_ok in E as ([q s1] & Eg & E).
    apply res_bind_ok in E as (s2 & Er%recordInProgressFsReq_same%same_keeps & E).
    eapply openCompletion_keeps; [exact E |]. eapply keeps_open; [exact Er | by eapply getInode_keeps].
  - unfold ownerProcessPathReq in E. destruct perm.
    + run_in E. destruct (inodeMap x !! i_no x0).
      * run_in E. apply recordInProgressFsReq_same, same_keeps in E2. eapply keeps_open in Ho; [| exact E2].
        destruct k; [by eapply openCompletion_keeps | by injection E as <-].
      * eapply keeps_open; [apply same_keeps; by eapply unknownPath_same | done].
    + eapply keeps_open; [apply same_keeps; by eapply unknownPath_same | done].
    + by injection E as <-.
  - unfold ownerProcessFdReq in E. destruct (getFileObjForFd w pid0 fd0 s) as [fo' |] eqn:Hg.
    + run_in E. match goal with Hx : recordInProgressFsReq _ _ _ _ = Ok ?a |- _ => rename a into s1;
        apply recordInProgressFsReq_same in Hx as Hsame end.
      eapply keeps_open in Ho; [| by apply same_keeps]. destruct k; [| by injection E as <-].
      eapply processClose_keeps; [by eapply same_SINV | | exact E | naive_solver | done].
      by rewrite (same_resolves _ _ _ _ _ Hsame).
    + eapply keeps_open; [apply same_keeps; by eapply unknownFd_same | done].
  - eapply exit_keeps; [exact E | congruence | done].
Qed.

(** C8. The reference count of an inode is the number of its open descriptors, so that an
    unlinked file keeps its blocks as long as one is open: its deallocation is put off to the
    last close. *)
Theorem unlinked_file_kept_while_open s w p i pid fd fo :
  reachable s -> inodes s !! p = Some i ->
  (noAppReferring i = true <-> forall pid fd, fd_at (appFdMap i) pid fd = None) /\
  (open_at s p pid fd fo ->
   OwnerDeallocResources (ProcessReassignmentCtx exec_fuel) w p s = Ok (put_inode p (set_onClose true i) s)).
Proof.
  intros [HI _]%reachable_ok Hp. pose proof (fi_ref _ _ (I_fd _ _ HI) p _ (view_lookup_i _ _ _ _ Hp)) as Hr.
  cbn in Hr. unfold noAppReferring.
  assert (Hz : ref i = 0 <-> forall pid fd, fd_at (appFdMap i) pid fd = None).
  { rewrite Hr. split.
    - intros Hz a b. assert (E : fds (appFdMap i) = ∅) by (apply map_size_empty_iff; lia).
      by rewrite <- fds_at, E, lookup_empty.
    - intros Hn. assert (E : fds (appFdMap i) = ∅); [| by rewrite E, map_size_empty].
      apply map_eq. intros [a b]. by rewrite fds_at, Hn, lookup_empty. }
  split; [by rewrite Z.eqb_eq |]. intros (j & Hj & Hf). rewrite Hp in Hj. injection Hj as <-.
  unfold OwnerDeallocResources. rewrite (proj2 (get_inode_ok _ _ _) Hp). cbn [res_bind].
  unfold noAppReferring. destruct (ref i =? 0) eqn:E; [| done]. b2p.
  apply Hz with (pid := pid) (fd := fd) in E. congruence.
Qed.

(** What the map of the primary says of an inode that is not in its table. *)
Definition in_transfer (s : System) (p : Z) : Prop :=
  exists u c, c ∈ msgs s u /\ ptr c = p /\ state c <> kOldOwnerExportSuccessNotification.
Definition last_owner (s : System) (p ino w : Z) : Prop :=
  (exists y, workers s !! w = Some y /\ inodeMap y !! ino = Some p) \/
  exists c, c ∈ msgs s kMasterWidConst /\ ptr c = p /\ exporter c = w /\
            state c = kPrimaryRequestNewOwnerImport.

Lemma entry_cases s p i w :
  SINV None s -> inodes s !! p = Some i -> getInodeOwner (i_no i) s = w -> w <> kMasterWidConst ->
  (w = -1 /\ in_transfer s p) \/ (w <> -1 /\ last_owner s p (i_no i) w).
Proof.
  intros HS Hp Ew Hw. destruct (stage_of _ _ _ HS Hp) as (loc & to & l & Hst & Hpl).
  assert (Hin : forall c, c ∈ l -> c ∈ msgs s to /\ ptr c = p /\ state c <> kOldOwnerExportSuccessNotification).
  { intros c Hc. pose proof (pl_msgs _ _ _ _ _ _ Hpl to) as Hab. rewrite decide_True in Hab by done.
    cbn [v_msgs view_of] in Hab. rewrite <- Hab in Hc. apply elem_about in Hc. done. }
  assert (Hent : forall u, owner_entry u = inodeToOwnerMap s !! i_no i -> u = w).
  { intros u Hu. unfold getInodeOwner in Ew. rewrite <- Hu in Ew. unfold owner_entry in Ew.
    case_if_in Ew; cbn in Ew; congruence. }
  assert (Hm1 : Some (-1) = inodeToOwnerMap s !! i_no i -> w = -1).
  { intros Hu. unfold getInodeOwner in Ew. by rewrite <- Hu in Ew. }
  inversion Hst as [u Eu Em Eo Et El | u c Hc1 Hc2 Eu Em Eo Et El | u c Hc1 Hc2 Hc3 Hc4 Eu Em Eo Et El
    | u c0 c Hc1 Hc2 Hc3 Hc4 Hc5 Hc6 Eu Em Eo Et El | d c Hc1 Hc2 Hc3 Eu Em Eo Et El].
  - right. pose proof (Hent _ Eo) as Hu. assert (loc = Some w) as -> by congruence.
    destruct (placed_at _ _ _ _ _ _ Hpl) as (y & Hy & Hm).
    split; [| left; eauto]. intros Hn1. pose proof (pay_pos _ (I_pay _ _ (proj1 HS))) as Hn. cbn in Hn.
    unfold kUnknownManageWorkerId in Hn. by rewrite lookup_fmap, <- Hn1, Hy in Hn.
  - left. split; [auto |]. exists to, c. apply Hin. subst l. left.
  - pose proof (Hent _ Eo) as Hu. destruct (Hin c) as (Hc & Hpc & Hold); [subst l; left |].
    destruct (decide (w = -1)); [left; split; [done |]; by exists to, c |].
    right. split; [done |]. right. exists c. rewrite <- Et in Hc. split_and!; [done | done | congruence | done].
  - left. split; [auto |]. exists to, c. apply Hin. subst l. right. left.
  - left. split; [auto |]. exists to, c. apply Hin. subst l. left.
Qed.

(** C12. The primary sends a request on the path of an inode that it does not have towards its
    owner, and never fails: the answer says that the inode is being moved, or names a worker
    that has the inode or has just given it away. *)
Theorem path_request_routed s k pid p i x req :
  reachable s -> workers s !! kMasterWidConst = Some x -> inodes s !! p = Some i ->
  inodeMap x !! i_no i = None ->
  exists ret, ownerProcessPathReq k kMasterWidConst pid (OK p) req s = Ok (answer req ret s) /\
    ((ret = FS_REQ_ERROR_INODE_IN_TRANSFER /\ in_transfer s p) \/
     exists w, w <> kMasterWidConst /\ ret = redirect w /\ last_owner s p (i_no i) w).
Proof.
  intros HS%reachable_ok Hx Hp Hno. pose proof (primary_lacks _ _ _ _ _ HS Hx Hp Hno) as Hown.
  unfold ownerProcessPathReq. rewrite (proj2 (get_worker_ok _ _ _) Hx), (proj2 (get_inode_ok _ _ _) Hp).
  cbn [res_bind]. rewrite Hno. unfold ownerHandleUnknownPathReq. cbn [negb Z.eqb kMasterWidConst].
  rewrite (proj2 (get_inode_ok _ _ _) Hp). cbn [res_bind]. unfold primaryRouteToOwner.
  rewrite (proj2 (Z.eqb_neq _ _) Hown). cbn [negb check res_bind].
  destruct (entry_cases s p i _ HS Hp eq_refl Hown) as [[E Ht] | [E Ho]].
  - rewrite E. eexists. split; [done |]. by left.
  - rewrite (proj2 (Z.eqb_neq _ _) E). eexists. split; [done |]. right. eauto.
Qed.

End Theorems.

End Serving.
