(* ===== verification/Progress.v ===== *)
(** The messages between workers are all handled, and the moves of inodes complete.

    A message about a move never fails at its receiver ([reassignment_handled]); handling a
    message makes the messages that remain lighter ([messages_drain]), so that after finitely
    many steps none is left; and then every inode is at its owner, as the primary knows
    ([settled_ownership]). *)

From Stdlib Require Import ZArith List Bool Lia.
From stdpp Require Import base gmap list.
From S2P Require Import Prelude Unordered Layout InodeLog BlockBuf Alloc Ownership Transfer Descriptors Serving.
Import ListNotations.
Open Scope Z_scope.

Module Progress.
Import Layout BlockBuf Ownership Transfer Descriptors Serving.

(** ** The weight of the messages *)

(** How many messages, at most, are still to come of one, itself included. *)
Definition rank (st : State) : Z :=
  match st with
  | kOwnerExportThroughPrimary => 5
  | kPrimaryRequestNewOwnerImport => 4
  | kNewOwnerImport => 3
  | kPrimaryImportSuccessNotification => 2
  | kOldOwnerExportSuccessNotification => 1
  end.

Definition weight_msg (m : FsProcMessage) : Z :=
  match m with kReassignment c => rank (state c) | kOwnerUnlinkInode _ => 5 end.

Definition weight_ring (q : list FsProcMessage) : Z := foldr (fun m n => weight_msg m + n) 0 q.

Definition weight (s : System) : Z := map_fold (fun _ q n => weight_ring q + n) 0 (rings s).

Lemma weight_ring_snoc q m : weight_ring (q ++ [m]) = weight_ring q + weight_msg m.
Proof. unfold weight_ring. induction q as [| m' q IH]; cbn [foldr app] in *; lia. Qed.

Lemma weight_insert (r : gmap Z (list FsProcMessage)) d q q' :
  r !! d = Some q ->
  map_fold (fun _ q n => weight_ring q + n) 0 (<[d := q']> r) + weight_ring q =
    map_fold (fun _ q n => weight_ring q + n) 0 r + weight_ring q'.
Proof.
  intros Hd. set (f := fun (_ : Z) q n => weight_ring q + n).
  assert (Hf : forall m x (y : list FsProcMessage), m !! x = None ->
    map_fold f 0 (<[x := y]> m) = weight_ring y + map_fold f 0 m).
  { intros m x y Hm. rewrite map_fold_insert_L; [done | | done]. intros. unfold f. lia. }
  rewrite <- (insert_delete_eq r d), (Hf _ _ _ (lookup_delete_eq r d)).
  rewrite <- (insert_delete_id r d q Hd) at 2. rewrite (Hf _ _ _ (lookup_delete_eq r d)). lia.
Qed.

Lemma weight_send d m s s' : send_message d m s = Ok s' -> weight s' = weight s + weight_msg m.
Proof.
  unfold send_message. destruct (rings s !! d) as [q |] eqn:E; [| done]. intros [= <-].
  unfold weight. cbn [rings set_rings]. pose proof (weight_insert (rings s) d q (q ++ [m]) E).
  rewrite weight_ring_snoc in *. lia.
Qed.

Lemma weight_same s s' : rings s' = rings s -> weight s' = weight s.
Proof. intros E. unfold weight. by rewrite E. Qed.

Section Weights.
Context `{UIter} `{SIter}.

(** The deallocation with which an unlinked inode is moved stays at its new owner. *)
Definition stays (c : Ctx) (s : System) : Prop :=
  newOwnerCallback c = Some DeallocResources -> forall i, inodes s !! ptr c = Some i ->
  best (data i) = Ok (importer c).

Lemma importInode_rings w e s s' :
  importInode w e s = Ok s' -> rings s' = rings s /\ inodes s' = inodes s.
Proof. unfold importInode. intros E. run_in E. by injection E as <-. Qed.

Lemma weight_callback exec w cb c s s' :
  (cb = Some DeallocResources -> forall i, inodes s !! ptr c = Some i -> best (data i) = Ok w) ->
  run_callback exec w cb c s = Ok s' -> weight s' = weight s.
Proof.
  intros Hb E. apply weight_same. destruct (decide (cb = Some DeallocResources)) as [-> | Hn];
    [| by eapply callback_same].
  apply dealloc_cases in E as (i & Hi & [(b & Eb & Hne & _) | (Er & _)]); [| done].
  rewrite (Hb eq_refl i Hi) in Eb. by injection Eb as <-.
Qed.

(** Handling a message adds less than its own weight. *)
Lemma weight_reassignment f w c s s' :
  oldOwnerCallback c <> Some DeallocResources -> (carries c -> stays c s) ->
  (state c = kNewOwnerImport -> importer c = w) ->
  ProcessReassignmentCtx f w c s = Ok s' -> weight s' <= weight s + rank (state c) - 1.
Proof.
  revert w c s s'. induction f as [| f IH]; intros w c s s' Hold Hstay Himp E; [done |].
  cbn [ProcessReassignmentCtx] in E. unfold process_ctx in E.
  assert (Hsend : forall d st s1, rank st < rank (state c) -> (carries (with_state st c) -> stays c s1) ->
    (st = kNewOwnerImport -> importer c = d) ->
    SendMessageOrExecute (ProcessReassignmentCtx f) w d (with_state st c) s1 = Ok s' ->
    weight s' <= weight s1 + rank (state c) - 1).
  { intros d st s1 Hr Hst Hd Es. unfold SendMessageOrExecute in Es. case_if_in Es.
    - apply IH in Es; [cbn in Es; lia | done | done |]. intros E1. transitivity d; [exact (Hd E1) | done].
    - apply weight_send in Es. cbn in Es. lia. }
  destruct (state c) eqn:Est; [done | | | |]; cbn [rank] in *.
  - unfold PrimaryRequestNewOwnerImport in E. run_in E.
    assert (Hsame : forall i', data i' = data x0 -> stays c (put_inode (inode (exported_inode c)) i' s)).
    { intros i' Ed Hcb j. cbn. unfold ptr. rewrite lookup_insert_eq. intros [= <-]. rewrite Ed.
      apply Hstay; [by left | done |]. done. }
    apply Hsend in E; [done | done | intros _ | done].
    match goal with Hx : setManageWorkerId _ _ _ = _ |- _ => unfold setManageWorkerId in Hx; case_if_in Hx; injection Hx as <- <- end;
      apply Hsame; done.
  - unfold NewOwnerImport in E. run_in E.
    match goal with Hx : importInode _ _ _ = Ok ?a |- _ => rename a into s1;
      apply importInode_rings in Hx as [Er1 Ei1] end.
    match goal with Hx : (if _ then _ else Ok s1) = Ok ?a |- _ => rename a into s2, Hx into Hu;
      assert (Hs2 : rings s2 = rings s /\ inodes s2 = inodes s) end.
    { case_if_in Hu; run_in Hu; injection Hu as <-; by rewrite <- Er1, <- Ei1. }
    destruct Hs2 as [Er2 Ei2].
    match goal with Hx : run_callback _ _ _ _ _ = Ok ?a |- _ => rename a into s3, Hx into Hcb;
      assert (Hs3 : weight s3 = weight s2) end.
    { eapply weight_callback; [| exact Hcb]. intros Ecb i Hi. rewrite Ei2 in Hi. rewrite <- (Himp eq_refl).
      by apply (Hstay (or_intror Est) Ecb). }
    rewrite <- (weight_same _ _ Er2), <- Hs3. eapply Hsend; [| | | exact E]; [done | by intros [|] | done].
  - unfold PrimaryImportSuccessNotification in E. run_in E. apply Hsend in E; [exact E | done | by intros [|] | done].
  - unfold OldOwnerExportSuccessNotification in E. apply weight_callback in E; [lia | done].
Qed.

Lemma exportInode_rings w ino s o s' : exportInode w ino s = Ok (o, s') -> rings s' = rings s.
Proof.
  unfold exportInode. intros E. run_in E. destruct (inodeMap x !! ino); [| by injection E as _ <-].
  run_in E. by injection E as _ <-.
Qed.

(** Moving an inode away adds one message. *)
Lemma weight_export f w ino d oldcb newcb s s' :
  oldcb <> Some DeallocResources ->
  (newcb = Some DeallocResources -> forall x p i, workers s !! w = Some x ->
     inodeMap x !! ino = Some p -> inodes s !! p = Some i -> best (data i) = Ok d) ->
  OwnerExportThroughPrimary (ProcessReassignmentCtx f) w ino d oldcb newcb s = Ok s' ->
  weight s' <= weight s + 4.
Proof.
  intros Hold Hbest. unfold OwnerExportThroughPrimary. intros E. run_in E. rename s0 into s1.
  pose proof (exportInode_rings _ _ _ _ _ E1) as Er. destruct o as [e |]; [| done]. run_in E.
  match type of E with SendMessageOrExecute _ _ _ ?cc ?ss = _ => set (c := cc) in E; set (s2 := ss) in E end.
  assert (Hs2 : weight s2 = weight s /\ inodes s2 = inodes s1)
    by (rewrite <- (weight_same _ _ Er); unfold s2; by case_match).
  destruct Hs2 as [Hw Ei]. unfold SendMessageOrExecute in E. case_if_in E.
  - apply weight_reassignment in E; [cbn in E; lia | done | | done]. intros _ Hcb j. rewrite Ei.
    clear - E1 Hbest Hcb. unfold exportInode in E1. run_in E1.
    destruct (inodeMap x !! ino) as [p |] eqn:Em; [| done]. run_in E1. injection E1 as <- <-. cbn.
    unfold ptr. cbn. rewrite lookup_insert_eq. intros [= <-].
    match goal with Hx : setManageWorkerUnknown _ _ = _ |- _ =>
      unfold setManageWorkerUnknown in Hx; case_if_in Hx; injection Hx as <- <- end; cbn; by eapply Hbest.
  - apply weight_send in E. cbn in E. lia.
Qed.

Lemma weight_dealloc ex f w p s s' :
  SINV ex s -> OwnerDeallocResources (ProcessReassignmentCtx f) w p s = Ok s' -> weight s' <= weight s + 4.
Proof.
  intros HS E. apply dealloc_cases in E as (i & Hp & [(b & Hb & _ & E) | (Er & _)]).
  - apply weight_export in E; [done | done |]. intros _ x q j Hx Hm Hq.
    rewrite (table_unique _ _ _ _ _ _ _ HS Hx Hp Hm) in Hq. congruence.
  - rewrite (weight_same _ _ Er). lia.
Qed.

Lemma weight_unlink ex f w ino o s s' :
  SINV ex s -> OwnerUnlinkInode (ProcessReassignmentCtx f) w ino o s = Ok s' -> weight s' <= weight s + 4.
Proof.
  intros HS E. unfold OwnerUnlinkInode in E. run_in E.
  destruct (match o with Some p => Some p | None => inodeMap x !! ino end) as [p |]; [| done].
  run_in E. match goal with Hx : inodes s !! p = Some _ |- _ => rename Hx into Hp end.
  case_if_in E; [done |]. case_if_in E.
  - eapply weight_dealloc in E; [exact E |]. eapply same_SINV; [| exact HS].
    eapply same_inode; [exact Hp | apply ikey_nlink].
  - injection E as <-. change (weight s <= weight s + 4). lia.
Qed.

(** C9. Handling a message of a ring makes the messages in all rings lighter, so that the
    messages of any reachable state run out, whatever the order in which the workers take
    them. *)
Theorem messages_drain s w m q s' :
  reachable s -> rings s !! w = Some (m :: q) -> processInterWorkerMessages w s = Ok s' ->
  weight s' < weight s.
Proof.
  intros HS%reachable_ok Er E. unfold processInterWorkerMessages in E. rewrite Er in E.
  set (s1 := set_rings (<[w := q]> (rings s)) s) in E.
  assert (Hw : weight s = weight s1 + weight_msg m).
  { pose proof (weight_insert (rings s) w (m :: q) q Er) as Hi. unfold weight. cbn [rings s1 set_rings].
    change (weight_ring (m :: q)) with (weight_msg m + weight_ring q) in Hi. lia. }
  destruct m as [c | ino]; cbn [onMessage] in E.
  - assert (Hin : c ∈ msgs s w) by (unfold msgs; rewrite Er; left). destruct HS as [HI Hs].
    destruct (inv_msgs _ (I_place _ _ HI) w c Hin) as [_ Hold].
    apply weight_reassignment in E; [cbn in *; lia | done | |].
    + intros Hcar Hcb i Hi.
      exact (pay_best _ (I_pay _ _ HI) w c _ Hin Hcar (view_lookup_i s _ _ _ Hi) Hcb).
    + intros Hst. destruct (inv_msgs _ (I_place _ _ HI) w c Hin) as [[[n k] Hn] _].
      destruct (inv_stage _ (I_place _ _ HI) _ _ _ Hn) as (loc & to & l & Hstg & Hpl).
      assert (Hc : c ∈ about (ptr c) (msgs s w)) by (apply elem_about; split_and!; [done | done | congruence]).
      pose proof (pl_msgs _ _ _ _ _ _ Hpl w) as Hab. cbn [v_msgs view_of] in Hab. rewrite Hab in Hc. clear Hab Hpl.
      case_decide as Ew; [| by apply elem_of_nil in Hc]. subst to.
      inversion Hstg; subst; repeat (apply elem_of_cons in Hc as [<- | Hc]); try (by apply elem_of_nil in Hc); congruence.
  - apply (weight_unlink None) in E; [cbn in *; lia |]. eapply SINV_rings; [done | done |].
    intros u. unfold msgs. cbn [rings s1 set_rings]. destruct (decide (u = w)) as [-> |].
    + by rewrite Er, lookup_insert_eq.
    + by rewrite lookup_insert_ne.
Qed.

End Weights.

(** ** No message fails *)

Section Handling.
Context `{UIter} `{SIter}.

Lemma send_can d m s : is_Some (rings s !! d) -> exists s', send_message d m s = Ok s'.
Proof. intros [q Hq]. unfold send_message. rewrite Hq. eauto. Qed.

Lemma old_can f w c s :
  state c = kOldOwnerExportSuccessNotification -> oldOwnerCallback c <> Some DeallocResources ->
  exists s', ProcessReassignmentCtx (S f) w c s = Ok s'.
Proof.
  intros Hst Hcb. cbn. unfold process_ctx. rewrite Hst. unfold OldOwnerExportSuccessNotification, run_callback.
  destruct (oldOwnerCallback c) as [[| |] |]; eauto. done.
Qed.

Lemma success_can f c s :
  state c = kPrimaryImportSuccessNotification -> oldOwnerCallback c <> Some DeallocResources ->
  is_Some (inodes s !! ptr c) -> is_Some (rings s !! exporter c) ->
  exists s', ProcessReassignmentCtx (S (S f)) kMasterWidConst c s = Ok s'.
Proof.
  intros Hst Hcb [i Hi] Hr. unfold ptr in Hi. remember (S f) as f' eqn:Ef. cbn [ProcessReassignmentCtx]. unfold process_ctx. rewrite Hst.
  unfold PrimaryImportSuccessNotification. cbn [Z.eqb kMasterWidConst check res_bind].
  rewrite (proj2 (get_inode_ok _ _ _) Hi). cbn [res_bind]. unfold SendMessageOrExecute.
  case_match; [subst f'; by apply old_can | by apply send_can].
Qed.

(** The blocks that come with the inode fit in the buffer of the worker. *)
Definition accepts (c : Ctx) (x : Worker) (ino : Z) (s : System) : Prop :=
  block_buffers (exported_inode c) = ∅ \/
  exists b, installBufferItemsOfIndex ino (block_buffers (exported_inode c)) (items s) (dataBlockBuf x) = Ok (0, b).

Lemma importInode_can w c x i s :
  workers s !! w = Some x -> inodes s !! ptr c = Some i -> mngWid i = w -> accepts c x (i_no i) s ->
  (in_exporter_dirty_set (exported_inode c) = true -> isDirty_ i = true) ->
  exists s', importInode w (exported_inode c) s = Ok s'.
Proof.
  intros Hx Hi Hm Ha Hd. unfold ptr in Hi. unfold importInode. rewrite (proj2 (get_worker_ok _ _ _) Hx). cbn [res_bind].
  rewrite (proj2 (get_inode_ok _ _ _) Hi). cbn [res_bind]. rewrite Hm, Z.eqb_refl. cbn [check res_bind].
  assert (E : negb (in_exporter_dirty_set (exported_inode c)) || isDirty_ i = true)
    by (destruct (in_exporter_dirty_set _); [by rewrite Hd | done]).
  rewrite E. cbn [check res_bind]. destruct Ha as [-> | [b Hb]].
  - rewrite bool_decide_true by done. cbn. eauto.
  - case_match; [| cbn; eauto].
    assert (Eb : forall y, dataBlockBuf y = dataBlockBuf x -> installBufferItemsOfIndex (i_no i)
      (block_buffers (exported_inode c)) (items s) (dataBlockBuf y) = Ok (0, b)) by (by intros y ->).
    rewrite Eb; [cbn; eauto |]. by destruct (inodeMap x !! i_no i).
Qed.

(** What the receiver of an import relies on. *)
Record importable (c : Ctx) (w : Z) (s : System) : Prop := mk_importable {
  im_x : exists x i, workers s !! w = Some x /\ inodes s !! ptr c = Some i /\ mngWid i = w /\
    accepts c x (i_no i) s /\ (in_exporter_dirty_set (exported_inode c) = true -> isDirty_ i = true) /\
    (w = kMasterWidConst -> is_Some (unsafe_reassigned_inodes s !! i_no i));
  im_w : importer c = w;
  im_new : newOwnerCallback c <> Some DeallocResources;
  im_old : oldOwnerCallback c <> Some DeallocResources;
  im_rings : is_Some (rings s !! kMasterWidConst) /\ is_Some (rings s !! exporter c)
}.

Lemma import_can f w c s :
  state c = kNewOwnerImport -> importable c w s ->
  exists s', ProcessReassignmentCtx (S (S (S f))) w c s = Ok s'.
Proof.
  intros Hst [(x & i & Hx & Hi & Hm & Ha & Hd & Hu) Hw Hnew Hold [Hr0 Hre]].
  remember (S (S f)) as f' eqn:Ef. cbn [ProcessReassignmentCtx]. unfold process_ctx. rewrite Hst.
  unfold NewOwnerImport. destruct (importInode_can w c x i s Hx Hi Hm Ha Hd) as [s1 E1].
  rewrite E1. cbn [res_bind]. destruct (importInode_rings _ _ _ _ E1) as [Er1 Ei1].
  destruct (importInode_view _ _ _ _ E1) as (_ & _ & _ & _ & _ & _ & _ & Eu & _).
  unfold importer in Hw. rewrite Hw.
  assert (H1 : exists s2, rings s2 = rings s /\ inodes s2 = inodes s /\
    (if w =? kMasterWidConst then
       let! _ := check (w =? kMasterWidConst) in
       let! i := get_inode (inode (exported_inode c)) s1 in
       let! _ := check (bool_decide (is_Some (unsafe_reassigned_inodes s1 !! i_no i))) in
       Ok (set_primary (inodeToOwnerMap s1) (recentlyReassignedAppFdToInodes s1)
             (delete (i_no i) (unsafe_reassigned_inodes s1)) s1)
     else Ok s1) = Ok s2).
  { destruct (w =? kMasterWidConst) eqn:Ew; [| eauto]. b2p. cbn [check res_bind].
    unfold ptr in Hi. rewrite <- Ei1 in Hi. rewrite (proj2 (get_inode_ok _ _ _) Hi). cbn [res_bind]. rewrite Eu.
    rewrite bool_decide_true by auto. cbn [check res_bind]. eexists. split_and!; [| | done]; done. }
  destruct H1 as (s2 & Er2 & Ei2 & ->). cbn [res_bind].
  assert (H3 : exists s3, rings s3 = rings s /\ inodes s3 = inodes s /\
    run_callback (ProcessReassignmentCtx f') w (newOwnerCallback c) c s2 = Ok s3).
  { unfold run_callback. destruct (newOwnerCallback c) as [[| |] |]; [| eauto | done | eauto].
    eexists. split_and!; [| | done]; done. }
  destruct H3 as (s3 & Er3 & Ei3 & ->). cbn [res_bind]. unfold SendMessageOrExecute. case_if.
  - b2p. subst f'. rewrite Heqb. apply success_can; [done | done | |]; [rewrite Ei3; by exists i | by rewrite Er3].
  - apply send_can. by rewrite Er3.
Qed.

Lemma request_can f c s i :
  state c = kPrimaryRequestNewOwnerImport -> inodes s !! ptr c = Some i ->
  mngWid i = kUnknownManageWorkerId -> is_Some (rings s !! importer c) ->
  (importer c = kMasterWidConst -> importable (with_state kNewOwnerImport c) kMasterWidConst
     (put_inode (ptr c) (set_mngWid kMasterWidConst i) s)) ->
  exists s', ProcessReassignmentCtx (S (S (S (S f)))) kMasterWidConst c s = Ok s'.
Proof.
  intros Hst Hi Hm Hr Him. unfold ptr in Hi. remember (S (S (S f))) as f' eqn:Ef. cbn [ProcessReassignmentCtx]. unfold process_ctx.
  rewrite Hst. unfold PrimaryRequestNewOwnerImport. cbn [Z.eqb kMasterWidConst check res_bind].
  rewrite (proj2 (get_inode_ok _ _ _) Hi). cbn [res_bind]. unfold setManageWorkerId.
  rewrite Hm, Z.eqb_refl, andb_false_r. cbn [check res_bind]. unfold SendMessageOrExecute. case_if.
  - b2p. subst f'. apply import_can; [done |].
    destruct (Him (eq_sym Heqb)) as [(x & j & ?) ? ? ? ?]. unfold importer in *. rewrite <- Heqb.
    split; try done. exists x, j. done.
  - by apply send_can.
Qed.

End Handling.

(** ** The theorems *)

Section Theorems.
Context `{UIter} `{SIter}.

(** The worker runs. *)
Definition up (s : System) (u : Z) : Prop := is_Some (workers s !! u) /\ is_Some (rings s !! u).

Lemma pop_INV s w c q :
  SINV None s -> rings s !! w = Some (kReassignment c :: q) ->
  INV None (view_of (set_rings (<[w := q]> (rings s)) s) (push w c (msgs (set_rings (<[w := q]> (rings s)) s)))).
Proof.
  intros [HI _] Er. destruct (pop_view _ _ _ _ Er) as [Hv Hm]. rewrite Hv.
  apply (INV_msgs _ _ (push w c (msgs (set_rings (<[w := q]> (rings s)) s)))) in HI; [done | |].
  - intros p u. cbn. by rewrite Hm.
  - intros u c'. rewrite <- Hm. by apply (inv_msgs _ (I_place _ _ HI) u).
Qed.

(** C10. A message about a move never fails at its receiver, in any reachable state, when the
    workers it names run and the buffer of the new owner takes the blocks of the inode; moves
    made to deallocate an unlinked inode on the worker that has most of its blocks, whose
    callback goes on with the deallocation, are left out. *)
Theorem reassignment_handled s w c q :
  reachable s -> rings s !! w = Some (kReassignment c :: q) ->
  up s kMasterWidConst -> up s (importer c) -> up s (exporter c) ->
  newOwnerCallback c <> Some DeallocResources ->
  (forall x i, workers s !! importer c = Some x -> inodes s !! ptr c = Some i -> accepts c x (i_no i) s) ->
  exists s', processInterWorkerMessages w s = Ok s'.
Proof.
  intros HS%reachable_ok Er Hup0 Hupi Hupe Hnew Hacc. pose proof (pop_INV s w c q HS Er) as HI.
  assert (Hin : c ∈ msgs s w) by (unfold msgs; rewrite Er; left). destruct HS as [HI0 Hs].
  destruct (inv_msgs _ (I_place _ _ HI0) w c Hin) as [Hc Hold]. apply view_core in Hc as [i Hi].
  apply Hs in Hin as Hsent. unfold sent in Hsent.
  unfold processInterWorkerMessages. rewrite Er. cbn [onMessage]. set (s1 := set_rings _ s) in *.
  assert (Hr : forall u, is_Some (rings s !! u) -> is_Some (rings s1 !! u)).
  { intros u Hu. unfold s1. cbn. rewrite lookup_insert. case_decide; [eauto | done]. }
  pose proof (view_lookup_i s1 (push w c (msgs s1)) (ptr c) i Hi) as Hpi.
  pose proof (in_hand_stage None _ HI w c (msgs s1) (ikey i) eq_refl Hpi) as Hstage.
  destruct (state c) eqn:Hst.
  - destruct Hstage as (loc & l & Hstg & _); [done |]. inversion Hstg; congruence.
  - destruct Hsent as [-> _].
    destruct (request_facts None _ HI c (msgs s1) (ikey i) eq_refl Hpi Hst) as (Em & _ & Hpl & _).
    apply (request_can 1 c s1 i); [done | done | done | by apply Hr, Hupi |]. intros Eimp.
    destruct Hupi as [[x Hx] _]. split; [| done | done | done | split; apply Hr; [apply Hup0 | apply Hupe]].
    exists x, (set_mngWid kMasterWidConst i). rewrite Eimp in Hx. split_and!; try done.
    + cbn. by rewrite lookup_insert_eq.
    + apply (Hacc x i); [by rewrite Eimp | done].
    + intros Hd. exact (pay_flag _ (I_pay _ _ HI0) kMasterWidConst c _ Hin (or_introl Hst) (view_lookup_i s _ _ _ Hi) Hd).
    + intros _. pose proof (pl_unsafe _ _ _ _ _ _ Hpl) as Hu. rewrite decide_False in Hu by done.
      eexists. exact Hu.
  - destruct Hupi as [[x Hx] _].
    destruct Hstage as (loc & l & Hstg & _); [done |].
    assert (Hw : mngWid i = w /\ importer c = w) by (inversion Hstg; subst; try congruence; done).
    destruct Hw as [Hm Hw]. apply (import_can 2); [done |].
    split; [| done | done | done | split; apply Hr; [apply Hup0 | apply Hupe]].
    exists x, i. rewrite Hw in Hx. split_and!; try done.
    + apply (Hacc x i); [by rewrite Hw | done].
    + intros Hd. exact (pay_flag _ (I_pay _ _ HI0) w c _ Hin (or_intror Hst) (view_lookup_i s _ _ _ Hi) Hd).
  - destruct Hsent as [-> _]. apply (success_can 3); [done | done | by exists i | apply Hr, Hupe].
  - by apply old_can.
Qed.

(** C11. When no message about a move is left, in a reachable state, where the primary has
    opened after a lookup on the device only inodes it owned ([opens_own]): every inode in
    memory is in the table of its manager, the map of the primary names that worker, and it
    resolves all descriptors of the inode and no other descriptor to it. *)
Theorem settled_ownership s p i :
  reachable s -> (forall u, msgs s u = []) -> inodes s !! p = Some i ->
  getInodeOwner (i_no i) s = mngWid i /\
  (exists x, workers s !! mngWid i = Some x /\ inodeMap x !! i_no i = Some p) /\
  forall pid fd fo, fd_at (appFdMap i) pid fd = Some fo <-> 
    getFileObjForFd (mngWid i) pid fd s = Some fo /\ exists f, fobjs s !! fo = Some f /\ ip f = p.
Proof.
  intros HS%reachable_ok Hm Hp. destruct (stage_of _ _ _ HS Hp) as (loc & to & l & Hst & Hpl).
  assert (l = []) as ->.
  { pose proof (pl_msgs _ _ _ _ _ _ Hpl to) as Hab. rewrite decide_True in Hab by done.
    cbn [v_msgs view_of] in Hab. by rewrite Hm in Hab. }
  inversion Hst as [w Ew Em Eo Et | | | |]. subst w loc. destruct (placed_at _ _ _ _ _ _ Hpl) as (x & Hx & Ht).
  split_and!; [| eauto |].
  - unfold getInodeOwner. rewrite <- Eo. unfold owner_entry.
    destruct (mngWid i =? kMasterWidConst) eqn:E; [b2p; by rewrite E | done].
  - intros pid fd fo. split.
    + intros Hf. split; [by eapply resolved_by_owner |].
      destruct (fi_obj _ _ (I_fd _ _ (proj1 HS)) p _ pid fd fo (view_lookup_i _ _ _ _ Hp) Hf) as (f & ? & ? & _). eauto.
    + intros [Hg (f & Hf & Ep)].
      destruct (resolves _ _ _ _ _ HS Hg) as (y & q & j & f' & _ & Hq & _ & Hfd & _ & Hf' & Eq & _).
      rewrite Hf in Hf'. injection Hf' as <-. rewrite <- Eq, Ep, Hp in Hq. by injection Hq as <-.
Qed.

End Theorems.

(** ** Recursion *)

Section Fuel.
Context `{UIter} `{SIter}.

Lemma runs_get_worker w s : runs (get_worker w s).
Proof. unfold get_worker. by case_match. Qed.
Lemma runs_get_inode p s : runs (get_inode p s).
Proof. unfold get_inode. by case_match. Qed.
Lemma runs_get_fobj fo s : runs (get_fobj fo s).
Proof. unfold get_fobj. by case_match. Qed.
Lemma runs_get_item h i : runs (get_item h i).
Proof. unfold get_item. by case_match. Qed.
Lemma runs_send d m s : runs (send_message d m s).
Proof. unfold send_message. by case_match. Qed.
Lemma runs_load {A} (l : list A) i : runs (load l i).
Proof. unfold load. runs_tac. Qed.
Lemma runs_adjust n b : runs (adjustDirtyItemNum n b).
Proof. unfold adjustDirtyItemNum. runs_tac. Qed.
Lemma runs_find l n : runs (find_node l n).
Proof. unfold find_node. runs_tac. Qed.
Lemma runs_erase l n : runs (erase_node l n).
Proof. unfold erase_node. apply runs_bind; [apply runs_find | done]. Qed.
Hint Resolve runs_get_worker runs_get_inode runs_get_fobj runs_get_item runs_send runs_load
  runs_adjust runs_find runs_erase : ufs.

Lemma runs_split ino S h b : runs (splitBufferItemsByIndex ino S h b).
Proof.
  unfold splitBufferItemsByIndex. runs_tac. apply runs_foldM. intros b' x. unfold split_item. runs_tac.
Qed.

Lemma runs_install ino S h b : runs (installBufferItemsOfIndex ino S h b).
Proof.
  unfold installBufferItemsOfIndex. runs_tac. apply runs_foldM. intros [ds b'] x. unfold install_item. runs_tac.
Qed.

Lemma runs_release ino h b : runs (releaseUnlinkedInodeDirtyBlocks ino h b).
Proof.
  unfold releaseUnlinkedInodeDirtyBlocks. runs_tac. apply runs_foldM. intros [[n h'] b'] x. unfold unlink_item.
  runs_tac.
Qed.
Hint Resolve runs_split runs_install runs_release : ufs.

Lemma runs_export w ino s : runs (exportInode w ino s).
Proof. unfold exportInode, splitInodeDataBlockBufferSlot, setManageWorkerUnknown. runs_tac. Qed.

Lemma runs_import w e s : runs (importInode w e s).
Proof. unfold importInode. runs_tac. Qed.
Hint Resolve runs_export runs_import : ufs.

Lemma runs_count arr sz m l : runs (count_deallocs arr sz m l).
Proof. revert sz m l. induction arr; intros sz m l; cbn; runs_tac. Qed.
Lemma runs_local arr sz lo hi acc : runs (local_bitmaps arr sz lo hi acc).
Proof. revert sz acc. induction arr; intros sz acc; cbn; runs_tac. Qed.
Hint Resolve runs_count runs_local : ufs.

Section Exec.
Variable exec : Z -> Ctx -> System -> res System.

Lemma runs_sendOrExecute w d c s :
  (w = d -> runs (exec w c s)) -> runs (SendMessageOrExecute exec w d c s).
Proof. intros Hx. unfold SendMessageOrExecute. case_if; b2p; [by apply Hx | auto with ufs]. Qed.

(** The workers that handle a request for another worker do so with one call. *)
Hypothesis Hreq : forall w c s,
  state c = kPrimaryRequestNewOwnerImport -> importer c <> w -> runs (exec w c s).

Lemma runs_ownerExport w ino d o n s : runs (OwnerExportThroughPrimary exec w ino d o n s).
Proof.
  unfold OwnerExportThroughPrimary. destruct (d =? w) eqn:E; [done |]. b2p. cbn [negb check res_bind].
  runs_tac; apply runs_sendOrExecute; intros ->; by apply Hreq.
Qed.
Hint Resolve runs_ownerExport : ufs.

Lemma runs_dealloc w p s : runs (OwnerDeallocResources exec w p s).
Proof.
  unfold OwnerDeallocResources, CalculateWorkerWithMaximumDeallocs, OwnerEnsureLocalBitmapsInMem. runs_tac.
Qed.
Hint Resolve runs_dealloc : ufs.

Lemma runs_unlink w ino o s : runs (OwnerUnlinkInode exec w ino o s).
Proof. unfold OwnerUnlinkInode. runs_tac. Qed.

Lemma runs_callback w cb c s : runs (run_callback exec w cb c s).
Proof. unfold run_callback. runs_tac. Qed.

End Exec.

(** The calls that a message can take on one worker. *)
Definition depth (st : State) : nat :=
  match st with
  | kOwnerExportThroughPrimary => 1
  | kPrimaryRequestNewOwnerImport => 5
  | kNewOwnerImport => 4
  | kPrimaryImportSuccessNotification => 3
  | kOldOwnerExportSuccessNotification => 2
  end.

Lemma runs_reassignment f : forall w c s,
  (depth (state c) <= f)%nat \/ (state c = kPrimaryRequestNewOwnerImport /\ importer c <> w /\ (1 <= f)%nat) ->
  runs (ProcessReassignmentCtx f w c s).
Proof.
  induction f as [| f IH]; intros w c s Hf; [destruct Hf as [Hf | (_ & _ & Hf)]; [destruct (state c); cbn in Hf |]; lia |].
  cbn [ProcessReassignmentCtx]. unfold process_ctx.
  assert (Hreq : (1 <= f)%nat -> forall w c s, state c = kPrimaryRequestNewOwnerImport -> importer c <> w ->
    runs (ProcessReassignmentCtx f w c s)) by (intros; apply IH; auto).
  destruct (state c) eqn:Est; cbn [depth] in Hf.
  - done.
  - unfold PrimaryRequestNewOwnerImport, setManageWorkerId. runs_tac; apply runs_sendOrExecute; intros E;
      apply IH; left; cbn; destruct Hf as [Hf | (_ & Hne & _)]; try lia; by destruct Hne.
  - destruct Hf as [Hf | [? _]]; [| done]. unfold NewOwnerImport. runs_tac; try apply runs_callback; try (apply Hreq; lia);
      apply runs_sendOrExecute; intros _; apply IH; left; cbn; lia.
  - destruct Hf as [Hf | [? _]]; [| done]. unfold PrimaryImportSuccessNotification. runs_tac.
    apply runs_sendOrExecute; intros _; apply IH; left; cbn; lia.
  - destruct Hf as [Hf | [? _]]; [| done]. unfold OldOwnerExportSuccessNotification. apply runs_callback, Hreq. lia.
Qed.

Lemma runs_handler w c s : runs (ProcessReassignmentCtx exec_fuel w c s).
Proof. apply runs_reassignment. left. unfold exec_fuel. destruct (state c); cbn; lia. Qed.
Hint Resolve runs_handler runs_ownerExport runs_dealloc runs_unlink : ufs.

Lemma runs_fds pid fd i : runs (delFd pid fd i).
Proof. unfold delFd. runs_tac. Qed.
Lemma runs_del w req ino s : runs (delInProgressFsReq w req ino s).
Proof. unfold delInProgressFsReq. runs_tac. Qed.
Lemma runs_finish w req ino ret s : runs (finishFdReq w req ino ret s).
Proof. unfold finishFdReq. apply runs_bind; [apply runs_del | done]. Qed.
Lemma runs_record w req p s : runs (recordInProgressFsReq w req p s).
Proof. unfold recordInProgressFsReq. runs_tac. Qed.
Lemma runs_route req ino s : runs (primaryRouteToOwner req ino s).
Proof. unfold primaryRouteToOwner. runs_tac. Qed.
Lemma runs_i32 a b : runs (i32_add a b).
Proof. unfold i32_add. runs_tac. Qed.
Hint Resolve runs_fds runs_del runs_finish runs_record runs_route runs_i32 : ufs.

Lemma runs_open w pid p fl md fo req s : runs (openCompletion w pid p fl md fo req s).
Proof. unfold openCompletion, allocateFd, addFdMappingOnOpen. runs_tac. Qed.
Lemma runs_close w pid fo req s : runs (processClose w pid fo req s).
Proof. unfold processClose, delFdMappingOnClose. runs_tac. Qed.
Hint Resolve runs_open runs_close : ufs.

Lemma runs_exit w pid s : runs (closeAllFileDescriptors w pid s).
Proof.
  unfold closeAllFileDescriptors. runs_tac; apply runs_foldM.
  - intros [m s1] kv. unfold close_fd. runs_tac.
  - intros s1 kv. unfold dealloc_closed. runs_tac.
Qed.

(** The handlers of the messages call each other at most five deep on one worker, so that
    no operation runs out of fuel: every operation returns or fails on a test of the code. *)
Theorem operations_terminate o s : exec_op o s <> Crash NoFuel.
Proof.
  change (runs (exec_op o s)). destruct o; cbn [exec_op].
  - unfold initNewApp. runs_tac.
  - unfold getInode. runs_tac.
  - unfold processOpen, getInode. runs_tac.
  - unfold ownerProcessPathReq, ownerHandleUnknownPathReq. runs_tac.
  - unfold ownerProcessFdReq, primaryHandleUnknownFdReq. runs_tac.
  - runs_tac.
  - apply runs_exit.
  - unfold writeFileInode. runs_tac.
  - unfold resetFileIndoeDirty. runs_tac.
  - runs_tac.
  - runs_tac.
  - runs_tac.
  - runs_tac.
  - unfold ProcessInodeReassignmentReq. runs_tac.
  - unfold PrimaryHandoffToOwner. runs_tac.
  - unfold bitmaps_read. runs_tac.
  - unfold processInterWorkerMessages, onMessage. runs_tac.
Qed.

End Fuel.

End Progress.
