(* ===== verification/OwnershipRuns.v ===== *)
(** Runs of the system of workers.

    Three workers serve one file: it is opened on the primary, written, and moved to worker 1
    and back.  The states on the way show that the theorems of [Serving] and [Progress] speak
    of states that occur; the runs at the end show what the code does when the primary
    opens a file that has moved away, and when a file is unlinked, closed or abandoned while
    it moves. *)

From Stdlib Require Import ZArith List Bool Lia.
From stdpp Require Import base gmap list.
From S2P Require Import Prelude Unordered Layout InodeLog BlockBuf Alloc Ownership Transfer Descriptors Serving Progress.
Import ListNotations.
Open Scope Z_scope.

Module OwnershipRuns.
Import Ownership Transfer Descriptors Serving Progress.

(** The iteration orders of the examples. *)
#[local] Existing Instance sorted_iter.
#[local] Existing Instance sorted_siter.

Definition run (l : list op) (s : System) : res System := foldM (fun s o => exec_op o s) l s.

Fixpoint allowed_run (l : list op) (s : System) : Prop :=
  match l with
  | [] => True
  | o :: l => (allowed o s /\ opens_own o s) /\ match exec_op o s with Ok s => allowed_run l s | Crash _ => False end
  end.

Lemma ops_reachable l s s' : reachable s -> allowed_run l s -> run l s = Ok s' -> reachable s'.
Proof.
  revert s. induction l as [| o l IH]; intros s Hs Ha E; [by injection E as <- |].
  cbn [allowed_run] in Ha. unfold run in E. cbn [foldM] in E. destruct Ha as [[Ho Hw] Ha].
  destruct (exec_op o s) as [s1 |] eqn:E1; [| done]. eapply (IH s1); [by eapply reach_step | done | done].
Qed.

Definition ex_buffer : BlockBuf.BlockBuffer := fst (BlockBuf.new_BlockBuffer 2 4096 0 0 false ∅).
Definition ex_worker : Worker := mk_worker ∅ ∅ ∅ ∅ ∅ ex_buffer true ∅ ∅ ∅ ∅ [].
Definition ex_start : System :=
  mk_sys {[0 := ex_worker; 1 := ex_worker; 2 := ex_worker]} ∅ ∅ ∅ ∅ ∅ ∅ {[0 := []; 1 := []; 2 := []]} [].
Definition ex_time : Layout.timeval := Layout.mk_timeval 0 0.

(** A regular file with number 7 and one link. *)
Definition ex_file (size : Z) : Alloc.InMemInode :=
  Alloc.mk_inode (Layout.mk_dinode 1 0 T_FILE 7 0 0 0 size 0 ex_time ex_time ex_time []) InodeLog.sample_log.

Ltac start_at E :=
  apply lookup_insert_Some in E as [[<- <-] | [_ E]]; [|
  apply lookup_insert_Some in E as [[<- <-] | [_ E]]; [|
  apply lookup_singleton_Some in E as [<- <-]]].

Lemma ex_start_initial : initial ex_start.
Proof.
  split_and!; try done.
  - intros w q E. cbn [rings ex_start] in E. start_at E; done.
  - intros w x E. cbn [workers ex_start] in E. start_at E; done.
Qed.

(** The file is opened by application 9 on the primary, and written. *)
Definition ops_open : list op :=
  [OpInitApp 0 9; OpInitApp 1 9; OpGetInode 1000 7 (ex_file 0); OpOpen 1001 (ex_file 0) 9 7 0 0 500 1; OpWriteInode 0 7].
(** It is on its way to worker 1, ... *)
Definition ops_moving : list op := ops_open ++ [OpExport 0 7 1].
(** ... has arrived, ... *)
Definition ops_moved : list op := ops_moving ++ [OpMessages 1; OpMessages 0].
(** ... and has gone back. *)
Definition ops_back : list op := ops_moved ++ [OpExport 1 7 0; OpMessages 0; OpMessages 0; OpMessages 1].

Definition state_after (l : list op) : System :=
  match run l ex_start with Ok s => s | Crash _ => ex_start end.

Definition ex_moving : System := state_after ops_moving.
Definition ex_moved : System := state_after ops_moved.

Ltac reach l := apply (ops_reachable l ex_start);
  [apply reach_init, ex_start_initial | vm_compute; repeat split | vm_compute; reflexivity].

Lemma ex_moving_reachable : reachable ex_moving.
Proof. reach ops_moving. Qed.

Lemma ex_moved_reachable : reachable ex_moved.
Proof. reach ops_moved. Qed.

(** The file at each place on the way. *)
Example move_served :
  (fun s => getFileObjForFd 0 9 100000 s) (state_after ops_open) = Some 500 /\
  (fun u => getFileObjForFd u 9 100000 ex_moving) <$> [0; 1; 2] = [None; None; None] /\
  (fun u => getFileObjForFd u 9 100000 ex_moved) <$> [0; 1; 2] = [None; Some 500; None] /\
  (fun u => getFileObjForFd u 9 100000 (state_after ops_back)) <$> [0; 1; 2] = [Some 500; None; None].
Proof. vm_compute. done. Qed.

Lemma descriptor_has_one_server_witness :
  reachable ex_moved /\ getFileObjForFd 1 9 100000 ex_moved = Some 500 /\
  exists x f i, workers ex_moved !! 1 = Some x /\ fobjs ex_moved !! 500 = Some f /\
    inodes ex_moved !! ip f = Some i /\ readOnlyFd f = 100000 /\ mngWid i = 1 /\
    inodeMap x !! i_no i = Some (ip f) /\
    forall u fo', getFileObjForFd u 9 100000 ex_moved = Some fo' -> u = 1 /\ fo' = 500.
Proof.
  assert (E : getFileObjForFd 1 9 100000 ex_moved = Some 500) by (vm_compute; reflexivity).
  split; [exact ex_moved_reachable |]. split; [exact E |].
  exact (descriptor_has_one_server ex_moved 1 9 100000 500 ex_moved_reachable E).
Defined.

(** The descriptor is open on the inode while it moves. *)
Lemma ex_moving_open : open_at ex_moving 1000 9 100000 500.
Proof. eexists. split; vm_compute; reflexivity. Qed.

Lemma ex_moved_open : open_at ex_moved 1000 9 100000 500.
Proof. eexists. split; vm_compute; reflexivity. Qed.

Lemma descriptor_served_or_moving_witness :
  reachable ex_moving /\ open_at ex_moving 1000 9 100000 500 /\
  ((exists w, getFileObjForFd w 9 100000 ex_moving = Some 500 /\
     forall u, u <> w -> getFileObjForFd u 9 100000 ex_moving = None) \/
   ((forall u, getFileObjForFd u 9 100000 ex_moving = None) /\
    exists u c, c ∈ msgs ex_moving u /\ carries c /\ ptr c = 1000)).
Proof.
  split; [exact ex_moving_reachable |]. split; [exact ex_moving_open |].
  exact (descriptor_served_or_moving ex_moving 1000 9 100000 500 ex_moving_reachable ex_moving_open).
Defined.

Definition ex_arriving : System := state_after (ops_moving ++ [OpMessages 1]).

Lemma descriptor_stays_open_witness :
  reachable ex_moving /\ exec_op (OpMessages 1) ex_moving = Ok ex_arriving /\
  open_at ex_arriving 1000 9 100000 500.
Proof.
  assert (E : exec_op (OpMessages 1) ex_moving = Ok ex_arriving) by (vm_compute; reflexivity).
  split; [exact ex_moving_reachable |]. split; [exact E |].
  exact (descriptor_stays_open ex_moving (OpMessages 1) ex_arriving 1000 9 100000 500 ex_moving_reachable E
           I (fun H => H) ex_moving_open).
Defined.

Definition ex_inode : InMemInode :=
  match inodes ex_moved !! 1000 with Some i => i | None => mk_inode 0 0 false false 0 ∅ (ex_file 0) end.

Lemma ex_inode_at : inodes ex_moved !! 1000 = Some ex_inode.
Proof. vm_compute. reflexivity. Qed.

Lemma unlinked_file_kept_while_open_witness :
  reachable ex_moved /\ inodes ex_moved !! 1000 = Some ex_inode /\
  (noAppReferring ex_inode = true <-> forall pid fd, fd_at (appFdMap ex_inode) pid fd = None) /\
  OwnerDeallocResources (ProcessReassignmentCtx exec_fuel) 1 1000 ex_moved =
    Ok (put_inode 1000 (set_onClose true ex_inode) ex_moved).
Proof.
  split; [exact ex_moved_reachable |]. split; [exact ex_inode_at |].
  destruct (unlinked_file_kept_while_open ex_moved 1 1000 ex_inode 9 100000 500 ex_moved_reachable ex_inode_at)
    as [H1 H2].
  split; [exact H1 | exact (H2 ex_moved_open)].
Defined.

Definition ex_primary : Worker := match workers ex_moved !! 0 with Some x => x | None => ex_worker end.

Lemma path_request_routed_witness :
  reachable ex_moved /\ workers ex_moved !! kMasterWidConst = Some ex_primary /\
  exists ret, ownerProcessPathReq OtherPathReq kMasterWidConst 9 (OK 1000) 8 ex_moved =
                Ok (answer 8 ret ex_moved) /\
    ((ret = FS_REQ_ERROR_INODE_IN_TRANSFER /\ in_transfer ex_moved 1000) \/
     exists w, w <> kMasterWidConst /\ ret = redirect w /\ last_owner ex_moved 1000 (i_no ex_inode) w).
Proof.
  assert (E : workers ex_moved !! kMasterWidConst = Some ex_primary) by (vm_compute; reflexivity).
  split; [exact ex_moved_reachable |]. split; [exact E |].
  apply (path_request_routed ex_moved OtherPathReq 9 1000 ex_inode ex_primary 8 ex_moved_reachable E ex_inode_at).
  vm_compute. reflexivity.
Defined.

(** The message with the inode. *)
Definition ex_message : Ctx :=
  match msgs ex_moving 1 with
  | c :: _ => c
  | [] => mk_ctx kOwnerExportThroughPrimary None None (mk_exp 0 0 0 false false false ∅)
  end.

Lemma ex_message_at : rings ex_moving !! 1 = Some [kReassignment ex_message].
Proof. vm_compute. reflexivity. Qed.

Lemma messages_drain_witness :
  reachable ex_moving /\ rings ex_moving !! 1 = Some [kReassignment ex_message] /\
  processInterWorkerMessages 1 ex_moving = Ok ex_arriving /\ weight ex_arriving < weight ex_moving.
Proof.
  assert (E : processInterWorkerMessages 1 ex_moving = Ok ex_arriving) by (vm_compute; reflexivity).
  split; [exact ex_moving_reachable |]. split; [exact ex_message_at |]. split; [exact E |].
  exact (messages_drain ex_moving 1 (kReassignment ex_message) [] ex_arriving ex_moving_reachable ex_message_at E).
Defined.

Lemma reassignment_handled_witness :
  reachable ex_moving /\ rings ex_moving !! 1 = Some [kReassignment ex_message] /\
  exists s', processInterWorkerMessages 1 ex_moving = Ok s'.
Proof.
  split; [exact ex_moving_reachable |]. split; [exact ex_message_at |].
  apply (reassignment_handled ex_moving 1 ex_message [] ex_moving_reachable ex_message_at).
  - split; eexists; vm_compute; reflexivity.
  - split; eexists; vm_compute; reflexivity.
  - split; eexists; vm_compute; reflexivity.
  - vm_compute. discriminate.
  - intros x i _ _. left. vm_compute. reflexivity.
Defined.

Lemma ex_moved_settled u : msgs ex_moved u = [].
Proof.
  assert (E : rings ex_moved = rings ex_start) by (vm_compute; reflexivity).
  unfold msgs. rewrite E. destruct (rings ex_start !! u) as [q |] eqn:Eq; [| done].
  cbn [rings ex_start] in Eq. start_at Eq; done.
Qed.

Lemma settled_ownership_witness :
  reachable ex_moved /\ inodes ex_moved !! 1000 = Some ex_inode /\
  getInodeOwner (i_no ex_inode) ex_moved = mngWid ex_inode /\ mngWid ex_inode = 1.
Proof.
  split; [exact ex_moved_reachable |]. split; [exact ex_inode_at |].
  destruct (settled_ownership ex_moved 1000 ex_inode ex_moved_reachable ex_moved_settled ex_inode_at) as [H1 _].
  split; [exact H1 | vm_compute; reflexivity].
Defined.

(** ** What goes wrong *)

(** The file is on worker 1, and the primary ends another [open] of it after a lookup on the
    device: it serves the new descriptor 100001 though it neither manages nor has the inode.
    When worker 1 moves the file to worker 2, two workers serve the descriptor; and when the
    client closes it at both, the second one uses an object that has been freed. *)
Definition ops_reopened : list op := ops_moved ++ [OpOpen 1001 (ex_file 0) 9 7 0 0 501 2].
Definition ops_two_servers : list op :=
  ops_reopened ++ [OpInitApp 2 9; OpExport 1 7 2; OpMessages 0; OpMessages 2; OpMessages 0; OpMessages 1].

Theorem reassigned_open_two_servers :
  match run ops_reopened ex_start with
  | Ok s => (fun u => getFileObjForFd u 9 100001 s) <$> [0; 1; 2] = [Some 501; None; None] /\
            mngWid <$> inodes s !! 1000 = Some 1 /\ (inodeMap <$> workers s !! 0) = Some ∅
  | Crash _ => False
  end /\
  match run ops_two_servers ex_start with
  | Ok s => (fun u => getFileObjForFd u 9 100001 s) <$> [0; 1; 2] = [Some 501; None; Some 501] /\
            (msgs s <$> [0; 1; 2]) = [[]; []; []]
  | Crash _ => False
  end /\
  run (ops_two_servers ++ [OpFdReq CloseReq 2 9 100001 3; OpFdReq CloseReq 0 9 100001 4]) ex_start = Crash OutOfRange.
Proof. vm_compute. done. Qed.

(** The primary unlinks a file while it is being moved: the map of owners says -1, and the
    message that hands the file to its owner is put into the ring with this number. *)
Theorem unlink_of_moving_file_fails : run (ops_moving ++ [OpUnlink 1000]) ex_start = Crash OutOfRange.
Proof. vm_compute. reflexivity. Qed.

(** The owner gives the file away before it reads the message that unlinks it. *)
Theorem unlink_after_export_fails :
  run (ops_moved ++ [OpUnlink 1000; OpExport 1 7 2; OpMessages 1]) ex_start = Crash AssertFail /\
  run (ops_moved ++ [OpExport 1 7 2; OpUnlink 1000; OpMessages 1]) ex_start = Crash AssertFail.
Proof. split; vm_compute; reflexivity. Qed.

(** A client uses a descriptor that it has closed, of a file that was moved away from the
    primary and back: the primary fails, instead of answering that there is no such
    descriptor. *)
Theorem closed_descriptor_fails_primary :
  run (ops_back ++ [OpFdReq CloseReq 0 9 100000 7; OpFdReq OtherReq 0 9 100000 8]) ex_start = Crash AssertFail.
Proof. vm_compute. reflexivity. Qed.

(** A client is told once where the file of a descriptor has moved: it has to remember the
    answer, and to synchronise its threads, since a second request that reaches the primary is
    refused though the descriptor is open. *)
Theorem second_request_misses_descriptor :
  match run (ops_moved ++ [OpFdReq OtherReq 0 9 100000 8; OpFdReq OtherReq 0 9 100000 9]) ex_start with
  | Ok s => replies s = [(1, 100000); (8, redirect 1); (9, FS_REQ_ERROR_POSIX_EBADF)] /\
            getFileObjForFd 1 9 100000 s = Some 500
  | Crash _ => False
  end.
Proof. vm_compute. done. Qed.

(** An application ends on every worker while its file moves: the file stays open. *)
Theorem exit_misses_moving_file :
  match run (ops_moving ++ [OpExit 0 9; OpExit 1 9; OpExit 2 9; OpMessages 1; OpMessages 0]) ex_start with
  | Ok s => getFileObjForFd 1 9 100000 s = Some 500
  | Crash _ => False
  end.
Proof. vm_compute. done. Qed.

(** A client asks that a file be moved to a worker that does not run. *)
Theorem reassign_to_unknown_worker_fails :
  run (ops_open ++ [OpReassign 0 1 7 0 5 33]) ex_start = Crash OutOfRange.
Proof. vm_compute. reflexivity. Qed.

(** A file is opened with [O_APPEND]: its offset is 0, whatever its size. *)
Theorem append_opens_at_start :
  match run [OpInitApp 0 9; OpOpen 1000 (ex_file 4096) 9 7 O_APPEND 0 500 1] ex_start with
  | Ok s => option_map (fun f => (flags f, off f)) (fobjs s !! 500) = Some (O_APPEND, 0)
  | Crash _ => False
  end.
Proof. vm_compute. done. Qed.

End OwnershipRuns.
