(* ===== verification/PathCache.v ===== *)
(** The cache of paths.  All workers share a tree of hash maps, one per cached directory
    ([LevelMap]), in which a request finds the inode of its path without reading directories.
    Only the primary changes it; the others read it at any time.  A map that is taken out of
    the tree is freed later, when no reader can still be using it.

    Modelled from FsProc_Permission.h and FsProc_Permission.cc ([checkPermission],
    [setPermission], [deleteEntry], [RegisterGC], [garbage_collect]) and the calls in
    FsProc_FsImpl.cc, FsProc_FileMng.cc and FsProc_FileMngOps.cc.  The hash map is that of a
    library and is a parameter with the laws of a map ([ConcurrentHashMap]).  The theorems show
    that the tree is a map from paths, that it loses no memory, and that no reader touches a
    map that is freed, provided its request ends within the grace period. *)

From Stdlib Require Import ZArith List Bool Lia.
From stdpp Require Import base gmap list strings.
From S2P Require Import Prelude Ownership.
Import ListNotations.
Open Scope Z_scope.

Module PathCache.

(** ** The hash map *)

(** What [folly::ConcurrentHashMap] promises of each of its operations: an insertion keeps an
    entry that exists, and an iteration visits every entry once. *)
Class ConcurrentHashMap (M A : Type) : Type := {
  hm_empty : M;
  hm_find : string -> M -> option A;
  hm_insert : string -> A -> M -> M;
  hm_erase : string -> M -> M;
  hm_elems : M -> list (string * A);
  find_empty k : hm_find k hm_empty = None;
  find_insert k a m k' :
    hm_find k' (hm_insert k a m) =
      match hm_find k' m with
      | Some b => Some b
      | None => if decide (k' = k) then Some a else None
      end;
  find_erase k m k' : hm_find k' (hm_erase k m) = if decide (k' = k) then None else hm_find k' m;
  elems_find m k a : (k, a) ∈ hm_elems m <-> hm_find k m = Some a;
  elems_nodup m : NoDup (hm_elems m)
}.

#[global] Arguments hm_find : simpl never.
#[global] Arguments hm_insert : simpl never.
#[global] Arguments hm_erase : simpl never.
#[global] Arguments hm_empty : simpl never.
#[global] Arguments hm_elems : simpl never.

#[export] Instance gmap_hash_map {A} : ConcurrentHashMap (gmap string A) A.
Proof.
  refine {| hm_empty := ∅; hm_find := fun k m => m !! k;
            hm_insert := fun k a m => if m !! k then m else <[k := a]> m;
            hm_erase := fun k m => delete k m; hm_elems := map_to_list |}.
  - intros. apply lookup_empty.
  - intros k a m k'. destruct (decide (k' = k)) as [-> |].
    + destruct (m !! k) eqn:E; [done |]. by rewrite lookup_insert_eq.
    + destruct (m !! k); [by destruct (m !! k') |]. rewrite lookup_insert_ne by done.
      by destruct (m !! k').
  - intros k m k'. case_decide; subst; [apply lookup_delete_eq | by apply lookup_delete_ne].
  - intros. apply elem_of_map_to_list.
  - intros. apply NoDup_map_to_list.
Defined.

(** ** The cache *)

Definition Credential : Type := Z * Z.

(** The map of a directory, null for a file; the owner of the inode; the inode. *)
Record MapEntry : Type := mk_entry {
  first : option Z;
  entry_cred : Credential;
  entry_inode : Z
}.

Inductive PCR : Type :=
| OK
| DENIED
| NOTFOUND.

Section Cache.
Context {M : Type} `{HM : ConcurrentHashMap M MapEntry}.

Local Notation find := (@hm_find M MapEntry HM).
Local Notation ins := (@hm_insert M MapEntry HM).
Local Notation erase := (@hm_erase M MapEntry HM).
Local Notation empty := (@hm_empty M MapEntry HM).
Local Notation elems := (@hm_elems M MapEntry HM).

(** [levels]: the maps that are allocated. *)
Record FsPermission : Type := mk_perm {
  levels : gmap Z M;
  rootMap : Z;
  garbage_new : list (option Z);
  garbage_old : list (option Z);
  garbage_last_time : Z
}.

Definition k_gc_threhold : Z := 1000000000.

(** What [checkPermission] assigns through its pointers. *)
Record found : Type := mk_found {
  parentMap : option Z;
  parentInode : option Z;
  inode : option Z
}.

(** Following a null pointer or one to a map that was freed. *)
Definition get_level (l : option Z) (s : FsPermission) : res M :=
  match l ≫= (levels s !!.) with Some m => Ok m | None => Crash OutOfRange end.

Fixpoint check_loop (n i : Z) (path : list string) (target : option Z) (o : found)
    (s : FsPermission) : res (PCR * found) :=
  match path with
  | [] => Ok (OK, o)
  | x :: rest =>
      let! m := get_level target s in
      match find x m with
      | None => Ok (NOTFOUND, o)
      | Some e =>
          let o :=
            if i =? to_u64 (n - 2) then mk_found (first e) (Some (entry_inode e)) (inode o)
            else if i =? to_u64 (n - 1)
            then mk_found (parentMap o) (parentInode o) (Some (entry_inode e))
            else o in
          check_loop n (i + 1) rest (first e) o s
      end
  end.

(** The credential is not looked at. *)
Definition checkPermission (path : list string) (credential : Credential) (o : found)
    (s : FsPermission) : res (PCR * found) :=
  let n := Z.of_nat (length path) in
  let o := if n =? 1 then mk_found (Some (rootMap s)) (parentInode o) (inode o) else o in
  check_loop n 0 path (Some (rootMap s)) o s.

Definition set_levels (h : gmap Z M) (s : FsPermission) : FsPermission :=
  mk_perm h (rootMap s) (garbage_new s) (garbage_old s) (garbage_last_time s).

(** [new]: the address of the map if one is allocated; [type] that of the inode.  Returns
    whether the entry is new, and the map of the entry that is there now. *)
Definition setPermission (new : Z) (dir : option Z) (path : string) (credential : Credential)
    (ino type : Z) (s : FsPermission) : res (bool * option Z * FsPermission) :=
  let target := default (rootMap s) dir in
  let map := if type =? Ownership.T_FILE then None else Some new in
  let! m := get_level (Some target) s in
  match find path m with
  | Some there => Ok (false, first there, s)
  | None =>
      let h := <[target := ins path (mk_entry map credential ino) m]> (levels s) in
      let h := match map with Some l => <[l := empty]> h | None => h end in
      Ok (true, map, set_levels h s)
  end.

(** [entry] keeps its value when there is nothing to delete. *)
Definition deleteEntry (dir : option Z) (path : string) (entry : MapEntry) (s : FsPermission)
    : res (bool * MapEntry * FsPermission) :=
  let target := default (rootMap s) dir in
  let! m := get_level (Some target) s in
  match find path m with
  | Some e => Ok (true, e, set_levels (<[target := erase path m]> (levels s)) s)
  | None => Ok (false, entry, s)
  end.

(** The maps of the directories in a map. *)
Definition children (m : M) : list Z := omap (fun kv => first (snd kv)) (elems m).

Fixpoint collect_loop (fuel : nat) (old : list (option Z)) (h : gmap Z M) : res (gmap Z M) :=
  match fuel with
  | O => Crash NoFuel
  | S fuel =>
      match last old with
      | None => Ok h
      | Some None => collect_loop fuel (removelast old) h
      | Some (Some garbage) =>
          match h !! garbage with
          | None => Crash OutOfRange
          | Some m =>
              collect_loop fuel (removelast old ++ (Some <$> children m)) (delete garbage h)
          end
      end
  end.

(** What can be pushed in all: the list and every child of a map. *)
Definition collect_fuel (old : list (option Z)) (h : gmap Z M) : nat :=
  S (length old + map_fold (fun _ m n => length (children m) + n)%nat 0%nat h).

Definition garbage_collect (s : FsPermission) : res FsPermission :=
  let! h := collect_loop (collect_fuel (garbage_old s) (levels s)) (garbage_old s) (levels s) in
  Ok (mk_perm h (rootMap s) [] (garbage_new s) (garbage_last_time s)).

(** [t1] and [t2] are read from the clock before and after. *)
Definition RegisterGC (garbage : option Z) (t1 t2 : Z) (s : FsPermission) : res FsPermission :=
  let s := mk_perm (levels s) (rootMap s) (garbage_new s ++ [garbage]) (garbage_old s)
             (garbage_last_time s) in
  if to_u64 (t1 - garbage_last_time s) >? k_gc_threhold then
    let! s := garbage_collect s in
    Ok (mk_perm (levels s) (rootMap s) (garbage_new s) (garbage_old s) t2)
  else Ok s.

(** A path is removed: its entry is deleted, and its map is registered; [MapEntry entry;] is
    null when there was nothing to delete. *)
Definition removePathInodeCacheItem (dir : option Z) (leafName : string) (t1 t2 : Z)
    (s : FsPermission) : res FsPermission :=
  let! (_, e, s) := deleteEntry dir leafName (mk_entry None (0, 0) 0) s in
  RegisterGC (first e) t1 t2 s.

(** The test with which a rename into the renamed directory is refused; from the last name
    of the source to the first. *)
Fixpoint prefix_loop (src dst : list string) (i : nat) : res bool :=
  match i with
  | O => Ok true
  | S i =>
      let! a := load src (Z.of_nat i) in
      let! b := load dst (Z.of_nat i) in
      if negb (bool_decide (a = b)) then Ok false else prefix_loop src dst i
  end.

Definition isSrcPrefixOfDst (src dst : list string) : res bool :=
  let! _ := check (negb (bool_decide (src = []))) in
  let! _ := check (negb (bool_decide (dst = []))) in
  if (length dst <? length src)%nat then Ok false else prefix_loop src dst (length src).

(** The calls of a rename, in their order: an entry of the new name that is there is
    removed, the new name is added, the old name is removed. *)
Definition rename_path (new : Z) (dir dstDir : option Z) (leafName newLeafName : string)
    (dstExist : bool) (credential : Credential) (ino type t1 t2 t3 t4 : Z) (s : FsPermission)
    : res FsPermission :=
  let! s := if dstExist then removePathInodeCacheItem dstDir newLeafName t1 t2 s else Ok s in
  let! (_, _, s) := setPermission new dstDir newLeafName credential ino type s in
  removePathInodeCacheItem dir leafName t3 t4 s.

(** ** The tree *)

Definition entry (s : FsPermission) (l : Z) (x : string) : option MapEntry :=
  levels s !! l ≫= find x.

(** The map of the directory with a path, and the entry of a name in it. *)
Definition down (s : FsPermission) (o : option Z) (x : string) : option Z :=
  o ≫= fun l => entry s l x ≫= first.
Definition level_at (s : FsPermission) (q : list string) : option Z :=
  foldl (down s) (Some (rootMap s)) q.
Definition cached (s : FsPermission) (q : list string) (x : string) : option MapEntry :=
  level_at s q ≫= fun l => entry s l x.

Definition edge (h : gmap Z M) (l : Z) (x : string) (c : Z) : Prop :=
  (h !! l ≫= find x) ≫= first = Some c.

(** A map that is in the tree below another. *)
Inductive below (h : gmap Z M) (a : Z) : Z -> Prop :=
| below_refl : below h a a
| below_edge l x c : below h a l -> edge h l x c -> below h a c.

(** Every map has one place: it is the root, or in one entry of one map, or it is garbage. *)
Record wf_heap (h : gmap Z M) (roots : list Z) : Prop := {
  wf_roots_nodup : NoDup roots;
  wf_roots c : c ∈ roots -> is_Some (h !! c);
  wf_edge l x c : edge h l x c -> is_Some (h !! c) /\ c ∉ roots;
  wf_unique l x l' x' c : edge h l x c -> edge h l' x' c -> l = l' /\ x = x';
  wf_place c : is_Some (h !! c) -> c ∈ roots \/ exists l x, edge h l x c;
  wf_rank : exists rank : Z -> nat, forall l x c, edge h l x c -> (rank l < rank c)%nat
}.

Definition garbage (s : FsPermission) : list Z := omap id (garbage_new s ++ garbage_old s).
Definition wf (s : FsPermission) : Prop := wf_heap (levels s) (rootMap s :: garbage s).

(** ** Requests that use the cache

    A request walks down from the root, and keeps the map of its directory until it ends; on
    the primary it adds and removes entries of that map.  [start] is the time at which the
    walk began. *)

Record holder : Type := mk_holder {
  start : Z;
  at_level : Z
}.

Record csys : Type := mk_csys {
  cache : FsPermission;
  now : Z;
  holders : gmap Z holder
}.

(** Requests are assumed to end within the grace period. *)
Definition alive (t : Z) (d : holder) : Prop := t - start d <= k_gc_threhold.

Inductive step (c : csys) : csys -> Prop :=
| step_tick t :
    now c <= t < 2 ^ 64 -> step c (mk_csys (cache c) t (holders c))
| step_begin r :
    step c (mk_csys (cache c) (now c) (<[r := mk_holder (now c) (rootMap (cache c))]> (holders c)))
| step_down r d x m e l :
    holders c !! r = Some d -> alive (now c) d -> get_level (Some (at_level d)) (cache c) = Ok m ->
    find x m = Some e -> first e = Some l ->
    step c (mk_csys (cache c) (now c) (<[r := mk_holder (start d) l]> (holders c)))
| step_set r d new x cred ino tp b l s' :
    holders c !! r = Some d -> alive (now c) d -> levels (cache c) !! new = None ->
    setPermission new (Some (at_level d)) x cred ino tp (cache c) = Ok (b, l, s') ->
    step c (mk_csys s' (now c) (holders c))
| step_remove r d x t1 t2 s' :
    holders c !! r = Some d -> alive (now c) d -> now c <= t1 <= t2 -> t2 < 2 ^ 64 ->
    removePathInodeCacheItem (Some (at_level d)) x t1 t2 (cache c) = Ok s' ->
    step c (mk_csys s' t2 (holders c)).

(** A new cache is one empty map. *)
Inductive reachable : csys -> Prop :=
| reach_init root t :
    0 <= t < 2 ^ 64 -> reachable (mk_csys (mk_perm {[root := empty]} root [] [] 0) t ∅)
| reach_step c c' : reachable c -> step c c' -> reachable c'.

(** ** Changes of the tree *)

Lemma NoDup_omap {A B} (f : A -> option B) (l : list A) :
  NoDup l -> (forall a b c, a ∈ l -> b ∈ l -> f a = Some c -> f b = Some c -> a = b) ->
  NoDup (omap f l).
Proof.
  induction 1 as [| a l Ha Hl IH]; intros Hf; [constructor |]. cbn.
  assert (IH' : NoDup (omap f l)) by (apply IH; intros; eapply Hf; eauto; by apply list_elem_of_further).
  destruct (f a) as [c |] eqn:E; [| done]. apply NoDup_cons. split; [| done].
  intros (b & Hb & Hfb)%list_elem_of_omap.
  assert (a = b) by (eapply Hf; eauto; [apply list_elem_of_here | by apply list_elem_of_further]). by subst.
Qed.

Lemma children_elem m c : c ∈ children m <-> exists x, find x m ≫= first = Some c.
Proof.
  unfold children. rewrite list_elem_of_omap. split.
  - intros ([x e] & Hin & He). exists x. apply elems_find in Hin. cbn in He. by rewrite Hin.
  - intros (x & E). destruct (find x m) as [e |] eqn:F; [| done]. exists (x, e).
    by rewrite elems_find.
Qed.

Lemma edge_children h l m c : h !! l = Some m -> c ∈ children m <-> exists x, edge h l x c.
Proof. intros E. rewrite children_elem. unfold edge. by rewrite E. Qed.

Lemma wf_perm h r r' : r ≡ₚ r' -> wf_heap h r -> wf_heap h r'.
Proof.
  intros E [N R Ed U P K]. split; try done.
  - by rewrite <- E.
  - intros c. rewrite <- E. apply R.
  - intros l x c Hc. rewrite <- E. eauto.
  - intros c Hc. rewrite <- E. auto.
Qed.

(** The same maps with the same edges. *)
Lemma wf_same h h' r :
  dom h' = dom h -> (forall l x c, edge h' l x c <-> edge h l x c) -> wf_heap h r -> wf_heap h' r.
Proof.
  intros D E [N R Ed U P [rank K]].
  assert (S : forall c, is_Some (h' !! c) <-> is_Some (h !! c))
    by (intros c; by rewrite <- !elem_of_dom, D).
  split; try done.
  - intros c Hc. by apply S, R.
  - intros l x c Hc%E. rewrite S. eauto.
  - intros l x l' x' c H1%E H2%E. eauto.
  - intros c Hc%S. destruct (P c Hc) as [? | (l & x & Hx)]; [by left | right]. exists l, x. by apply E.
  - exists rank. intros l x c Hc%E. eauto.
Qed.

(** An edge to a map that is allocated for it. *)
Lemma wf_grow h h' r l0 x0 new :
  h !! new = None -> is_Some (h !! l0) ->
  (forall c, is_Some (h' !! c) <-> is_Some (h !! c) \/ c = new) ->
  (forall l x c, edge h' l x c <-> edge h l x c \/ (l = l0 /\ x = x0 /\ c = new)) ->
  wf_heap h r -> wf_heap h' r.
Proof.
  intros Hn Hl Sd E [N R Ed U P [rank K]].
  assert (Hno : forall l x, ~ edge h l x new)
    by (intros l x Hc; apply Ed in Hc as [[? Hc] _]; congruence).
  split.
  - done.
  - intros c Hc. apply Sd. eauto.
  - intros l x c [Hc | (-> & -> & ->)]%E; rewrite Sd; [naive_solver |]. split; [by right |].
    intros Hr. apply R in Hr as [? ?]. congruence.
  - intros l x l' x' c [H1 | (-> & -> & ->)]%E [H2 | (-> & -> & Hc)]%E; subst; eauto; naive_solver.
  - intros c [Hc | ->]%Sd; [destruct (P c Hc) as [? | (l & x & ?)]; [by left |] |];
      right; [exists l, x | exists l0, x0]; apply E; auto.
  - exists (fun c => if decide (c = new) then S (rank l0) else rank c).
    assert (Hl0 : l0 <> new) by (intros ->; rewrite Hn in Hl; by destruct Hl).
    intros l x c [Hc | (-> & -> & ->)]%E.
    + rewrite !decide_False; [by eapply K | by intros -> ; eapply Hno |].
      intros ->. unfold edge in Hc. by rewrite Hn in Hc.
    + rewrite decide_False, decide_True by done. lia.
Qed.

(** An edge is cut: what was below becomes a root of its own. *)
Lemma wf_cut h h' r l0 x0 c0 :
  edge h l0 x0 c0 -> dom h' = dom h ->
  (forall l x c, edge h' l x c <-> edge h l x c /\ (l, x) <> (l0, x0)) ->
  wf_heap h r -> wf_heap h' (c0 :: r).
Proof.
  intros H0 D E [N R Ed U P [rank K]].
  assert (S : forall c, is_Some (h' !! c) <-> is_Some (h !! c))
    by (intros c; by rewrite <- !elem_of_dom, D).
  pose proof (Ed _ _ _ H0) as [S0 R0]. split.
  - by apply NoDup_cons.
  - intros c [-> | Hc]%elem_of_cons; apply S; auto.
  - intros l x c [Hc Hne]%E. rewrite S. destruct (Ed _ _ _ Hc). split; [done |].
    intros [-> | ?]%elem_of_cons; [| done]. destruct (U _ _ _ _ _ Hc H0); subst. done.
  - intros l x l' x' c [H1 _]%E [H2 _]%E. eauto.
  - intros c Hc%S. destruct (P c Hc) as [? | (l & x & Hx)]; [left; by constructor |].
    destruct (decide ((l, x) = (l0, x0))) as [[= -> ->] | Hne].
    + left. unfold edge in *. rewrite H0 in Hx. injection Hx as ->. constructor.
    + right. exists l, x. by apply E.
  - exists rank. intros l x c [Hc _]%E. eauto.
Qed.

(** A root is freed: the maps below it become roots. *)
Lemma wf_free h r g m :
  h !! g = Some m -> wf_heap h (g :: r) -> wf_heap (delete g h) (children m ++ r).
Proof.
  intros Hg [N R Ed U P [rank K]].
  assert (E : forall l x c, edge (delete g h) l x c <-> edge h l x c /\ l <> g).
  { intros l x c. unfold edge. destruct (decide (l = g)) as [-> |].
    - rewrite lookup_delete_eq. naive_solver.
    - rewrite lookup_delete_ne by done. naive_solver. }
  assert (C : forall c, c ∈ children m -> c <> g /\ c ∉ r /\ is_Some (h !! c)).
  { intros c (x & Hx)%(edge_children h g m c Hg). destruct (Ed _ _ _ Hx) as [? [? ?]%not_elem_of_cons]. done. }
  apply NoDup_cons in N as [Ng Nr]. split.
  - apply NoDup_app. split; [| split; [| done]].
    + apply NoDup_omap; [apply elems_nodup |]. intros [a ea] [b eb] c Ha Hb Hc Hd. cbn in *.
      rewrite elems_find in Ha, Hb.
      assert (a = b) as ->.
      { eapply (U g a g b c); unfold edge; rewrite Hg; cbn; by rewrite ?Ha, ?Hb. }
      congruence.
    + intros c Hc. apply (C c Hc).
  - intros c [Hc | Hc]%elem_of_app.
    + destruct (C c Hc) as (? & _ & ?). by rewrite lookup_delete_ne.
    + rewrite lookup_delete_ne by (intros ->; done). apply R. by constructor.
  - intros l x c [Hc Hl]%E. destruct (Ed _ _ _ Hc) as [? [? ?]%not_elem_of_cons]. split.
    + by rewrite lookup_delete_ne.
    + rewrite elem_of_app. intros [(y & Hy)%(edge_children h g m c Hg) | ?]; [| done].
      by destruct (U _ _ _ _ _ Hc Hy).
  - intros l x l' x' c [H1 _]%E [H2 _]%E. eauto.
  - intros c Hc. destruct (decide (c = g)) as [-> |]; [by rewrite lookup_delete_eq in Hc; destruct Hc |].
    rewrite lookup_delete_ne in Hc by done. rewrite elem_of_app.
    destruct (P c Hc) as [[-> | ?]%elem_of_cons | (l & x & Hx)]; [done | by left; right |].
    destruct (decide (l = g)) as [-> |].
    + left; left. apply (edge_children h g m c Hg). eauto.
    + right. exists l, x. by apply E.
  - exists rank. intros l x c [Hc _]%E. eauto.
Qed.

(** ** Places in the tree *)

Lemma below_mono h h' a l :
  (forall l x c, edge h l x c -> edge h' l x c) -> below h a l -> below h' a l.
Proof. intros E. induction 1; [constructor | econstructor; eauto]. Qed.

Lemma below_trans h a b c : below h a b -> below h b c -> below h a c.
Proof. intros Hab. induction 1; [done | econstructor; eauto]. Qed.

Lemma edge_delete h g l x c : edge (delete g h) l x c -> edge h l x c.
Proof.
  unfold edge. destruct (decide (l = g)) as [-> |]; [by rewrite lookup_delete_eq |].
  by rewrite lookup_delete_ne.
Qed.

Lemma below_some h r a l : wf_heap h r -> a ∈ r -> below h a l -> is_Some (h !! l).
Proof. intros W Ha. induction 1; [eapply wf_roots; eauto | eapply wf_edge; eauto]. Qed.

(** Every map is below exactly one root. *)
Lemma place_exists h r l : wf_heap h r -> is_Some (h !! l) -> exists a, a ∈ r /\ below h a l.
Proof.
  intros W. destruct (wf_rank _ _ W) as [rank K]. revert l.
  assert (Hn : forall n l, (rank l < n)%nat -> is_Some (h !! l) -> exists a, a ∈ r /\ below h a l).
  { induction n as [| n IH]; intros l Hl Hs; [lia |].
    destruct (wf_place _ _ W l Hs) as [? | (l' & x & Hx)]; [exists l; split; [done | constructor] |].
    assert (Hs' : is_Some (h !! l')) by (unfold edge in Hx; destruct (h !! l'); [eauto | done]).
    specialize (K _ _ _ Hx). destruct (IH l') as (a & Ha & Hb); [lia | done |].
    exists a. split; [done |]. by econstructor. }
  intros l. apply (Hn (S (rank l))). lia.
Qed.

Lemma place_unique h r a b l : wf_heap h r -> a ∈ r -> b ∈ r -> below h a l -> below h b l -> a = b.
Proof.
  intros W Ha Hb H1. induction H1 as [| l x c Hl IH Hx]; intros H2.
  - destruct H2 as [| l x c H2 Hx]; [done |]. by destruct (wf_edge _ _ W _ _ _ Hx).
  - destruct H2 as [| l' x' c H2 Hx']; [by destruct (wf_edge _ _ W _ _ _ Hx) |].
    destruct (wf_unique _ _ W _ _ _ _ _ Hx Hx') as [-> _]. auto.
Qed.

Lemma level_at_snoc s q x : level_at s (q ++ [x]) = down s (level_at s q) x.
Proof. unfold level_at. by rewrite foldl_app. Qed.

Lemma level_at_cached s q x : level_at s (q ++ [x]) = cached s q x ≫= first.
Proof. rewrite level_at_snoc. unfold down, cached. by destruct (level_at s q). Qed.

Lemma level_at_below s q l : level_at s q = Some l -> below (levels s) (rootMap s) l.
Proof.
  revert l. induction q as [| x q IH] using rev_ind; intros l; [intros [= ->]; constructor |].
  rewrite level_at_snoc. unfold down. destruct (level_at s q) as [l0 |]; [| done]. intros E.
  econstructor; [by apply IH | exact E].
Qed.

Lemma below_level_at s l : below (levels s) (rootMap s) l -> exists q, level_at s q = Some l.
Proof.
  induction 1 as [| l x c _ (q & E) Hx]; [by exists [] |].
  exists (q ++ [x]). rewrite level_at_snoc, E. exact Hx.
Qed.

Lemma level_at_inj s q q' l :
  wf s -> level_at s q = Some l -> level_at s q' = Some l -> q = q'.
Proof.
  intros W. revert q' l.
  assert (Hr : forall q x, level_at s (q ++ [x]) <> Some (rootMap s)).
  { intros p x. rewrite level_at_snoc. unfold down. destruct (level_at s p) as [l |]; [| done].
    intros E. destruct (wf_edge _ _ W l x (rootMap s) E) as [_ Hn]. apply Hn. by constructor. }
  induction q as [| x q IH] using rev_ind; intros q' l.
  - intros [= <-] E. destruct q' as [| x' q' _] using rev_ind; [done |]. by apply Hr in E.
  - destruct q' as [| x' q' _] using rev_ind; [intros E [= <-]; by apply Hr in E |].
    rewrite !level_at_snoc. unfold down.
    destruct (level_at s q) as [a |] eqn:Ea; [| done].
    destruct (level_at s q') as [b |] eqn:Eb; [| done]. intros H1 H2.
    destruct (wf_unique _ _ W _ _ _ _ _ H1 H2) as [-> ->]. f_equal. eauto.
Qed.

(** ** The garbage collector *)

Definition total (h : gmap Z M) : nat := map_fold (fun _ m n => length (children m) + n)%nat 0%nat h.

Lemma total_delete h g m : h !! g = Some m -> total h = (length (children m) + total (delete g h))%nat.
Proof. intros E. unfold total. rewrite (map_fold_delete_L _ _ g m); [done | lia | done]. Qed.

Lemma last_split {A} (l : list A) a : last l = Some a -> l = removelast l ++ [a].
Proof.
  destruct l as [| b l] using rev_ind; [done |]. rewrite last_snoc, removelast_last. by intros [= ->].
Qed.

Lemma collect_ok fuel old h r :
  wf_heap h (omap id old ++ r) -> (length old + total h < fuel)%nat ->
  exists h', collect_loop fuel old h = Ok h' /\ wf_heap h' r /\ h' ⊆ h /\
    forall l, (forall c, Some c ∈ old -> ~ below h c l) -> h' !! l = h !! l.
Proof.
  revert old h. induction fuel as [| fuel IH]; intros old h W Hf; [lia |]. cbn [collect_loop].
  destruct (last old) as [g |] eqn:L; [| apply last_None in L as ->; by exists h].
  apply last_split in L. set (old' := removelast old) in *. clearbody old'. subst old.
  rewrite length_app in Hf. cbn in Hf. destruct g as [g |].
  - assert (P : omap id (old' ++ [Some g]) ++ r ≡ₚ g :: omap id old' ++ r)
      by (rewrite omap_app; cbn; solve_Permutation).
    apply (wf_perm _ _ _ P) in W. clear P.
    destruct (wf_roots _ _ W g) as [m E]; [by constructor |]. rewrite E.
    pose proof (wf_free _ _ _ _ E W) as W'. pose proof (total_delete _ _ _ E) as T.
    destruct (IH (old' ++ (Some <$> children m)) (delete g h)) as (h' & R & Wr & Hs & Hk).
    + eapply wf_perm; [| exact W']. rewrite omap_app.
      assert (Eo : omap id (Some <$> children m) = children m)
        by (clear; induction (children m); cbn; congruence).
      rewrite Eo. solve_Permutation.
    + rewrite length_app, length_fmap. lia.
    + exists h'. split; [done |]. split; [done |].
      split; [by etransitivity; [| apply delete_subseteq] |].
      intros l Hl. rewrite Hk.
      * apply lookup_delete_ne. intros ->. eapply (Hl l); [| constructor].
        apply elem_of_app. right. constructor.
      * intros c Hc Hb. apply elem_of_app in Hc as [Hc | Hc].
        -- apply (Hl c); [apply elem_of_app; by left |].
           eapply below_mono; [apply edge_delete | done].
        -- apply list_elem_of_fmap in Hc as (c' & [= <-] & Hc).
           apply (edge_children h g m c E) in Hc as [x Hx].
           apply (Hl g); [apply elem_of_app; right; constructor |].
           eapply below_trans; [econstructor; [constructor | exact Hx] |].
           eapply below_mono; [apply edge_delete | done].
  - destruct (IH old' h) as (h' & R & Wr & Hs & Hk); [by rewrite omap_app, app_nil_r in W | lia |].
    exists h'. repeat (split; [done |]). intros l Hl. apply Hk. intros c Hc. apply Hl.
    apply elem_of_app. by left.
Qed.

(** ** The operations *)

(** What an operation on the maps does not touch. *)
Definition same_garbage (s s' : FsPermission) : Prop :=
  rootMap s' = rootMap s /\ garbage_new s' = garbage_new s /\ garbage_old s' = garbage_old s /\
  garbage_last_time s' = garbage_last_time s.

Lemma get_level_ok s l m : levels s !! l = Some m -> get_level (Some l) s = Ok m.
Proof. unfold get_level. cbn. by intros ->. Qed.

Lemma set_old new dir x cred ino tp s l e :
  default (rootMap s) dir = l -> entry s l x = Some e ->
  setPermission new dir x cred ino tp s = Ok (false, first e, s).
Proof.
  unfold entry, setPermission. intros -> E. destruct (levels s !! l) as [m |] eqn:F; [| done].
  cbn in E. rewrite (get_level_ok _ _ _ F). cbn. by rewrite E.
Qed.

Lemma set_new new dir x cred ino tp s l :
  wf s -> levels s !! new = None -> default (rootMap s) dir = l -> is_Some (levels s !! l) ->
  entry s l x = None ->
  let c := if tp =? Ownership.T_FILE then None else Some new in
  exists s', setPermission new dir x cred ino tp s = Ok (true, c, s') /\ wf s' /\ same_garbage s s' /\
    (forall l' x', entry s' l' x' = if decide ((l', x') = (l, x)) then Some (mk_entry c cred ino) else entry s l' x') /\
    (forall l', is_Some (levels s' !! l') <-> is_Some (levels s !! l') \/ c = Some l').
Proof.
  cbv zeta. unfold setPermission. intros W Hn -> [m Hm] E. rewrite (get_level_ok _ _ _ Hm). cbn [res_bind].
  unfold entry in E. rewrite Hm in E. cbn in E. rewrite E.
  set (c := if tp =? Ownership.T_FILE then None else Some new). set (e := (mk_entry c cred ino)).
  set (h := <[l := ins x e m]> (levels s)).
  set (h' := match c with Some l1 => <[l1 := empty]> h | None => h end).
  assert (Hl : l <> new) by congruence.
  assert (Ent : forall l' x', (h' !! l' ≫= find x') =
    if decide ((l', x') = (l, x)) then Some e else entry s l' x').
  { intros l' x'. subst h'. destruct (decide (c = Some l')) as [Ec | Ec].
    - rewrite Ec, lookup_insert_eq. cbn. rewrite find_empty.
      assert (l' = new) as -> by (subst c; case_match; congruence).
      rewrite decide_False by congruence. unfold entry. by rewrite Hn.
    - assert (E' : (match c with Some l1 => <[l1 := empty]> h | None => h end) !! l' = h !! l')
        by (destruct c; [apply lookup_insert_ne; congruence | done]).
      rewrite E'. subst h. destruct (decide (l' = l)) as [-> | Hne].
      + rewrite lookup_insert_eq. cbn. rewrite find_insert. unfold entry. rewrite Hm. cbn.
        destruct (decide (x' = x)) as [-> |]; [by rewrite E, decide_True |].
        rewrite decide_False by congruence. by destruct (find x' m).
      + rewrite lookup_insert_ne by done. by rewrite decide_False by congruence. }
  assert (Dom : forall l', is_Some (h' !! l') <-> is_Some (levels s !! l') \/ c = Some l').
  { intros l'. subst h' h. destruct c as [c |].
    - destruct (decide (l' = c)) as [-> |]; [rewrite lookup_insert_eq; naive_solver |].
      rewrite lookup_insert_ne by done.
      destruct (decide (l' = l)) as [-> |]; [rewrite lookup_insert_eq, Hm; naive_solver |].
      rewrite lookup_insert_ne by done. naive_solver.
    - destruct (decide (l' = l)) as [-> |]; [rewrite lookup_insert_eq, Hm; naive_solver |].
      rewrite lookup_insert_ne by done. naive_solver. }
  exists (set_levels h' s). split; [done |]. split; [| done].
  assert (Edge : forall l' x' d, edge h' l' x' d <-> edge (levels s) l' x' d \/ (l' = l /\ x' = x /\ c = Some d)).
  { intros l' x' d. unfold edge at 1. rewrite Ent. case_decide as D.
    - injection D as -> ->. cbn. unfold edge. rewrite Hm. cbn. rewrite E. naive_solver.
    - change (edge (levels s) l' x' d <-> edge (levels s) l' x' d \/ l' = l /\ x' = x /\ c = Some d).
      naive_solver. }
  unfold wf. change (garbage (set_levels h' s)) with (garbage s). cbn [levels rootMap set_levels].
  destruct c as [d |] eqn:Ec.
  - eapply (wf_grow (levels s) h' _ l x d); [| | | | exact W].
    + assert (d = new) as -> by (revert Ec; subst c; case_match; congruence). done.
    + by rewrite Hm.
    + intros l'. rewrite Dom. naive_solver.
    + intros l' x' d'. rewrite Edge. naive_solver.
  - eapply wf_same; [| | exact W].
    + apply set_eq. intros l'. rewrite !elem_of_dom, Dom. naive_solver.
    + intros l' x' d. rewrite Edge. naive_solver.
Qed.

Lemma delete_none dir x e0 s l :
  default (rootMap s) dir = l -> is_Some (levels s !! l) -> entry s l x = None ->
  deleteEntry dir x e0 s = Ok (false, e0, s).
Proof.
  unfold entry, deleteEntry. intros -> [m F] E. rewrite F in E. cbn in E.
  rewrite (get_level_ok _ _ _ F). cbn. by rewrite E.
Qed.

Lemma delete_some dir x e0 s l e :
  wf s -> default (rootMap s) dir = l -> entry s l x = Some e ->
  exists s', deleteEntry dir x e0 s = Ok (true, e, s') /\ same_garbage s s' /\
    wf_heap (levels s') (omap id [first e] ++ rootMap s :: garbage s) /\
    (forall l' x', entry s' l' x' = if decide ((l', x') = (l, x)) then None else entry s l' x') /\
    dom (levels s') = dom (levels s).
Proof.
  unfold deleteEntry. intros W -> E. unfold entry in E.
  destruct (levels s !! l) as [m |] eqn:Hm; [| done]. cbn in E.
  rewrite (get_level_ok _ _ _ Hm). cbn [res_bind]. rewrite E.
  set (h := <[l := erase x m]> (levels s)). exists (set_levels h s). split; [done |]. split; [done |].
  assert (Ent : forall l' x', (h !! l' ≫= find x') =
    if decide ((l', x') = (l, x)) then None else entry s l' x').
  { intros l' x'. subst h. destruct (decide (l' = l)) as [-> | Hne].
    - rewrite lookup_insert_eq. cbn. rewrite find_erase. unfold entry. rewrite Hm. cbn.
      repeat case_decide; congruence.
    - rewrite lookup_insert_ne by done. by rewrite decide_False by congruence. }
  assert (D : dom h = dom (levels s)) by (apply dom_insert_lookup_L; eauto).
  split; [| done]. cbn [levels set_levels].
  destruct (first e) as [c |] eqn:Ec; cbn.
  - eapply (wf_cut (levels s) h _ l x c); [| done | | exact W].
    + unfold edge. rewrite Hm. cbn. by rewrite E.
    + intros l' x' d. unfold edge at 1. rewrite Ent. unfold entry. case_decide; unfold edge; naive_solver.
  - eapply wf_same; [done | | exact W]. intros l' x' d. unfold edge at 1. rewrite Ent.
    case_decide as Dc; [| done]. injection Dc as -> ->. unfold edge. rewrite Hm. cbn. rewrite E. cbn.
    rewrite Ec. naive_solver.
Qed.

Lemma garbage_collect_ok s :
  wf s -> exists s', garbage_collect s = Ok s' /\ wf s' /\ rootMap s' = rootMap s /\
    levels s' ⊆ levels s /\ garbage_new s' = [] /\ garbage_old s' = garbage_new s /\
    forall l, (forall c, Some c ∈ garbage_old s -> ~ below (levels s) c l) -> levels s' !! l = levels s !! l.
Proof.
  intros W. unfold garbage_collect.
  destruct (collect_ok (collect_fuel (garbage_old s) (levels s)) (garbage_old s) (levels s)
              (rootMap s :: omap id (garbage_new s))) as (h' & R & W' & Hs & Hk).
  - eapply wf_perm; [| exact W]. unfold garbage. rewrite omap_app. solve_Permutation.
  - unfold collect_fuel, total. lia.
  - rewrite R. cbn [res_bind]. eexists. split; [done |]. unfold wf, garbage. by cbn.
Qed.

Lemma RegisterGC_ok g t1 t2 s :
  wf_heap (levels s) (omap id [g] ++ rootMap s :: garbage s) ->
  exists s', RegisterGC g t1 t2 s = Ok s' /\ wf s' /\ rootMap s' = rootMap s /\
    levels s' ⊆ levels s /\
    ((levels s' = levels s /\ garbage_new s' = garbage_new s ++ [g] /\ garbage_old s' = garbage_old s /\
      garbage_last_time s' = garbage_last_time s) \/
     (to_u64 (t1 - garbage_last_time s) > k_gc_threhold /\ garbage_new s' = [] /\
      garbage_old s' = garbage_new s ++ [g] /\ garbage_last_time s' = t2 /\
      forall l, (forall c, Some c ∈ garbage_old s -> ~ below (levels s) c l) ->
        levels s' !! l = levels s !! l)).
Proof.
  intros W. unfold RegisterGC. cbv zeta. cbn [garbage_last_time].
  set (s1 := mk_perm _ _ _ _ _).
  assert (W1 : wf s1).
  { eapply wf_perm; [| exact W]. unfold garbage, s1. cbn [garbage_new garbage_old rootMap].
    rewrite !omap_app. destruct g; cbn; solve_Permutation. }
  destruct (_ >? _) eqn:T.
  - destruct (garbage_collect_ok s1 W1) as (s2 & -> & W2 & Hr & Hs & Hn & Ho & Hk). cbn [res_bind].
    eexists. split; [done |]. split; [done |]. cbn. split; [done |]. split; [done |]. right.
    split; [by apply Z.gtb_gt in T |]. done.
  - exists s1. split; [done |]. split; [done |]. split; [done |]. split; [done |]. left. done.
Qed.

(** ** The cache as a map from paths *)

Lemma level_at_agree s s' :
  rootMap s' = rootMap s ->
  (forall l x, below (levels s) (rootMap s) l -> entry s' l x = entry s l x) ->
  (forall q, level_at s' q = level_at s q) /\ (forall q x, cached s' q x = cached s q x).
Proof.
  intros R E.
  assert (L : forall q, level_at s' q = level_at s q).
  { intros q. induction q as [| x q IH] using rev_ind; [unfold level_at; cbn; by rewrite R |].
    rewrite !level_at_snoc, IH. unfold down. destruct (level_at s q) as [l |] eqn:F; [| done]. cbn.
    by rewrite E by (by eapply level_at_below). }
  split; [done |]. intros q x. unfold cached. rewrite L.
  destruct (level_at s q) as [l |] eqn:F; [| done]. cbn. apply E. by eapply level_at_below.
Qed.

Lemma cached_set s s' q0 l0 x0 e0 :
  wf s -> level_at s q0 = Some l0 -> entry s l0 x0 = None -> rootMap s' = rootMap s ->
  (forall l x, entry s' l x = if decide ((l, x) = (l0, x0)) then Some e0 else entry s l x) ->
  (forall c x, first e0 = Some c -> entry s' c x = None) ->
  forall q x, cached s' q x = if decide ((q, x) = (q0, x0)) then Some e0 else cached s q x.
Proof.
  intros W L0 N0 R E New.
  assert (Hq : forall q, level_at s' q = if decide (q = q0 ++ [x0]) then first e0 else level_at s q).
  { intros q. induction q as [| x q IH] using rev_ind.
    - rewrite decide_False by (by destruct q0). unfold level_at. cbn. by rewrite R.
    - rewrite !level_at_snoc, IH. case_decide as D; subst.
      + rewrite decide_False by (intros Hc%(f_equal length); rewrite !length_app in Hc; cbn in Hc; lia).
        rewrite level_at_snoc, L0. cbn. rewrite N0. cbn. destruct (first e0) as [c |] eqn:F; [| done]. cbn.
        by rewrite New.
      + unfold down. destruct (level_at s q) as [l |] eqn:F; cbn.
        * rewrite E. case_decide as D1.
          -- injection D1 as -> ->. rewrite (level_at_inj _ _ _ _ W F L0), decide_True by done. done.
          -- rewrite decide_False; [done |]. intros [-> ->]%app_inj_tail. congruence.
        * rewrite decide_False; [done |]. intros [-> ->]%app_inj_tail. congruence. }
  intros q x. unfold cached. rewrite Hq. case_decide as D; subst.
  - rewrite decide_False; [| intros [= Hc _]; apply (f_equal length) in Hc; rewrite length_app in Hc; cbn in Hc; lia].
    rewrite level_at_snoc, L0. cbn. rewrite N0. cbn. destruct (first e0) as [c |] eqn:F; [| done]. cbn.
    by rewrite New.
  - destruct (level_at s q) as [l |] eqn:F; cbn; [rewrite E; case_decide as D1 |].
    + injection D1 as -> ->. rewrite (level_at_inj _ _ _ _ W F L0), decide_True by done. done.
    + rewrite decide_False; [done |]. intros [= -> ->]. congruence.
    + rewrite decide_False; [done |]. intros [= -> ->]. congruence.
Qed.

Lemma prefix_snoc (p q : list string) x :
  p `prefix_of` q ++ [x] <-> p = q ++ [x] \/ p `prefix_of` q.
Proof.
  split.
  - intros [k Hk]. destruct k as [| y k _] using rev_ind; [left; by rewrite app_nil_r in Hk |].
    right. rewrite app_assoc in Hk. apply app_inj_tail in Hk as [-> _]. by exists k.
  - intros [-> | Hp]; [done |]. by apply prefix_app_r.
Qed.

Lemma cached_cut s s' q0 l0 x0 :
  wf s -> level_at s q0 = Some l0 -> rootMap s' = rootMap s ->
  (forall l x, entry s' l x = if decide ((l, x) = (l0, x0)) then None else entry s l x) ->
  (forall q, level_at s' q = if decide (q0 ++ [x0] `prefix_of` q) then None else level_at s q) /\
  forall q x, cached s' q x = if decide (q0 ++ [x0] `prefix_of` q ++ [x]) then None else cached s q x.
Proof.
  intros W L0 R E.
  assert (Hd : forall q l x, level_at s q = Some l ->
    (l, x) = (l0, x0) <-> q0 ++ [x0] = q ++ [x]).
  { intros q l x F. split.
    - intros [= -> ->]. by rewrite (level_at_inj _ _ _ _ W F L0).
    - intros [-> ->]%app_inj_tail. congruence. }
  assert (Hq : forall q, level_at s' q = if decide (q0 ++ [x0] `prefix_of` q) then None else level_at s q).
  { intros q. induction q as [| x q IH] using rev_ind.
    - rewrite decide_False by (intros Hp%prefix_nil_inv; by destruct q0). unfold level_at. cbn. by rewrite R.
    - rewrite !level_at_snoc, IH. destruct (decide (q0 ++ [x0] `prefix_of` q)) as [D | D].
      + rewrite decide_True; [done |]. apply prefix_snoc. by right.
      + unfold down. destruct (level_at s q) as [l |] eqn:F; cbn; [| by case_decide]. rewrite E.
        destruct (decide ((l, x) = (l0, x0))) as [D1 | D1].
        * rewrite decide_True; [done |]. apply prefix_snoc. left. by apply (Hd q l x F).
        * rewrite decide_False; [done |]. rewrite prefix_snoc. rewrite <- (Hd q l x F). tauto. }
  split; [done |]. intros q x. unfold cached. rewrite Hq.
  destruct (decide (q0 ++ [x0] `prefix_of` q)) as [D | D].
  - rewrite decide_True; [done |]. apply prefix_snoc. by right.
  - destruct (level_at s q) as [l |] eqn:F; cbn; [| by case_decide]. rewrite E.
    destruct (decide ((l, x) = (l0, x0))) as [D1 | D1].
    + rewrite decide_True; [done |]. apply prefix_snoc. left. by apply (Hd q l x F).
    + rewrite decide_False; [done |]. rewrite prefix_snoc. rewrite <- (Hd q l x F). tauto.
Qed.

Lemma level_some s q l : wf s -> level_at s q = Some l -> is_Some (levels s !! l).
Proof. intros W L%level_at_below. eapply below_some; [exact W | by constructor | done]. Qed.

Lemma old_garbage s c : Some c ∈ garbage_old s -> c ∈ garbage s.
Proof. intros Hc. apply list_elem_of_omap. exists (Some c). split; [apply elem_of_app; by right | done]. Qed.

(** Nothing in the tree is below garbage. *)
Lemma root_not_garbage_in s r l c :
  wf_heap (levels s) (r ++ rootMap s :: garbage s) -> below (levels s) (rootMap s) l ->
  Some c ∈ garbage_old s -> ~ below (levels s) c l.
Proof.
  intros W Hl Hc%old_garbage Hb.
  assert (rootMap s = c).
  { eapply place_unique; [exact W | | | exact Hl | exact Hb]; apply elem_of_app; right; [by constructor |].
    by apply elem_of_cons; right. }
  subst c. pose proof (wf_roots_nodup _ _ W) as (_ & _ & N)%NoDup_app. by apply NoDup_cons in N as [N _].
Qed.

Lemma root_not_garbage s l c :
  wf s -> below (levels s) (rootMap s) l -> Some c ∈ garbage_old s -> ~ below (levels s) c l.
Proof. apply (root_not_garbage_in s []). Qed.

(** Freeing garbage does not change what is cached. *)
Lemma RegisterGC_cached g t1 t2 s s' :
  wf_heap (levels s) (omap id [g] ++ rootMap s :: garbage s) -> RegisterGC g t1 t2 s = Ok s' ->
  wf s' /\ rootMap s' = rootMap s /\ levels s' ⊆ levels s /\
  (forall q, level_at s' q = level_at s q) /\ (forall q x, cached s' q x = cached s q x).
Proof.
  intros W E. destruct (RegisterGC_ok g t1 t2 s W) as (s1 & E1 & W1 & R & Hs & Hk).
  rewrite E in E1. injection E1 as <-. split; [done |]. split; [done |]. split; [done |].
  apply level_at_agree; [done |].
  intros l x Hl. unfold entry. destruct Hk as [(-> & _) | (_ & _ & _ & _ & Hk)]; [done |].
  rewrite Hk; [done |]. intros c Hc. by eapply root_not_garbage_in.
Qed.

Lemma set_cached new q l x cred ino tp s :
  wf s -> level_at s q = Some l -> levels s !! new = None ->
  exists b c s', setPermission new (Some l) x cred ino tp s = Ok (b, c, s') /\ wf s' /\
    rootMap s' = rootMap s /\
    forall q' x', cached s' q' x' =
      if decide ((q', x') = (q, x))
      then Some (default (mk_entry (if tp =? Ownership.T_FILE then None else Some new) cred ino) (cached s q x))
      else cached s q' x'.
Proof.
  intros W L N. destruct (entry s l x) as [e |] eqn:E.
  - rewrite (set_old new (Some l) x cred ino tp s l e); [| done | done]. do 3 eexists. do 3 (split; [done |]).
    intros q' x'. case_decide as D; [| done]. injection D as -> ->. unfold cached. rewrite L. cbn. by rewrite E.
  - destruct (set_new new (Some l) x cred ino tp s l W N eq_refl (level_some _ _ _ W L) E)
      as (s' & -> & W' & (R & _) & Ent & Dom).
    do 3 eexists. do 3 (split; [done |]). intros q' x'.
    rewrite (cached_set s s' q l x _ W L E R Ent).
    + assert (C : cached s q x = None) by (unfold cached; by rewrite L). by rewrite C.
    + intros c y Hc. cbn in Hc. rewrite Ent. case_match; [done |]. injection Hc as <-. rewrite decide_False.
      * unfold entry. by rewrite N.
      * intros [= <- _]. by destruct (level_some _ _ _ W L); congruence.
Qed.

Lemma remove_cached q l x t1 t2 s :
  wf s -> level_at s q = Some l ->
  exists s', removePathInodeCacheItem (Some l) x t1 t2 s = Ok s' /\ wf s' /\ levels s' !! l <> None /\
    (forall l', levels s !! l' = None -> levels s' !! l' = None) /\
    (forall q', level_at s' q' = if decide (q ++ [x] `prefix_of` q') then None else level_at s q') /\
    forall q' x', cached s' q' x' = if decide (q ++ [x] `prefix_of` q' ++ [x']) then None else cached s q' x'.
Proof.
  intros W L. unfold removePathInodeCacheItem.
  assert (C : exists b e s1, deleteEntry (Some l) x (mk_entry None (0, 0) 0) s = Ok (b, e, s1) /\
    wf_heap (levels s1) (omap id [first e] ++ rootMap s1 :: garbage s1) /\ rootMap s1 = rootMap s /\
    dom (levels s1) = dom (levels s) /\
    (forall l' x', entry s1 l' x' = if decide ((l', x') = (l, x)) then None else entry s l' x')).
  { destruct (entry s l x) as [e |] eqn:E.
    - destruct (delete_some (Some l) x (mk_entry None (0, 0) 0) s l e W eq_refl E)
        as (s1 & -> & (R & G1 & G2 & _) & W1 & Ent & D).
      exists true, e, s1. unfold garbage. rewrite R, G1, G2. done.
    - rewrite (delete_none (Some l) x _ s l eq_refl (level_some _ _ _ W L) E).
      do 3 eexists. split; [done |]. cbn. split; [exact W |]. split; [done |]. split; [done |].
      intros l' x'. case_decide as D; [| done]. injection D as -> ->. done. }
  destruct C as (b & e & s1 & -> & W1 & R & D & Ent). cbn [res_bind].
  destruct (RegisterGC_ok (first e) t1 t2 s1 W1) as (s' & E' & _).
  destruct (RegisterGC_cached _ _ _ _ _ W1 E') as (W' & R' & Hs & HL & HC).
  destruct (cached_cut s s1 q l x W L R Ent) as [L1 C1].
  exists s'. split; [done |]. split; [done |].
  assert (L' : forall q', level_at s' q' = if decide (q ++ [x] `prefix_of` q') then None else level_at s q')
    by (intros q'; by rewrite HL, L1).
  split; [| split; [| split; [done | intros q' x'; by rewrite HC, C1]]].
  - assert (Lq : level_at s' q = Some l).
    { rewrite L', decide_False; [done |]. intros Hp%prefix_length. rewrite length_app in Hp. cbn in Hp. lia. }
    destruct (level_some _ _ _ W' Lq). congruence.
  - intros l' Hl. destruct (levels s' !! l') as [m |] eqn:F; [| done].
    pose proof (lookup_weaken _ _ _ _ F Hs) as F1. apply elem_of_dom_2 in F1. rewrite D in F1.
    apply elem_of_dom in F1 as [? ?]. congruence.
Qed.

(** ** Looking up and renaming *)

Lemma prefix_loop_ok src dst i :
  (i <= length src)%nat -> (length src <= length dst)%nat ->
  prefix_loop src dst i = Ok (bool_decide (take i src = take i dst)).
Proof.
  induction i as [| i IH]; intros Hi Hd; [by rewrite bool_decide_true |]. cbn [prefix_loop].
  destruct (lookup_lt_is_Some_2 src i) as [a Ha]; [lia |].
  destruct (lookup_lt_is_Some_2 dst i) as [b Hb]; [lia |].
  rewrite (proj2 (load_ok src (Z.of_nat i) a)) by (rewrite Nat2Z.id; auto with lia). cbn [res_bind].
  rewrite (proj2 (load_ok dst (Z.of_nat i) b)) by (rewrite Nat2Z.id; auto with lia). cbn [res_bind].
  rewrite (take_S_r src i a Ha), (take_S_r dst i b Hb).
  destruct (decide (a = b)) as [-> | Hne].
  - rewrite bool_decide_true by done. cbn [negb]. rewrite IH by lia. f_equal. apply bool_decide_ext.
    split; [by intros -> | by intros [? _]%app_inj_tail].
  - rewrite (bool_decide_false (a = b)) by done. cbn [negb]. f_equal. symmetry. apply bool_decide_false.
    by intros [_ ?]%app_inj_tail.
Qed.

Lemma isSrcPrefixOfDst_ok src dst :
  src <> [] -> dst <> [] -> isSrcPrefixOfDst src dst = Ok (bool_decide (src `prefix_of` dst)).
Proof.
  intros Hs Hd. unfold isSrcPrefixOfDst. rewrite (bool_decide_false (src = [])) by done. cbn [check negb res_bind].
  rewrite (bool_decide_false (dst = [])) by done. cbn [check negb res_bind]. case_if.
  - apply Nat.ltb_lt in Heqb. rewrite bool_decide_false; [done |]. intros Hp%prefix_length. lia.
  - apply Nat.ltb_ge in Heqb. rewrite prefix_loop_ok by lia. f_equal. apply bool_decide_ext.
    rewrite take_ge by lia. split.
    + intros ->. apply prefix_take.
    + intros [k ->]. by rewrite take_app_length.
Qed.

(** What the walk along a path assigns, when the path is that of [x] in the directory [q]. *)
Definition looked_up (s : FsPermission) (q : list string) (x : string) (o : found) : PCR * found :=
  let dir := removelast q in
  let o := match level_at s q with
           | None => o
           | Some l =>
               mk_found (Some l)
                 (match last q with
                  | Some y => entry_inode <$> cached s dir y
                  | None => parentInode o
                  end) (inode o)
           end in
  match cached s q x with
  | Some e => (OK, mk_found (parentMap o) (parentInode o) (Some (entry_inode e)))
  | None => (NOTFOUND, o)
  end.

Lemma check_last s l x o n i :
  is_Some (levels s !! l) -> 0 <= i < 2 ^ 63 -> n = i + 1 ->
  check_loop n i [x] (Some l) o s =
    Ok match entry s l x with
       | Some e => (OK, mk_found (parentMap o) (parentInode o) (Some (entry_inode e)))
       | None => (NOTFOUND, o)
       end.
Proof.
  intros [m Hm] Hi ->. cbn [check_loop]. rewrite (get_level_ok _ _ _ Hm). cbn [res_bind].
  unfold entry. rewrite Hm. cbn. destruct (find x m) as [e |]; [| done].
  replace (i + 1 - 1) with i by lia. rewrite (to_u64_small i), Z.eqb_refl by lia.
  destruct (Z.eqb_spec i (to_u64 (i + 1 - 2))) as [E | _]; [| done].
  exfalso. revert E. destruct (decide (i = 0)) as [-> |]; [done |]. rewrite to_u64_small by lia. lia.
Qed.

Lemma looked_up_none s q x o : level_at s q = None -> looked_up s q x o = (NOTFOUND, o).
Proof. intros E. unfold looked_up, cached. rewrite E. done. Qed.

Lemma level_at_app s p q : level_at s (p ++ q) = foldl (down s) (level_at s p) q.
Proof. unfold level_at. apply foldl_app. Qed.

Lemma down_none s q : foldl (down s) None q = None.
Proof. by induction q. Qed.

(** One step of the walk, on a map that is allocated. *)
Lemma check_cons n i y path l o s :
  is_Some (levels s !! l) ->
  check_loop n i (y :: path) (Some l) o s =
    match entry s l y with
    | None => Ok (NOTFOUND, o)
    | Some e =>
        check_loop n (i + 1) path (first e)
          (if i =? to_u64 (n - 2) then mk_found (first e) (Some (entry_inode e)) (inode o)
           else if i =? to_u64 (n - 1)
           then mk_found (parentMap o) (parentInode o) (Some (entry_inode e))
           else o) s
    end.
Proof.
  intros [m Hm]. cbn [check_loop]. rewrite (get_level_ok _ _ _ Hm). unfold entry. by rewrite Hm.
Qed.

Lemma level_at_stop s p y rest l :
  level_at s p = Some l -> entry s l y = None -> level_at s (p ++ y :: rest) = None.
Proof.
  intros L E. rewrite level_at_app. cbn [foldl].
  assert (D : down s (level_at s p) y = None) by (rewrite L; cbn; by rewrite E).
  rewrite D. apply down_none.
Qed.

Lemma check_step s p y rest x l o n :
  wf s -> level_at s p = Some l -> n = Z.of_nat (length p + length rest) + 2 -> n < 2 ^ 63 ->
  (forall p' y' e, p' ++ [y'] `prefix_of` p ++ y :: rest -> cached s p' y' = Some e -> first e <> None) ->
  check_loop n (Z.of_nat (length p)) (y :: rest ++ [x]) (Some l) o s =
    Ok (looked_up s (p ++ y :: rest) x o).
Proof.
  intros W. revert p y l o. induction rest as [| z rest IH]; intros p y l o L Hn Hb Hf;
    cbn [app]; rewrite check_cons by (by eapply level_some);
    (destruct (entry s l y) as [e |] eqn:Em;
     [| rewrite looked_up_none; [done |]; by eapply level_at_stop]).
  - cbn [length] in Hn. rewrite to_u64_small, (proj2 (Z.eqb_eq _ _)) by lia.
    assert (Ce : cached s p y = Some e) by (unfold cached; by rewrite L).
    destruct (first e) as [c |] eqn:Fe; [| by edestruct (Hf p y e)].
    assert (Lc : level_at s (p ++ [y]) = Some c) by (rewrite level_at_snoc, L; cbn; by rewrite Em).
    rewrite check_last; [| by eapply level_some | lia | lia].
    assert (Cx : cached s (p ++ [y]) x = entry s c x) by (unfold cached; by rewrite Lc).
    unfold looked_up. rewrite Cx, Lc, last_snoc, removelast_last, Ce. cbn. by destruct (entry s c x).
  - rewrite to_u64_small by (cbn in Hn; lia). rewrite (proj2 (Z.eqb_neq _ _)) by (cbn in Hn; lia).
    rewrite to_u64_small by (cbn in Hn; lia). rewrite (proj2 (Z.eqb_neq _ _)) by (cbn in Hn; lia).
    destruct (first e) as [c |] eqn:Fe;
      [| by edestruct (Hf p y e); [exists (z :: rest); by rewrite <- app_assoc | unfold cached; rewrite L |]].
    replace (Z.of_nat (length p) + 1) with (Z.of_nat (length (p ++ [y]))) by (rewrite length_app; cbn; lia).
    replace (p ++ y :: z :: rest) with ((p ++ [y]) ++ z :: rest) in * by (by rewrite <- app_assoc).
    apply (IH (p ++ [y]) z c); [rewrite level_at_snoc, L; cbn; by rewrite Em | | done | done].
    rewrite length_app. cbn in *. lia.
Qed.

(** C21. A path whose directories are not files is found exactly when it is cached, with its
    inode and with the map and the inode of its directory; otherwise the answer is that it is
    not found, and what is known of the directory is assigned. *)
Theorem checkPermission_correct s q x cred o :
  wf s -> Z.of_nat (length q) < 2 ^ 62 ->
  (forall p y e, p ++ [y] `prefix_of` q -> cached s p y = Some e -> first e <> None) ->
  checkPermission (q ++ [x]) cred o s = Ok (looked_up s q x o).
Proof.
  intros W Hb Hf. unfold checkPermission. cbv zeta. rewrite length_app. cbn [length]. destruct q as [| y q].
  - assert (Hr : is_Some (levels s !! rootMap s)) by (eapply wf_roots; [exact W | by constructor]).
    cbn [app]. rewrite check_last; [| done | lia | done].
    unfold looked_up, cached, level_at. cbn. by destruct (entry s (rootMap s) x).
  - rewrite (proj2 (Z.eqb_neq _ _)) by (cbn [length]; lia).
    apply (check_step s [] y q x); [done | done | cbn [length]; lia | cbn [length] in *; lia | done].
Qed.

Lemma check_walk s p l l' n i path o :
  wf s -> below (levels s) (rootMap s) l -> foldl (down s) (Some l) p = Some l' ->
  exists i' o', check_loop n i (p ++ path) (Some l) o s = check_loop n i' path (Some l') o' s.
Proof.
  intros W. revert l i o. induction p as [| y p IH]; intros l i o Hl E; cbn in E.
  - injection E as ->. by eexists _, _.
  - cbn [app]. rewrite check_cons by (eapply below_some; [exact W | by constructor | done]).
    destruct (entry s l y) as [e |] eqn:F; cbn in E; [| by rewrite down_none in E].
    destruct (first e) as [c |] eqn:Fe; [| by rewrite down_none in E].
    apply (IH c); [| done]. apply (below_edge _ _ l y c); [exact Hl |].
    change (entry s l y ≫= first = Some c). by rewrite F.
Qed.

(** A path through a cached file follows its null pointer. *)
Theorem path_through_file_fails s p y e q x cred o :
  wf s -> cached s p y = Some e -> first e = None -> p ++ [y] `prefix_of` q ->
  checkPermission (q ++ [x]) cred o s = Crash OutOfRange.
Proof.
  intros W C Fe [k ->]. unfold checkPermission. cbv zeta. rewrite <- !app_assoc. cbn [app].
  unfold cached in C. destruct (level_at s p) as [l |] eqn:L; [| done]. cbn in C.
  edestruct (check_walk s p (rootMap s) l) as (i' & o' & ->); [done | constructor | exact L |].
  rewrite check_cons by (by eapply level_some). rewrite C, Fe. by destruct k.
Qed.

(** A rename moves the entry of the path: the old path is no longer found, nor is
    anything below it, the new path has the inode of the old one, and all other paths are
    as before. *)
Lemma rename_moves_path new qs ls x qd ld y dstExist cred ino tp t1 t2 t3 t4 s :
  wf s -> level_at s qs = Some ls -> level_at s qd = Some ld -> levels s !! new = None ->
  isSrcPrefixOfDst (qs ++ [x]) (qd ++ [y]) = Ok false -> ~ qd ++ [y] `prefix_of` qs ->
  (dstExist = false -> cached s qd y = None) ->
  exists s', rename_path new (Some ls) (Some ld) x y dstExist cred ino tp t1 t2 t3 t4 s = Ok s' /\ wf s' /\
    (forall q z, qs ++ [x] `prefix_of` q ++ [z] -> cached s' q z = None) /\
    cached s' qd y = Some (mk_entry (if tp =? Ownership.T_FILE then None else Some new) cred ino) /\
    (forall q z, ~ qs ++ [x] `prefix_of` q ++ [z] -> ~ qd ++ [y] `prefix_of` q ++ [z] ->
       cached s' q z = cached s q z).
Proof.
  intros W Ls Ld Hn Hp Ha Hd.
  rewrite isSrcPrefixOfDst_ok in Hp by (by destruct qs, qd). injection Hp as Hp. apply bool_decide_eq_false in Hp.
  unfold rename_path.
  assert (H1 : exists s1, (if dstExist then removePathInodeCacheItem (Some ld) y t1 t2 s else Ok s) = Ok s1 /\ wf s1 /\
    levels s1 !! new = None /\ level_at s1 qs = Some ls /\ level_at s1 qd = Some ld /\ cached s1 qd y = None /\
    forall q z, ~ qd ++ [y] `prefix_of` q ++ [z] -> cached s1 q z = cached s q z).
  { destruct dstExist; [| exists s; naive_solver].
    destruct (remove_cached qd ld y t1 t2 s W Ld) as (s1 & E & W1 & _ & N1 & L1 & C1).
    exists s1. rewrite !L1, !C1. rewrite decide_False by done. rewrite decide_False.
    - rewrite decide_True by done. repeat (split; [by auto |]). intros q z Hq. by rewrite C1, decide_False.
    - intros Hl%prefix_length. rewrite length_app in Hl. cbn in Hl. lia. }
  destruct H1 as (s1 & -> & W1 & N1 & Ls1 & Ld1 & C1 & K1). cbn [res_bind].
  destruct (set_cached new qd ld y cred ino tp s1 W1 Ld1 N1) as (b & c & s2 & -> & W2 & R2 & C2). cbn [res_bind].
  assert (Ls2 : level_at s2 qs = Some ls).
  { rewrite <- Ls1. destruct qs as [| z qs _] using rev_ind; [unfold level_at; cbn; by rewrite R2 |].
    rewrite !level_at_cached, C2, decide_False; [done |]. intros [= -> ->]. by apply Ha. }
  destruct (remove_cached qs ls x t3 t4 s2 W2 Ls2) as (s3 & E3 & W3 & _ & _ & _ & C3).
  exists s3. split; [done |]. split; [done |]. split; [| split].
  - intros q z Hq. by rewrite C3, decide_True.
  - rewrite C3, decide_False, C2, decide_True, C1 by done. done.
  - intros q z Hs Hq. rewrite C3, decide_False, C2, decide_False; [auto | | done]. by intros [= -> ->].
Qed.

(** ** The grace period *)

(** A request that began at [t0] is at a map in the tree, or at one that was taken out of it
    later: below a map that was registered as garbage at the time [T] gives. *)
Definition placed (s : FsPermission) (T : Z -> Z) (d : holder) : Prop :=
  below (levels s) (rootMap s) (at_level d) \/
  exists g, g ∈ garbage s /\ below (levels s) g (at_level d) /\ start d <= T g.

Record timed (s : FsPermission) (t : Z) (T : Z -> Z) (hs : gmap Z holder) : Prop := {
  ti_wf : wf s;
  ti_time : 0 <= garbage_last_time s <= t /\ t < 2 ^ 64;
  ti_old g : Some g ∈ garbage_old s -> T g <= garbage_last_time s;
  ti_garbage g : g ∈ garbage s -> T g <= t;
  ti_start r d : hs !! r = Some d -> start d <= t;
  ti_placed r d : hs !! r = Some d -> alive t d -> placed s T d
}.

Lemma placed_some s T d : wf s -> placed s T d -> is_Some (levels s !! at_level d).
Proof.
  intros W [Hb | (g & Hg & Hb & _)]; (eapply below_some; [exact W | | exact Hb]); [by constructor |].
  by apply elem_of_cons; right.
Qed.

Lemma placed_mono s s' T d :
  rootMap s' = rootMap s -> garbage s' = garbage s ->
  (forall l x c, edge (levels s) l x c -> edge (levels s') l x c) -> placed s T d -> placed s' T d.
Proof.
  intros R G E. unfold placed. rewrite R, G.
  intros [Hb | (g & Hg & Hb & Hs)]; [left | right; exists g; split; [done | split; [| done]]];
    by eapply below_mono.
Qed.

(** The edge that is cut is on the way to a map, or it is not. *)
Lemma below_cut h h' c0 a l :
  (forall l x c, edge h l x c -> edge h' l x c \/ c = c0) -> below h a l -> below h' a l \/ below h' c0 l.
Proof.
  intros E. induction 1 as [| l x c _ IH Hx]; [left; constructor |].
  destruct (E _ _ _ Hx) as [Hx' | ->]; [| right; constructor].
  destruct IH; [left | right]; by econstructor.
Qed.

(** What is not below the maps that are freed keeps its place. *)
Lemma below_kept h h' r a l :
  wf_heap h r -> a ∈ r -> (forall c, below h a c -> h' !! c = h !! c) -> below h a l -> below h' a l.
Proof.
  intros W Ha K. induction 1 as [| l x c Hl IH Hx]; [constructor |].
  econstructor; [by apply IH |]. unfold edge in *. rewrite K by done. exact Hx.
Qed.

Lemma below_collected s r h' a l :
  wf_heap (levels s) (r ++ rootMap s :: garbage s) -> a ∈ r ++ rootMap s :: garbage s ->
  Some a ∉ garbage_old s ->
  (forall l, (forall c, Some c ∈ garbage_old s -> ~ below (levels s) c l) -> h' !! l = levels s !! l) ->
  below (levels s) a l -> below h' a l.
Proof.
  intros W Ha Hn K. apply (below_kept _ _ _ _ _ W Ha). intros c Hc. apply K. intros b Hb Hbc.
  assert (a = b) as ->; [| done]. eapply place_unique; [exact W | done | | exact Hc | exact Hbc].
  apply elem_of_app. right. apply elem_of_cons. right. by apply old_garbage.
Qed.

(** What is registered or was, and is not old, is the new garbage. *)
Lemma new_garbage s g c :
  c ∈ omap id [g] ++ garbage s -> Some c ∉ garbage_old s -> c ∈ omap id (garbage_new s ++ [g]).
Proof.
  intros Hc Hn. rewrite omap_app, elem_of_app. apply elem_of_app in Hc as [Hc | Hc]; [by right | left].
  apply list_elem_of_omap in Hc as ([c' |] & [Hc | Hc]%elem_of_app & E); cbn in E; try done; injection E as ->;
    [apply list_elem_of_omap; by exists (Some c) | done].
Qed.

(** Registering a map at the present time, with the edge to it cut. *)
Lemma timed_register s s' g t t1 t2 T hs :
  wf_heap (levels s) (omap id [g] ++ rootMap s :: garbage s) ->
  0 <= garbage_last_time s <= t -> t <= t1 <= t2 -> t2 < 2 ^ 64 ->
  (forall c, Some c ∈ garbage_old s -> T c <= garbage_last_time s) ->
  (forall c, c ∈ garbage s -> T c <= t) -> (forall c, g = Some c -> T c <= t) ->
  (forall r d, hs !! r = Some d -> start d <= t) ->
  (forall r d, hs !! r = Some d -> alive t d ->
     below (levels s) (rootMap s) (at_level d) \/
     exists c, c ∈ omap id [g] ++ garbage s /\ below (levels s) c (at_level d) /\ start d <= T c) ->
  RegisterGC g t1 t2 s = Ok s' -> timed s' t2 T hs.
Proof.
  intros W Hl Ht Hb Ho Hg Hn Hs Hp E.
  destruct (RegisterGC_ok g t1 t2 s W) as (s1 & E1 & W' & R & Hsub & Hk). rewrite E in E1. injection E1 as <-.
  assert (G : forall c, c ∈ omap id (garbage_new s ++ [g]) -> c ∈ garbage s \/ g = Some c).
  { intros c. rewrite omap_app. unfold garbage. rewrite omap_app. destruct g; cbn; set_solver. }
  destruct Hk as [(L & Gn & Go & Gl) | (Hk & Gn & Go & Gl & Hk')].
  - assert (Gs : garbage s' ≡ₚ omap id [g] ++ garbage s).
    { unfold garbage. rewrite Gn, Go, !omap_app. solve_Permutation. }
    split; [done | rewrite Gl; lia | rewrite Go, Gl; auto | | |].
    + intros c. rewrite Gs, elem_of_app. intros [Hc | Hc].
      * destruct g; cbn in Hc; [| by apply elem_of_nil in Hc]. apply list_elem_of_singleton in Hc as ->.
        transitivity t; [by apply Hn | lia].
      * specialize (Hg c Hc). lia.
    + intros r d Hd. specialize (Hs r d Hd). lia.
    + intros r d Hd Ha. unfold placed. rewrite L, R. destruct (Hp r d Hd) as [? | (c & Hc & ?)];
        [unfold alive in *; lia | by left |]. right. exists c. by rewrite Gs.
  - assert (Gs : garbage s' = omap id (garbage_new s ++ [g])) by (unfold garbage; by rewrite Gn, Go).
    assert (Tg : forall c, c ∈ garbage s' -> T c <= t).
    { intros c. rewrite Gs. intros [Hc | Hc]%G; auto. }
    split; [done | rewrite Gl; lia | | | |].
    + intros c Hc. rewrite Gl. transitivity t; [| lia]. apply Tg. unfold garbage. rewrite Gn. cbn.
      apply list_elem_of_omap. by exists (Some c).
    + intros c Hc. specialize (Tg c Hc). lia.
    + intros r d Hd. specialize (Hs r d Hd). lia.
    + intros r d Hd Ha. rewrite to_u64_small in Hk by lia.
      destruct (Hp r d Hd) as [Hr | (c & Hc & Hbl & Hst)]; [unfold alive in *; lia | left | right].
      * rewrite R. eapply below_collected; [exact W | | | exact Hk' | done]; [apply elem_of_app; right; by constructor |].
        intros Hro. by eapply root_not_garbage_in; [exact W | constructor | exact Hro | constructor].
      * assert (Hno : Some c ∉ garbage_old s)
          by (intros Hco; specialize (Ho c Hco); unfold alive in Ha; lia).
        exists c. rewrite Gs. split; [by apply new_garbage | split; [| done]].
        eapply below_collected; [exact W | | exact Hno | exact Hk' | done].
        apply elem_of_app in Hc as [Hc | Hc]; apply elem_of_app; [by left | right].
        by apply elem_of_cons; right.
Qed.

Lemma delete_below s s1 l x e a k :
  entry s l x = Some e ->
  (forall l' x', entry s1 l' x' = if decide ((l', x') = (l, x)) then None else entry s l' x') ->
  below (levels s) a k -> below (levels s1) a k \/ exists c, first e = Some c /\ below (levels s1) c k.
Proof.
  intros E Ent Hb.
  assert (Ed : forall l' x' c, edge (levels s) l' x' c -> edge (levels s1) l' x' c \/ first e = Some c).
  { intros l' x' c Hx. change (entry s1 l' x' ≫= first = Some c \/ first e = Some c). rewrite Ent.
    change (entry s l' x' ≫= first = Some c) in Hx. case_decide as D; [| by left].
    injection D as -> ->. rewrite E in Hx. by right. }
  destruct (first e) as [c |].
  - destruct (below_cut (levels s) (levels s1) c a k) as [? | ?]; [| done | by left | right; eauto].
    intros l' x' c' [? | [= ->]]%Ed; [by left | by right].
  - left. eapply below_mono; [| exact Hb]. by intros l' x' c' [? | ?]%Ed.
Qed.

Lemma timed_remove l x t1 t2 s s' t T hs :
  timed s t T hs -> is_Some (levels s !! l) -> t <= t1 <= t2 -> t2 < 2 ^ 64 ->
  removePathInodeCacheItem (Some l) x t1 t2 s = Ok s' -> exists T', timed s' t2 T' hs.
Proof.
  intros [W Ht Ho Hg Hs Hp] Hl Ht1 Ht2. unfold removePathInodeCacheItem.
  destruct (entry s l x) as [e |] eqn:E.
  - destruct (delete_some (Some l) x (mk_entry None (0, 0) 0) s l e W eq_refl E)
      as (s1 & -> & (R & G1 & G2 & G3) & W1 & Ent & D). cbn [res_bind]. intros Er.
    assert (G : garbage s1 = garbage s) by (unfold garbage; by rewrite G1, G2).
    set (T' := fun c => if decide (first e = Some c) then t else T c). exists T'.
    assert (HT : forall c, c ∈ garbage s -> T' c = T c).
    { intros c Hc. unfold T'. rewrite decide_False; [done |]. intros Ec.
      assert (Ed : edge (levels s) l x c) by (change (entry s l x ≫= first = Some c); by rewrite E).
      destruct (wf_edge _ _ W _ _ _ Ed) as [_ Hn]. apply Hn. by apply elem_of_cons; right. }
    assert (HTo : forall c, Some c ∈ garbage_old s -> T' c = T c).
    { intros c Hc. by apply HT, old_garbage. }
    eapply (timed_register s1 s' (first e) t t1 t2 T' hs); try done.
    + by rewrite R, G.
    + rewrite G3. lia.
    + intros c. rewrite G2, G3. intros Hc. rewrite HTo by done. auto.
    + intros c. rewrite G. intros Hc. rewrite HT by done. auto.
    + intros c Hc. unfold T'. rewrite decide_True by done. lia.
    + intros r d Hd Ha. rewrite R, G.
      assert (New : forall c, first e = Some c -> below (levels s1) c (at_level d) ->
        exists c, c ∈ omap id [first e] ++ garbage s /\ below (levels s1) c (at_level d) /\ start d <= T' c).
      { intros c Ec Hb. exists c. rewrite Ec. split; [apply elem_of_app; left; constructor |]. split; [done |].
        unfold T'. rewrite decide_True by done. eauto. }
      destruct (Hp r d Hd Ha) as [Hb | (g & Hgg & Hb & Hst)]; apply (delete_below _ _ _ _ _ _ _ E Ent) in Hb as [Hb | (c & Ec & Hb)]; eauto.
      right. exists g. rewrite HT by done. split; [apply elem_of_app; by right | done].
  - rewrite (delete_none (Some l) x _ s l eq_refl Hl E). cbn [res_bind first]. intros Er. exists T.
    eapply (timed_register s s' None t t1 t2 T hs); try done. lia.
Qed.

Lemma timed_step c c' T :
  timed (cache c) (now c) T (holders c) -> step c c' -> exists T', timed (cache c') (now c') T' (holders c').
Proof.
  intros I Hst. pose proof I as [W Ht Ho Hg Hs Hp]. destruct Hst as
    [t Ht' | r | r d x m e l Hd Ha Hm Hf Hl | r d new x cred ino tp b l s' Hd Ha Hn E | r d x t1 t2 s' Hd Ha Ht1 Ht2 E];
    cbn [cache now holders].
  - exists T. split; try done; [lia | | |].
    + intros g Hg'. specialize (Hg g Hg'). lia.
    + intros r d Hd. specialize (Hs r d Hd). lia.
    + intros r d Hd Ha. apply (Hp r d Hd). unfold alive in *. lia.
  - exists T. split; try done; intros r' d; rewrite lookup_insert_Some; intros [[_ <-] | [_ Hd]]; cbn; eauto with lia.
    intros _. left. constructor.
  - exists T. split; try done; intros r' d'; rewrite lookup_insert_Some; intros [[_ <-] | [_ Hd']]; cbn; eauto.
    intros Ha'. unfold get_level in Hm. cbn in Hm. destruct (levels (cache c) !! at_level d) as [m' |] eqn:F; [| done].
    injection Hm as ->.
    assert (Ed : edge (levels (cache c)) (at_level d) x l) by (unfold edge; rewrite F; cbn; by rewrite Hf).
    destruct (Hp r d Hd Ha) as [Hb | (g & Hgg & Hb & Hst)]; [left | right; exists g; split; [done | split; [| done]]];
      by econstructor.
  - exists T. pose proof (placed_some _ _ _ W (Hp r d Hd Ha)) as Hl.
    destruct (entry (cache c) (at_level d) x) as [e |] eqn:En.
    + rewrite (set_old new (Some (at_level d)) x cred ino tp _ _ e eq_refl En) in E. by injection E as <- <- <-.
    + destruct (set_new new (Some (at_level d)) x cred ino tp _ _ W Hn eq_refl Hl En)
        as (s1 & E1 & W1 & (R & G1 & G2 & G3) & Ent & _).
      rewrite E in E1. injection E1 as _ _ <-. cbn in *.
      assert (G : garbage s' = garbage (cache c)) by (unfold garbage; by rewrite G1, G2).
      split; [done | by rewrite G3 | by rewrite G2, G3 | by rewrite G | done |].
      intros r' d' Hd' Ha'. eapply placed_mono; [done | done | | by apply (Hp r')].
      intros l' x' c' Hx. change (entry s' l' x' ≫= first = Some c'). rewrite Ent.
      change (entry (cache c) l' x' ≫= first = Some c') in Hx. case_decide as D; [| done].
      injection D as -> ->. by rewrite En in Hx.
  - eapply timed_remove; [exact I | by eapply placed_some, (Hp r d) | exact Ht1 | done | exact E].
Qed.

Lemma wf_init root : wf_heap {[root := empty]} [root].
Proof.
  assert (N : forall l x c, ~ edge {[root := empty]} l x c).
  { intros l x c. unfold edge. destruct (decide (l = root)) as [-> |].
    - rewrite lookup_singleton_eq. cbn. by rewrite find_empty.
    - by rewrite lookup_singleton_ne. }
  split.
  - apply NoDup_singleton.
  - intros c ->%list_elem_of_singleton. rewrite lookup_singleton_eq. eauto.
  - intros l x c E. by apply N in E.
  - intros l x l' x' c E. by apply N in E.
  - intros c [m E]. left. apply list_elem_of_singleton. destruct (decide (c = root)); [done |].
    by rewrite lookup_singleton_ne in E.
  - exists (fun _ => 0%nat). intros l x c E. by apply N in E.
Qed.

Lemma reachable_timed c : reachable c -> exists T, timed (cache c) (now c) T (holders c).
Proof.
  induction 1 as [root t Ht | c c' _ (T & I) Hst]; [| by eapply timed_step].
  exists (fun _ => 0). split; cbn [cache now holders]; [apply wf_init | cbn; lia | | | |];
    first [by intros ? ?%elem_of_nil | intros ? ?; by rewrite lookup_empty].
Qed.

Lemma reach_to c c' c'' : reachable c -> step c c' -> c' = c'' -> reachable c''.
Proof. intros R S <-. by eapply reach_step. Qed.

Lemma reachable_wf c : reachable c -> wf (cache c).
Proof. by intros (T & [])%reachable_timed. Qed.

(** C19. A request that uses the cache within the grace period never touches a map that has
    been freed, whatever the primary and other requests do meanwhile. *)
Theorem readers_never_dangle c r d :
  reachable c -> holders c !! r = Some d -> alive (now c) d ->
  exists m, get_level (Some (at_level d)) (cache c) = Ok m.
Proof.
  intros (T & [W _ _ _ _ Hp])%reachable_timed Hd Ha.
  destruct (placed_some _ _ _ W (Hp r d Hd Ha)) as [m Hm]. exists m. by apply get_level_ok.
Qed.

Lemma garbage_collect_kept s :
  wf s -> exists s', garbage_collect s = Ok s' /\ wf s' /\
    garbage_new s' = [] /\ garbage s' = omap id (garbage_new s) /\
    (forall q, level_at s' q = level_at s q) /\ (forall q x, cached s' q x = cached s q x).
Proof.
  intros W. destruct (garbage_collect_ok s W) as (s' & E & W' & R & _ & Gn & Go & K).
  exists s'. do 3 (split; [done |]). split; [unfold garbage; by rewrite Gn, Go |].
  apply level_at_agree; [done |]. intros l x Hl. unfold entry. rewrite K; [done |]. intros c Hc Hb.
  exact (root_not_garbage s l c W Hl Hc Hb).
Qed.

(** C20. No map is lost and none is freed twice: in every reachable state two collections
    succeed, and leave exactly the maps of the directories that are cached. *)
Theorem garbage_is_freed c :
  reachable c -> exists s1 s2, garbage_collect (cache c) = Ok s1 /\ garbage_collect s1 = Ok s2 /\
    (forall l, is_Some (levels s2 !! l) <-> exists q, level_at (cache c) q = Some l) /\
    forall q x, cached s2 q x = cached (cache c) q x.
Proof.
  intros (T & [W _ _ _ _ _])%reachable_timed. revert W. generalize (cache c). intros s W.
  destruct (garbage_collect_kept s W) as (s1 & E1 & W1 & N1 & _ & H1).
  destruct (garbage_collect_kept s1 W1) as (s2 & E2 & W2 & _ & G2 & H2). rewrite N1 in G2.
  exists s1, s2. split; [done |]. split; [done |].
  assert (L : forall q, level_at s2 q = level_at s q) by (intros q; rewrite (proj1 H2); apply (proj1 H1)).
  split; [| intros q x; rewrite (proj2 H2); apply (proj2 H1)].
  intros l. split.
  - intros Hl. destruct (place_exists _ _ _ W2 Hl) as (a & [-> | Ha]%elem_of_cons & Hb).
    + apply below_level_at in Hb as (q & Hq). exists q. by rewrite <- L.
    + rewrite G2 in Ha. by apply elem_of_nil in Ha.
  - intros (q & Hq). rewrite <- L in Hq. by eapply level_some.
Qed.

End Cache.

(** ** An example

    The directory [a], with the file [f] in it, is cached by one request; another one is at
    the map of [a] when the first removes it. *)

Definition ex_map : Type := gmap string MapEntry.
Definition ex_heap : gmap Z ex_map :=
  {[1 := {["a"%string := mk_entry (Some 2) (0, 0) 20]};
    2 := {["f"%string := mk_entry None (0, 0) 30]}]}.
Definition ex_cached : csys :=
  mk_csys (mk_perm ex_heap 1 [] [] 0) 100 {[5 := mk_holder 100 2; 6 := mk_holder 100 1]}.
Definition ex_removed : csys :=
  mk_csys (mk_perm (<[1 := ∅]> ex_heap) 1 [Some 2] [] 0) 200 {[5 := mk_holder 100 2; 6 := mk_holder 100 1]}.

Lemma ex_cached_reachable : reachable ex_cached.
Proof.
  assert (R : reachable (mk_csys (mk_perm {[1 := (∅ : ex_map)]} 1 [] [] 0) 100 ∅)) 
    by (apply (reach_init (HM := gmap_hash_map) 1 100); lia).
  eapply reach_to in R; [| apply (step_begin _ 5) | vm_compute; reflexivity].
  eapply reach_to in R;
    [| eapply (step_set _ 5 _ 2 "a"%string (0, 0) 20 1); [reflexivity | done | reflexivity | vm_compute; reflexivity]
     | vm_compute; reflexivity].
  eapply reach_to in R;
    [| eapply (step_down _ 5 _ "a"%string); [reflexivity | done | reflexivity | reflexivity | reflexivity]
     | vm_compute; reflexivity].
  eapply reach_to in R;
    [| eapply (step_set _ 5 _ 3 "f"%string (0, 0) 30 2); [reflexivity | done | reflexivity | vm_compute; reflexivity]
     | vm_compute; reflexivity].
  eapply reach_to; [exact R | apply (step_begin _ 6) | vm_compute; reflexivity].
Qed.

Lemma ex_removed_reachable : reachable ex_removed.
Proof.
  eapply reach_to; [apply ex_cached_reachable | | ].
  - eapply (step_remove _ 6 _ "a"%string 200 200); [reflexivity | done | cbn; lia | lia | vm_compute; reflexivity].
  - vm_compute. reflexivity.
Qed.

Lemma checkPermission_correct_witness :
  checkPermission ["a"%string; "f"%string] (0, 0) (mk_found None None None) (cache ex_cached) =
    Ok (OK, mk_found (Some 2) (Some 20) (Some 30)).
Proof.
  rewrite (checkPermission_correct (cache ex_cached) ["a"%string] "f"%string (0, 0) (mk_found None None None)).
  - reflexivity.
  - apply reachable_wf, ex_cached_reachable.
  - cbn. lia.
  - intros p y e [k Hk] C Hn. destruct p as [| z p]; [| by destruct p].
    injection Hk as <- _. vm_compute in C. injection C as <-. discriminate.
Defined.

(** The second request is still at the map that was taken out. *)
Lemma readers_never_dangle_witness :
  Some 2 ∈ garbage_new (cache ex_removed) /\ exists m, get_level (Some 2) (cache ex_removed) = Ok m.
Proof.
  split; [by constructor |].
  apply (readers_never_dangle ex_removed 5 (mk_holder 100 2)); [apply ex_removed_reachable | reflexivity | done].
Defined.

Lemma garbage_is_freed_witness :
  exists s1 s2, garbage_collect (cache ex_removed) = Ok s1 /\ garbage_collect s1 = Ok s2 /\
    (forall l, is_Some (levels s2 !! l) <-> exists q, level_at (cache ex_removed) q = Some l) /\
    forall q x, cached s2 q x = cached (cache ex_removed) q x.
Proof. exact (garbage_is_freed ex_removed ex_removed_reachable). Defined.

End PathCache.
