(* ===== verification/DataPath.v ===== *)
(** The data of files: [readInode], [readInodeToUCache], [writeInodeAllocDataBlock],
    [writeInode], [writeInodeAndSaveDataBlockInfo] and [writeEntireInode] of
    FsProc_FsImpl.cc, over the cache of data blocks and the allocation of blocks.

    A read or a write that needs blocks of the device stops, and is called again when the
    blocks have been read; the addresses of the parts that are done are remembered in the
    request.  The theorems relate the bytes a read delivers, and the bytes a write leaves,
    to the contents of the file, across any number of such calls. *)

From Stdlib Require Import ZArith List Bool Lia.
From stdpp Require Import base gmap list.
From S2P Require Import Prelude Unordered Layout InodeLog BlockBuf FsCache Alloc.
Import ListNotations.
Open Scope Z_scope.

Module DataPath.
Import Layout BlockBuf FsCache Alloc.

Section Operations.
Context {cfg : ExtentConfig}.

(** Part of a block or a buffer, and [memcpy] from it. *)
Definition slice (l : list Z) (off n : Z) : list Z := take (Z.to_nat n) (drop (Z.to_nat off) l).
Definition read_at (l : list Z) (off n : Z) : res (list Z) :=
  if off + n <=? Z.of_nat (length l) then Ok (slice l off n) else Crash OutOfRange.

(** [extentPtr->block_no + cur_inside_extent_idx] *)
Definition data_block (d : cfs_dinode) (extIdx inside : Z) : res Z :=
  let! x := load (ext_array d) extIdx in
  Ok (to_u32 (block_no x + inside)).

(** [getBlockForIndex] for a block of the file. *)
Definition getBlockForIndex (dataBlockNo : Z) (doSubmit : bool) (d : cfs_dinode)
    (c : cache) (r : FsReq) : res (Z * bool * cache * FsReq) :=
  fs_getBlock false (to_u32 (get_data_start_block + dataBlockNo)) doSubmit (i_no d) c r.

(** The rest of the block at [off], or of the request. *)
Definition chunk (realBytes tot off : Z) : Z := Z.min (realBytes - tot) (BSIZE - off mod BSIZE).

(** The loop of [readInode]; the results are [rioNum] and the buffer at [dst]. *)
Fixpoint read_loop (fuel : nat) (d : cfs_dinode) (dst : Z) (nocpy : bool)
    (realBytes tot off rioNum : Z) (buf : list Z) (c : cache) (r : FsReq)
    : res (Z * list Z * cache * FsReq) :=
  if tot <? realBytes then
    match fuel with
    | O => Crash NoFuel
    | S fuel' =>
        let blockIdx := to_u32 (off / BSIZE) in
        let m := chunk realBytes tot off in
        let next := read_loop fuel' d dst nocpy realBytes (tot + m) (to_u64 (off + m)) in
        if negb (dst =? 0) && getBlockIoDone (dst + tot) r then next rioNum buf c r
        else
          let '(extIdx, inside, _) := getCurrentExtentArrIdx blockIdx in
          if extIdx <? 0 then Crash AssertFail
          else
            let! dataBlockNo := data_block d extIdx inside in
            let! (i, _, c, r) := getBlockForIndex dataBlockNo true d c r in
            let! it := get_item (c_heap c) i in
            if inMem it then
              let! buf :=
                if negb nocpy then
                  let! bs := mem_of c i in
                  let! part := read_at bs (off mod BSIZE) m in
                  write_at buf (Z.to_nat tot) part
                else
                  let! _ := check (dst =? 0) in Ok buf in
              let! r := setBlockIoDone (dst + tot) r in
              let! c := cache_releaseBlock i c in
              next rioNum buf c r
            else next (rioNum + 1) buf c r
    end
  else Ok (rioNum, buf, c, r).

(** One iteration per block. *)
Definition loop_fuel (n : Z) : nat := Z.to_nat (n / BSIZE + 2).

(** [dst] is the address of the buffer [buf]. *)
Definition readInode (inode : InMemInode) (dst : Z) (buf : list Z) (offStart nBytes : Z)
    (nocpy : bool) (c : cache) (r : FsReq) : res (Z * list Z * cache * FsReq) :=
  let d := inodeData inode in
  let realBytes := if to_u64 (offStart + nBytes) >? Layout.size d
                   then to_u64 (Layout.size d - offStart) else nBytes in
  let! (rioNum, buf, c, r) :=
    read_loop (loop_fuel realBytes) d dst nocpy realBytes 0 offStart 0 buf c r in
  Ok (if rioNum >? 0 then 0 else realBytes, buf, c, r).

(** Pages of the user-level cache: each has an address and a buffer. *)
Fixpoint ucache_loop (pages : list (Z * Z)) (dsts : list (Z * list Z)) (d : cfs_dinode)
    (rioNum realBytes : Z) (c : cache) (r : FsReq)
    : res (Z * Z * list (Z * list Z) * cache * FsReq) :=
  match pages, dsts with
  | (blockIdx, n) :: pages', (dst, buf) :: dsts' =>
      if getBlockIoDone dst r then
        let! (rio, real, out, c, r) := ucache_loop pages' dsts' d rioNum realBytes c r in
        Ok (rio, real, (dst, buf) :: out, c, r)
      else
        let '(extIdx, inside, _) := getCurrentExtentArrIdx (to_u32 blockIdx) in
        let! dataBlockNo := data_block d extIdx inside in
        let! (i, _, c, r) := getBlockForIndex dataBlockNo true d c r in
        let! it := get_item (c_heap c) i in
        if inMem it then
          let! bs := mem_of c i in
          let! part := read_at bs 0 n in
          let! buf := write_at buf 0 part in
          let! r := setBlockIoDone dst r in
          let! c := cache_releaseBlock i c in
          let! (rio, real, out, c, r) :=
            ucache_loop pages' dsts' d rioNum (to_u64 (realBytes + n)) c r in
          Ok (rio, real, (dst, buf) :: out, c, r)
        else
          let! (rio, real, out, c, r) :=
            ucache_loop pages' dsts' d (rioNum + 1) realBytes c r in
          Ok (rio, real, (dst, buf) :: out, c, r)
  | _, _ => Ok (rioNum, realBytes, [], c, r)
  end.

Definition readInodeToUCache (inode : InMemInode) (pagesToRead : list (Z * Z))
    (dstVec : list (Z * list Z)) (c : cache) (r : FsReq)
    : res (Z * list (Z * list Z) * cache * FsReq) :=
  let! _ := check (Nat.eqb (length pagesToRead) (length dstVec)) in
  let! (rio, real, out, c, r) := ucache_loop pagesToRead dstVec (inodeData inode) 0 0 c r in
  Ok (if rio >? 0 then 0 else real, out, c, r).

(** The result is an unsigned number: -1 is [UINT64_MAX]. *)
Definition writeInodeAllocDataBlock (inode : InMemInode) (offStart nBytes : Z)
    (s : FsImpl) (r : FsReq) : res (Z * InMemInode * FsImpl * FsReq) :=
  let d := inodeData inode in
  if (offStart >? Layout.size d) && (append_start_off r =? 0) then Ok (UINT64_MAX, inode, s, r)
  else
    let end_off := to_u64 (offStart + nBytes) in
    let toAllocateBlockNum :=
      if end_off >? Layout.size d
      then to_i32 (to_u64 ((end_off - 1) / BSIZE + 1 - i_block_count d)) else 0 in
    if toAllocateBlockNum >? 0 then
      let! (n, inode, s, r) := allocateDataBlocks alloc_fuel toAllocateBlockNum inode s r in
      if n =? 0 then Ok (0, inode, s, r)
      else if n <? toAllocateBlockNum then Ok (UINT64_MAX, inode, s, r)
      else Ok (to_u64 toAllocateBlockNum, inode, s, r)
    else Ok (to_u64 toAllocateBlockNum, inode, s, r).

(** [dinodePtr->size] in the inode and in the log. *)
Definition set_size (n : Z) (inode : InMemInode) : InMemInode :=
  mk_inode (InodeLog.direct_set (InodeLog.SetSize n) (inodeData inode))
    (InodeLog.set_field (InodeLog.SetSize n) (logEntry inode)).

(** The block to write to, whether its slot can be written, and the slot: a block that is
    written whole, or whose rest lies behind the end of the file, is not read. *)
Definition get_for_write (d : cfs_dinode) (dataBlockNo off m : Z) (c : cache) (r : FsReq)
    : res (bool * Z * cache * FsReq) :=
  if (off mod BSIZE =? 0) && ((m =? BSIZE) || (to_u64 (off + m) >? Layout.size d)) then
    let! (i, canOverwrite, c, r) := getBlockForIndex dataBlockNo false d c r in
    let! it := get_item (c_heap c) i in
    Ok (inMem it || canOverwrite, i, c, r)
  else
    let! (i, _, c, r) := getBlockForIndex dataBlockNo true d c r in
    let! it := get_item (c_heap c) i in
    if inMem it then Ok (true, i, c, r)
    else
      let! _ := check (numTotalPendingIoReq r >? 0) in
      Ok (false, i, c, r).

(** The loop of [writeInodeAndSaveDataBlockInfo]; [first] is [first_byte_blkno] and
    [first_byte_inblkoff], and [src] the address of the bytes [buf]. *)
Fixpoint write_loop (fuel : nat) (src : Z) (buf : list Z) (realBytes tot off : Z)
    (first : Z * Z) (inode : InMemInode) (c : cache) (r : FsReq)
    : res (Z * (Z * Z) * InMemInode * cache * FsReq) :=
  if tot <? realBytes then
    match fuel with
    | O => Crash NoFuel
    | S fuel' =>
        let d := inodeData inode in
        let m := chunk realBytes tot off in
        let next := write_loop fuel' src buf realBytes (to_u32 (tot + m)) (to_u64 (off + m)) in
        if getBlockIoDone (src + tot) r then next first inode c r
        else
          let '(extIdx, inside, _) := getCurrentExtentArrIdx (to_u32 (off / BSIZE)) in
          let! _ := check (extIdx >=? 0) in
          let! dataBlockNo := data_block d extIdx inside in
          let! _ := check (negb (dataBlockNo =? 0)) in
          let! (doWrite, i, c, r) := get_for_write d dataBlockNo off m c r in
          if doWrite then
            let first := if fst first =? 0 then (dataBlockNo, off mod BSIZE) else first in
            let! bs := mem_of c i in
            let! part := read_at buf tot m in
            let! bs := write_at bs (Z.to_nat (off mod BSIZE)) part in
            let! r := setBlockIoDone (src + tot) r in
            let inode := set_size (Z.max (Layout.size d) (to_u64 (off + m))) inode in
            let! c := finish_write i (i_no d) (set_mem i bs c) in
            next first inode c r
          else Ok (0, first, inode, c, r)
    end
  else Ok (realBytes, first, inode, c, r).

Definition writeInodeAndSaveDataBlockInfo (inode : InMemInode) (src : Z) (buf : list Z)
    (offStart nBytes : Z) (first : Z * Z) (s : FsImpl) (c : cache) (r : FsReq)
    : res (Z * (Z * Z) * InMemInode * FsImpl * cache * FsReq) :=
  let! (n, inode, s, r) := writeInodeAllocDataBlock inode offStart nBytes s r in
  let rc := to_i32 n in
  if (rc <? 0) || (numTotalPendingIoReq r >? 0) then Ok (rc, first, inode, s, c, r)
  else
    let! (v, first, inode, c, r) :=
      write_loop (loop_fuel nBytes) src buf nBytes 0 offStart (0, snd first) inode c r in
    Ok (v, first, inode, s, c, r).

Definition writeInode (inode : InMemInode) (src : Z) (buf : list Z) (offStart nBytes : Z)
    (s : FsImpl) (c : cache) (r : FsReq) : res (Z * InMemInode * FsImpl * cache * FsReq) :=
  let! (v, _, inode, s, c, r) :=
    writeInodeAndSaveDataBlockInfo inode src buf offStart nBytes (0, 0) s c r in
  Ok (v, inode, s, c, r).

(** [writeEntireInode]: the blocks come from the shared memory of the client,
    [block_array] holds their addresses and contents. *)
Fixpoint entire_loop (fuel : nat) (block_array : list (Z * list Z)) (realBytes tot off : Z)
    (inode : InMemInode) (c : cache) (r : FsReq) : res (Z * cache * FsReq) :=
  if tot <? realBytes then
    match fuel with
    | O => Crash NoFuel
    | S fuel' =>
        let d := inodeData inode in
        let curBlockIdx := to_u32 (off / BSIZE) in
        let! _ := check (curBlockIdx <? Z.of_nat (length block_array)) in
        let! (srcPtr, buf) := load block_array curBlockIdx in
        let m := chunk realBytes tot off in
        let '(extIdx, inside, _) := getCurrentExtentArrIdx curBlockIdx in
        let! _ := check (extIdx >=? 0) in
        let! dataBlockNo := data_block d extIdx inside in
        let! _ := check (negb (dataBlockNo =? 0)) in
        if (off mod BSIZE =? 0) && ((m =? BSIZE) || (to_u64 (off + m) >? Layout.size d)) then
          let! (i, canOverwrite, c, r) := getBlockForIndex dataBlockNo false d c r in
          let! it := get_item (c_heap c) i in
          let! _ := check (inMem it || canOverwrite) in
          let! bs := mem_of c i in
          let! part := read_at buf 0 m in
          let! bs := write_at bs (Z.to_nat (off mod BSIZE)) part in
          let! r := setBlockIoDone srcPtr r in
          let! c := finish_write i (i_no d) (set_mem i bs c) in
          entire_loop fuel' block_array realBytes (to_u32 (tot + m)) (to_u64 (off + m)) inode c r
        else Crash AssertFail
    end
  else Ok (realBytes, c, r).

Definition writeEntireInode (inode : InMemInode) (file_size : Z) (block_array : list (Z * list Z))
    (c : cache) (r : FsReq) : res (Z * cache * FsReq) :=
  entire_loop (loop_fuel file_size) block_array file_size 0 0 inode c r.

End Operations.

(** ** The contents of files *)

Section Contents.
Context {cfg : ExtentConfig} (own : Z -> Z) (disk : Z -> list Z).

(** The contents of a block: in the cache, or else on the device. *)
Definition stored (c : cache) (b : Z) : list Z :=
  match look c b with Present _ bs => bs | _ => disk b end.

(** Clean blocks are as on the device. *)
Definition synced (c : cache) : Prop :=
  forall b bs, look c b = Present false bs -> disk b = bs.

Definition good (c : cache) : Prop := quiet own BSIZE c /\ synced c.

Definition same_contents (c c' : cache) : Prop := forall b, stored c' b = stored c b.

(** The block [k] of a file, and its number on the device. *)
Definition block_at (d : cfs_dinode) (k : Z) : option Z :=
  let '(e, inside, _) := getCurrentExtentArrIdx k in
  if e <? 0 then None
  else x ← ext_array d !! Z.to_nat e; Some (to_u32 (block_no x + inside)).

Definition pba (n : Z) : Z := to_u32 (get_data_start_block + n).

(** The blocks of a file are its own, and different. *)
Definition file_ok (d : cfs_dinode) : Prop :=
  0 <= i_block_count d <= ext_base 7 /\
  (forall k, 0 <= k < i_block_count d ->
     exists n, block_at d k = Some n /\ n <> 0 /\ own (pba n) = i_no d) /\
  (forall k k' n n', 0 <= k < i_block_count d -> 0 <= k' < i_block_count d ->
     block_at d k = Some n -> block_at d k' = Some n' -> pba n = pba n' -> k = k').

(** Byte [p] of a file. *)
Definition byte (c : cache) (d : cfs_dinode) (p : Z) : option Z :=
  n ← block_at d (p / BSIZE); stored c (pba n) !! Z.to_nat (p mod BSIZE).

Hypothesis (Hdisk : forall b, Z.of_nat (length (disk b)) = BSIZE).

Lemma stored_length c b : good c -> Z.of_nat (length (stored c b)) = BSIZE.
Proof.
  intros [Hq _]. unfold stored. pose proof (look_cases own BSIZE c b Hq) as H.
  destruct (look c b); [apply Hdisk.. |]. by destruct H as (? & ? & _ & _ & _ & _ & _ & _ & ?).
Qed.

(** A block that replaces a clean one loses nothing. *)
Lemma stored_moved c c' b e :
  synced c -> moved c c' b e -> (forall bs, e = Present false bs -> disk b = bs) ->
  synced c' /\ forall b', b' <> b -> stored c' b' = stored c b'.
Proof.
  intros Hs [Hb Ho] He. split.
  - intros b' bs Hl. destruct (decide (b' = b)) as [-> | Hne]; [apply He; congruence |].
    destruct (Ho b' Hne) as [E | [E _]]; rewrite E in Hl; [by apply Hs | done].
  - intros b' Hne. unfold stored. destruct (Ho b' Hne) as [-> | [-> (bs & E)]]; [done |].
    rewrite E. by apply Hs.
Qed.

Lemma same_contents_refl c : same_contents c c.
Proof. done. Qed.

Lemma same_contents_trans c1 c2 c3 :
  same_contents c1 c2 -> same_contents c2 c3 -> same_contents c1 c3.
Proof. intros H1 H2 b. by rewrite H2, H1. Qed.

Lemma same_look_good c c' :
  synced c -> quiet own BSIZE c' -> (forall b, look c' b = look c b) -> good c' /\ same_contents c c'.
Proof.
  intros Hs Hq Hl. split; [split; [done |] |].
  - intros b bs. rewrite Hl. apply Hs.
  - intros b. unfold stored. by rewrite Hl.
Qed.

Lemma byte_same c c' d p : same_contents c c' -> byte c' d p = byte c d p.
Proof. intros H. unfold byte. destruct (block_at d _); [cbn; by rewrite H | done]. Qed.

(** A request is waiting for a block. *)
Definition waiting (r r' : FsReq) : Prop :=
  blockIoDoneMap r' = blockIoDoneMap r /\ append_start_off r' = append_start_off r /\
  0 < numTotalPendingIoReq r'.

Lemma pending_count bno r r' : pending_on bno r r' -> 0 < numTotalPendingIoReq r'.
Proof.
  intros [[x Hx] _]. unfold numTotalPendingIoReq.
  enough (base.size (ioUnitPendingMap (blockIo r')) <> 0%nat) by lia.
  intros H. apply map_size_empty_iff in H. by rewrite H in Hx.
Qed.

Lemma waiting_wait bno r :
  waiting r (set_ioHelper false (addIoUnitReq bno false (ioHelper false r)) r).
Proof. split; [done |]. split; [done |]. apply (pending_count bno r), pending_wait. Qed.

Lemma waiting_submit bno i r :
  waiting r (set_ioHelper false (addIoUnitSubmitReq bno i (ioHelper false r)) r).
Proof. split; [done |]. split; [done |]. apply (pending_count bno r), pending_submit. Qed.

(** The blocks of the bytes [off], ..., [off + n - 1] of a file. *)
Definition touches (d : cfs_dinode) (off n b : Z) : Prop :=
  exists p m, off <= p < off + n /\ block_at d (p / BSIZE) = Some m /\ b = pba m.

(** Getting a block to read it. *)
Lemma read_block c bno ino r :
  good c -> own bno = ino ->
  (full c /\ fs_getBlock false bno true ino c r = Crash AssertFail) \/
  (exists i c1 it c2, fs_getBlock false bno true ino c r = Ok (i, true, c1, r) /\
     get_item (c_heap c1) i = Ok it /\ inMem it = true /\ mem_of c1 i = Ok (stored c bno) /\
     cache_releaseBlock i c1 = Ok c2 /\ good c2 /\ same_contents c c2 /\ calm c c2) \/
  (exists i c1 it r1, fs_getBlock false bno true ino c r = Ok (i, false, c1, r1) /\
     get_item (c_heap c1) i = Ok it /\ inMem it = false /\ good c1 /\ same_contents c c1 /\
     waiting r r1 /\ later (eq bno) c c1).
Proof.
  intros [Hq Hs] <-. destruct (look c bno) as [| | d bs] eqn:El.
  - destruct (fs_get_absent own BSIZE c bno Hq El) as [[Hf E] | (i & c1 & Hh & E)]; [by left |].
    right. right. destruct (hd_item _ _ _ _ _ _ _ Hh) as (it & Hi & Hin & _).
    destruct (held_read own BSIZE _ _ _ _ Hq Hh) as [Hq1 Hmv].
    destruct (stored_moved _ _ _ _ Hs Hmv) as [Hs1 Ho]; [done |].
    eexists i, c1, it, _. split; [apply E |]. split; [by apply get_item_ok |]. split; [done |].
    split; [done |]. split; [| split; [apply waiting_submit |]].
    + intros b. destruct (decide (b = bno)) as [-> | Hne]; [| by apply Ho].
      unfold stored. by rewrite El, (proj1 Hmv).
    + eapply later_moved; [by eapply held_pool | exact Hmv | by right].
  - right. right. destruct (fs_get_reading own BSIZE c bno Hq El) as (i & c1 & it & Hq1 & Hv & Hi & Hin & E).
    destruct (same_look_good _ _ Hs Hq1 Hv). eexists i, c1, it, _. split; [apply E |].
    split; [by apply get_item_ok |]. split; [done |]. split; [done |]. split; [done |].
    split; [apply waiting_wait |]. apply later_same; [| done]. eapply fs_getBlock_pool; [exact Hq | exact (E false true r)].
  - right. left. destruct (fs_get_present own BSIZE c bno d bs Hq El) as (i & c1 & Hh & Hbi & Hm & E).
    destruct (hd_item _ _ _ _ _ _ _ Hh) as (it & Hi & Hin & _).
    destruct (held_release own BSIZE c c1 bno i d bs (c_mem c1)) as (c2 & E2 & Hq2 & _ & Hk); try done.
    { unfold mem_of in Hm. by destruct (c_mem c1 !! i); [injection Hm as -> | done]. }
    { by eapply look_length. }
    specialize (Hk Hbi). pose proof (same_kept _ _ _ _ Hk El) as Hsame.
    destruct (same_look_good _ _ Hs Hq2 Hsame). exists i, c1, it, c2. split; [apply E |].
    split; [by apply get_item_ok |]. split; [done |]. split; [unfold stored; by rewrite El |].
    assert (Hrel : cache_releaseBlock i c1 = Ok c2) by (by destruct c1). split; [done |]. split; [done |]. split; [done |].
    apply later_same; [| done]. eapply same_pool_trans; [by eapply held_pool | by eapply release_pool].
Qed.

(** ** Parts of a request *)

(** Byte [t] of a request at [off] starts a part of it: one part per block. *)
Definition starts (off t : Z) : Prop := t = 0 \/ (off + t) mod BSIZE = 0.

Lemma bsize_pos : 0 < BSIZE.
Proof. done. Qed.

Lemma chunk_bounds n t p : t < n -> 0 < chunk n t p <= n - t /\ p mod BSIZE + chunk n t p <= BSIZE.
Proof.
  intros H. unfold chunk. pose proof (Z.mod_pos_bound p BSIZE bsize_pos). lia.
Qed.

Lemma chunk_same_block n t p j :
  t < n -> 0 <= j < chunk n t p ->
  (p + j) / BSIZE = p / BSIZE /\ (p + j) mod BSIZE = p mod BSIZE + j.
Proof.
  intros Ht Hj. pose proof (chunk_bounds n t p Ht) as [_ Hc]. pose proof bsize_pos.
  pose proof (Z.mod_pos_bound p BSIZE bsize_pos). pose proof (Z.div_mod p BSIZE ltac:(lia)).
  assert (E : (p + j) / BSIZE = p / BSIZE).
  { symmetry. apply (Z.div_unique _ _ _ (p mod BSIZE + j)); lia. }
  split; [done |]. rewrite Z.mod_eq, E by lia. lia.
Qed.

Lemma chunk_next off n t :
  0 <= off -> 0 <= t < n -> t + chunk n t (off + t) < n -> starts off (t + chunk n t (off + t)).
Proof.
  intros Ho Ht Hlt. right. unfold chunk in *. pose proof bsize_pos.
  pose proof (Z.mod_pos_bound (off + t) BSIZE bsize_pos).
  replace (off + (t + Z.min _ _)) with ((off + t) / BSIZE * BSIZE + 1 * BSIZE).
  - by rewrite <- Z.mul_add_distr_r, Z.mod_mul by lia.
  - pose proof (Z.div_mod (off + t) BSIZE ltac:(lia)). lia.
Qed.

Lemma starts_in_part off n tot t :
  0 <= tot < n -> starts off t -> tot <= t < tot + chunk n tot (off + tot) -> t = tot.
Proof.
  intros Htot [-> | Hs] Ht; [lia |]. destruct (decide (t = tot)); [done | exfalso].
  destruct (chunk_same_block n tot (off + tot) (t - tot)) as [_ E]; [lia.. |].
  replace (off + tot + (t - tot)) with (off + t) in E by lia. rewrite Hs in E.
  pose proof (Z.mod_pos_bound (off + tot) BSIZE bsize_pos). lia.
Qed.

(** Every byte belongs to a part. *)
Lemma part_of off n j :
  0 <= off -> 0 <= j < n -> exists t, 0 <= t < n /\ starts off t /\ t <= j < t + chunk n t (off + t).
Proof.
  intros Ho Hj. pose proof bsize_pos. set (b := (off + j) / BSIZE * BSIZE).
  pose proof (Z.div_mod (off + j) BSIZE ltac:(lia)). pose proof (Z.mod_pos_bound (off + j) BSIZE bsize_pos).
  exists (Z.max 0 (b - off)). destruct (decide (b < off)) as [Hlt | Hge].
  - rewrite Z.max_l by lia. split; [lia |]. split; [by left |]. unfold chunk.
    rewrite Z.add_0_r. assert (off / BSIZE = (off + j) / BSIZE) as E.
    { symmetry. apply (Z.div_unique _ _ _ (off - b)); lia. }
    rewrite Z.mod_eq, E by lia. lia.
  - rewrite Z.max_r by lia. split; [lia |].
    assert (E : (off + (b - off)) mod BSIZE = 0).
    { replace (off + (b - off)) with b by lia. apply Z.mod_mul. lia. }
    split; [by right |]. unfold chunk. rewrite E. lia.
Qed.

(** One more part costs one unit of fuel. *)
Definition parts_left (n t p : Z) (fuel : nat) : Prop :=
  t < n -> n - t + p mod BSIZE <= Z.of_nat fuel * BSIZE.

Lemma parts_next n t p fuel :
  0 <= p -> t < n -> parts_left n t p (S fuel) ->
  parts_left n (t + chunk n t p) (p + chunk n t p) fuel.
Proof.
  unfold parts_left, chunk. intros Hp Ht H. specialize (H Ht). pose proof bsize_pos.
  pose proof (Z.mod_pos_bound p BSIZE bsize_pos).
  destruct (Z.min_spec (n - t) (BSIZE - p mod BSIZE)) as [[Hlt ->] | [Hge ->]]; [lia |].
  intros _. replace (p + (BSIZE - p mod BSIZE)) with (p / BSIZE * BSIZE + 1 * BSIZE)
    by (pose proof (Z.div_mod p BSIZE ltac:(lia)); lia).
  rewrite <- Z.mul_add_distr_r, Z.mod_mul by lia. lia.
Qed.

Lemma parts_enough n p : 0 <= n -> parts_left n 0 p (loop_fuel n).
Proof.
  intros Hn. unfold parts_left, loop_fuel. pose proof bsize_pos.
  pose proof (Z.mod_pos_bound p BSIZE bsize_pos). pose proof (Z.div_mod n BSIZE ltac:(lia)).
  pose proof (Z.mod_pos_bound n BSIZE bsize_pos).
  assert (0 <= n / BSIZE) by (apply Z.div_pos; lia). rewrite Z2Nat.id by lia. nia.
Qed.

Lemma data_block_at d k n :
  block_at d k = Some n ->
  exists e inside m, getCurrentExtentArrIdx k = (e, inside, m) /\ 0 <= e /\
    data_block d e inside = Ok n.
Proof.
  unfold block_at. destruct (getCurrentExtentArrIdx k) as [[e inside] m] eqn:E. case_if; [done |].
  intros H. exists e, inside, m. split; [done |]. split; [done |]. unfold data_block, load.
  rewrite (proj2 (Z.ltb_ge _ _)) by done.
  destruct (ext_array d !! Z.to_nat e); [| done]. by injection H as <-.
Qed.

(** ** Reading *)

Section Read.
Context (d : cfs_dinode) (dst off n : Z) (f : Z -> option Z).
Hypothesis (Hfile : file_ok d) (Hdst : dst <> 0) (Hoff : 0 <= off) (Hn : 0 <= n).
Hypothesis (Hend : off + n <= Layout.size d) (Hsize : Layout.size d <= i_block_count d * BSIZE).
Hypothesis (Hblocks : ext_base 7 * BSIZE < 2 ^ 64) (Hb32 : ext_base 7 < 2 ^ 32).

(** The parts that are done are in the buffer. *)
Definition delivered (buf : list Z) (r : FsReq) : Prop :=
  forall t, 0 <= t < n -> starts off t -> dst + t ∈ blockIoDoneMap r ->
    forall j, t <= j < t + chunk n t (off + t) -> buf !! Z.to_nat j = f (off + j).

Lemma delivered_none buf r : blockIoDoneMap r = ∅ -> delivered buf r.
Proof. intros E t _ _ Hin. rewrite E in Hin. by apply elem_of_empty in Hin. Qed.

(** How reading goes on, from one state of the loop to a later one. *)
Record reads (rio : Z) (buf : list Z) (c : cache) (r : FsReq)
    (rio' : Z) (buf' : list Z) (c' : cache) (r' : FsReq) : Prop := mk_reads {
  rd_good : good c';
  rd_same : same_contents c c';
  rd_length : length buf' = length buf;
  rd_done : blockIoDoneMap r ⊆ blockIoDoneMap r';
  rd_rio : rio <= rio';
  rd_hit : rio' = rio -> blockIo r' = blockIo r /\ sectorIo r' = sectorIo r;
  rd_miss : rio < rio' \/ 0 < numTotalPendingIoReq r -> 0 < numTotalPendingIoReq r';
  rd_later : later (touches d off n) c c'
}.

Lemma reads_refl rio buf c r : good c -> reads rio buf c r rio buf c r.
Proof. intros H. split; try done; [intros [? | ?]; lia | apply later_refl]. Qed.

Lemma reads_trans rio buf c r rio1 buf1 c1 r1 rio2 buf2 c2 r2 :
  reads rio buf c r rio1 buf1 c1 r1 -> reads rio1 buf1 c1 r1 rio2 buf2 c2 r2 ->
  reads rio buf c r rio2 buf2 c2 r2.
Proof.
  intros [G1 S1 L1 D1 R1 H1 M1 T1] [G2 S2 L2 D2 R2 H2 M2 T2]. split.
  - done.
  - by eapply same_contents_trans.
  - congruence.
  - set_solver.
  - lia.
  - intros E. destruct H1 as [? ?]; [lia |]. destruct H2 as [? ?]; [lia |]. split; congruence.
  - intros H. apply M2. destruct (decide (rio1 < rio2)); [by left | right].
    apply M1. destruct H; [left; lia | by right].
  - by eapply later_trans.
Qed.

Definition read_ends (tot rio : Z) (buf : list Z) (c : cache) (r : FsReq)
    (out : res (Z * list Z * cache * FsReq)) : Prop :=
  match out with
  | Ok (rio', buf', c', r') => reads rio buf c r rio' buf' c' r' /\ delivered buf' r' /\
      (rio' = rio -> forall t, tot <= t < n -> starts off t -> dst + t ∈ blockIoDoneMap r')
  | Crash e => e = AssertFail /\ no_room own BSIZE (touches d off n) c
  end.

(** A part that is done, or waits, and then the rest. *)
Lemma read_ends_step tot rio buf c r rio1 buf1 c1 r1 out :
  0 <= tot < n -> starts off tot ->
  (rio1 = rio -> dst + tot ∈ blockIoDoneMap r1) -> reads rio buf c r rio1 buf1 c1 r1 ->
  read_ends (tot + chunk n tot (off + tot)) rio1 buf1 c1 r1 out -> read_ends tot rio buf c r out.
Proof.
  intros Ht Hst Hd H1 H. destruct out as [[[[rio' buf'] c'] r'] | e].
  2: { destruct H as [-> H]. split; [done |]. eapply no_room_later; [apply H1 | done]. }
  destruct H as (H2 & Hdel & Hall). split; [by eapply reads_trans |]. split; [done |].
  intros E t Htt Hs. pose proof (rd_rio _ _ _ _ _ _ _ _ H1). pose proof (rd_rio _ _ _ _ _ _ _ _ H2).
  destruct (decide (tot + chunk n tot (off + tot) <= t)); [apply Hall; [lia.. | done] |].
  assert (t = tot) as ->; [eapply starts_in_part; done || lia |].
  apply (rd_done _ _ _ _ _ _ _ _ H2), Hd. lia.
Qed.

(** The bytes of a part are the bytes of its block. *)
Lemma deliver c k bs tot buf buf' r :
  (forall p, f p = byte c d p) -> 0 <= tot < n -> starts off tot -> delivered buf r ->
  block_at d ((off + tot) / BSIZE) = Some k -> stored c (pba k) = bs ->
  read_at bs ((off + tot) mod BSIZE) (chunk n tot (off + tot)) = Ok buf' ->
  n <= Z.of_nat (length buf) ->
  exists buf1, write_at buf (Z.to_nat tot) buf' = Ok buf1 /\ length buf1 = length buf /\
    delivered buf1 r /\
    (forall j, tot <= j < tot + chunk n tot (off + tot) -> buf1 !! Z.to_nat j = f (off + j)).
Proof.
  intros Hf Ht Hst Hdel Hk Hbs Hrd Hlen.
  pose proof (chunk_bounds n tot (off + tot) ltac:(lia)) as [Hc Hc'].
  pose proof (Z.mod_pos_bound (off + tot) BSIZE bsize_pos).
  unfold read_at in Hrd. case_if_in Hrd; [| done]. injection Hrd as <-.
  set (m := chunk n tot (off + tot)) in *. set (part := slice bs _ m).
  assert (Hp : length part = Z.to_nat m).
  { unfold part, slice. rewrite length_take, length_drop. lia. }
  assert (Hfit : (Z.to_nat tot + length part <= length buf)%nat) by lia.
  pose proof (write_at_ok buf _ part Hfit) as Hw. rewrite Hw. apply write_at_inv in Hw as [Hl Hj].
  eexists. split; [done |]. split; [done |].
  assert (Hnew : forall j, tot <= j < tot + m ->
    (take (Z.to_nat tot) buf ++ part ++ drop (Z.to_nat tot + length part) buf) !! Z.to_nat j =
    f (off + j)).
  { intros j Hjr. rewrite Hf, Hj, decide_True by lia. unfold part, slice.
    rewrite lookup_take_lt, lookup_drop by lia. unfold byte.
    destruct (chunk_same_block n tot (off + tot) (j - tot)) as [E1 E2]; [lia.. |].
    replace (off + tot + (j - tot)) with (off + j) in E1, E2 by lia.
    rewrite E1, E2, Hk. cbn. rewrite Hbs. f_equal. lia. }
  split; [| exact Hnew]. intros t Htt Hs Hin j Hjr.
  destruct (decide (tot <= j < tot + m)); [by apply Hnew |].
  rewrite Hj, decide_False by lia. by eapply Hdel.
Qed.

(** The block of a position before the end of the file. *)
Lemma file_block p :
  0 <= p < Layout.size d ->
  to_u32 (p / BSIZE) = p / BSIZE /\ 0 <= p / BSIZE < i_block_count d /\ to_u64 p = p.
Proof.
  intros Hp. destruct Hfile as ([Hc0 Hc] & _). pose proof bsize_pos.
  assert (Hq : 0 <= p / BSIZE < i_block_count d).
  { split; [apply Z.div_pos; lia | apply Z.div_lt_upper_bound; lia]. }
  split; [apply to_u32_small; lia |]. split; [done |]. apply to_u64_small. nia.
Qed.

Lemma setBlockIoDone_ok addr r :
  addr ∉ blockIoDoneMap r ->
  exists r', setBlockIoDone addr r = Ok r' /\ blockIoDoneMap r' = {[addr]} ∪ blockIoDoneMap r /\
    blockIo r' = blockIo r /\ sectorIo r' = sectorIo r /\ append_start_off r' = append_start_off r.
Proof.
  intros H. unfold setBlockIoDone, getBlockIoDone. rewrite bool_decide_false by done.
  cbn. by eexists.
Qed.

Lemma delivered_done buf r r' tot :
  (forall j, tot <= j < tot + chunk n tot (off + tot) -> buf !! Z.to_nat j = f (off + j)) ->
  delivered buf r -> blockIoDoneMap r' = {[dst + tot]} ∪ blockIoDoneMap r -> delivered buf r'.
Proof.
  intros Hnew Hdel E t Ht Hs Hin j Hj. rewrite E in Hin.
  apply elem_of_union in Hin as [Hin%elem_of_singleton | Hin]; [| by eapply Hdel].
  assert (t = tot) as -> by lia. auto.
Qed.

Lemma read_part c k tot :
  good c -> tot < n ->
  exists part, read_at (stored c (pba k)) ((off + tot) mod BSIZE) (chunk n tot (off + tot)) = Ok part.
Proof.
  intros Hg Ht. pose proof (chunk_bounds n tot (off + tot) Ht) as [_ Hc]. unfold read_at.
  rewrite (stored_length _ _ Hg), (proj2 (Z.leb_le _ _)) by done. eauto.
Qed.

Lemma read_loop_ends fuel : forall tot rio buf c r,
  (forall p, f p = byte c d p) -> good c -> 0 <= tot -> (tot < n -> starts off tot) ->
  parts_left n tot (off + tot) fuel -> n <= Z.of_nat (length buf) -> delivered buf r ->
  read_ends tot rio buf c r (read_loop fuel d dst false n tot (off + tot) rio buf c r).
Proof.
  induction fuel as [| fuel IH]; intros tot rio buf c r Hf Hg Ht Hst Hfuel Hlen Hdel;
    cbn [read_loop]; case_if; [unfold parts_left in Hfuel;
      pose proof (Z.mod_pos_bound (off + tot) BSIZE bsize_pos); lia | | |];
    try (split; [by apply reads_refl | split; [done | intros _ t Htt; lia]]).
  specialize (Hst ltac:(lia)). pose proof (chunk_bounds n tot (off + tot) ltac:(lia)) as [Hc _].
  destruct (file_block (off + tot)) as (E32 & Hk & _); [lia |].
  assert (Hnext : forall rio1 buf1 c1 r1, good c1 -> same_contents c c1 ->
    n <= Z.of_nat (length buf1) -> delivered buf1 r1 ->
    read_ends (tot + chunk n tot (off + tot)) rio1 buf1 c1 r1
      (read_loop fuel d dst false n (tot + chunk n tot (off + tot))
        (to_u64 (off + tot + chunk n tot (off + tot))) rio1 buf1 c1 r1)).
  { intros rio1 buf1 c1 r1 Hg1 Hs1 Hl1 Hd1.
    assert (E64 : to_u64 (off + tot + chunk n tot (off + tot)) = off + (tot + chunk n tot (off + tot))).
    { rewrite to_u64_small; [lia |]. destruct Hfile as ([? ?] & _). pose proof bsize_pos. nia. }
    rewrite E64. apply IH; try done; try lia.
    - intros p. by rewrite Hf, (byte_same _ _ _ _ Hs1).
    - intros. apply chunk_next; lia.
    - rewrite Z.add_assoc. apply parts_next; done || lia. }
  rewrite E32, (proj2 (Z.eqb_neq dst 0)) by done. cbn [negb andb].
  unfold getBlockIoDone. destruct (bool_decide_reflect (dst + tot ∈ blockIoDoneMap r)) as [Hin | Hin].
  { eapply read_ends_step; [lia | done | done | by apply reads_refl | by apply Hnext]. }
  destruct (proj1 (proj2 Hfile) _ Hk) as (k & Hblk & _ & Hown).
  destruct (data_block_at _ _ _ Hblk) as (e & inside & m & -> & He & ->).
  rewrite (proj2 (Z.ltb_ge e 0)) by done. cbn [res_bind]. unfold getBlockForIndex. fold (pba k).
  destruct (read_block c (pba k) (i_no d) r Hg Hown)
    as [[Hfull ->] | [(i & c1 & it & c2 & -> & Hi & Him & Hm & Hr & Hg2 & Hs2 & Hcm)
                     | (i & c1 & it & r1 & -> & Hi & Him & Hg1 & Hs1 & Hw & Hla)]]; cbn [res_bind].
  - split; [done |]. apply no_room_now; [apply Hg | done].
  - rewrite Hi. cbn [res_bind]. rewrite Him, Hm. cbn [res_bind].
    destruct (read_part c k tot Hg) as (part & Hpart); [lia |]. rewrite Hpart. cbn [res_bind].
    destruct (deliver c k _ tot buf part r Hf ltac:(lia) Hst Hdel Hblk eq_refl Hpart Hlen)
      as (buf1 & -> & Hl1 & Hd1 & Hnew). cbn [res_bind].
    destruct (setBlockIoDone_ok _ _ Hin) as (r1 & -> & Ed & Eb & Es & _). cbn [res_bind].
    rewrite Hr. cbn [res_bind].
    eapply read_ends_step; [lia | done | intros _; rewrite Ed; set_solver | | apply Hnext];
      [| done | done | lia | by eapply delivered_done].
    split; try done; [set_solver | |].
    + unfold numTotalPendingIoReq. rewrite Eb, Es. lia.
    + by eapply later_weaken, Hcm.
  - rewrite Hi. cbn [res_bind]. rewrite Him. destruct Hw as (Ed & _ & Hpos).
    apply (read_ends_step tot rio buf c r (rio + 1) buf c1 r1); [lia | done | lia | | apply Hnext];
      [| done | done | done |].
    + split; try done; try lia; [by rewrite Ed |]. eapply later_weaken, Hla. intros b <-.
      exists (off + tot), k. split; [lia | done].
    + intros t. rewrite Ed. apply Hdel.
Qed.

Lemma all_delivered buf r :
  delivered buf r -> (forall t, 0 <= t < n -> starts off t -> dst + t ∈ blockIoDoneMap r) ->
  forall j, 0 <= j < n -> buf !! Z.to_nat j = f (off + j).
Proof. intros Hd Hall j Hj. destruct (part_of off n j Hoff Hj) as (t & Ht & Hs & Hr). eapply Hd; eauto. Qed.

End Read.

(** What a call of [readInode] for [n] bytes leaves. *)
Definition read_result (d : cfs_dinode) (dst off n : Z) (buf : list Z) (c : cache) (r : FsReq)
    (out : res (Z * list Z * cache * FsReq)) : Prop :=
  match out with
  | Ok (v, buf', c', r') =>
      good c' /\ same_contents c c' /\ length buf' = length buf /\
      delivered dst off n (byte c d) buf' r' /\
      ((v = n /\ blockIo r' = blockIo r /\ sectorIo r' = sectorIo r /\
        forall j, 0 <= j < n -> buf' !! Z.to_nat j = byte c d (off + j)) \/
       (v = 0 /\ 0 < numTotalPendingIoReq r'))
  | Crash e => e = AssertFail /\ no_room own BSIZE (touches d off n) c
  end.

Lemma readInode_spec inode dst buf off nBytes c r :
  let d := inodeData inode in
  let n := Z.min nBytes (Layout.size d - off) in
  file_ok d -> dst <> 0 -> 0 <= off <= Layout.size d -> 0 <= nBytes -> off + nBytes < 2 ^ 64 ->
  Layout.size d <= i_block_count d * BSIZE -> ext_base 7 < 2 ^ 32 ->
  good c -> n <= Z.of_nat (length buf) -> delivered dst off n (byte c d) buf r ->
  read_result d dst off n buf c r (readInode inode dst buf off nBytes false c r).
Proof.
  intros d n Hf Hdst Ho Hnb H64 Hsz H32 Hg Hlen Hdel. pose proof bsize_pos.
  assert (Hb64 : ext_base 7 * BSIZE < 2 ^ 64) by (change BSIZE with 4096; lia).
  destruct Hf as ([Hc0 Hc1] & Hrest). pose proof (conj (conj Hc0 Hc1) Hrest : file_ok d) as Hf.
  unfold readInode. fold d.
  assert (En : (if to_u64 (off + nBytes) >? Layout.size d
                then to_u64 (Layout.size d - off) else nBytes) = n).
  { unfold n. rewrite (to_u64_small (off + nBytes)) by lia. rewrite Z.gtb_ltb. case_if; [| lia].
    rewrite to_u64_small; [lia | nia]. }
  assert (0 <= n /\ off + n <= Layout.size d) as [Hn0 Hn1] by lia. clearbody n.
  rewrite En. pose proof (read_loop_ends d dst off n (byte c d) Hf Hdst ltac:(lia) Hn0 Hn1
    Hsz Hb64 H32 (loop_fuel n) 0 0 buf c r) as Hl.
  rewrite Z.add_0_r in Hl. specialize (Hl ltac:(done) Hg ltac:(lia) ltac:(by left)
    (parts_enough n off Hn0) Hlen Hdel).
  destruct (read_loop _ _ _ _ _ _ _ _ _ _ _) as [[[[rio buf'] c'] r'] | e]; [| exact Hl].
  destruct Hl as ([Hg' Hs Hl' Hd Hr Hhit Hmiss _] & Hdel' & Hall). cbn [res_bind read_result].
  split; [done |]. split; [done |]. split; [done |]. split; [done |].
  destruct (decide (rio = 0)) as [-> | Hne].
  - left. change (0 >? 0) with false. split; [done |]. destruct Hhit as [? ?]; [done |].
    split; [done |]. split; [done |]. eapply all_delivered; [lia.. | done |]. by apply Hall.
  - right. rewrite (proj2 (Z.gtb_lt _ _)) by lia. split; [done |]. apply Hmiss. left. lia.
Qed.

(** ** Writing *)

(** A block that is written without being read. *)
Definition unread (d : cfs_dinode) (off m : Z) : bool :=
  (off mod BSIZE =? 0) && ((m =? BSIZE) || (to_u64 (off + m) >? Layout.size d)).

(** Slot [i] of [c1] can be overwritten with any contents for block [bno]. *)
Definition writable (c c1 : cache) (bno i ino : Z) : Prop :=
  forall bs, Z.of_nat (length bs) = BSIZE ->
    exists c2, finish_write i ino (set_mem i bs c1) = Ok c2 /\ good c2 /\
      stored c2 bno = bs /\ (forall b, b <> bno -> stored c2 b = stored c b) /\ later (eq bno) c c2.

Lemma held_writable c c1 bno i m d :
  good c -> held own c c1 bno i m d -> writable c c1 bno i (own bno).
Proof.
  intros [Hq Hs] Hh bs Hlen.
  destruct (held_write own BSIZE c c1 bno i m d bs (<[i := bs]> (c_mem c1)) Hq Hh)
    as (c2 & E & Hq2 & Hmv & _);
    [apply lookup_insert_eq | intros j Hj; by rewrite lookup_insert_ne | done |].
  destruct (stored_moved _ _ _ _ Hs Hmv) as [Hs2 Ho]; [done |].
  exists c2. split; [done |]. split; [done |]. split; [| split; [done |]].
  - unfold stored. by rewrite (proj1 Hmv).
  - eapply later_moved; [| exact Hmv | by right]. eapply same_pool_trans; [by eapply held_pool |].
    eapply same_pool_trans; [| by eapply finish_write_pool]. by apply same_pool_buf.
Qed.

Lemma held_mem c c1 bno i m d :
  good c -> held own c c1 bno i m d ->
  exists bs, mem_of c1 i = Ok bs /\ Z.of_nat (length bs) = BSIZE.
Proof.
  intros [Hq _] Hh. destruct (q_mem _ _ _ Hq i (hd_slot _ _ _ _ _ _ _ Hh)) as (bs & Hbs & Hlen).
  exists bs. unfold mem_of. by rewrite (hd_mem _ _ _ _ _ _ _ Hh), Hbs.
Qed.

Lemma get_for_write_spec d k off m c r :
  good c -> own (pba k) = i_no d ->
  (full c /\ get_for_write d k off m c r = Crash AssertFail) \/
  (exists i c1 bs, get_for_write d k off m c r = Ok (true, i, c1, r) /\
     mem_of c1 i = Ok bs /\ Z.of_nat (length bs) = BSIZE /\
     (unread d off m = false -> bs = stored c (pba k)) /\ writable c c1 (pba k) i (i_no d)) \/
  (exists i c1 r1, get_for_write d k off m c r = Ok (false, i, c1, r1) /\
     good c1 /\ same_contents c c1 /\ waiting r r1 /\ later (eq (pba k)) c c1).
Proof.
  intros Hg Hown. pose proof Hg as [Hq Hs]. unfold get_for_write, getBlockForIndex.
  rewrite <- Hown. fold (unread d off m). fold (pba k). destruct (look c (pba k)) as [| | dd bs] eqn:El.
  - destruct (fs_get_absent own BSIZE c _ Hq El) as [[Hf E] | (i & c1 & Hh & E)].
    { left. split; [done |]. destruct (unread d off m); by rewrite E. }
    right. destruct (hd_item _ _ _ _ _ _ _ Hh) as (it & Hi & Hin & _). apply get_item_ok in Hi.
    destruct (unread d off m); rewrite E; cbn [res_bind negb]; rewrite Hi; cbn [res_bind]; rewrite Hin.
    + left. destruct (held_mem _ _ _ _ _ _ Hg Hh) as (bs & Hm & Hlen).
      exists i, c1, bs. split; [done |]. split; [done |]. split; [done |]. split; [done |].
      by eapply held_writable.
    + right. pose proof (waiting_submit (pba k) i r) as Hw.
      rewrite (proj2 (Z.gtb_lt _ _)) by apply Hw. cbn [check res_bind].
      destruct (held_read own BSIZE _ _ _ _ Hq Hh) as [Hq1 Hmv].
      destruct (stored_moved _ _ _ _ Hs Hmv) as [Hs1 Ho]; [done |].
      eexists i, c1, _. split; [done |]. split; [done |]. split; [| split; [done |]].
      * intros b. destruct (decide (b = pba k)) as [-> | Hne]; [| by apply Ho].
        unfold stored. by rewrite El, (proj1 Hmv).
      * eapply later_moved; [by eapply held_pool | exact Hmv | by right].
  - right. right. destruct (fs_get_reading own BSIZE c _ Hq El) as (i & c1 & it & Hq1 & Hv & Hi & Hin & E).
    destruct (same_look_good _ _ Hs Hq1 Hv). apply get_item_ok in Hi. pose proof (waiting_wait (pba k) r) as Hw.
    assert (Hla : later (eq (pba k)) c c1).
    { apply later_same; [| done]. eapply fs_getBlock_pool; [exact Hq | exact (E false true r)]. }
    eexists i, c1, _. split; [| done].
    destruct (unread d off m); rewrite E; cbn [res_bind]; rewrite Hi; cbn [res_bind]; rewrite Hin; [done |].
    rewrite (proj2 (Z.gtb_lt _ _)) by apply Hw. done.
  - right. left. destruct (fs_get_present own BSIZE c _ dd bs Hq El) as (i & c1 & Hh & _ & Hm & E).
    destruct (hd_item _ _ _ _ _ _ _ Hh) as (it & Hi & Hin & _). apply get_item_ok in Hi.
    exists i, c1, bs. split; [| split; [done | split; [by eapply look_length | split]]].
    + destruct (unread d off m); rewrite E; cbn [res_bind]; rewrite Hi; cbn [res_bind]; by rewrite Hin.
    + intros _. unfold stored. by rewrite El.
    + by eapply held_writable.
Qed.

(** Inodes that differ in their size and log only. *)
Definition same_file (d d' : cfs_dinode) : Prop :=
  ext_array d' = ext_array d /\ i_block_count d' = i_block_count d /\ i_no d' = i_no d /\
  i_dentry_count d' = i_dentry_count d.

Lemma block_at_same d d' k : same_file d d' -> block_at d' k = block_at d k.
Proof. intros (E & _). unfold block_at. by rewrite E. Qed.

Lemma byte_same_file c d d' p : same_file d d' -> byte c d' p = byte c d p.
Proof. intros H. unfold byte. by rewrite (block_at_same _ _ _ H). Qed.

Lemma set_size_fields z inode :
  Layout.size (inodeData (set_size z inode)) = z /\
  same_file (inodeData inode) (inodeData (set_size z inode)).
Proof. unfold set_size, same_file. by destruct (inodeData inode). Qed.

(** Bytes of a request in the block of a part belong to the part. *)
Lemma same_part off n tot j :
  0 <= off -> 0 <= tot < n -> starts off tot -> 0 <= j < n ->
  (off + j) / BSIZE = (off + tot) / BSIZE -> tot <= j < tot + chunk n tot (off + tot).
Proof.
  intros Ho Ht Hs Hj E. pose proof bsize_pos. unfold chunk.
  pose proof (Z.div_mod (off + j) BSIZE ltac:(lia)). pose proof (Z.mod_pos_bound (off + j) BSIZE bsize_pos).
  pose proof (Z.div_mod (off + tot) BSIZE ltac:(lia)). pose proof (Z.mod_pos_bound (off + tot) BSIZE bsize_pos).
  rewrite E in *. destruct Hs as [-> | Hs]; lia.
Qed.

Section Write.
Context (d : cfs_dinode) (src : Z) (buf : list Z) (off n sz : Z).
Hypothesis (Hfile : file_ok d) (Hoff : 0 <= off) (Hn : 0 <= n < 2 ^ 32).
Hypothesis (Hlen : Z.of_nat (length buf) = n) (Hend : off + n <= i_block_count d * BSIZE).
Hypothesis (Hb32 : ext_base 7 < 2 ^ 32) (Hszb : sz <= i_block_count d * BSIZE).

(** The parts that are done have been written. *)
Definition written (c : cache) (z : Z) (r : FsReq) : Prop :=
  forall t, 0 <= t < n -> starts off t -> src + t ∈ blockIoDoneMap r ->
    off + t + chunk n t (off + t) <= z /\
    forall j, t <= j < t + chunk n t (off + t) -> byte c d (off + j) = buf !! Z.to_nat j.

Lemma written_none c z r : blockIoDoneMap r = ∅ -> written c z r.
Proof. intros E t _ _ Hin. rewrite E in Hin. by apply elem_of_empty in Hin. Qed.

(** How writing goes on. *)
Record writes (c : cache) (z : Z) (r : FsReq) (c' : cache) (z' : Z) (r' : FsReq) : Prop := mk_writes {
  wr_good : good c';
  wr_kept : forall p, 0 <= p < sz -> ~ off <= p < off + n -> byte c' d p = byte c d p;
  wr_other : forall b, (forall k m, 0 <= k < i_block_count d -> block_at d k = Some m -> pba m <> b) ->
    stored c' b = stored c b;
  wr_done : blockIoDoneMap r ⊆ blockIoDoneMap r';
  wr_size : z <= z' <= Z.max z (off + n);
  wr_later : later (touches d off n) c c'
}.

Lemma writes_refl c z r : good c -> writes c z r c z r.
Proof. intros H. split; try done; [lia | apply later_refl]. Qed.

Lemma writes_trans c z r c1 z1 r1 c2 z2 r2 :
  writes c z r c1 z1 r1 -> writes c1 z1 r1 c2 z2 r2 -> writes c z r c2 z2 r2.
Proof.
  intros [G1 K1 O1 D1 S1 T1] [G2 K2 O2 D2 S2 T2]. split.
  - done.
  - intros p Hp Ho. by rewrite K2, K1.
  - intros b Hb. by rewrite O2, O1.
  - set_solver.
  - lia.
  - by eapply later_trans.
Qed.

Lemma writes_same c z r c' r' :
  good c' -> same_contents c c' -> blockIoDoneMap r' = blockIoDoneMap r ->
  later (touches d off n) c c' -> writes c z r c' z r'.
Proof.
  intros Hg Hs Hd Hla. split; [done | | | by rewrite Hd | lia | done].
  - intros p _ _. by apply byte_same.
  - done.
Qed.

(** The bytes of the file after the block of a part has been replaced. *)
Lemma byte_written c c2 tot k bs bs' :
  0 <= tot < n -> starts off tot -> block_at d ((off + tot) / BSIZE) = Some k ->
  write_at bs (Z.to_nat ((off + tot) mod BSIZE)) (slice buf tot (chunk n tot (off + tot))) = Ok bs' ->
  stored c2 (pba k) = bs' -> (forall b, b <> pba k -> stored c2 b = stored c b) ->
  (forall j, tot <= j < tot + chunk n tot (off + tot) -> byte c2 d (off + j) = buf !! Z.to_nat j) /\
  (forall p, 0 <= p < i_block_count d * BSIZE -> p / BSIZE <> (off + tot) / BSIZE ->
     byte c2 d p = byte c d p) /\
  (bs = stored c (pba k) -> forall p, p / BSIZE = (off + tot) / BSIZE ->
     ~ off <= p < off + n -> byte c2 d p = byte c d p).
Proof.
  intros Ht Hs Hk Hw Hst Ho. apply write_at_inv in Hw as [Hl Hj].
  pose proof (chunk_bounds n tot (off + tot) ltac:(lia)) as [Hc Hc'].
  pose proof (Z.mod_pos_bound (off + tot) BSIZE bsize_pos). set (m := chunk n tot (off + tot)) in *.
  assert (Hpart : length (slice buf tot m) = Z.to_nat m).
  { unfold slice. rewrite length_take, length_drop. lia. }
  split; [| split].
  - intros j Hjr. destruct (chunk_same_block n tot (off + tot) (j - tot)) as [E1 E2]; [lia.. |].
    replace (off + tot + (j - tot)) with (off + j) in E1, E2 by lia.
    unfold byte. rewrite E1, Hk. cbn. rewrite Hst, Hj, E2, decide_True by lia.
    unfold slice. rewrite lookup_take_lt, lookup_drop by lia. f_equal. lia.
  - intros p Hp Hne. unfold byte. destruct (block_at d (p / BSIZE)) as [k' |] eqn:Ek; [| done]. cbn.
    rewrite Ho; [done |]. intros Epb. apply Hne. pose proof bsize_pos.
    destruct Hfile as (_ & _ & Hinj). eapply Hinj; [| | exact Ek | exact Hk | exact Epb];
      (split; [apply Z.div_pos; lia | apply Z.div_lt_upper_bound; lia]).
  - intros -> p Ep Hout. unfold byte. rewrite Ep, Hk. cbn. rewrite Hst, Hj, decide_False; [done |].
    pose proof bsize_pos. pose proof (Z.div_mod p BSIZE ltac:(lia)).
    pose proof (Z.div_mod (off + tot) BSIZE ltac:(lia)). pose proof (Z.mod_pos_bound p BSIZE bsize_pos).
    rewrite Ep in *. lia.
Qed.

(** One part is written. *)
Lemma write_step c c2 z r r2 tot k bs bs' dd :
  let m := chunk n tot (off + tot) in
  0 <= tot < n -> starts off tot -> block_at d ((off + tot) / BSIZE) = Some k ->
  write_at bs (Z.to_nat ((off + tot) mod BSIZE)) (slice buf tot m) = Ok bs' ->
  stored c2 (pba k) = bs' -> (forall b, b <> pba k -> stored c2 b = stored c b) -> good c2 ->
  later (eq (pba k)) c c2 -> Layout.size dd = z -> sz <= z -> to_u64 (off + tot + m) = off + tot + m ->
  (unread dd (off + tot) m = false -> bs = stored c (pba k)) ->
  blockIoDoneMap r2 = {[src + tot]} ∪ blockIoDoneMap r -> written c z r ->
  writes c z r c2 (Z.max z (off + tot + m)) r2 /\ written c2 (Z.max z (off + tot + m)) r2.
Proof.
  intros m Ht Hs Hk Hw Hst Ho Hg2 Hla Hdd Hsz E64 Hun Hd2 Hwr. pose proof bsize_pos.
  pose proof (chunk_bounds n tot (off + tot) ltac:(lia)) as [Hc Hc']. fold m in Hc, Hc'.
  destruct (byte_written c c2 tot k bs bs' Ht Hs Hk Hw Hst Ho) as (Hnew & Hoth & Hsame). fold m in Hnew.
  split; [split |].
  - done.
  - intros p Hp Hout. destruct (decide (p / BSIZE = (off + tot) / BSIZE)) as [E | E].
    2: { apply Hoth; [lia | done]. }
    destruct (unread dd (off + tot) m) eqn:Eu; [| auto]. exfalso.
    unfold unread in Eu. rewrite E64, Hdd in Eu. b2p.
    pose proof (Z.div_mod p BSIZE ltac:(lia)). pose proof (Z.div_mod (off + tot) BSIZE ltac:(lia)).
    pose proof (Z.mod_pos_bound p BSIZE bsize_pos). rewrite E in *.
    unfold m, chunk in *. destruct H1 as [H1 | H1]; b2p; lia.
  - intros b Hb. apply Ho. intros ->. apply (Hb ((off + tot) / BSIZE) k); [| done | done].
    split; [apply Z.div_pos; lia | apply Z.div_lt_upper_bound; lia].
  - rewrite Hd2. set_solver.
  - lia.
  - eapply later_weaken, Hla. intros b <-. exists (off + tot), k. split; [lia | done].
  - intros t Htt Hst' Hin. rewrite Hd2 in Hin.
    apply elem_of_union in Hin as [Hin%elem_of_singleton | Hin].
    { assert (t = tot) as -> by lia. fold m. split; [lia | done]. }
    destruct (Hwr t Htt Hst' Hin) as [Hz Hj]. split; [lia |]. intros j Hjr.
    pose proof (chunk_bounds n t (off + t) ltac:(lia)) as [Hct _].
    destruct (decide ((off + j) / BSIZE = (off + tot) / BSIZE)) as [E | E].
    + apply Hnew. unfold m. eapply same_part; done || lia.
    + rewrite Hoth; [by apply Hj | lia | done].
Qed.

Definition write_ends (tot : Z) (c : cache) (z : Z) (r : FsReq)
    (out : res (Z * (Z * Z) * InMemInode * cache * FsReq)) : Prop :=
  match out with
  | Ok (v, _, inode', c', r') =>
      let z' := Layout.size (inodeData inode') in
      same_file d (inodeData inode') /\ writes c z r c' z' r' /\ written c' z' r' /\
      ((v = n /\ blockIo r' = blockIo r /\ sectorIo r' = sectorIo r /\
        forall t, tot <= t < n -> starts off t -> src + t ∈ blockIoDoneMap r') \/
       (v = 0 /\ 0 < numTotalPendingIoReq r'))
  | Crash e => e = AssertFail /\ no_room own BSIZE (touches d off n) c
  end.

(** A part that is done, and then the rest. *)
Lemma write_ends_step tot c z r c1 z1 r1 out :
  0 <= tot < n -> starts off tot -> src + tot ∈ blockIoDoneMap r1 ->
  blockIo r1 = blockIo r -> sectorIo r1 = sectorIo r -> writes c z r c1 z1 r1 ->
  write_ends (tot + chunk n tot (off + tot)) c1 z1 r1 out -> write_ends tot c z r out.
Proof.
  intros Ht Hs Hd Eb Es H1 H. destruct out as [[[[[v first'] inode'] c'] r'] | e].
  2: { destruct H as [-> H]. split; [done |]. eapply no_room_later; [apply H1 | done]. }
  destruct H as (Hsf & H2 & Hw & H). split; [done |]. split; [by eapply writes_trans |].
  split; [done |]. destruct H as [(-> & Eb' & Es' & Hall) | ?]; [left | by right].
  split; [done |]. split; [congruence |]. split; [congruence |]. intros t Htt Hst.
  destruct (decide (tot + chunk n tot (off + tot) <= t)); [apply Hall; [lia | done] |].
  assert (t = tot) as ->; [eapply starts_in_part; done || lia |]. by apply (wr_done _ _ _ _ _ _ H2).
Qed.

Lemma part_read tot : 0 <= tot < n ->
  read_at buf tot (chunk n tot (off + tot)) = Ok (slice buf tot (chunk n tot (off + tot))).
Proof.
  intros Ht. pose proof (chunk_bounds n tot (off + tot) ltac:(lia)) as [Hc _].
  unfold read_at. by rewrite (proj2 (Z.leb_le _ _)) by lia.
Qed.

Lemma part_write bs tot : 0 <= tot < n -> Z.of_nat (length bs) = BSIZE ->
  exists bs', write_at bs (Z.to_nat ((off + tot) mod BSIZE)) (slice buf tot (chunk n tot (off + tot))) =
    Ok bs' /\ Z.of_nat (length bs') = BSIZE.
Proof.
  intros Ht Hbs. pose proof (chunk_bounds n tot (off + tot) ltac:(lia)) as [Hc Hc'].
  pose proof (Z.mod_pos_bound (off + tot) BSIZE bsize_pos).
  assert (Hfit : (Z.to_nat ((off + tot) mod BSIZE) +
    length (slice buf tot (chunk n tot (off + tot))) <= length bs)%nat).
  { unfold slice. rewrite length_take, length_drop. lia. }
  pose proof (write_at_ok _ _ _ Hfit) as E. eexists. split; [exact E |].
  apply write_at_inv in E as [-> _]. done.
Qed.

Lemma write_loop_ends fuel : forall tot first inode c r,
  same_file d (inodeData inode) -> sz <= Layout.size (inodeData inode) -> good c -> 0 <= tot ->
  (tot < n -> starts off tot) -> parts_left n tot (off + tot) fuel ->
  written c (Layout.size (inodeData inode)) r ->
  write_ends tot c (Layout.size (inodeData inode)) r
    (write_loop fuel src buf n tot (off + tot) first inode c r).
Proof.
  induction fuel as [| fuel IH]; intros tot first inode c r Hsf Hz Hg Ht Hst Hfuel Hw;
    cbn [write_loop]; case_if; [unfold parts_left in Hfuel;
      pose proof (Z.mod_pos_bound (off + tot) BSIZE bsize_pos); lia | | |];
    try (split; [done |]; split; [by apply writes_refl |]; split; [done |]; left;
      repeat (split; [done |]); intros; lia).
  specialize (Hst ltac:(lia)). pose proof (chunk_bounds n tot (off + tot) ltac:(lia)) as [Hc _].
  pose proof bsize_pos. destruct Hfile as ([Hc0 Hc1] & Hblk & _).
  assert (Hk : 0 <= (off + tot) / BSIZE < i_block_count d)
    by (split; [apply Z.div_pos; lia | apply Z.div_lt_upper_bound; lia]).
  assert (E64 : to_u64 (off + tot + chunk n tot (off + tot)) = off + tot + chunk n tot (off + tot)).
  { apply to_u64_small. change BSIZE with 4096 in *. lia. }
  rewrite (to_u32_small (_ / _)), (to_u32_small (tot + _)), E64 by lia.
  assert (Hnext : forall first1 inode1 c1 r1, same_file d (inodeData inode1) ->
    sz <= Layout.size (inodeData inode1) -> good c1 -> written c1 (Layout.size (inodeData inode1)) r1 ->
    write_ends (tot + chunk n tot (off + tot)) c1 (Layout.size (inodeData inode1)) r1
      (write_loop fuel src buf n (tot + chunk n tot (off + tot)) (off + tot + chunk n tot (off + tot))
        first1 inode1 c1 r1)).
  { intros. rewrite <- Z.add_assoc. apply IH; try done; try lia.
    - intros. apply chunk_next; lia.
    - rewrite Z.add_assoc. apply parts_next; done || lia. }
  unfold getBlockIoDone. destruct (bool_decide_reflect (src + tot ∈ blockIoDoneMap r)) as [Hin | Hin].
  { eapply write_ends_step; [lia | done | done | done | done | by apply writes_refl | by apply Hnext]. }
  destruct (Hblk _ Hk) as (k & Hbk & Hk0 & Hown).
  pose proof (block_at_same _ _ ((off + tot) / BSIZE) Hsf) as Hb'. rewrite Hbk in Hb'.
  destruct (data_block_at _ _ _ Hb') as (e & inside & m & -> & He & ->).
  rewrite Z.geb_leb, (proj2 (Z.leb_le 0 e)) by done. cbn [check res_bind].
  rewrite (proj2 (Z.eqb_neq k 0)) by done. cbn [check negb res_bind]. pose proof Hsf as (_ & _ & Eno & _). rewrite <- Eno in Hown.
  destruct (get_for_write_spec (inodeData inode) k (off + tot) (chunk n tot (off + tot)) c r Hg Hown)
    as [[Hfull ->] | [(i & c1 & bs & -> & Hm & Hbs & Hun & Hwr)
                     | (i & c1 & r1 & -> & Hg1 & Hs1 & Hwait & Hla)]]; cbn [res_bind].
  - split; [done |]. apply no_room_now; [apply Hg | done].
  - rewrite Hm, part_read by lia. cbn [res_bind].
    destruct (part_write bs tot ltac:(lia) Hbs) as (bs' & Hwa & Hbs'). rewrite Hwa. cbn [res_bind].
    destruct (setBlockIoDone_ok _ _ Hin) as (r1 & -> & Ed & Eb & Es & _). cbn [res_bind].
    destruct (Hwr bs' Hbs') as (c2 & -> & Hg2 & Hst2 & Ho2 & Hla). cbn [res_bind].
    set (z2 := Z.max _ _). destruct (set_size_fields z2 inode) as [Ez (Ex & Ebc & Ei & Ec)].
    destruct (write_step c c2 (Layout.size (inodeData inode)) r r1 tot k bs bs' (inodeData inode))
      as [Hws Hwn]; try done; try lia. fold z2 in Hws, Hwn.
    eapply write_ends_step; [lia | done | rewrite Ed; set_solver | done | done | exact Hws |].
    pose proof (fun first1 => Hnext first1 (set_size z2 inode) c2 r1) as Hx. rewrite Ez in Hx.
    apply Hx; [| lia | done | done].
    destruct Hsf as (? & ? & ? & ?). split_and!; congruence.
  - destruct Hwait as (Ed & _ & Hpos). split; [done |]. split.
    { apply writes_same; try done. eapply later_weaken, Hla. intros b <-. exists (off + tot), k. split; [lia | done]. }
    split; [| by right]. intros t Htt Hs' Hin'. rewrite Ed in Hin'.
    destruct (Hw t Htt Hs' Hin') as [? Hj]. split; [done |]. intros j Hjr.
    rewrite (byte_same c c1) by done. by apply Hj.
Qed.

End Write.

End Contents.

(** ** Allocated files *)

Section Placed.
Context {cfg : ExtentConfig} {Hal : AlignedConfig cfg}.

(** The extents of a file are units of the workers. *)
Definition placed (d : cfs_dinode) : Prop :=
  forall e x, ext_array d !! e = Some x -> num_blocks x <> 0 ->
    block_no x <> 0 /\ exists w, 0 <= w < NMAX_FSP_WORKER /\ is_unit w e (block_no x).

(** [own] gives the blocks of the file to its inode. *)
Definition owned (own : Z -> Z) (d : cfs_dinode) : Prop :=
  forall k n, 0 <= k < i_block_count d -> block_at d k = Some n -> own (pba n) = i_no d.

Lemma owned_same own d d' : same_file d d' -> owned own d -> owned own d'.
Proof.
  intros (E1 & E2 & E3 & _) Ho k n. unfold block_at. rewrite E1, E2, E3. apply Ho.
Qed.

Lemma unit_range w e no :
  0 <= w < NMAX_FSP_WORKER -> (e < 7)%nat -> is_unit w e no -> 0 <= no /\ no + unit_of e <= 209715200.
Proof.
  intros Hw He Hu. pose proof (unit_in_region _ _ _ He Hu) as [H1 H2].
  pose proof (region_range w e Hw He) as (H3 & H4 & H5). change BPB with 32768 in *. lia.
Qed.

Lemma pba_small n : 0 <= n < 209715200 -> pba n = get_data_start_block + n.
Proof. intros H. unfold pba. change get_data_start_block with 10507793. apply to_u32_small. lia. Qed.

(** Block [k] of a file lies in the extent of its position. *)
Lemma block_at_position d k :
  inode_ok d -> placed d -> 0 <= k < i_block_count d ->
  exists e inside x w, position k e inside /\ (e < 7)%nat /\ 0 <= inside < unit_of e /\
    ext_array d !! e = Some x /\ block_no x <> 0 /\ 0 <= w < NMAX_FSP_WORKER /\
    is_unit w e (block_no x) /\ block_at d k = Some (block_no x + inside).
Proof.
  intros (Hlen & Hc & Ha) Hpl Hk.
  assert (Hk7 : 0 <= k <= ext_base 7) by lia. destruct (position_exists k Hk7) as (e & inside & Hp).
  assert (He : (e < 7)%nat).
  { destruct Hp as (He & -> & ? & [? | [-> ->]]); [tauto | lia]. }
  pose proof (position_extent _ _ _ He Hp) as Hi.
  destruct (lookup_lt_is_Some_2 (ext_array d) e) as [x Hx]; [lia |].
  assert (Hnum : num_blocks x <> 0).
  { rewrite (Ha _ _ Hx). unfold filled. destruct Hp as (_ & -> & _). lia. }
  destruct (Hpl _ _ Hx Hnum) as (H0 & w & Hw & Hu).
  exists e, inside, x, w. split; [done |]. split; [done |]. split; [done |]. split; [done |].
  split; [done |]. split; [done |]. split; [done |].
  destruct (current_extent _ _ _ Hp) as (i0 & m0 & E). rewrite decide_True in E by done.
  unfold block_at. rewrite E, (proj2 (Z.ltb_ge _ _)), Nat2Z.id, Hx by lia. cbn.
  destruct (unit_range _ _ _ Hw He Hu). rewrite to_u32_small by lia. done.
Qed.

Lemma placed_file_ok own d : inode_ok d -> placed d -> owned own d -> file_ok own d.
Proof.
  intros Hi Hpl Ho. split; [apply Hi |]. split.
  - intros k Hk. destruct (block_at_position d k Hi Hpl Hk)
      as (e & inside & x & w & Hp & He & Hin & Hx & H0 & Hw & Hu & E).
    destruct (unit_range _ _ _ Hw He Hu). eexists. split; [exact E |]. split; [lia |]. by apply (Ho k).
  - intros k k' n n' Hk Hk' En En' Epb.
    destruct (block_at_position d k Hi Hpl Hk)
      as (e & inside & x & w & Hp & He & Hin & Hx & H0 & Hw & Hu & E).
    destruct (block_at_position d k' Hi Hpl Hk')
      as (e' & inside' & x' & w' & Hp' & He' & Hin' & Hx' & H0' & Hw' & Hu' & E').
    destruct (unit_range _ _ _ Hw He Hu), (unit_range _ _ _ Hw' He' Hu').
    rewrite En in E. injection E as ->. rewrite En' in E'. injection E' as ->.
    rewrite !pba_small in Epb by lia.
    destruct (decide ((w, e, block_no x) = (w', e', block_no x'))) as [[= -> -> Eb] | Hne].
    + destruct Hp as (_ & -> & _), Hp' as (_ & -> & _). lia.
    + exfalso. apply (units_apart _ _ _ _ _ _ He He' Hu Hu' Hne).
      exists (block_no x + inside). lia.
Qed.

(** The state of a worker that allocates. *)
Definition alloc_ready (s : FsImpl) : Prop :=
  0 <= idx_ s < NMAX_FSP_WORKER /\ bmap_ok (bmapBlockBuf s) /\ cursor_ok s /\
  reserved (bmapBlockBuf s).

(** Blocks of a file that ends at [e]. *)
Definition blocks_for (e : Z) : Z := (e - 1) / BSIZE + 1.

Lemma blocks_for_bounds e : 0 < e -> (blocks_for e - 1) * BSIZE < e <= blocks_for e * BSIZE /\ 0 < blocks_for e.
Proof.
  intros He. unfold blocks_for. pose proof bsize_pos. pose proof (Z.div_mod (e - 1) BSIZE ltac:(lia)).
  pose proof (Z.mod_pos_bound (e - 1) BSIZE bsize_pos).
  assert (0 <= (e - 1) / BSIZE) by (apply Z.div_pos; lia). lia.
Qed.

Lemma grown_placed w c d d' :
  0 <= w < NMAX_FSP_WORKER -> length (ext_array d) = length (ext_array d') ->
  in_place (ext_array d) (ext_array d') ->
  placed_by w c (ext_array d) (ext_array d') -> reserved c -> placed d -> placed d'.
Proof.
  intros Hw Hl Hin Hby Hr Hp e x' Hx' Hn'.
  destruct (lookup_lt_is_Some_2 (ext_array d) e) as [x Hx];
    [rewrite Hl; by eapply lookup_lt_Some |].
  destruct (decide (num_blocks x = 0)) as [E | E].
  - destruct (Hby _ _ _ Hx Hx' E Hn') as (Hu & H0 & _). eauto.
  - destruct (Hin _ _ _ Hx Hx' E) as [-> _]. by eapply Hp.
Qed.

(** The blocks a file had stay where they are. *)
Lemma in_place_block_at d d' k :
  inode_ok d -> placed d -> inode_ok d' -> in_place (ext_array d) (ext_array d') ->
  0 <= k < i_block_count d -> block_at d' k = block_at d k.
Proof.
  intros Hi Hpl (Hl' & _) Hin Hk. pose proof Hi as (Hl & Hc & Ha).
  destruct (block_at_position d k Hi Hpl Hk)
    as (e & inside & x & w & Hp & He & Hins & Hx & _).
  destruct (current_extent _ _ _ Hp) as (i0 & m0 & E). rewrite decide_True in E by done.
  unfold block_at. rewrite E, (proj2 (Z.ltb_ge _ _)), Nat2Z.id, Hx by lia.
  destruct (lookup_lt_is_Some_2 (ext_array d') e) as [x' Hx']; [lia |]. rewrite Hx'. cbn.
  destruct (Hin _ _ _ Hx Hx') as [-> _]; [| done].
  rewrite (Ha _ _ Hx). unfold filled. destruct Hp as (_ & -> & _). lia.
Qed.

(** How the allocation before a write ends. *)
Definition alloc_result (inode : InMemInode) (s : FsImpl) (fin : Z) (r : FsReq)
    (out : res (Z * InMemInode * FsImpl * FsReq)) : Prop :=
  match out with
  | Ok (v, inode1, s1, r1) =>
      let d := inodeData inode in let d1 := inodeData inode1 in
      same_inode d d1 /\ alloc_ready s1 /\ inodeMap s1 = inodeMap s /\
      in_place (ext_array d) (ext_array d1) /\
      ((0 <= v < 2 ^ 31 /\ r1 = r /\ inode_ok d1 /\ placed d1 /\
        i_block_count d <= i_block_count d1 <= Z.max (i_block_count d) (blocks_for fin) /\
        fin <= i_block_count d1 * BSIZE) \/
       (v = 0 /\ 0 < numTotalPendingIoReq r1 /\ blockIoDoneMap r1 = blockIoDoneMap r /\
        inode_ok d1 /\ placed d1 /\ i_block_count d <= i_block_count d1 <= blocks_for fin) \/
       (v = UINT64_MAX /\ r1 = r /\ i_block_count d1 = i_block_count d /\
        out_of_space (blocks_for fin) s inode1 (bmapBlockBuf s1)))
  | Crash f => f = AssertFail /\ no_room (fun _ => 0) BSIZE (fun _ => False) (bmapBlockBuf s)
  end.

Lemma alloc_for_write inode off nBytes s r :
  let d := inodeData inode in
  inode_ok d -> placed d -> alloc_ready s -> 0 <= off <= Layout.size d -> 0 < nBytes ->
  off + nBytes <= 2 ^ 42 -> Layout.size d <= i_block_count d * BSIZE ->
  (off + nBytes <= Layout.size d \/ i_block_count d <= blocks_for (off + nBytes)) ->
  alloc_result inode s (off + nBytes) r (writeInodeAllocDataBlock inode off nBytes s r).
Proof.
  intros d Hi Hpl (Hw & Hb & Hcu & Hr) Ho Hn H42 Hsz Hfit. pose proof bsize_pos.
  pose proof (@ok_file_blocks cfg al_ok). pose proof Hi as (Hlen & Hc & _). fold d in Hc.
  unfold writeInodeAllocDataBlock. fold d. rewrite (to_u64_small (off + nBytes)) by lia.
  fold (blocks_for (off + nBytes)). rewrite (Z.gtb_ltb off), (proj2 (Z.ltb_ge _ _)) by lia.
  cbn [andb]. rewrite (Z.gtb_ltb (off + nBytes)).
  destruct (blocks_for_bounds (off + nBytes) ltac:(lia)) as [Hbl Hb0].
  destruct (Layout.size d <? off + nBytes) eqn:Es; b2p.
  2: { cbn. split; [apply same_inode_refl |]. split; [done |]. split; [done |]. split; [apply in_place_refl |].
       left. split; [by_compute |]. split; [done |]. split; [done |]. split; [done |]. fold d. lia. }
  assert (blocks_for (off + nBytes) <= 2 ^ 30).
  { unfold blocks_for. change BSIZE with 4096 in *.
    assert ((off + nBytes - 1) / 4096 < 2 ^ 30) by (apply Z.div_lt_upper_bound; lia). lia. }
  destruct Hfit as [Hfit | Hfit]; [lia |]. set (m := blocks_for (off + nBytes) - i_block_count d).
  assert (Em : to_i32 (to_u64 m) = m).
  { rewrite to_u64_small by lia. unfold to_i32. rewrite Z.mod_small; lia. }
  rewrite Em, Z.gtb_ltb. destruct (0 <? m) eqn:Em0; b2p.
  2: { rewrite to_u64_small by lia. split; [apply same_inode_refl |]. split; [done |]. split; [done |]. split; [apply in_place_refl |].
       left. split; [lia |]. split; [done |]. split; [done |]. split; [done |]. fold d. lia. }
  pose proof (allocate_ends m inode s r ltac:(lia) Hw Hb Hcu Hi) as Hend.
  destruct (allocateDataBlocks _ _ _ _ _) as [[[[v inode1] s1] r1] | f]; [| exact Hend].
  destruct Hend as (Hsi & Hf & Hcu1 & Hb1 & Hin & Hby & Hres & Hend). cbn [res_bind].
  assert (Hrd : alloc_ready s1) by (split; [by rewrite (frame_idx _ _ Hf) | auto]).
  assert (Him : inodeMap s1 = inodeMap s) by (by destruct Hf as (? & ? & ? & ->)).
  assert (Hpl1 : inode_ok (inodeData inode1) -> placed (inodeData inode1)).
  { intros (Hl1 & _). apply (grown_placed (idx_ s) (bmapBlockBuf s) d); [exact Hw | congruence | done | done | done | done]. }
  fold d in Hend. destruct Hend as [(-> & -> & Hi1 & Ec & _) | [(-> & (bno & Hp) & Hi1 & Hcc & _) | (-> & -> & Ec & _ & _ & _ & Hout)]].
  - replace (i_block_count d + m - i_block_count d) with m by lia. rewrite to_u32_small by lia.
    rewrite (proj2 (Z.eqb_neq m 0)), (proj2 (Z.ltb_ge m m)), to_u64_small by lia.
    split; [done |]. split; [done |]. split; [done |]. split; [done |]. left. rewrite Ec. fold d.
    split; [lia |]. split; [done |]. split; [done |]. split; [by apply Hpl1 |]. lia.
  - do 4 (split; [done |]). right. left. split; [done |].
    split; [by eapply pending_count |]. split; [apply Hp |]. split; [done |].
    split; [by apply Hpl1 |]. fold d. lia.
  - cbn. rewrite (proj2 (Z.ltb_lt (-1) m)) by lia. do 4 (split; [done |]).
    right. right. replace (blocks_for _) with (i_block_count d + m) by lia. done.
Qed.

Section WriteInode.
Context (own : Z -> Z) (disk : Z -> list Z).
Hypothesis (Hdisk : forall b, Z.of_nat (length (disk b)) = BSIZE).

Lemma byte_in_place c d d' p :
  inode_ok d -> placed d -> inode_ok d' -> in_place (ext_array d) (ext_array d') ->
  0 <= p < i_block_count d * BSIZE -> byte disk c d' p = byte disk c d p.
Proof.
  intros Hi Hpl Hi' Hin Hp. pose proof bsize_pos. unfold byte.
  rewrite (in_place_block_at d d'); try done.
  split; [apply Z.div_pos; lia | apply Z.div_lt_upper_bound; lia].
Qed.

Lemma written_in_place c d d' src buf off n z r :
  inode_ok d -> placed d -> inode_ok d' -> in_place (ext_array d) (ext_array d') -> 0 <= off ->
  z <= i_block_count d * BSIZE ->
  written disk d src buf off n c z r -> written disk d' src buf off n c z r.
Proof.
  intros Hi Hpl Hi' Hin Ho Hz Hw t Ht Hs Hd. destruct (Hw t Ht Hs Hd) as [Hle Hj]. split; [done |].
  intros j Hjr. rewrite (byte_in_place c d d'); try done; [by apply Hj | lia].
Qed.

Lemma all_written c d src buf off n z r :
  0 <= off -> written disk d src buf off n c z r ->
  (forall t, 0 <= t < n -> starts off t -> src + t ∈ blockIoDoneMap r) -> 0 < n ->
  off + n <= z /\ forall j, 0 <= j < n -> byte disk c d (off + j) = buf !! Z.to_nat j.
Proof.
  intros Ho Hw Hall Hn. split.
  - destruct (part_of off n (n - 1) Ho ltac:(lia)) as (t & Ht & Hs & Hr).
    destruct (Hw t Ht Hs (Hall t Ht Hs)) as [Hz _]. lia.
  - intros j Hj. destruct (part_of off n j Ho Hj) as (t & Ht & Hs & Hr).
    by apply (Hw t Ht Hs (Hall t Ht Hs)).
Qed.

(** No slot can be replaced: in the cache of bitmap blocks, or in the cache of file blocks
    after the allocation for a write of [n] bytes at [off]. *)
Definition write_stuck (inode : InMemInode) (off n : Z) (s : FsImpl) (c : cache) (r : FsReq) : Prop :=
  no_room (fun _ => 0) BSIZE (fun _ => False) (bmapBlockBuf s) \/
  exists v inode1 s1 r1, writeInodeAllocDataBlock inode off n s r = Ok (v, inode1, s1, r1) /\
    no_room own BSIZE (touches (inodeData inode1) off n) c.

(** The blocks of other files are as before. *)
Definition others_kept (ino : Z) (c c' : cache) : Prop :=
  forall b, own b <> ino -> stored disk c' b = stored disk c b.

(** The bytes of the file after a call of [writeInode] for the bytes [buf] at [off]. *)
Definition write_result (inode : InMemInode) (src : Z) (buf : list Z) (off : Z) (s : FsImpl) (c : cache)
    (r : FsReq) (out : res (Z * InMemInode * FsImpl * cache * FsReq)) : Prop :=
  let d := inodeData inode in let n := Z.of_nat (length buf) in
  match out with
  | Ok (v, inode', s', c', r') =>
      let d' := inodeData inode' in
      good own disk c' /\ i_no d' = i_no d /\ i_dentry_count d' = i_dentry_count d /\ inodeMap s' = inodeMap s /\
      owned own d' /\ in_place (ext_array d) (ext_array d') /\ others_kept (i_no d) c c' /\
      ((v = n /\ inode_ok d' /\ placed d' /\ alloc_ready s' /\
        Layout.size d' <= i_block_count d' * BSIZE /\
        i_block_count d <= i_block_count d' <= Z.max (i_block_count d) (blocks_for (off + n)) /\
        blockIo r' = blockIo r /\ sectorIo r' = sectorIo r /\
        Layout.size d' = Z.max (Layout.size d) (off + n) /\
        (forall j, 0 <= j < n -> byte disk c' d' (off + j) = buf !! Z.to_nat j) /\
        (forall p, 0 <= p < Layout.size d -> ~ off <= p < off + n ->
           byte disk c' d' p = byte disk c d p)) \/
       (v = 0 /\ 0 < numTotalPendingIoReq r' /\ inode_ok d' /\ placed d' /\ alloc_ready s' /\
        Layout.size d' <= i_block_count d' * BSIZE /\
        i_block_count d <= i_block_count d' <= Z.max (i_block_count d) (blocks_for (off + n)) /\
        written disk d' src buf off n c' (Layout.size d') r' /\
        Layout.size d <= Layout.size d' <= Z.max (Layout.size d) (off + n) /\
        (forall p, 0 <= p < Layout.size d -> ~ off <= p < off + n ->
           byte disk c' d' p = byte disk c d p)) \/
       (v = -1 /\ c' = c /\ r' = r /\ Layout.size d' = Layout.size d /\ i_block_count d' = i_block_count d /\
        out_of_space (blocks_for (off + n)) s inode' (bmapBlockBuf s')))
  | Crash f => f = AssertFail /\ write_stuck inode off n s c r
  end.

(** The loop on a file with enough blocks. *)
Definition loop_result (d : cfs_dinode) (src : Z) (buf : list Z) (off : Z) (c : cache) (r : FsReq)
    (out : res (Z * (Z * Z) * InMemInode * cache * FsReq)) : Prop :=
  let n := Z.of_nat (length buf) in
  match out with
  | Ok (v, _, inode', c', r') =>
      let d' := inodeData inode' in
      good own disk c' /\ same_file d d' /\ others_kept (i_no d) c c' /\ inode_ok d' /\ placed d' /\
      Layout.size d <= Layout.size d' <= Z.max (Layout.size d) (off + n) /\
      (forall p, 0 <= p < Layout.size d -> ~ off <= p < off + n ->
         byte disk c' d' p = byte disk c d p) /\
      ((v = n /\ blockIo r' = blockIo r /\ sectorIo r' = sectorIo r /\
        off + n <= Layout.size d' /\
        (forall j, 0 <= j < n -> byte disk c' d' (off + j) = buf !! Z.to_nat j)) \/
       (v = 0 /\ 0 < numTotalPendingIoReq r' /\
        written disk d' src buf off n c' (Layout.size d') r'))
  | Crash f => f = AssertFail /\ no_room own BSIZE (touches d off n) c
  end.

Lemma write_allocated inode src buf off first c r :
  let d := inodeData inode in let n := Z.of_nat (length buf) in
  inode_ok d -> placed d -> owned own d -> good own disk c -> 0 <= off -> 0 < n < 2 ^ 32 ->
  off + n <= i_block_count d * BSIZE -> Layout.size d <= i_block_count d * BSIZE ->
  written disk d src buf off n c (Layout.size d) r ->
  loop_result d src buf off c r (write_loop (loop_fuel n) src buf n 0 off first inode c r).
Proof.
  intros d n Hi Hpl Hown Hg Ho Hn Hfin Hsz Hw.
  pose proof (write_loop_ends own disk Hdisk d src buf off n (Layout.size d)
    (placed_file_ok _ _ Hi Hpl Hown) Ho ltac:(lia) eq_refl Hfin (@ok_file_blocks cfg al_ok) Hsz
    (loop_fuel n) 0 first inode c r) as Hl.
  rewrite Z.add_0_r in Hl. specialize (Hl ltac:(done) ltac:(fold d; lia) Hg ltac:(lia) ltac:(by left)
    (parts_enough n off ltac:(lia)) Hw).
  destruct (write_loop _ _ _ _ _ _ _ _ _ _) as [[[[[v first'] inode'] c'] r'] | e]; [| exact Hl].
  destruct Hl as (Hsf & [Hg' Hk Hoth _ Hz _] & Hwn & Hl). cbn [loop_result]. fold n.
  pose proof Hsf as (Ext & Ebc & _).
  assert (Hb' : forall p, byte disk c' (inodeData inode') p = byte disk c' d p).
  { intros p. by apply byte_same_file. }
  split; [done |]. split; [done |].
  split; [intros b Hb; apply Hoth; intros k m Hk' Hm <-; by apply Hb, (Hown k) |].
  split; [unfold inode_ok; by rewrite Ext, Ebc |].
  split; [unfold placed; by rewrite Ext |]. split; [done |].
  split; [intros p Hp Hout; by rewrite Hb', Hk |].
  destruct Hl as [(-> & Eb & Es & Hall) | [-> Hpos]]; [left | right].
  - split; [done |]. split; [done |]. split; [done |].
    destruct (all_written _ _ _ _ _ _ _ _ Ho Hwn Hall) as [Hend Hj]; [lia |].
    split; [done |]. intros j Hjr. rewrite Hb'. by apply Hj.
  - split; [done |]. split; [done |].
    intros t Ht Hst Hd. destruct (Hwn t Ht Hst Hd) as [? Hj]. split; [done |].
    intros j Hjr. rewrite Hb'. by apply Hj.
Qed.

Lemma writeAndSave_spec inode src buf off first s c r :
  let d := inodeData inode in let n := Z.of_nat (length buf) in
  inode_ok d -> placed d -> alloc_ready s -> good own disk c ->
  0 <= off <= Layout.size d -> 0 < n < 2 ^ 32 -> off + n <= 2 ^ 42 ->
  Layout.size d <= i_block_count d * BSIZE ->
  (off + n <= Layout.size d \/ i_block_count d <= blocks_for (off + n)) ->
  numTotalPendingIoReq r = 0 -> written disk d src buf off n c (Layout.size d) r ->
  (forall v inode1 s1 r1, writeInodeAllocDataBlock inode off n s r = Ok (v, inode1, s1, r1) ->
     owned own (inodeData inode1)) ->
  write_result inode src buf off s c r
    (let! (v, _, inode, s, c, r) := writeInodeAndSaveDataBlockInfo inode src buf off n first s c r in
     Ok (v, inode, s, c, r)).
Proof.
  intros d n Hi Hpl Hs Hg Ho Hn H42 Hsz Hfit Hpend Hw Hown. pose proof bsize_pos.
  pose proof (alloc_for_write inode off n s r Hi Hpl Hs Ho ltac:(lia) H42 Hsz Hfit) as Ha.
  unfold writeInodeAndSaveDataBlockInfo.
  destruct (writeInodeAllocDataBlock inode off n s r) as [[[[v inode1] s1] r1] | f] eqn:Ea.
  2: { destruct Ha as [-> Ha]. split; [done | by left]. }
  specialize (Hown _ _ _ _ eq_refl). cbn [alloc_result res_bind] in *. fold d in Ha.
  destruct Ha as ((Eno & Esz & Edc)%same_inode_fields & Hs1 & Him & Hin & Ha).
  destruct Ha as [(Hv & -> & Hi1 & Hp1 & Hcc & Hfin) | [(-> & Hpos & Ed & Hi1 & Hp1 & Hcc) | (-> & -> & Ec & Hout)]].
  - assert (Ev : to_i32 v = v) by (unfold to_i32; rewrite Z.mod_small; lia).
    rewrite Ev, Hpend, (proj2 (Z.ltb_ge v 0)) by lia. cbn [orb Z.gtb Z.compare snd].
    pose proof (written_in_place _ _ _ _ _ _ _ _ _ Hi Hpl Hi1 Hin (proj1 Ho) Hsz Hw) as Hw1.
    rewrite <- Esz in Hw1, Hsz. pose proof (write_allocated inode1 src buf off (0, snd first) c r Hi1 Hp1 Hown Hg
      (proj1 Ho) Hn Hfin ltac:(nia) Hw1) as Hl. fold n in Hl.
    destruct (write_loop _ _ _ _ _ _ _ _ _ _) as [[[[[v' first'] inode'] c'] r'] | e].
    2: { destruct Hl as [-> Hl]. split; [done |]. right. eauto 10. }
    cbn [res_bind write_result]. fold d n. cbn [loop_result] in Hl. fold n in Hl. rewrite Esz in Hl, Hsz.
    destruct Hl as (Hg' & (Eext & Ebc & Eno' & Edc') & Hoth & Hi' & Hp' & Hz & Hk & Hl).
    assert (Hsz' : Layout.size (inodeData inode') <= i_block_count (inodeData inode') * BSIZE)
      by (rewrite Ebc; nia).
    assert (Hkeep : forall p, 0 <= p < Layout.size d -> ~ off <= p < off + n ->
      byte disk c' (inodeData inode') p = byte disk c d p).
    { intros p Hp Hout. rewrite Hk by done. apply byte_in_place; try done. lia. }
    split; [done |]. split; [congruence |]. split; [congruence |]. split; [done |].
    split; [by apply (owned_same _ (inodeData inode1)) |]. split; [by rewrite Eext |].
    split; [by rewrite Eno in Hoth |].
    destruct Hl as [(-> & Eb & Es & Hend & Hj) | (-> & Hpos & Hw')]; [left | right; left].
    + do 5 (split; [done |]). split; [rewrite Ebc; done |]. do 2 (split; [done |]). split; [lia |]. by split.
    + do 6 (split; [done |]). split; [rewrite Ebc; done |]. split; [done |]. by split.
  - change (to_i32 0) with 0. cbn [Z.ltb Z.compare orb].
    rewrite (proj2 (Z.gtb_lt _ _)) by done. cbn [res_bind write_result]. fold d n.
    do 7 (split; [done |]). right. left. do 5 (split; [done |]). rewrite Esz.
    split; [nia |]. split; [fold d in Hcc; lia |]. split; [| split; [lia |]].
    + intros t Ht Hst Hd. rewrite Ed in Hd.
      by apply (written_in_place _ _ _ _ _ _ _ _ _ Hi Hpl Hi1 Hin (proj1 Ho) Hsz Hw).
    + intros p Hp _. apply byte_in_place; try done. lia.
  - change (to_i32 UINT64_MAX) with (-1). cbn [Z.ltb Z.compare orb res_bind write_result]. fold d n.
    do 7 (split; [done |]). by right; right.
Qed.

Lemma writeInode_spec inode src buf off s c r :
  let d := inodeData inode in let n := Z.of_nat (length buf) in
  inode_ok d -> placed d -> alloc_ready s -> good own disk c ->
  0 <= off <= Layout.size d -> 0 < n < 2 ^ 32 -> off + n <= 2 ^ 42 ->
  Layout.size d <= i_block_count d * BSIZE ->
  (off + n <= Layout.size d \/ i_block_count d <= blocks_for (off + n)) ->
  numTotalPendingIoReq r = 0 -> written disk d src buf off n c (Layout.size d) r ->
  (forall v inode1 s1 r1, writeInodeAllocDataBlock inode off n s r = Ok (v, inode1, s1, r1) ->
     owned own (inodeData inode1)) ->
  write_result inode src buf off s c r (writeInode inode src buf off n s c r).
Proof. intros d n Hi Hpl Hs Hg Ho Hn H42 Hsz Hfit Hp Hw Hown. by apply writeAndSave_spec. Qed.

(** A write within one block: where its first byte is, and that a call that waits has
    changed nothing. *)
Lemma write_one_part inode src buf off n first c r v first' inode' c' r' :
  0 < n -> off mod BSIZE + n <= BSIZE -> 0 <= off -> off / BSIZE < 2 ^ 32 -> src ∉ blockIoDoneMap r -> fst first = 0 ->
  write_loop (loop_fuel n) src buf n 0 off first inode c r = Ok (v, first', inode', c', r') ->
  (v = n /\ first' = (default 0 (block_at (inodeData inode') (off / BSIZE)), off mod BSIZE)) \/
  (v = 0 /\ inode' = inode).
Proof.
  intros Hn Hin Ho H32 Hsrc Hf E. pose proof bsize_pos as Hbp.
  assert (Hch : chunk n 0 off = n) by (unfold chunk; lia).
  assert (Hfu : exists f, loop_fuel n = S f).
  { unfold loop_fuel. assert (0 <= n / BSIZE) by (apply Z.div_pos; lia). exists (Z.to_nat (n / BSIZE + 1)). lia. }
  destruct Hfu as [f Hfu]. rewrite Hfu in E. cbn [write_loop] in E. rewrite (proj2 (Z.ltb_lt 0 n)) in E by done.
  rewrite Z.add_0_r in E. unfold getBlockIoDone in E. rewrite bool_decide_false in E by done.
  rewrite Hch, Z.add_0_l in E. rewrite to_u32_small in E by (split; [apply Z.div_pos; lia | done]).
  destruct (getCurrentExtentArrIdx (off / BSIZE)) as [[ext ins] mx] eqn:Eg.
  apply res_bind_ok in E as (? & Hext%check_ok & E). apply res_bind_ok in E as (k & Hk & E).
  apply res_bind_ok in E as (? & _ & E). apply res_bind_ok in E as ([[[w i] c1] r1] & _ & E).
  unfold data_block in Hk. apply res_bind_ok in Hk as (xe & Hx%load_ok & [= <-]).
  destruct w; [left | right; by injection E as <- <- <- <- <-].
  apply res_bind_ok in E as (? & _ & E). apply res_bind_ok in E as (? & _ & E). apply res_bind_ok in E as (? & _ & E).
  apply res_bind_ok in E as (? & _ & E). apply res_bind_ok in E as (? & _ & E).
  rewrite to_u32_small in E by (change BSIZE with 4096 in *; pose proof (Z.mod_pos_bound off 4096 eq_refl); lia).
  rewrite Hf in E. destruct f; cbn [write_loop] in E; rewrite Z.ltb_irrefl in E; injection E as <- <- <- _ _;
    (split; [done |]); rewrite (block_at_same (inodeData inode)) by apply set_size_fields;
    unfold block_at; rewrite Eg, (proj2 (Z.ltb_ge ext 0)) by lia; cbn; by rewrite (proj2 Hx).
Qed.

Lemma saved_position inode src buf off n first s c r v first' inode' s' c' r' :
  let d := inodeData inode in
  inode_ok d -> placed d -> alloc_ready s -> 0 <= off <= Layout.size d -> 0 < n -> off mod BSIZE + n <= BSIZE ->
  off + n <= 2 ^ 42 -> Layout.size d <= i_block_count d * BSIZE ->
  (off + n <= Layout.size d \/ i_block_count d <= blocks_for (off + n)) ->
  numTotalPendingIoReq r = 0 -> src ∉ blockIoDoneMap r ->
  writeInodeAndSaveDataBlockInfo inode src buf off n first s c r = Ok (v, first', inode', s', c', r') ->
  (v = n /\ first' = (default 0 (block_at (inodeData inode') (off / BSIZE)), off mod BSIZE)) \/
  (v = 0 /\ Layout.size (inodeData inode') = Layout.size d) \/ v = -1.
Proof.
  intros d Hi Hpl Hs Ho Hn Hin H42 Hsz Hfit Hpend Hsrc E.
  pose proof (alloc_for_write inode off n s r Hi Hpl Hs Ho Hn H42 Hsz Hfit) as Ha.
  unfold writeInodeAndSaveDataBlockInfo in E.
  destruct (writeInodeAllocDataBlock inode off n s r) as [[[[v1 inode1] s1] r1] | f]; [| done].
  cbn [alloc_result res_bind] in *. destruct Ha as ((Eno & Esz & _)%same_inode_fields & _ & _ & _ & Ha). fold d in Esz.
  destruct Ha as [(Hv & -> & _) | [(-> & Hpos & _) | (-> & -> & _)]].
  - assert (Ev : to_i32 v1 = v1) by (unfold to_i32; rewrite Z.mod_small; lia).
    rewrite Ev, Hpend, (proj2 (Z.ltb_ge v1 0)) in E by lia. cbn [orb Z.gtb Z.compare snd] in E.
    apply res_bind_ok in E as ([[[[v2 f2] i2] c2] r2] & El & [= <- <- <- _ _ _]).
    apply write_one_part in El; try done; [| lia |].
    + destruct El as [El | [-> ->]]; [by left | right; left]. done.
    + change BSIZE with 4096. assert (off / 4096 < 2 ^ 32) by (apply Z.div_lt_upper_bound; lia). done.
  - change (to_i32 0) with 0 in E. cbn [Z.ltb Z.compare orb] in E. rewrite (proj2 (Z.gtb_lt _ _)) in E by done.
    injection E as <- _ <- _ _ _. right. left. done.
  - change (to_i32 UINT64_MAX) with (-1) in E. cbn [Z.ltb Z.compare orb] in E. injection E as <- _ _ _ _ _. by right; right.
Qed.

End WriteInode.

End Placed.

(** ** Properties *)



(** C1. After a write that succeeded, a read of the same range returns the bytes that were
    written, as soon as it does not wait, whatever was flushed, read or replaced in the
    cache in between. *)
Theorem read_your_writes (cfg : ExtentConfig) (Hal : AlignedConfig cfg) own disk disk2
    inode src buf off s c r inode1 s1 c1 r1 dst out c2 r2 v out' c3 r3 :
  let d := inodeData inode in let n := Z.of_nat (length buf) in
  (forall b, Z.of_nat (length (disk b)) = BSIZE) ->
  inode_ok d -> placed d -> alloc_ready s -> good own disk c ->
  0 <= off <= Layout.size d -> 0 < n < 2 ^ 32 -> off + n <= 2 ^ 42 ->
  Layout.size d <= i_block_count d * BSIZE ->
  (off + n <= Layout.size d \/ i_block_count d <= blocks_for (off + n)) ->
  numTotalPendingIoReq r = 0 -> blockIoDoneMap r = ∅ ->
  (forall v inode1 s1 r1, writeInodeAllocDataBlock inode off n s r = Ok (v, inode1, s1, r1) ->
     owned own (inodeData inode1)) ->
  writeInode inode src buf off n s c r = Ok (n, inode1, s1, c1, r1) ->
  owned own (inodeData inode1) -> (forall b, Z.of_nat (length (disk2 b)) = BSIZE) ->
  good own disk2 c2 -> (forall b, stored disk2 c2 b = stored disk c1 b) ->
  dst <> 0 -> length out = length buf -> blockIoDoneMap r2 = ∅ ->
  readInode inode1 dst out off n false c2 r2 = Ok (v, out', c3, r3) -> v <> 0 ->
  v = n /\ out' = buf.
Proof.
  intros d n Hd Hi Hpl Hs Hg Ho Hn H42 Hsz Hfit Hp Hr0 Hown E Hown1 Hd2 Hg2 Hst Hdst Hlen Hr2 Er Hv.
  assert (Hw : written disk d src buf off n c (Layout.size d) r) by by apply written_none.
  pose proof (writeInode_spec own disk Hd inode src buf off s c r Hi Hpl Hs Hg Ho Hn H42 Hsz Hfit Hp Hw Hown)
    as H. fold n in H. rewrite E in H. cbn [write_result] in H. fold d n in H.
  destruct H as (_ & _ & _ & _ & _ & _ & _ & [H | [(? & _) | (? & _)]]); [| lia..].
  destruct H as (_ & Hi1 & Hp1 & _ & Hsz1 & _ & _ & _ & Ez & Hj & _).
  pose proof (readInode_spec own disk2 Hd2 inode1 dst out off n c2 r2) as Hrd. cbn zeta in Hrd.
  rewrite Ez, Z.min_l in Hrd by lia. rewrite Er in Hrd.
  destruct Hrd as (_ & _ & Hl & _ & H); try done; try lia.
  - by apply placed_file_ok.
  - apply (@ok_file_blocks cfg al_ok).
  - by apply delivered_none.
  - destruct H as [(-> & _ & _ & Hb) | [? _]]; [| done]. split; [done |].
    apply list_eq. intros j. destruct (decide (j < length buf)%nat) as [Hlt | Hge].
    + specialize (Hb (Z.of_nat j) ltac:(lia)). specialize (Hj (Z.of_nat j) ltac:(lia)).
      rewrite Nat2Z.id in Hb, Hj. rewrite Hb, <- Hj. unfold byte.
      destruct (block_at _ _); [| done]. cbn. by rewrite Hst.
    + rewrite !lookup_ge_None_2 by lia. done.
Qed.

(** A new file of inode 7, a worker whose first bitmap block is in memory, and an empty
    cache of data blocks. *)
Definition ex_reserved : list Z := 1 :: replicate (Z.to_nat BSIZE - 1) 0.
Definition ex_worker : FsImpl := ex_fs ∅ (ex_fetch bmap0 ex_reserved (new_cache 4 BSIZE)).
Definition ex_own (b : Z) : Z := 7.
Definition ex_disk (b : Z) : list Z := ex_block.
Definition ex_buf : list Z := [1; 2; 3].
Notation ex_len := (Z.of_nat (length ex_buf)).
Definition ex_write : res (Z * InMemInode * FsImpl * cache * FsReq) :=
  writeInode (cfg := cfg_default) ex_inode 1000 ex_buf 0 ex_len ex_worker (new_cache 4 BSIZE) ex_req.

Lemma ex_write_eq :
  ex_write =
  writeInode (cfg := cfg_default) ex_inode 1000 ex_buf 0 ex_len ex_worker (new_cache 4 BSIZE) ex_req.
Proof. reflexivity. Qed.

Lemma ex_disk_ok b : Z.of_nat (length (ex_disk b)) = BSIZE.
Proof. by_compute. Qed.

Lemma ex_worker_ready : alloc_ready ex_worker.
Proof.
  split; [by_compute |]. split.
  { apply ex_fetch_ok; [by apply new_bmap_ok | by apply (new_cache_quiet (fun _ => 0)) | | by_compute].
    apply Forall_cons. split; [lia | apply Forall_replicate; lia]. }
  split; [by_compute |]. intros d bs Hl. vm_compute in Hl. by injection Hl as <- <-.
Qed.

Lemma ex_data_good : good ex_own ex_disk (new_cache 4 BSIZE).
Proof.
  destruct (new_cache_quiet ex_own 4 BSIZE ltac:(lia) ltac:(done)) as [Hq Hl].
  split; [done |]. intros b bs. by rewrite Hl.
Qed.

Lemma ex_inode_placed : placed (cfg := cfg_default) (inodeData ex_inode).
Proof.
  intros e x He Hn. cbn in He. do 7 (destruct e as [| e]; [by injection He as <- |]). done.
Qed.

Lemma ex_owned v inode1 s1 r1 :
  writeInodeAllocDataBlock (cfg := cfg_default) ex_inode 0 ex_len ex_worker ex_req = Ok (v, inode1, s1, r1) ->
  owned (cfg := cfg_default) ex_own (inodeData inode1).
Proof.
  intros E k n _ _. pose proof (alloc_for_write ex_inode 0 ex_len ex_worker ex_req ex_inode_ok ex_inode_placed
    ex_worker_ready ltac:(by_compute) ltac:(by_compute) ltac:(by_compute) ltac:(by_compute)
    ltac:(right; by_compute)) as H.
  rewrite E in H. destruct H as ([-> _]%same_inode_fields & _). done.
Qed.


Lemma ex_write_done :
  exists inode1 s1 c1 r1, ex_write = Ok (ex_len, inode1, s1, c1, r1) /\
    inode_ok (cfg := cfg_default) (inodeData inode1) /\ placed (cfg := cfg_default) (inodeData inode1) /\
    owned (cfg := cfg_default) ex_own (inodeData inode1) /\ good ex_own ex_disk c1 /\
    Layout.size (inodeData inode1) = ex_len /\
    Layout.size (inodeData inode1) <= i_block_count (inodeData inode1) * BSIZE.
Proof.
  assert (Hv : match ex_write with Ok (v, _, _, _, _) => v = ex_len | Crash _ => False end) by by vm_compute.
  assert (H : write_result (cfg := cfg_default) ex_own ex_disk ex_inode 1000 ex_buf 0 ex_worker (new_cache 4 BSIZE)
    ex_req ex_write).
  { rewrite ex_write_eq. apply writeInode_spec.
    - apply ex_disk_ok.
    - apply ex_inode_ok.
    - apply ex_inode_placed.
    - apply ex_worker_ready.
    - apply ex_data_good.
    - by_compute.
    - by_compute.
    - by_compute.
    - by_compute.
    - right. by_compute.
    - reflexivity.
    - apply written_none. reflexivity.
    - apply ex_owned. }
  destruct ex_write as [[[[[v inode1] s1] c1] r1] | f]; [subst v | done].
  exists inode1, s1, c1, r1. split; [done |].
  destruct H as (Hg & Eno & _ & _ & _ & _ & _ & [H | [(? & _) | (? & _)]]); [| done..].
  destruct H as (_ & Hi1 & Hp1 & _ & Hsz & _ & _ & _ & Ez & _).
  split; [done |]. split; [done |]. split; [intros k n _ _; by rewrite Eno |]. split; [done |].
  split; [by rewrite Ez | done].
Qed.


Lemma read_your_writes_witness :
  match ex_write with
  | Ok (_, inode1, _, c1, _) =>
      match readInode (cfg := cfg_default) inode1 2000 [0; 0; 0] 0 ex_len false c1 ex_req with
      | Ok (v, out, _, _) => v = ex_len /\ out = ex_buf
      | Crash _ => False
      end
  | Crash _ => False
  end.
Proof.
  assert (Hv : match ex_write with
    | Ok (_, inode1, _, c1, _) =>
        match readInode (cfg := cfg_default) inode1 2000 [0; 0; 0] 0 ex_len false c1 ex_req with
        | Ok (v, _, _, _) => v <> 0 | Crash _ => False end
    | Crash _ => False end) by by vm_compute.
  destruct ex_write_done as (inode1 & s1 & c1 & r1 & E & Hi & Hp & Ho & Hg & Ez & Hsz).
  rewrite E in *. rewrite ex_write_eq in E.
  destruct (readInode _ _ _ _ _ _ _ _) as [[[[v out] c3] r3] | f] eqn:Er; [| done].
  apply (read_your_writes cfg_default default_aligned ex_own ex_disk ex_disk ex_inode 1000 ex_buf 0
    ex_worker (new_cache 4 BSIZE) ex_req inode1 s1 c1 r1 2000 [0; 0; 0] c1 ex_req v out c3 r3);
    [apply ex_disk_ok | apply ex_inode_ok | apply ex_inode_placed | apply ex_worker_ready
    | apply ex_data_good | by_compute | by_compute | by_compute | by_compute | right; by_compute
    | reflexivity | reflexivity | apply ex_owned | exact E | exact Ho | apply ex_disk_ok | exact Hg
    | reflexivity | lia | reflexivity | reflexivity | exact Er | exact Hv].
Defined.

End DataPath.
