(* ===== verification/ReadIO.v ===== *)
(** Reads of a worker: how a request that waits for blocks or sectors submits its reads,
    and how the completions of the device make it run again.

    [submitFsGeneratedRequests] of FsProc_FileMng.cc, [submitAsyncReadDevReq],
    [submitPendOnBlockFsReq], [submitPendOnSectorFsReq] and
    [submitDevAsyncReadReqCompletion] of FsProc_Worker.cc, in the build with SPDK.  The
    device is a parameter: [dev isSector no] is the result of submitting the read.  The
    theorems show that no wake-up is lost or doubled, in whatever order the reads complete
    and the containers are visited. *)

From Stdlib Require Import ZArith List Bool Lia.
From stdpp Require Import base gmap list.
From S2P Require Import Prelude Unordered Layout BlockBuf FsCache.
Import ListNotations.
Open Scope Z_scope.

Module ReadIO.
Import BlockBuf FsCache.

(** Requests and slots have numbers in place of addresses. *)
Record FsProcWorker : Type := mk_worker {
  reqs : gmap Z FsReq;
  items : heap;
  blkReadPendingFsReqs : gmap Z (gset Z);
  blkReadPendingSubmitFsReq : gmap Z Z;
  sectorReadPendingFsReqs : gmap Z (gset Z);
  sectorReadPendingSubmitFsReq : gmap Z Z;
  internalReadyReqQueue : list Z
}.

(** The maps for blocks or for sectors. *)
Definition curUnitPendingFsReqs (isSector : bool) (w : FsProcWorker) : gmap Z (gset Z) :=
  if isSector then sectorReadPendingFsReqs w else blkReadPendingFsReqs w.
Definition curUnitPendingSubmitFsReq (isSector : bool) (w : FsProcWorker) : gmap Z Z :=
  if isSector then sectorReadPendingSubmitFsReq w else blkReadPendingSubmitFsReq w.

Definition set_unit (isSector : bool) (p : gmap Z (gset Z)) (u : gmap Z Z) (w : FsProcWorker)
    : FsProcWorker :=
  if isSector
  then mk_worker (reqs w) (items w) (blkReadPendingFsReqs w) (blkReadPendingSubmitFsReq w) p u
         (internalReadyReqQueue w)
  else mk_worker (reqs w) (items w) p u (sectorReadPendingFsReqs w)
         (sectorReadPendingSubmitFsReq w) (internalReadyReqQueue w).

Definition set_reqs (m : gmap Z FsReq) (h : heap) (w : FsProcWorker) : FsProcWorker :=
  mk_worker m h (blkReadPendingFsReqs w) (blkReadPendingSubmitFsReq w)
    (sectorReadPendingFsReqs w) (sectorReadPendingSubmitFsReq w) (internalReadyReqQueue w).

Definition submitReadyReq (q : Z) (w : FsProcWorker) : FsProcWorker :=
  mk_worker (reqs w) (items w) (blkReadPendingFsReqs w) (blkReadPendingSubmitFsReq w)
    (sectorReadPendingFsReqs w) (sectorReadPendingSubmitFsReq w)
    (internalReadyReqQueue w ++ [q]).

Definition get_req (q : Z) (w : FsProcWorker) : res FsReq :=
  match reqs w !! q with Some r => Ok r | None => Crash OutOfRange end.

Section Device.
Context (dev : bool -> Z -> Z) `{UIter} `{SIter}.

Definition submitAsyncReadDevReq (isSector : bool) (q no : Z) (w : FsProcWorker)
    : res (Z * FsProcWorker) :=
  let p := curUnitPendingFsReqs isSector w in
  let u := curUnitPendingSubmitFsReq isSector w in
  match u !! no with
  | Some _ => Crash AssertFail
  | None =>
      let p := match p !! no with Some _ => p | None => <[no := ∅]> p end in
      Ok (dev isSector no, set_unit isSector p (<[no := q]> u) w)
  end.

(** [submitPendOnBlockFsReq] and [submitPendOnSectorFsReq] *)
Definition submitPendOnFsReq (isSector : bool) (q no : Z) (w : FsProcWorker)
    : res (Z * FsProcWorker) :=
  match curUnitPendingSubmitFsReq isSector w !! no with
  | None => Ok (0, submitReadyReq q w)
  | Some _ =>
      match curUnitPendingFsReqs isSector w !! no with
      | None => Crash OutOfRange
      | Some waiting =>
          Ok (1, set_unit isSector
                   (<[no := waiting ∪ {[q]}]> (curUnitPendingFsReqs isSector w))
                   (curUnitPendingSubmitFsReq isSector w) w)
      end
  end.

(** The loop over the pending map of the request; [first] is [it == beginIt]. *)
Fixpoint submit_loop (isSector first : bool) (q : Z) (r : FsReq) (l : list (Z * bool))
    (w : FsProcWorker) : res FsProcWorker :=
  match l with
  | [] => Ok w
  | (no, doSubmit) :: l' =>
      let! (submitFail, w) :=
        if doSubmit then
          match getIoUnitSubmitReq no (ioHelper isSector r) with
          | None => Crash AssertFail
          | Some _ =>
              let! (rc, w) := submitAsyncReadDevReq isSector q no w in
              Ok (negb (rc >=? 0), w)
          end
        else Ok (false, w) in
      if negb submitFail then
        let! (_, w) := submitPendOnFsReq isSector q no w in
        submit_loop isSector false q r l' w
      else if first then Crash AssertFail
      else Ok w
  end.

Definition submitFsGeneratedRequestsCheckSinglePendingMap (isSector : bool) (q : Z)
    (w : FsProcWorker) : res FsProcWorker :=
  let! r := get_req q w in
  submit_loop isSector true q r (uiter (ioUnitPendingMap (ioHelper isSector r))) w.

Definition submitFsGeneratedRequests (q : Z) (w : FsProcWorker) : res FsProcWorker :=
  let! r := get_req q w in
  let! w := if Z.of_nat (size (ioUnitPendingMap (blockIo r))) >? 0
            then submitFsGeneratedRequestsCheckSinglePendingMap false q w else Ok w in
  if Z.of_nat (size (ioUnitPendingMap (sectorIo r))) >? 0
  then submitFsGeneratedRequestsCheckSinglePendingMap true q w else Ok w.

(** One waiting request of a completed read. *)
Definition wake (isSector : bool) (no : Z) (w : FsProcWorker) (q : Z) : res FsProcWorker :=
  let! r := get_req q w in
  let r := set_ioHelper isSector (ioUnitWaitReqDone no (ioHelper isSector r)) r in
  let w := set_reqs (<[q := r]> (reqs w)) (items w) w in
  if numTotalPendingIoReq r =? 0 then Ok (submitReadyReq q w) else Ok w.

(** The copy of a bitmap block to the journal is not part of the model. *)
Definition submitDevAsyncReadReqCompletion (isSector : bool) (no : Z) (w : FsProcWorker)
    : res (Z * FsProcWorker) :=
  let! _ := check (negb (Layout.isInodeBitmap no)) in
  match curUnitPendingFsReqs isSector w !! no with
  | None => Crash AssertFail
  | Some waiting =>
      let! w := foldM (wake isSector no) (siter waiting) w in
      let w := set_unit isSector (delete no (curUnitPendingFsReqs isSector w))
                 (curUnitPendingSubmitFsReq isSector w) w in
      match curUnitPendingSubmitFsReq isSector w !! no with
      | None => Ok (-1, w)
      | Some q =>
          let w := set_unit isSector (curUnitPendingFsReqs isSector w)
                     (delete no (curUnitPendingSubmitFsReq isSector w)) w in
          let! r := get_req q w in
          let! (h, u) := submittedIoUnitReqDone no (items w) (ioHelper isSector r) in
          Ok (0, set_reqs (<[q := set_ioHelper isSector u r]> (reqs w)) h w)
      end
  end.

End Device.

(** ** Invariant *)

Definition pending (isSector : bool) (r : FsReq) : gmap Z bool := ioUnitPendingMap (ioHelper isSector r).
Definition to_submit (isSector : bool) (r : FsReq) : gmap Z Z := submitIoUnitReqMap (ioHelper isSector r).

(** The requests of a worker that are not running wait for reads that are in flight,
    or are ready; the request that submitted a read waits for it. *)
Record inv (w : FsProcWorker) : Prop := mk_inv {
  i_maps : forall s no, is_Some (curUnitPendingSubmitFsReq s w !! no) <->
    is_Some (curUnitPendingFsReqs s w !! no);
  i_wait : forall s no W q, curUnitPendingFsReqs s w !! no = Some W -> q ∈ W ->
    exists r, reqs w !! q = Some r /\ is_Some (pending s r !! no);
  i_registered : forall q r s no, reqs w !! q = Some r -> is_Some (pending s r !! no) ->
    exists W, curUnitPendingFsReqs s w !! no = Some W /\ q ∈ W;
  i_submitter : forall s no q, curUnitPendingSubmitFsReq s w !! no = Some q ->
    exists r i, reqs w !! q = Some r /\ to_submit s r !! no = Some i /\
      is_Some (pending s r !! no) /\ is_Some (items w !! i);
  i_once : NoDup (internalReadyReqQueue w);
  i_ready : forall q, q ∈ internalReadyReqQueue w <->
    exists r, reqs w !! q = Some r /\ numTotalPendingIoReq r = 0;
  i_user : forall s no, is_Some (curUnitPendingFsReqs s w !! no) -> Layout.isInodeBitmap no = false
}.

(** The reads in flight. *)
Definition in_flight (w : FsProcWorker) : list (bool * Z) :=
  (pair false <$> elements (dom (blkReadPendingFsReqs w))) ++
  (pair true <$> elements (dom (sectorReadPendingFsReqs w))).

Lemma in_flight_elem s no w : (s, no) ∈ in_flight w <-> is_Some (curUnitPendingFsReqs s w !! no).
Proof.
  unfold in_flight, curUnitPendingFsReqs. rewrite elem_of_app, !list_elem_of_fmap.
  setoid_rewrite elem_of_elements. setoid_rewrite elem_of_dom. destruct s; naive_solver.
Qed.

Lemma in_flight_NoDup w : NoDup (in_flight w).
Proof.
  apply NoDup_app. split; [apply NoDup_fmap_2; [by intros x y [=] | apply NoDup_elements] |].
  split; [| apply NoDup_fmap_2; [by intros x y [=] | apply NoDup_elements]].
  intros x (y & -> & _)%list_elem_of_fmap (z & [=] & _)%list_elem_of_fmap.
Qed.

(** ** Lemmas on requests and maps *)

(** The request no longer waits for [no]. *)
Definition arrived (s : bool) (no : Z) (r : FsReq) : FsReq :=
  set_ioHelper s (ioUnitWaitReqDone no (ioHelper s r)) r.

Lemma pending_arrived s no s' r :
  pending s' (arrived s no r) = if bool_decide (s' = s) then delete no (pending s r) else pending s' r.
Proof. by destruct s, s'. Qed.

Lemma to_submit_arrived s no s' r : to_submit s' (arrived s no r) = to_submit s' r.
Proof. by destruct s, s'. Qed.

Lemma num_pending r : numTotalPendingIoReq r = 0 <-> forall s no, pending s r !! no = None.
Proof.
  unfold numTotalPendingIoReq. split.
  - intros H s no. assert (Hb : size (ioUnitPendingMap (blockIo r)) = 0%nat) by lia.
    assert (Hs : size (ioUnitPendingMap (sectorIo r)) = 0%nat) by lia.
    apply map_size_empty_iff in Hb, Hs. unfold pending, ioHelper. destruct s; by rewrite ?Hb, ?Hs.
  - intros H. assert (Hb : ioUnitPendingMap (blockIo r) = ∅) by (apply map_eq; intros no; apply (H false)).
    assert (Hs : ioUnitPendingMap (sectorIo r) = ∅) by (apply map_eq; intros no; apply (H true)).
    by rewrite Hb, Hs, !map_size_empty.
Qed.

Lemma unit_set s p u w s' :
  curUnitPendingFsReqs s' (set_unit s p u w) = (if bool_decide (s' = s) then p else curUnitPendingFsReqs s' w) /\
  curUnitPendingSubmitFsReq s' (set_unit s p u w) =
    (if bool_decide (s' = s) then u else curUnitPendingSubmitFsReq s' w) /\
  reqs (set_unit s p u w) = reqs w /\ items (set_unit s p u w) = items w /\
  internalReadyReqQueue (set_unit s p u w) = internalReadyReqQueue w.
Proof. by destruct s, s'. Qed.

(** ** A read completes *)

(** The requests that waited for [no] only. *)
Definition woken (s : bool) (no : Z) (m : gmap Z FsReq) (q : Z) : Prop :=
  exists r, m !! q = Some r /\ numTotalPendingIoReq (arrived s no r) = 0.

#[local] Instance woken_dec s no m q : Decision (woken s no m q).
Proof.
  unfold woken. destruct (m !! q) as [r |]; [| right; naive_solver].
  destruct (decide (numTotalPendingIoReq (arrived s no r) = 0)); [left | right]; naive_solver.
Defined.

(** The worker after the waiting requests [l] have been told. *)
Record told (s : bool) (no : Z) (l : list Z) (w w' : FsProcWorker) : Prop := mk_told {
  td_reqs : forall q, reqs w' !! q =
    if decide (q ∈ l) then arrived s no <$> reqs w !! q else reqs w !! q;
  td_items : items w' = items w;
  td_maps : forall s', curUnitPendingFsReqs s' w' = curUnitPendingFsReqs s' w /\
    curUnitPendingSubmitFsReq s' w' = curUnitPendingSubmitFsReq s' w;
  td_ready : internalReadyReqQueue w' = internalReadyReqQueue w ++ filter (woken s no (reqs w)) l
}.

Lemma wake_told s no q w r :
  reqs w !! q = Some r -> exists w', wake s no w q = Ok w' /\ told s no [q] w w'.
Proof.
  intros Hr. unfold wake, get_req. rewrite Hr. cbn [res_bind]. fold (arrived s no r).
  assert (Hq : forall x, <[q := arrived s no r]> (reqs w) !! x =
    if decide (x ∈ [q]) then arrived s no <$> reqs w !! x else reqs w !! x).
  { intros x. destruct (decide (x ∈ [q])) as [->%list_elem_of_singleton | Hne].
    - by rewrite lookup_insert_eq, Hr.
    - rewrite lookup_insert_ne; [done |]. intros ->. apply Hne. by left. }
  case_if.
  - eexists. split; [done |]. split; [done | done | by destruct s |]. cbn. f_equal.
    rewrite decide_True; [done |]. exists r. auto.
  - eexists. split; [done |]. split; [done | done | by destruct s |]. cbn.
    rewrite decide_False; [by rewrite app_nil_r |]. intros (r' & Hr' & ?). congruence.
Qed.

Lemma told_cons s no q l w w1 w2 :
  q ∉ l -> told s no [q] w w1 -> told s no l w1 w2 -> told s no (q :: l) w w2.
Proof.
  intros Hq [R1 I1 M1 Y1] [R2 I2 M2 Y2].
  assert (Hsame : forall x, x ∈ l -> reqs w1 !! x = reqs w !! x).
  { intros x Hx. rewrite R1, decide_False; [done |]. by intros ->%list_elem_of_singleton. }
  split.
  - intros x. rewrite R2. destruct (decide (x ∈ l)) as [Hx | Hx].
    + rewrite Hsame, (decide_True (P := x ∈ q :: l)) by (done || by right). done.
    + rewrite R1. destruct (decide (x ∈ [q])) as [Hxq | Hxq], (decide (x ∈ q :: l)) as [Hxl | Hxl];
        try done; set_solver.
  - congruence.
  - intros s'. destruct (M1 s'), (M2 s'). split; congruence.
  - rewrite Y2, Y1, <- app_assoc. f_equal. change (q :: l) with ([q] ++ l). rewrite filter_app. f_equal.
    apply filter_Forall_iff, Forall_forall. intros x Hx. unfold woken. by rewrite Hsame.
Qed.

Lemma wake_all s no l w :
  NoDup l -> (forall q, q ∈ l -> is_Some (reqs w !! q)) ->
  exists w', foldM (wake s no) l w = Ok w' /\ told s no l w w'.
Proof.
  intros Hnd. revert w. induction Hnd as [| q l Hq Hnd IH]; intros w Hin; cbn [foldM].
  - exists w. split; [done |]. split; [| done | done | cbn; by rewrite app_nil_r].
    intros q. rewrite decide_False; [done |]. apply not_elem_of_nil.
  - destruct (Hin q) as [r Hr]; [by left |].
    destruct (wake_told s no q w r Hr) as (w1 & E & H1). rewrite E. cbn [res_bind].
    destruct (IH w1) as (w2 & E2 & H2).
    + intros x Hx. rewrite (td_reqs _ _ _ _ _ H1).
      destruct (Hin x) as [y ->]; [by right |]. by destruct (decide _).
    + exists w2. split; [done |]. by eapply told_cons.
Qed.

(** What becomes of a request when a read completes. *)
Definition left_with (s : bool) (no : Z) (r r' : FsReq) : Prop :=
  (forall s', pending s' r' = pending s' (arrived s no r)) /\
  forall s' no', (s', no') <> (s, no) -> to_submit s' r' !! no' = to_submit s' r !! no'.

(** The worker after the completion of a read; [l] are the requests that waited. *)
Record completed (s : bool) (no : Z) (l : list Z) (w w' : FsProcWorker) : Prop := mk_completed {
  cp_reqs : forall q, match reqs w !! q, reqs w' !! q with
    | Some r, Some r' => left_with s no r r'
    | None, None => True
    | _, _ => False
    end;
  cp_items : forall i, is_Some (items w !! i) -> is_Some (items w' !! i);
  cp_waiting : forall s' no', curUnitPendingFsReqs s' w' !! no' =
    if decide ((s', no') = (s, no)) then None else curUnitPendingFsReqs s' w !! no';
  cp_submit : forall s' no', curUnitPendingSubmitFsReq s' w' !! no' =
    if decide ((s', no') = (s, no)) then None else curUnitPendingSubmitFsReq s' w !! no';
  cp_list : NoDup l /\ forall q, q ∈ l <-> exists W, curUnitPendingFsReqs s w !! no = Some W /\ q ∈ W;
  cp_ready : internalReadyReqQueue w' = internalReadyReqQueue w ++ filter (woken s no (reqs w)) l
}.

Lemma pending_left s no r r' s' no' :
  left_with s no r r' ->
  pending s' r' !! no' = if decide ((s', no') = (s, no)) then None else pending s' r !! no'.
Proof.
  intros [H _]. rewrite H, pending_arrived. case_bool_decide as E.
  - subst s'. destruct (decide _) as [[= ->] | Hne]; [apply lookup_delete_eq |].
    apply lookup_delete_ne. congruence.
  - rewrite decide_False; [done | congruence].
Qed.

Lemma num_left s no r r' :
  left_with s no r r' -> numTotalPendingIoReq r' = 0 <-> numTotalPendingIoReq (arrived s no r) = 0.
Proof. intros [H _]. rewrite !num_pending. by setoid_rewrite H. Qed.

Lemma num_not_waiting s no r :
  pending s r !! no = None ->
  numTotalPendingIoReq (arrived s no r) = 0 <-> numTotalPendingIoReq r = 0.
Proof.
  intros H. rewrite !num_pending. setoid_rewrite pending_arrived. split; intros H1 s' no';
    specialize (H1 s' no'); case_bool_decide as E; try done; subst s'.
  - by rewrite delete_id in H1.
  - by rewrite delete_id.
Qed.

Section Completed.
Context (s : bool) (no : Z) (l : list Z) (w w' : FsProcWorker).
Hypothesis (Hi : inv w) (Hc : completed s no l w w').

Lemma completed_req q r' : reqs w' !! q = Some r' ->
  exists r, reqs w !! q = Some r /\ left_with s no r r'.
Proof.
  intros E. pose proof (cp_reqs _ _ _ _ _ Hc q) as H. rewrite E in H.
  destruct (reqs w !! q); [eauto | done].
Qed.

Lemma completed_req' q r : reqs w !! q = Some r ->
  exists r', reqs w' !! q = Some r' /\ left_with s no r r'.
Proof.
  intros E. pose proof (cp_reqs _ _ _ _ _ Hc q) as H. rewrite E in H.
  destruct (reqs w' !! q); [eauto | done].
Qed.

Lemma waits q r : reqs w !! q = Some r -> q ∈ l <-> is_Some (pending s r !! no).
Proof.
  intros Hr. rewrite (proj2 (cp_list _ _ _ _ _ Hc)). split.
  - intros (W & HW & Hq). destruct (i_wait _ Hi _ _ _ _ HW Hq) as (r' & Hr' & ?). congruence.
  - intros Hp. by eapply i_registered.
Qed.

Lemma completed_ready q :
  q ∈ internalReadyReqQueue w' <-> exists r, reqs w' !! q = Some r /\ numTotalPendingIoReq r = 0.
Proof.
  rewrite (cp_ready _ _ _ _ _ Hc), elem_of_app, list_elem_of_filter, (i_ready _ Hi). unfold woken. split.
  - intros [(r & Hr & Hn) | [(r & Hr & Hn) _]]; destruct (completed_req' q r Hr) as (r' & Hr' & Hl);
      exists r'; (split; [done |]); apply (num_left _ _ _ _ Hl); [| done].
    apply num_not_waiting; [| done]. by apply num_pending.
  - intros (r' & Hr' & Hn). destruct (completed_req q r' Hr') as (r & Hr & Hl).
    apply (num_left _ _ _ _ Hl) in Hn. destruct (pending s r !! no) as [b |] eqn:Ep.
    + right. split; [eauto |]. apply (waits q r Hr). by rewrite Ep.
    + left. exists r. split; [done |]. by apply num_not_waiting in Hn.
Qed.

Lemma completed_inv : inv w'.
Proof.
  split.
  - intros s' no'. rewrite (cp_waiting _ _ _ _ _ Hc), (cp_submit _ _ _ _ _ Hc).
    destruct (decide _); [split; by intros [? ?] | apply Hi].
  - intros s' no' W q HW Hq. rewrite (cp_waiting _ _ _ _ _ Hc) in HW.
    destruct (decide _) as [? | Hne]; [done |]. destruct (i_wait _ Hi _ _ _ _ HW Hq) as (r & Hr & Hp).
    destruct (completed_req' q r Hr) as (r' & Hr' & Hl). exists r'. split; [done |].
    by rewrite (pending_left _ _ _ _ _ _ Hl), decide_False.
  - intros q r' s' no' Hr' Hp. destruct (completed_req q r' Hr') as (r & Hr & Hl).
    rewrite (pending_left _ _ _ _ _ _ Hl) in Hp. rewrite (cp_waiting _ _ _ _ _ Hc).
    destruct (decide _); [by destruct Hp |]. by eapply i_registered.
  - intros s' no' q Hq. rewrite (cp_submit _ _ _ _ _ Hc) in Hq.
    destruct (decide _) as [? | Hne]; [done |].
    destruct (i_submitter _ Hi _ _ _ Hq) as (r & i & Hr & Hs & Hp & Hit).
    destruct (completed_req' q r Hr) as (r' & Hr' & Hl). exists r', i. split; [done |].
    split; [by rewrite (proj2 Hl) |].
    split; [by rewrite (pending_left _ _ _ _ _ _ Hl), decide_False | by apply Hc].
  - rewrite (cp_ready _ _ _ _ _ Hc). apply NoDup_app. split; [apply Hi |].
    split; [| apply NoDup_filter, (cp_list _ _ _ _ _ Hc)].
    intros q (r & Hr & Hn)%(i_ready _ Hi) [_ Hin]%list_elem_of_filter.
    apply (waits q r Hr) in Hin as [b Hb]. rewrite (proj1 (num_pending r) Hn) in Hb. done.
  - apply completed_ready.
  - intros s' no' Hp. rewrite (cp_waiting _ _ _ _ _ Hc) in Hp.
    destruct (decide _); [by destruct Hp |]. by eapply i_user.
Qed.

End Completed.

Lemma set_unit_twice s p u p' u' w : set_unit s p u (set_unit s p' u' w) = set_unit s p u w.
Proof. by destruct s. Qed.

(** The request that submitted the read, after it has let go of the device request. *)
Definition submitted_done (s : bool) (no : Z) (r : FsReq) : FsReq :=
  set_ioHelper s (mk_helper (ioUnitPendingMap (ioHelper s r)) (delete no (submitIoUnitReqMap (ioHelper s r)))) r.

Lemma submitted_left s no r : left_with s no r (submitted_done s no (arrived s no r)).
Proof.
  split.
  - intros s'. by destruct s, s'.
  - intros s' no' Hne. destruct s, s'; cbn; try done; apply lookup_delete_ne; congruence.
Qed.

Lemma arrived_left s no r : left_with s no r (arrived s no r).
Proof. split; [done |]. intros s' no' _. by rewrite to_submit_arrived. Qed.

Lemma untouched_left s no r : pending s r !! no = None -> left_with s no r r.
Proof.
  intros H. split; [| done]. intros s'. rewrite pending_arrived. case_bool_decide; [| done].
  subst s'. by rewrite delete_id.
Qed.

Lemma told_completed s no l w w1 h q r W :
  inv w -> curUnitPendingFsReqs s w !! no = Some W -> NoDup l -> (forall x, x ∈ l <-> x ∈ W) ->
  told s no l w w1 -> q ∈ W -> reqs w !! q = Some r ->
  (forall i, is_Some (items w !! i) -> is_Some (h !! i)) ->
  completed s no l w
    (set_reqs (<[q := submitted_done s no (arrived s no r)]> (reqs w1)) h
       (set_unit s (delete no (curUnitPendingFsReqs s w)) (delete no (curUnitPendingSubmitFsReq s w)) w1)).
Proof.
  intros Hi HW Hnd Hl T Hq Hr Hh. split.
  - intros x. cbn. destruct (decide (x = q)) as [-> | Hne].
    { rewrite Hr, lookup_insert_eq. apply submitted_left. }
    rewrite lookup_insert_ne, (td_reqs _ _ _ _ _ T) by done.
    destruct (reqs w !! x) as [rx |] eqn:Ex; [| by destruct (decide _)].
    destruct (decide _) as [Hx | Hx]; cbn; [apply arrived_left | apply untouched_left].
    destruct (pending s rx !! no) eqn:Ep; [| done]. destruct Hx. apply Hl.
    destruct (i_registered _ Hi x rx s no Ex) as (W' & HW' & ?); [by rewrite Ep |]. congruence.
  - exact Hh.
  - intros s' no'. destruct (td_maps _ _ _ _ _ T s') as [<- _].
    destruct s, s'; cbn; try (destruct (decide _) as [[=] | _]; done);
      destruct (decide _) as [[= ->] | Hne]; rewrite ?lookup_delete_eq, ?lookup_delete_ne by congruence;
      try done; symmetry; apply (f_equal (.!! no')); by destruct (td_maps _ _ _ _ _ T true), (td_maps _ _ _ _ _ T false).
  - intros s' no'. destruct (td_maps _ _ _ _ _ T s') as [_ <-].
    destruct s, s'; cbn; try (destruct (decide _) as [[=] | _]; done);
      destruct (decide _) as [[= ->] | Hne]; rewrite ?lookup_delete_eq, ?lookup_delete_ne by congruence;
      try done; symmetry; apply (f_equal (.!! no')); by destruct (td_maps _ _ _ _ _ T true), (td_maps _ _ _ _ _ T false).
  - split; [done |]. intros x. rewrite Hl. split; [eauto |]. intros (W' & ? & ?). congruence.
  - rewrite <- (td_ready _ _ _ _ _ T). by destruct s.
Qed.

(** A completion of a read in flight never fails. *)
Lemma completion_ends `{SIter} s no w :
  inv w -> (s, no) ∈ in_flight w ->
  exists l w', submitDevAsyncReadReqCompletion s no w = Ok (0, w') /\ completed s no l w w'.
Proof.
  intros Hi [W HW]%in_flight_elem. unfold submitDevAsyncReadReqCompletion.
  rewrite (i_user _ Hi s no (mk_is_Some _ _ HW)), HW. cbn [negb check res_bind].
  destruct (wake_all s no (siter W) w (siter_NoDup W)) as (w1 & E1 & T).
  { intros q Hq%siter_elem. destruct (i_wait _ Hi _ _ _ _ HW Hq) as (r & -> & _). done. }
  rewrite E1. cbn [res_bind]. destruct (proj2 (i_maps _ Hi s no) (mk_is_Some _ _ HW)) as [q Hq].
  destruct (i_submitter _ Hi _ _ _ Hq) as (r & i & Hr & Hs & Hp & [it Hit]).
  assert (Hin : q ∈ W).
  { destruct (i_registered _ Hi _ _ _ _ Hr Hp) as (W' & ? & ?). congruence. }
  destruct (td_maps _ _ _ _ _ T s) as [Mp Mu].
  destruct (unit_set s (delete no (curUnitPendingFsReqs s w1)) (curUnitPendingSubmitFsReq s w1) w1 s)
    as (U1 & U2 & U3 & U4 & U5). rewrite bool_decide_true in U1, U2 by done.
  rewrite U1, U2, Mp, Mu, Hq, set_unit_twice.
  set (p := delete no (curUnitPendingFsReqs s w)). set (u := delete no (curUnitPendingSubmitFsReq s w)).
  destruct (unit_set s p u w1 s) as (_ & _ & V3 & V4 & _).
  unfold get_req, submittedIoUnitReqDone, getIoUnitSubmitReq.
  rewrite V3, V4, (td_reqs _ _ _ _ _ T), decide_True, Hr by (by apply siter_elem). cbn [option_map fmap option_fmap res_bind].
  change (submitIoUnitReqMap (ioHelper s (arrived s no r))) with (to_submit s (arrived s no r)).
  rewrite to_submit_arrived, Hs. unfold get_item. rewrite (td_items _ _ _ _ _ T), Hit. cbn [res_bind].
  rewrite <- (to_submit_arrived s no s r). eexists (siter W), _. split; [reflexivity |].
  change (set_ioHelper s _ (arrived s no r)) with (submitted_done s no (arrived s no r)).
  eapply told_completed; eauto using siter_NoDup. { intros x. apply siter_elem. }
  intros j [y Hy]. destruct (decide (i = j)) as [<- |]; [rewrite lookup_insert_eq | rewrite lookup_insert_ne]; eauto.
Qed.

(** The device completes the reads [l], one after the other. *)
Definition complete_all `{SIter} (l : list (bool * Z)) (w : FsProcWorker) : res FsProcWorker :=
  foldM (fun w '(s, no) => let! (_, w) := submitDevAsyncReadReqCompletion s no w in Ok w) l w.

Lemma completed_in_flight s no l w w' x :
  completed s no l w w' -> x ∈ in_flight w' <-> x <> (s, no) /\ x ∈ in_flight w.
Proof.
  intros Hc. destruct x as [s' no']. rewrite !in_flight_elem, (cp_waiting _ _ _ _ _ Hc).
  destruct (decide _) as [E | E]; [| naive_solver].
  split; [by intros [? ?] | intros [? _]; congruence].
Qed.

Lemma in_flight_next s no l k w w' :
  completed s no k w w' -> (s, no) :: l ≡ₚ in_flight w -> l ≡ₚ in_flight w'.
Proof.
  intros Hc Hp. pose proof (in_flight_NoDup w) as Hnd. rewrite <- Hp in Hnd.
  apply NoDup_cons in Hnd as [Hni Hnd].
  apply NoDup_Permutation; [done | apply in_flight_NoDup |].
  intros x. rewrite (completed_in_flight _ _ _ _ _ _ Hc), <- Hp, elem_of_cons.
  split; [| naive_solver]. intros Hx. split; [by intros -> | auto].
Qed.

Lemma completions_end `{SIter} l l' w :
  inv w -> l ++ l' ≡ₚ in_flight w ->
  exists w', complete_all l w = Ok w' /\ inv w' /\ in_flight w' ≡ₚ l' /\
    forall q, (exists r, reqs w' !! q = Some r /\ numTotalPendingIoReq r = 0) <->
      exists r, reqs w !! q = Some r /\ forall s no, is_Some (pending s r !! no) -> (s, no) ∈ l.
Proof.
  revert w. induction l as [| [s no] l IH]; intros w Hi Hp.
  - exists w. split; [done |]. split; [done |]. split; [by rewrite <- Hp |]. intros q.
    setoid_rewrite num_pending. setoid_rewrite elem_of_nil.
    split; intros (r & Hr & H0); exists r; (split; [done |]); intros s no.
    + rewrite H0. by intros [? ?].
    + destruct (pending s r !! no) eqn:E; [| done]. destruct (H0 s no). by rewrite E.
  - destruct (completion_ends s no w Hi) as (k & w1 & E & Hc). { rewrite <- Hp. by left. }
    destruct (IH w1) as (w' & E' & Hi' & Hf & Hq);
      [by eapply completed_inv | by eapply in_flight_next |].
    exists w'. unfold complete_all in *. cbn [foldM]. rewrite E. cbn [res_bind].
    split; [done |]. split; [done |]. split; [done |]. intros q. rewrite Hq. split.
    + intros (r1 & Hr1 & H1). destruct (completed_req _ _ _ _ _ Hc q r1 Hr1) as (r & Hr & Hl).
      exists r. split; [done |]. intros s' no' Hs'.
      destruct (decide ((s', no') = (s, no))) as [-> | Hne]; [by left | right]. apply H1.
      by rewrite (pending_left _ _ _ _ _ _ Hl), decide_False.
    + intros (r & Hr & H1). destruct (completed_req' _ _ _ _ _ Hc q r Hr) as (r1 & Hr1 & Hl).
      exists r1. split; [done |]. intros s' no'. rewrite (pending_left _ _ _ _ _ _ Hl).
      destruct (decide _) as [? | Hne]; [by intros [? ?] |].
      intros [? | ?]%H1%elem_of_cons; [congruence | done].
Qed.

(** C13. No wake-up is lost and none is doubled: when the device has completed the reads [l]
    of those in flight, in whatever order, exactly the requests that wait for no other
    read are in the ready queue, each of them once; so when all have completed, every
    request of the worker is ready to run. *)
Theorem completions_wake_exactly_once `{SIter} (l l' : list (bool * Z)) (w : FsProcWorker)
    (Hi : inv w) (Hl : l ++ l' ≡ₚ in_flight w) :
  exists w', complete_all l w = Ok w' /\ in_flight w' ≡ₚ l' /\ NoDup (internalReadyReqQueue w') /\
    (forall q, q ∈ internalReadyReqQueue w' <->
      exists r, reqs w !! q = Some r /\ forall s no, is_Some (pending s r !! no) -> (s, no) ∈ l) /\
    (l' = [] -> internalReadyReqQueue w' ≡ₚ elements (dom (reqs w))).
Proof.
  destruct (completions_end l l' w Hi Hl) as (w' & E & Hi' & Hf & Hq).
  assert (Hr : forall q, q ∈ internalReadyReqQueue w' <->
    exists r, reqs w !! q = Some r /\ forall s no, is_Some (pending s r !! no) -> (s, no) ∈ l).
  { intros q. rewrite <- Hq. apply i_ready, Hi'. }
  exists w'. split; [done |]. split; [done |]. split; [apply Hi' |]. split; [exact Hr |].
  intros ->. rewrite app_nil_r in Hl. apply NoDup_Permutation; [apply Hi' | apply NoDup_elements |].
  intros q. rewrite Hr, elem_of_elements, elem_of_dom. split.
  - intros (r & -> & _). done.
  - intros [r Hrq]. exists r. split; [done |]. intros s no Hp. rewrite Hl. apply in_flight_elem.
    destruct (i_registered _ Hi _ _ _ _ Hrq Hp) as (W & -> & _). done.
Qed.

(** ** A request that ran submits its reads *)

(** Request [q] is registered for the reads [l], and has submitted those marked so. *)
Record parked (q : Z) (s : bool) (l : list (Z * bool)) (w w' : FsProcWorker) : Prop := mk_parked {
  pk_waiting : forall s' no, curUnitPendingFsReqs s' w' !! no =
    if decide (s' = s /\ no ∈ l.*1)
    then Some (default ∅ (curUnitPendingFsReqs s' w !! no) ∪ {[q]}) else curUnitPendingFsReqs s' w !! no;
  pk_submit : forall s' no, curUnitPendingSubmitFsReq s' w' !! no =
    if decide (s' = s /\ (no, true) ∈ l) then Some q else curUnitPendingSubmitFsReq s' w !! no;
  pk_reqs : reqs w' = reqs w;
  pk_items : items w' = items w;
  pk_ready : internalReadyReqQueue w' = internalReadyReqQueue w
}.

Lemma parked_nil q s w : parked q s [] w w.
Proof. split; try done; intros s' no; rewrite decide_False; try done; set_solver. Qed.

Lemma parked_cons q s no b l w w1 w2 :
  no ∉ l.*1 -> parked q s [(no, b)] w w1 -> parked q s l w1 w2 -> parked q s ((no, b) :: l) w w2.
Proof.
  intros Hni [P1 S1 ? ? ?] [P2 S2 ? ? ?]. split; try congruence.
  - intros s' no'. rewrite P2, P1, fmap_cons. cbn [fst].
    repeat destruct (decide _) as [? | ?]; set_solver.
  - intros s' no'. rewrite S2, S1. repeat destruct (decide _) as [? | ?]; set_solver.
Qed.

(** What a read asks of the worker before it is submitted, or waited for. *)
Definition unit_ok (s : bool) (r : FsReq) (w : FsProcWorker) (no : Z) (doSubmit : bool) : Prop :=
  if doSubmit then curUnitPendingSubmitFsReq s w !! no = None /\ is_Some (to_submit s r !! no)
  else is_Some (curUnitPendingSubmitFsReq s w !! no) /\ is_Some (curUnitPendingFsReqs s w !! no).

(** One read of [parked]. *)
Definition set_parked (s b : bool) (q no : Z) (w : FsProcWorker) : FsProcWorker :=
  set_unit s (<[no := default ∅ (curUnitPendingFsReqs s w !! no) ∪ {[q]}]> (curUnitPendingFsReqs s w))
    (if b then <[no := q]> (curUnitPendingSubmitFsReq s w) else curUnitPendingSubmitFsReq s w) w.

Lemma set_parked_parks s b q no w : parked q s [(no, b)] w (set_parked s b q no w).
Proof.
  unfold set_parked. split; try (by destruct s); intros s' no'.
  - rewrite (proj1 (unit_set _ _ _ _ s')).
    case_bool_decide as E; [subst s' | rewrite decide_False; [done | naive_solver]].
    destruct (decide (no' = no)) as [-> | Hne].
    + rewrite lookup_insert_eq, decide_True; [done | set_solver].
    + rewrite lookup_insert_ne, decide_False; [done | set_solver | done].
  - rewrite (proj1 (proj2 (unit_set _ _ _ _ s'))).
    case_bool_decide as E; [subst s' | rewrite decide_False; [done | naive_solver]].
    destruct b; [| rewrite decide_False; [done | set_solver]].
    destruct (decide (no' = no)) as [-> | Hne].
    + rewrite lookup_insert_eq, decide_True; [done | set_solver].
    + rewrite lookup_insert_ne, decide_False; [done | set_solver | done].
Qed.

Section Submit.
Context (dev : bool -> Z -> Z).
Hypothesis (Hdev : forall s no, 0 <= dev s no).

Lemma pend_parks s q no b w r :
  unit_ok s r w no b ->
  exists w1, (if b then let! (rc, w) := submitAsyncReadDevReq dev s q no w in Ok (negb (rc >=? 0), w)
              else Ok (false, w)) = Ok (false, w1) /\
    exists w2 rc, submitPendOnFsReq s q no w1 = Ok (rc, w2) /\ parked q s [(no, b)] w w2.
Proof.
  unfold unit_ok, submitAsyncReadDevReq, submitPendOnFsReq. destruct b.
  - intros [-> _]. cbn [res_bind]. replace (dev s no >=? 0) with true by (specialize (Hdev s no); lia).
    eexists. split; [reflexivity |]. exists (set_parked s true q no w), 1. split; [| apply set_parked_parks].
    rewrite (proj1 (unit_set _ _ _ _ s)), (proj1 (proj2 (unit_set _ _ _ _ s))), bool_decide_true by done.
    rewrite lookup_insert_eq. unfold set_parked.
    destruct (curUnitPendingFsReqs s w !! no) as [W |] eqn:E; cbn [default].
    + rewrite E. by rewrite set_unit_twice.
    + rewrite lookup_insert_eq, insert_insert_eq. by rewrite set_unit_twice.
  - intros [[q0 Hq] [W HW]]. eexists. split; [reflexivity |]. rewrite Hq, HW.
    exists (set_parked s false q no w), 1. split; [| apply set_parked_parks].
    unfold set_parked. by rewrite HW.
Qed.

Lemma unit_ok_later s r q w w1 no b no' b' :
  no' <> no -> parked q s [(no, b)] w w1 -> unit_ok s r w no' b' -> unit_ok s r w1 no' b'.
Proof.
  intros Hne [P S _ _ _]. unfold unit_ok. rewrite P, S, !decide_False by set_solver. done.
Qed.

Lemma submit_loop_parks s first q r l w :
  NoDup l.*1 -> (forall no b, (no, b) ∈ l -> unit_ok s r w no b) ->
  exists w', submit_loop dev s first q r l w = Ok w' /\ parked q s l w w'.
Proof.
  revert first w. induction l as [| [no b] l IH]; intros first w Hnd Hok; cbn [submit_loop].
  - exists w. split; [done | apply parked_nil].
  - apply NoDup_cons in Hnd as [Hni Hnd]. assert (Hu : unit_ok s r w no b) by (apply Hok; by left).
    destruct (pend_parks s q no b w r Hu) as (w1 & E1 & w2 & rc & E2 & Hp).
    destruct (IH false w2 Hnd) as (w' & E' & Hp').
    { intros no' b' Hin. eapply unit_ok_later; [| exact Hp | apply Hok; by right].
      intros ->. apply Hni, list_elem_of_fmap. by exists (no, b'). }
    exists w'. split; [| by eapply parked_cons].
    assert (E : (if b then match getIoUnitSubmitReq no (ioHelper s r) with
                 | None => Crash AssertFail
                 | Some _ => let! (rc, w) := submitAsyncReadDevReq dev s q no w in Ok (negb (rc >=? 0), w) end
               else Ok (false, w)) = Ok (false, w1)).
    { rewrite <- E1. destruct b; [| done]. destruct Hu as [_ [i Hi]].
      unfold getIoUnitSubmitReq. fold (to_submit s r). by rewrite Hi. }
    rewrite E. cbn [res_bind negb]. rewrite E2. exact E'.
Qed.

Context `{UIter}.

Lemma uiter_elem {V} (m : gmap Z V) no b : (no, b) ∈ uiter m <-> m !! no = Some b.
Proof. rewrite uiter_perm. apply elem_of_map_to_list. Qed.

Lemma uiter_elem_1 {V} (m : gmap Z V) no : no ∈ (uiter m).*1 <-> is_Some (m !! no).
Proof.
  rewrite list_elem_of_fmap. split.
  - intros ([x b] & -> & Hx%uiter_elem). by exists b.
  - intros [b Hb]. exists (no, b). by rewrite uiter_elem.
Qed.

Lemma submit_unit s q r w :
  reqs w !! q = Some r -> (forall no b, pending s r !! no = Some b -> unit_ok s r w no b) ->
  exists w', (if Z.of_nat (size (pending s r)) >? 0
              then submitFsGeneratedRequestsCheckSinglePendingMap dev s q w else Ok w) = Ok w' /\
    parked q s (uiter (pending s r)) w w'.
Proof.
  intros Hr Hok. case_if.
  - unfold submitFsGeneratedRequestsCheckSinglePendingMap, get_req. rewrite Hr. cbn [res_bind].
    apply submit_loop_parks.
    + rewrite uiter_perm. apply NoDup_fst_map_to_list.
    + intros no b Hin%uiter_elem. auto.
  - exists w. split; [done |]. assert (Hs : size (pending s r) = 0%nat) by lia.
    apply map_size_empty_iff in Hs. rewrite Hs.
    replace (uiter ∅) with ([] : list (Z * bool)); [apply parked_nil |].
    symmetry. apply Permutation_nil. by rewrite uiter_perm, map_to_list_empty.
Qed.

(** Request [q] runs: the others are as in [inv], and [r] needs what [submitFsGeneratedRequests]
    expects of the reads the cache has asked for. *)
Record running (q : Z) (r : FsReq) (w : FsProcWorker) : Prop := mk_running {
  rn_req : reqs w !! q = Some r;
  rn_others : inv (set_reqs (delete q (reqs w)) (items w) w);
  rn_waits : numTotalPendingIoReq r <> 0;
  rn_submit : forall s no, pending s r !! no = Some true ->
    ~ is_Some (curUnitPendingSubmitFsReq s w !! no) /\ Layout.isInodeBitmap no = false /\
    exists i, to_submit s r !! no = Some i /\ is_Some (items w !! i);
  rn_shared : forall s no, pending s r !! no = Some false -> is_Some (curUnitPendingSubmitFsReq s w !! no)
}.

Record submitted (q : Z) (r : FsReq) (w w' : FsProcWorker) : Prop := mk_submitted {
  sb_waiting : forall s no, curUnitPendingFsReqs s w' !! no =
    if decide (is_Some (pending s r !! no))
    then Some (default ∅ (curUnitPendingFsReqs s w !! no) ∪ {[q]}) else curUnitPendingFsReqs s w !! no;
  sb_submit : forall s no, curUnitPendingSubmitFsReq s w' !! no =
    if decide (pending s r !! no = Some true) then Some q else curUnitPendingSubmitFsReq s w !! no;
  sb_reqs : reqs w' = reqs w;
  sb_items : items w' = items w;
  sb_ready : internalReadyReqQueue w' = internalReadyReqQueue w
}.

Lemma running_unit q r w s no b : running q r w -> pending s r !! no = Some b -> unit_ok s r w no b.
Proof.
  intros Hr Hp. destruct b; cbn.
  - destruct (rn_submit _ _ _ Hr _ _ Hp) as (? & _ & i & -> & _). split; [by apply eq_None_not_Some | done].
  - pose proof (rn_shared _ _ _ Hr _ _ Hp) as Hs. split; [done |].
    apply (i_maps _ (rn_others _ _ _ Hr)) in Hs. by destruct s.
Qed.

Lemma submit_ends q r w :
  running q r w -> exists w', submitFsGeneratedRequests dev q w = Ok w' /\ submitted q r w w'.
Proof.
  intros Hr. unfold submitFsGeneratedRequests, get_req at 1. rewrite (rn_req _ _ _ Hr). cbn [res_bind].
  destruct (submit_unit false q r w) as (w1 & E1 & P1); [apply Hr | by intros; eapply running_unit |].
  change (ioUnitPendingMap (blockIo r)) with (pending false r). rewrite E1. cbn [res_bind].
  destruct (submit_unit true q r w1) as (w2 & E2 & P2).
  { rewrite (pk_reqs _ _ _ _ _ P1). apply Hr. }
  { intros no b Hp. pose proof (running_unit _ _ _ _ _ _ Hr Hp) as Hu. unfold unit_ok in *.
    rewrite (pk_waiting _ _ _ _ _ P1), (pk_submit _ _ _ _ _ P1), !decide_False by naive_solver. done. }
  exists w2. split; [exact E2 |]. destruct P1 as [A1 B1 ? ? ?], P2 as [A2 B2 ? ? ?].
  split; try congruence; intros s no.
  - rewrite A2, A1. pose proof (uiter_elem_1 (pending true r) no). pose proof (uiter_elem_1 (pending false r) no).
    destruct s; repeat destruct (decide _); naive_solver.
  - rewrite B2, B1. pose proof (uiter_elem (pending true r) no true). pose proof (uiter_elem (pending false r) no true).
    destruct s; repeat destruct (decide _); naive_solver.
Qed.

Lemma set_reqs_unit s m h w :
  curUnitPendingFsReqs s (set_reqs m h w) = curUnitPendingFsReqs s w /\
  curUnitPendingSubmitFsReq s (set_reqs m h w) = curUnitPendingSubmitFsReq s w.
Proof. by destruct s. Qed.

Lemma submitted_inv q r w w' : running q r w -> submitted q r w w' -> inv w'.
Proof.
  clear dev Hdev. intros Hr [Sp Su Sr Si Sy]. destruct (rn_others _ _ _ Hr) as [M W G S O Y U].
  setoid_rewrite (fun s => proj1 (set_reqs_unit s _ _ w)) in M. setoid_rewrite (fun s => proj2 (set_reqs_unit s _ _ w)) in M.
  setoid_rewrite (fun s => proj1 (set_reqs_unit s _ _ w)) in W. setoid_rewrite (fun s => proj1 (set_reqs_unit s _ _ w)) in G.
  setoid_rewrite (fun s => proj1 (set_reqs_unit s _ _ w)) in U. setoid_rewrite (fun s => proj2 (set_reqs_unit s _ _ w)) in S.
  cbn [set_reqs reqs items internalReadyReqQueue] in *. split; rewrite ?Sr, ?Si, ?Sy; [| | | | done | |].
  - intros s no. rewrite Sp, Su. destruct (pending s r !! no) as [[] |] eqn:E.
    + by rewrite !decide_True.
    + rewrite decide_False, decide_True by done. split; [done |]. intros _. by eapply rn_shared.
    + rewrite !decide_False by (done || by intros [? ?]). apply M.
  - intros s no X x HX Hx. rewrite Sp in HX. destruct (decide _) as [Hpd | _].
    + injection HX as <-. apply elem_of_union in Hx as [Hx | ->%elem_of_singleton]; [| exists r; split; [apply Hr | done]].
      destruct (curUnitPendingFsReqs s w !! no) as [X |] eqn:EX; [| set_solver].
      destruct (W s no X x EX Hx) as (rx & [_ Hrx]%lookup_delete_Some & ?). eauto.
    + destruct (W s no X x HX Hx) as (rx & [_ Hrx]%lookup_delete_Some & ?). eauto.
  - intros x rx s no Hrx Hpx. rewrite Sp. destruct (decide (q = x)) as [<- | Hne].
    + rewrite (rn_req _ _ _ Hr) in Hrx. injection Hrx as <-. rewrite decide_True by done. eexists. split; [done | set_solver].
    + destruct (G x rx s no) as (X & -> & HX); [by rewrite lookup_delete_ne | done |].
      destruct (decide _); eexists; (split; [done |]); set_solver.
  - intros s no x Hx. rewrite Su in Hx. destruct (decide _) as [Hpd | _].
    + injection Hx as <-. destruct (rn_submit _ _ _ Hr s no Hpd) as (_ & _ & i & Hi & Hit).
      exists r, i. split; [apply Hr |]. split; [done |]. by rewrite Hpd.
    + destruct (S s no x Hx) as (rx & i & [_ Hrx]%lookup_delete_Some & ?). eauto.
  - intros x. rewrite Y. split; intros (rx & Hrx & Hn); exists rx; (split; [| done]).
    + by apply lookup_delete_Some in Hrx as [_ Hrx].
    + rewrite lookup_delete_ne; [done |]. intros <-. rewrite (rn_req _ _ _ Hr) in Hrx.
      injection Hrx as <-. by apply (rn_waits _ _ _ Hr).
  - intros s no. rewrite Sp. destruct (decide _) as [[[] Hpd] | _]; [| | apply U]; intros _.
    + by apply (rn_submit _ _ _ Hr s no).
    + apply (U s no). apply M. by apply (rn_shared _ _ _ Hr s no).
Qed.

(** C14. A request that has run and misses blocks or sectors, with a device that accepts its
    reads, is left waiting for exactly those: every read it has to submit is submitted
    once, it is registered for each of them and for those already in flight, no other
    request is touched or woken, and the wait lists are consistent again. *)
Theorem submit_waits_for_missing (q : Z) (r : FsReq) (w : FsProcWorker) (Hr : running q r w) :
  exists w', submitFsGeneratedRequests dev q w = Ok w' /\ inv w' /\ reqs w' = reqs w /\
    internalReadyReqQueue w' = internalReadyReqQueue w /\
    (forall s no, (s, no) ∈ in_flight w' <-> (s, no) ∈ in_flight w \/ pending s r !! no = Some true) /\
    forall s no, is_Some (pending s r !! no) <->
      exists W, curUnitPendingFsReqs s w' !! no = Some W /\ q ∈ W.
Proof.
  destruct (submit_ends q r w Hr) as (w' & E & Hs). pose proof (submitted_inv q r w w' Hr Hs) as Hi.
  exists w'. split; [done |]. split; [done |]. split; [apply Hs |]. split; [apply Hs |].
  assert (Hq : reqs w' !! q = Some r) by (rewrite (sb_reqs _ _ _ _ Hs); apply Hr).
  split; intros s no.
  - rewrite !in_flight_elem, <- (i_maps _ Hi), (sb_submit _ _ _ _ Hs).
    pose proof (i_maps _ (rn_others _ _ _ Hr) s no) as Hm.
    rewrite (proj1 (set_reqs_unit _ _ _ _)), (proj2 (set_reqs_unit _ _ _ _)) in Hm. rewrite <- Hm.
    destruct (decide _); [by split; auto | naive_solver].
  - split; [intros Hp; by eapply i_registered |].
    intros (W & HW & Hin). destruct (i_wait _ Hi _ _ _ _ HW Hin) as (r' & Hr' & Hp). congruence.
Qed.

End Submit.

(** ** Examples *)

Lemma idle_inv h : inv (mk_worker ∅ h ∅ ∅ ∅ ∅ []).
Proof.
  split.
  - intros [] no; split; by intros [? ?].
  - by intros [] ? ? ? ?.
  - by intros ? ? ? ? ?.
  - by intros [] ? ? ?.
  - constructor.
  - intros q. split; [by intros ?%elem_of_nil | by intros (? & ? & _)].
  - intros [] no; by intros [? ?].
Qed.

(** A request enters the worker and runs. *)
Definition enter (q : Z) (r : FsReq) (w : FsProcWorker) : FsProcWorker :=
  set_reqs (<[q := r]> (reqs w)) (items w) w.

Lemma enter_running q r w :
  inv w -> reqs w !! q = None -> numTotalPendingIoReq r <> 0 ->
  (forall s no, pending s r !! no = Some true -> curUnitPendingSubmitFsReq s w !! no = None /\
    Layout.isInodeBitmap no = false /\ exists i, to_submit s r !! no = Some i /\ is_Some (items w !! i)) ->
  (forall s no, pending s r !! no = Some false -> is_Some (curUnitPendingSubmitFsReq s w !! no)) ->
  running q r (enter q r w).
Proof.
  intros Hi Hq Hn Hs Hf. split.
  - apply lookup_insert_eq.
  - cbn. rewrite delete_insert_id by done. by destruct w.
  - done.
  - intros s no Hp. destruct (Hs s no Hp) as (Hu & ? & ?). rewrite <- eq_None_not_Some. by destruct s.
  - intros s no Hp. specialize (Hf s no Hp). by destruct s.
Qed.

#[local] Existing Instance sorted_iter.
#[local] Existing Instance sorted_siter.

Definition ex_slot (i bno : Z) : BlockBufferItem :=
  mk_item i i 4096 bno 0 false false BLOCK_BUF_LOCKED 0.
Definition ex_idle : FsProcWorker :=
  mk_worker ∅ {[0 := ex_slot 0 200000; 1 := ex_slot 1 200001; 2 := ex_slot 2 300000]} ∅ ∅ ∅ ∅ [].
Definition ex_dev (s : bool) (no : Z) : Z := 0.

(** Request 1 has asked for a block; request 2 waits for it too, and asks for another
    block and for a sector. *)
Definition ex_req1 : FsReq := mk_req (mk_helper {[200000 := true]} {[200000 := 0]}) (mk_helper ∅ ∅) ∅ 0.
Definition ex_req2 : FsReq :=
  mk_req (mk_helper {[200000 := false; 200001 := true]} {[200001 := 1]})
    (mk_helper {[300000 := true]} {[300000 := 2]}) ∅ 0.

Lemma ex_req1_running : running 1 ex_req1 (enter 1 ex_req1 ex_idle).
Proof.
  apply enter_running; try done; [apply idle_inv | |].
  - intros [] no; cbn; [done |]. intros [<- _]%lookup_singleton_Some. split; [done |]. split; [done |].
    exists 0. by split.
  - intros [] no; cbn; [done |]. by intros [_ ?]%lookup_singleton_Some.
Qed.

Definition ex_one : FsProcWorker :=
  mk_worker {[1 := ex_req1]} (items ex_idle) {[200000 := {[1]}]} {[200000 := 1]} ∅ ∅ [].

Lemma ex_one_inv : inv ex_one.
Proof.
  destruct (submit_ends ex_dev (fun _ _ => Z.le_refl 0) 1 ex_req1 _ ex_req1_running) as (w & E & Hs).
  assert (Hi : inv w) by (eapply submitted_inv; [exact ex_req1_running | exact Hs]).
  assert (E' : submitFsGeneratedRequests ex_dev 1 (enter 1 ex_req1 ex_idle) = Ok ex_one) by by_compute.
  rewrite E' in E. by injection E as ->.
Qed.

Lemma ex_req2_running : running 2 ex_req2 (enter 2 ex_req2 ex_one).
Proof.
  apply enter_running; try done; [apply ex_one_inv | |].
  - intros [] no; cbn.
    + intros [<- _]%lookup_singleton_Some. split; [done |]. split; [done |]. exists 2. by split.
    + intros [[_ ?] | [_ [<- _]%lookup_singleton_Some]]%lookup_insert_Some; [done |].
      split; [done |]. split; [done |]. exists 1. by split.
  - intros [] no; cbn; [by intros [_ ?]%lookup_singleton_Some |].
    intros [[<- _] | [_ [_ ?]%lookup_singleton_Some]]%lookup_insert_Some; [by exists 1 | done].
Qed.

Lemma submit_waits_for_missing_witness :
  exists w', submitFsGeneratedRequests ex_dev 2 (enter 2 ex_req2 ex_one) = Ok w' /\ inv w' /\
    forall s no, is_Some (pending s ex_req2 !! no) <->
      exists W, curUnitPendingFsReqs s w' !! no = Some W /\ 2 ∈ W.
Proof.
  destruct (submit_waits_for_missing ex_dev (fun _ _ => Z.le_refl 0) 2 ex_req2 _ ex_req2_running)
    as (w' & E & Hi & _ & _ & _ & Hw).
  exists w'. split; [exact E |]. split; [exact Hi | exact Hw].
Defined.

Definition ex_two : FsProcWorker :=
  mk_worker {[1 := ex_req1; 2 := ex_req2]} (items ex_idle) {[200000 := {[1; 2]}; 200001 := {[2]}]}
    {[200000 := 1; 200001 := 2]} {[300000 := {[2]}]} {[300000 := 2]} [].

Lemma ex_two_inv : inv ex_two.
Proof.
  destruct (submit_ends ex_dev (fun _ _ => Z.le_refl 0) 2 ex_req2 _ ex_req2_running) as (w & E & Hs).
  assert (Hi : inv w) by (eapply submitted_inv; [exact ex_req2_running | exact Hs]).
  assert (E' : submitFsGeneratedRequests ex_dev 2 (enter 2 ex_req2 ex_one) = Ok ex_two) by by_compute.
  rewrite E' in E. by injection E as ->.
Qed.

(** The sector first, then the shared block: request 1 is ready and request 2 still waits. *)
Lemma completions_wake_exactly_once_witness :
  exists w', complete_all [(true, 300000); (false, 200000)] ex_two = Ok w' /\
    in_flight w' ≡ₚ [(false, 200001)] /\ internalReadyReqQueue w' = [1].
Proof.
  destruct (completions_wake_exactly_once [(true, 300000); (false, 200000)] [(false, 200001)] ex_two ex_two_inv)
    as (w' & E & Hf & _).
  { transitivity [(false, 200001); (false, 200000); (true, 300000)]; [solve_Permutation |].
    replace (in_flight ex_two) with [(false, 200001); (false, 200000); (true, 300000)] by by_compute. done. }
  exists w'. split; [exact E |]. split; [exact Hf |].
  assert (E' : complete_all [(true, 300000); (false, 200000)] ex_two = Ok w') by exact E. clear E Hf.
  revert E'. vm_compute. intros [= <-]. reflexivity.
Defined.

(** A read the device refuses after it has accepted another one: the loop stops, and the
    request waits for a block that is never read and for which nobody is registered.
    When the accepted read completes the request is not ready, and no read is in flight
    whose completion could make it so. *)
Definition ex_refuse (s : bool) (no : Z) : Z := if no =? 200000 then -1 else 0.
Definition ex_req3 : FsReq :=
  mk_req (mk_helper {[200000 := true; 200001 := true]} {[200000 := 0; 200001 := 1]}) (mk_helper ∅ ∅) ∅ 0.

Lemma refused_read_strands :
  match (let! w := submitFsGeneratedRequests ex_refuse 3 (enter 3 ex_req3 ex_idle) in
         complete_all [(false, 200001)] w) with
  | Ok w' => internalReadyReqQueue w' = [] /\ curUnitPendingFsReqs false w' = {[200000 := ∅]} /\
      (numTotalPendingIoReq <$> reqs w' !! 3) = Some 1
  | Crash _ => False
  end.
Proof. vm_compute. auto. Qed.

End ReadIO.
