(* ===== verification/Directory.v ===== *)
(** * Directories

    The entries of a directory, which are the data of its inode: [lookupDirDentry],
    [checkInodeDentryInMem], [dentryPointToNewInode], [removeFromDir], [appendToDir] and
    [writeFileInode] of [cfs/src/FsProc_FsImpl.cc], and the positions of its entries that
    an inode remembers ([InMemInode] in [cfs/src/FsProc_FileMng.cc]).  Like the reads and
    writes of file data these stop when a block has to be read first.  The theorems show
    that the functions implement a list of entries with names. *)

From Stdlib Require Import ZArith List Lia Bool.
From stdpp Require Import base list option gmap.
From S2P Require Import Prelude Unordered Layout Codec InodeLog BlockBuf FsCache Alloc DataPath.
Import ListNotations.
Open Scope Z_scope.

Module Directory.
Import Layout Codec BlockBuf FsCache Alloc DataPath.

(** ** Entries *)

(** [sizeof(cfs_dirent)]; a block holds a whole number of them. *)
Definition DIRENT_SIZE : Z := 4 + DIRSIZE.
Definition DIRENTS : Z := BSIZE / DIRENT_SIZE.

(** [std::string] of the characters at the head of [l]: they have to end within the block. *)
Fixpoint c_string (l : list Z) : res (list Z) :=
  match l with
  | [] => Crash OutOfRange
  | x :: l' => if x =? 0 then Ok [] else let! s := c_string l' in Ok (x :: s)
  end.

Definition dirent_inum (bs : list Z) (j : Z) : res Z :=
  let! l := read_at bs (j * DIRENT_SIZE) 4 in Ok (le_combine l).
Definition dirent_name (bs : list Z) (j : Z) : res (list Z) :=
  c_string (drop (Z.to_nat (j * DIRENT_SIZE + 4)) bs).

(** [strncpy] to an array of [n] characters. *)
Definition strncpy (n : Z) (s : list Z) : list Z :=
  take (Z.to_nat n) s ++ replicate (Z.to_nat n - length s) 0.

(** The bytes of a [cfs_dirent]. *)
Definition dirent_bytes (inum : Z) (name : list Z) : list Z := le_split 4 inum ++ strncpy DIRSIZE name.

(** The blocks of [inodeDentryDataBlockPosMap_]: for an inode, its entries by the number
    of the directory and the name. *)
Definition positions : Type := gmap (Z * list Z) (Z * Z).

Definition addDentryDataBlockPosition (par : Z) (name : list Z) (blkno index : Z) (m : positions) : positions :=
  <[(par, name) := (blkno, index)]> m.
Definition getDentryDataBlockPosition (par : Z) (name : list Z) (m : positions) : option (Z * Z) :=
  m !! (par, name).
Definition delDentryDataBlockPosition (par : Z) (name : list Z) (m : positions) : res positions :=
  match m !! (par, name) with
  | None => Crash AssertFail
  | Some _ => Ok (delete (par, name) m)
  end.

Section Operations.
Context {cfg : ExtentConfig}.

(** ** Lookup *)

(** The entry that was found (inode, block and index in it), or why none was. *)
Inductive lookup : Type :=
| Found (inum blkno index : Z)
| Pending
| NotFound.

(** The loop over the entries of a block; the result is the entry and [numDentries]. *)
Fixpoint entry_loop (n : nat) (j numDentries total : Z) (fileName bs : list Z)
    : res (option (Z * Z) * Z) :=
  match n with
  | O => Ok (None, numDentries)
  | S n' =>
      let! name := dirent_name bs j in
      let! inum := dirent_inum bs j in
      if (inum >? 0) && bool_decide (name = fileName) then Ok (Some (inum, j), numDentries)
      else if numDentries + 1 >=? total then Ok (None, numDentries + 1)
      else entry_loop n' (j + 1) (numDentries + 1) total fileName bs
  end.

(** The loop over the blocks [blkno], ... of an extent; [None] when none has the entry. *)
Fixpoint block_loop (n : nat) (blkno numDentries total : Z) (fileName : list Z)
    (d : cfs_dinode) (c : cache) (r : FsReq) : res (option lookup * Z * cache * FsReq) :=
  match n with
  | O => Ok (None, numDentries, c, r)
  | S n' =>
      let! (i, _, c, r) := getBlockForIndex blkno true d c r in
      let! it := get_item (c_heap c) i in
      if inMem it then
        let! bs := mem_of c i in
        let! (e, numDentries) := entry_loop (Z.to_nat DIRENTS) 0 numDentries total fileName bs in
        let! c := cache_releaseBlock i c in
        match e with
        | Some (inum, j) => Ok (Some (Found inum blkno j), numDentries, c, r)
        | None => block_loop n' (blkno + 1) numDentries total fileName d c r
        end
      else Ok (Some Pending, numDentries, c, r)
  end.

Fixpoint extent_scan (l : list cfs_extent) (numDentries total : Z) (fileName : list Z)
    (d : cfs_dinode) (c : cache) (r : FsReq) : res (lookup * cache * FsReq) :=
  match l with
  | [] => Ok (NotFound, c, r)
  | x :: l' =>
      let! (e, numDentries, c, r) :=
        block_loop (Z.to_nat (num_blocks x)) (block_no x) numDentries total fileName d c r in
      match e with
      | Some e => Ok (e, c, r)
      | None => extent_scan l' numDentries total fileName d c r
      end
  end.

Definition lookupDirDentry (dir : InMemInode) (fileName : list Z) (c : cache) (r : FsReq)
    : res (lookup * cache * FsReq) :=
  let d := inodeData dir in
  extent_scan (take (Z.to_nat NEXTENT_ARR) (ext_array d)) 0 (Layout.size d / DIRENT_SIZE) fileName d c r.

(** The inode number and [error]: 0 without [error] asks to look again after a read. *)
Definition lookupDir (dir : InMemInode) (fileName : list Z) (c : cache) (r : FsReq)
    : res (Z * bool * cache * FsReq) :=
  let! (e, c, r) := lookupDirDentry dir fileName c r in
  Ok (match e with Found inum _ _ => inum | _ => 0 end,
      match e with NotFound => true | _ => false end, c, r).

(** ** Changes *)

(** [inodeSectorBuf_] is the cache [isb]. *)
Definition writeFileInode (inodeNo : Z) (s : FsImpl) (isb : cache) (r : FsReq)
    : res (Z * FsImpl * cache * FsReq) :=
  if decide (inodeNo ∈ inodeMap s) then
    Ok (1, set_inodes (dirtyInodeSet s ∪ {[inodeNo]}) (inodeMap s) s, isb, r)
  else if negb (idx_ s =? 0) then Crash AssertFail
  else
    let sec := calcSectorForInode inodeNo in
    let! (i, _, isb, r) := fs_getBlock true sec true 0 isb r in
    let! it := get_item (c_heap isb) i in
    if inMem it then
      let! isb := cache_setItemDirty i true 0 isb in
      let! (_, h) := releaseBlockNo sec (c_heap isb) (c_buf isb) in
      Ok (1, s, mk_cache h (c_buf isb) (c_mem isb), r)
    else Ok (0, s, isb, r).

Definition checkInodeDentryInMem (dir : InMemInode) (pos : positions) (fileName : list Z)
    (c : cache) (r : FsReq) : res (Z * cache * FsReq) :=
  match getDentryDataBlockPosition (i_no (inodeData dir)) fileName pos with
  | None => Crash AssertFail
  | Some (blkno, _) =>
      if blkno >? 0 then
        let! (i, _, c, r) := getBlockForIndex blkno true (inodeData dir) c r in
        let! it := get_item (c_heap c) i in
        if negb (inMem it) then Ok (-1, c, r)
        else let! c := cache_releaseBlock i c in Ok (0, c, r)
      else Ok (0, c, r)
  end.

(** The entry is in use and has the name. *)
Definition entry_is (bs : list Z) (j : Z) (fileName : list Z) : res bool :=
  let! inum := dirent_inum bs j in
  if inum >? 0 then let! name := dirent_name bs j in Ok (bool_decide (name = fileName)) else Ok false.

Definition dentryPointToNewInode (newIno : Z) (dir : InMemInode) (pos : positions)
    (fileName : list Z) (s : FsImpl) (isb c : cache) (r : FsReq)
    : res (Z * FsImpl * cache * cache * FsReq) :=
  let d := inodeData dir in
  match getDentryDataBlockPosition (i_no d) fileName pos with
  | None => Crash AssertFail
  | Some (blkno, j) =>
      if blkno >? 0 then
        let! (i, _, c, r) := getBlockForIndex blkno true d c r in
        let! it := get_item (c_heap c) i in
        if inMem it then
          let! bs := mem_of c i in
          let! ok := entry_is bs j fileName in
          if ok then
            let! bs := write_at bs (Z.to_nat (j * DIRENT_SIZE)) (le_split 4 newIno) in
            let! c := cache_setItemDirty i true (i_no d) (set_mem i bs c) in
            let! c := cache_releaseBlock i c in
            let! (_, s, isb, r) := writeFileInode (i_no d) s isb r in
            Ok (0, s, isb, c, r)
          else Crash AssertFail
        else Ok (-1, s, isb, c, r)
      else Ok (-1, s, isb, c, r)
  end.

(** [removeFromDir] at a position. *)
Definition remove_at (dir : InMemInode) (j blkno : Z) (fileName : list Z)
    (s : FsImpl) (isb c : cache) (r : FsReq) : res (Z * FsImpl * cache * cache * FsReq) :=
  let d := inodeData dir in
  if blkno >? 0 then
    let! (i, _, c, r) := getBlockForIndex blkno true d c r in
    let! it := get_item (c_heap c) i in
    if inMem it then
      let! bs := mem_of c i in
      let! ok := entry_is bs j fileName in
      let! c :=
        if ok then
          let! bs := write_at bs (Z.to_nat (j * DIRENT_SIZE)) (replicate 4 0) in
          let! bs := write_at bs (Z.to_nat (j * DIRENT_SIZE + 4)) (replicate (Z.to_nat DIRSIZE) 0) in
          cache_setItemDirty i true (i_no d) (set_mem i bs c)
        else Ok c in
      let! c := cache_releaseBlock i c in
      let! (_, s, isb, r) := writeFileInode (i_no d) s isb r in
      Ok (0, s, isb, c, r)
    else Ok (-1, s, isb, c, r)
  else Ok (-1, s, isb, c, r).

(** [pos] are the positions of the entries of the inode that is removed. *)
Definition removeFromDir (dir : InMemInode) (pos : positions) (fileName : list Z)
    (s : FsImpl) (isb c : cache) (r : FsReq) : res (Z * positions * FsImpl * cache * cache * FsReq) :=
  let par := i_no (inodeData dir) in
  match getDentryDataBlockPosition par fileName pos with
  | None => Crash AssertFail
  | Some (blkno, j) =>
      let! (ret, s, isb, c, r) := remove_at dir j blkno fileName s isb c r in
      let! pos := if ret =? 0 then delDentryDataBlockPosition par fileName pos else Ok pos in
      Ok (ret, pos, s, isb, c, r)
  end.

(** [src] is the address of [cur_dirent], and [first] what the variables that receive the
    position hold before the call. *)
Definition appendToDir (dir : InMemInode) (ino : Z) (pos : positions) (entryFileName : list Z)
    (src : Z) (first : Z * Z) (s : FsImpl) (c : cache) (r : FsReq)
    : res (positions * InMemInode * FsImpl * cache * FsReq) :=
  let d := inodeData dir in
  let! (_, (blkno, off), dir, s, c, r) :=
    writeInodeAndSaveDataBlockInfo dir src (dirent_bytes ino entryFileName) (Layout.size d)
      DIRENT_SIZE first s c r in
  Ok (addDentryDataBlockPosition (i_no d) entryFileName blkno (off / DIRENT_SIZE) pos, dir, s, c, r).

End Operations.

(** ** Bytes of entries *)

Definition entry_ok (e : Z * list Z) : Prop :=
  0 <= fst e < 2 ^ 32 /\ Z.of_nat (length (snd e)) < DIRSIZE /\ 0 ∉ snd e.

Lemma c_string_app s rest : 0 ∉ s -> c_string (s ++ 0 :: rest) = Ok s.
Proof.
  induction s as [| x s IH]; intros Hs; cbn; [done |]. apply not_elem_of_cons in Hs as [Hx Hs].
  rewrite (proj2 (Z.eqb_neq x 0)) by done. by rewrite IH.
Qed.

Lemma strncpy_short n s :
  Z.of_nat (length s) < n -> exists k, strncpy n s = s ++ 0 :: replicate k 0 /\ (length s + S k = Z.to_nat n)%nat.
Proof.
  intros Hs. unfold strncpy. rewrite take_ge by lia.
  destruct (Z.to_nat n - length s)%nat as [| k] eqn:E; [lia |]. exists k. split; [done | lia].
Qed.

Lemma length_dirent_bytes inum name : length (dirent_bytes inum name) = Z.to_nat DIRENT_SIZE.
Proof.
  unfold dirent_bytes, strncpy. rewrite !length_app, length_le_split, length_take, length_replicate.
  change (Z.to_nat DIRENT_SIZE) with 32%nat. change (Z.to_nat DIRSIZE) with 28%nat. lia.
Qed.

(** Reading an entry from its bytes. *)
Lemma read_entry bs j e :
  entry_ok e -> 0 <= j -> (j + 1) * DIRENT_SIZE <= Z.of_nat (length bs) ->
  slice bs (j * DIRENT_SIZE) DIRENT_SIZE = dirent_bytes (fst e) (snd e) ->
  dirent_inum bs j = Ok (fst e) /\ dirent_name bs j = Ok (snd e).
Proof.
  intros (Hi & Hl & Hz) Hj Hlen Hsl. change DIRENT_SIZE with 32 in *.
  assert (Hd : drop (Z.to_nat (j * 32)) bs = le_split 4 (fst e) ++ strncpy DIRSIZE (snd e) ++ drop 32 (drop (Z.to_nat (j * 32)) bs)).
  { rewrite <- (take_drop 32 (drop (Z.to_nat (j * 32)) bs)) at 1. unfold slice in Hsl. change (Z.to_nat 32) with 32%nat in Hsl.
    rewrite Hsl. unfold dirent_bytes. by rewrite <- app_assoc. }
  split.
  - unfold dirent_inum, read_at. change DIRENT_SIZE with 32. rewrite (proj2 (Z.leb_le _ _)) by lia. cbn [res_bind].
    unfold slice. rewrite Hd. change (Z.to_nat 4) with 4%nat.
    rewrite take_app_length' by (by rewrite length_le_split). rewrite le_combine_split; [done |].
    change (256 ^ Z.of_nat 4) with (2 ^ 32). lia.
  - unfold dirent_name. change DIRENT_SIZE with 32. rewrite Z2Nat.inj_add, <- drop_drop by lia.
    rewrite Hd, drop_app_length' by (by rewrite length_le_split).
    destruct (strncpy_short _ _ Hl) as (k & -> & _). rewrite <- app_assoc. cbn. by apply c_string_app.
Qed.

(** ** The entries of a directory *)

Section Spec.
Context {cfg : ExtentConfig} {Hal : AlignedConfig cfg} (own : Z -> Z) (disk : Z -> list Z).
Hypothesis (Hdisk : forall b, Z.of_nat (length (disk b)) = BSIZE).

(** The data of the directory are the entries [es], and it has no block more than they
    need. *)
Record dir_holds (c : cache) (d : cfs_dinode) (es : list (Z * list Z)) : Prop := mk_dir {
  dh_entries : Forall entry_ok es;
  dh_size : Layout.size d = Z.of_nat (length es) * DIRENT_SIZE;
  dh_blocks : i_block_count d = (Z.of_nat (length es) + DIRENTS - 1) / DIRENTS;
  dh_bytes : forall k e i, es !! k = Some e -> 0 <= i < DIRENT_SIZE ->
    byte disk c d (Z.of_nat k * DIRENT_SIZE + i) = dirent_bytes (fst e) (snd e) !! Z.to_nat i
}.

(** The entries of a directory that may already have the block for one more. *)
Record dir_data (c : cache) (d : cfs_dinode) (es : list (Z * list Z)) : Prop := mk_data {
  dd_entries : Forall entry_ok es;
  dd_size : Layout.size d = Z.of_nat (length es) * DIRENT_SIZE;
  dd_blocks : (Z.of_nat (length es) + DIRENTS - 1) / DIRENTS <= i_block_count d <= Z.of_nat (length es) / DIRENTS + 1;
  dd_bytes : forall k e i, es !! k = Some e -> 0 <= i < DIRENT_SIZE ->
    byte disk c d (Z.of_nat k * DIRENT_SIZE + i) = dirent_bytes (fst e) (snd e) !! Z.to_nat i
}.

Lemma holds_data c d es : dir_holds c d es -> dir_data c d es.
Proof.
  intros [A B C D]. split; try done. rewrite C. change DIRENTS with 128. clear.
  Z.to_euclidean_division_equations; lia.
Qed.

(** The directory has exactly the blocks it needs. *)
Definition tight (d : cfs_dinode) (es : list (Z * list Z)) : Prop :=
  i_block_count d = (Z.of_nat (length es) + DIRENTS - 1) / DIRENTS.

Lemma data_holds c d es : dir_data c d es -> tight d es -> dir_holds c d es.
Proof. by intros [A B C D] H. Qed.

Lemma dir_same c c' d es : same_contents disk c c' -> dir_holds c d es -> dir_holds c' d es.
Proof. intros Hs [A B C D]. split; try done. intros k e i Hk Hi. rewrite (byte_same _ _ _ _ _ Hs). auto. Qed.

Lemma blocks_enough d n k :
  (Z.of_nat n + DIRENTS - 1) / DIRENTS <= i_block_count d -> (k < n)%nat -> Z.of_nat k / DIRENTS < i_block_count d.
Proof.
  intros Hc Hk. clear -Hc Hk. change DIRENTS with 128 in *. Z.to_euclidean_division_equations. lia.
Qed.

(** Entry [k] is entry [k mod 128] of block [k / 128]. *)
Lemma entry_bytes c d es k e n i :
  dir_data c d es -> es !! k = Some e -> block_at d (Z.of_nat k / DIRENTS) = Some n -> (i < 32)%nat ->
  stored disk c (pba n) !! (Z.to_nat (Z.of_nat k mod DIRENTS * DIRENT_SIZE) + i)%nat = dirent_bytes (fst e) (snd e) !! i.
Proof.
  intros [A B C D] Hk Hn Hi. specialize (D k e (Z.of_nat i) Hk). rewrite Nat2Z.id in D.
  rewrite <- D by (change DIRENT_SIZE with 32; lia). unfold byte.
  change DIRENTS with 128 in *. change DIRENT_SIZE with 32 in *. change BSIZE with 4096 in *.
  replace ((Z.of_nat k * 32 + Z.of_nat i) / 4096) with (Z.of_nat k / 128)
    by (Z.to_euclidean_division_equations; lia).
  rewrite Hn. cbn. f_equal.
  replace ((Z.of_nat k * 32 + Z.of_nat i) mod 4096) with (Z.of_nat k mod 128 * 32 + Z.of_nat i)
    by (Z.to_euclidean_division_equations; lia).
  pose proof (Z.mod_pos_bound (Z.of_nat k) 128 eq_refl). lia.
Qed.

Lemma entry_in_block c d es k e n :
  good own disk c -> dir_data c d es -> es !! k = Some e -> block_at d (Z.of_nat k / DIRENTS) = Some n ->
  dirent_inum (stored disk c (pba n)) (Z.of_nat k mod DIRENTS) = Ok (fst e) /\
  dirent_name (stored disk c (pba n)) (Z.of_nat k mod DIRENTS) = Ok (snd e).
Proof.
  intros Hg Hd Hk Hn. pose proof (stored_length own disk Hdisk c (pba n) Hg) as Hlen.
  assert (Hm : 0 <= Z.of_nat k mod DIRENTS < DIRENTS) by (apply Z.mod_pos_bound; done).
  apply read_entry; [by apply (Forall_lookup_1 _ _ _ _ (dd_entries _ _ _ Hd) Hk) | lia | |].
  { rewrite Hlen. change DIRENTS with 128 in *. change DIRENT_SIZE with 32. change BSIZE with 4096. lia. }
  apply list_eq. intros i. destruct (decide (i < 32)%nat) as [Hi | Hi].
  - unfold slice. rewrite lookup_take_lt, lookup_drop by done. by eapply entry_bytes.
  - rewrite !lookup_ge_None_2; [done | rewrite length_dirent_bytes; change (Z.to_nat DIRENT_SIZE) with 32%nat; lia |].
    unfold slice. rewrite length_take. change (Z.to_nat DIRENT_SIZE) with 32%nat. lia.
Qed.

(** ** Lookup *)

Definition names (name : list Z) (e : Z * list Z) : Prop := 0 < fst e /\ snd e = name.

#[global] Instance names_dec name e : Decision (names name e).
Proof. unfold names. apply _. Defined.

(** The entries [l] are those of a block from [j] on. *)
Lemma entry_loop_spec n : forall j num total name bs l,
  (forall i e, l !! i = Some e ->
     dirent_inum bs (j + Z.of_nat i) = Ok (fst e) /\ dirent_name bs (j + Z.of_nat i) = Ok (snd e)) ->
  Z.of_nat (length l) = Z.min (Z.of_nat n) (total - num) -> num < total ->
  entry_loop n j num total name bs =
    Ok (match list_find (names name) l with
        | Some (i, e) => (Some (fst e, j + Z.of_nat i), num + Z.of_nat i)
        | None => (None, num + Z.of_nat (length l))
        end).
Proof.
  induction n as [| n IH]; intros j num total name bs l Hl Hlen Hlt.
  - destruct l; [| cbn in Hlen; lia]. cbn. by rewrite Z.add_0_r.
  - destruct l as [| e l]; [cbn in Hlen; lia |]. cbn [entry_loop].
    destruct (Hl 0%nat e eq_refl) as [E1 E2]. rewrite Z.add_0_r in E1, E2. rewrite E1, E2. cbn [res_bind list_find].
    assert (En : (fst e >? 0) && bool_decide (snd e = name) = bool_decide (names name e)).
    { apply eq_iff_eq_true. rewrite andb_true_iff, Z.gtb_lt, !bool_decide_eq_true. done. }
    rewrite En. destruct (decide (names name e)) as [Hn | Hn].
    + rewrite bool_decide_true by done. cbn. by rewrite !Z.add_0_r.
    + rewrite bool_decide_false by done. cbn [length] in Hlen. destruct (Z.geb_spec (num + 1) total).
      * destruct l; [| cbn in Hlen; lia]. cbn. done.
      * rewrite (IH _ _ _ _ _ l); [| | lia | lia].
        -- destruct (list_find (names name) l) as [[i e'] |]; cbn [fmap option_fmap option_map prod_map fst snd length id];
             rewrite Nat2Z.inj_succ; repeat (lia || f_equal).
        -- intros i e' Hi. destruct (Hl (S i) e' Hi) as [F1 F2].
           replace (j + 1 + Z.of_nat i) with (j + Z.of_nat (S i)) by lia. done.
Qed.

(** What a lookup that went through the first [k] entries has found. *)
Definition found_in (c : cache) (d : cfs_dinode) (es : list (Z * list Z)) (name : list Z) (r : FsReq)
    (e : lookup) (c' : cache) (r' : FsReq) : Prop :=
  good own disk c' /\ same_contents disk c c' /\
  match e with
  | Found inum blkno j => exists k, list_find (names name) es = Some (k, (inum, name)) /\
      block_at d (Z.of_nat k / DIRENTS) = Some blkno /\ j = Z.of_nat k mod DIRENTS /\ r' = r
  | NotFound => list_find (names name) es = None /\ r' = r
  | Pending => waiting r r'
  end.

Lemma found_in_same c c1 d es name r e c' r' :
  same_contents disk c c1 -> found_in c1 d es name r e c' r' -> found_in c d es name r e c' r'.
Proof. intros Hs (Hg & Hs' & H). split; [done |]. split; [by eapply same_contents_trans | done]. Qed.

(** The entries of block [b]. *)
Definition block_entries (es : list (Z * list Z)) (b : nat) : list (Z * list Z) := take 128 (drop (128 * b) es).

Lemma find_in_block name es b :
  list_find (names name) (take (128 * b) es) = None ->
  match list_find (names name) (block_entries es b) with
  | Some (i, e) => list_find (names name) es = Some ((128 * b + i)%nat, e) /\ snd e = name
  | None => list_find (names name) (take (128 * S b) es) = None
  end.
Proof.
  intros Hn. unfold block_entries. destruct (list_find _ (take 128 _)) as [[i e] |] eqn:E.
  - split; [| by apply list_find_Some in E as (_ & [_ ?] & _)].
    rewrite <- (take_drop (128 * b) es), <- (take_drop 128 (drop (128 * b) es)).
    assert (Hl : (i < length (take 128 (drop (128 * b) es)))%nat) by (apply list_find_Some in E as (?%lookup_lt_Some & _); done).
    rewrite length_take, length_drop in Hl.
    apply list_find_app_Some. right. rewrite length_take_le by lia. split; [lia |]. split; [done |].
    apply list_find_app_Some. left. by replace (128 * b + i - 128 * b)%nat with i by lia.
  - apply list_find_None in Hn, E. apply list_find_None.
    replace (128 * S b)%nat with (128 * b + 128)%nat by lia. rewrite <- take_take_drop. by apply Forall_app.
Qed.

Section Lookup.
Context (d : cfs_dinode) (es : list (Z * list Z)) (name : list Z).
Hypothesis (Hi : inode_ok d) (Hpl : placed d) (Hown : owned own d).

Let total : Z := Z.of_nat (length es).

(** The blocks of an extent are blocks of the file. *)
Lemma extent_block e x inside :
  ext_array d !! e = Some x -> 0 <= inside < num_blocks x ->
  0 <= ext_base e + inside < i_block_count d /\ block_at d (ext_base e + inside) = Some (block_no x + inside).
Proof.
  destruct Hi as (Hlen & Hc & Ha). intros Hx Hin.
  assert (He : (e < 7)%nat) by (apply lookup_lt_Some in Hx; lia).
  rewrite (Ha _ _ Hx) in Hin. unfold filled in Hin. pose proof (ext_base_mono 0 e ltac:(lia)) as Hb. cbn in Hb.
  split; [lia |]. assert (Hp : position (ext_base e + inside) e inside) by (unfold position; lia).
  destruct (current_extent _ _ _ Hp) as (i0 & m0 & E). rewrite decide_True in E by done.
  unfold block_at. rewrite E, (proj2 (Z.ltb_ge _ _)), Nat2Z.id, Hx by lia. cbn.
  destruct (Hpl e x Hx) as (_ & w & Hw & Hu); [rewrite (Ha _ _ Hx); unfold filled; lia |].
  destruct (unit_range _ _ _ Hw He Hu). rewrite to_u32_small by lia. done.
Qed.

Lemma block_loop_spec n : forall inside b num c r e x,
  ext_array d !! e = Some x -> 0 <= inside -> inside + Z.of_nat n <= num_blocks x ->
  Z.of_nat b = ext_base e + inside -> good own disk c -> dir_holds c d es ->
  num = Z.min (128 * Z.of_nat b) total -> list_find (names name) (take (128 * b) es) = None ->
  match block_loop n (block_no x + inside) num total name d c r with
  | Ok (None, num', c', r') => num' = Z.min (128 * Z.of_nat (b + n)) total /\ r' = r /\ good own disk c' /\
      same_contents disk c c' /\ calm c c' /\ list_find (names name) (take (128 * (b + n)) es) = None
  | Ok (Some out, _, c', r') => found_in c d es name r out c' r'
  | Crash f => f = AssertFail /\ no_room own BSIZE (fun _ => False) c
  end.
Proof.
  induction n as [| n IH]; intros inside b num c r e x Hx Hin Hn Hb Hg Hd Hnum Hnone; cbn [block_loop].
  { rewrite Nat.add_0_r. split_and!; try done. apply later_refl. }
  destruct (extent_block e x inside Hx) as [Hbr Hba]; [lia |]. rewrite <- Hb in Hbr, Hba.
  assert (Hlt : 128 * Z.of_nat b < total).
  { rewrite (dh_blocks _ _ _ Hd) in Hbr. fold total in Hbr. change DIRENTS with 128 in Hbr.
    revert Hbr. clear. Z.to_euclidean_division_equations. lia. }
  assert (Hbl : Z.of_nat (length (block_entries es b)) = Z.min 128 (total - 128 * Z.of_nat b)).
  { unfold block_entries. rewrite length_take, length_drop. unfold total in *. lia. }
  unfold getBlockForIndex. fold (pba (block_no x + inside)).
  destruct (read_block own disk c (pba (block_no x + inside)) (i_no d) r Hg (Hown _ _ Hbr Hba))
    as [[Hf E] | [(i & c1 & it & c2 & E & Eit & Em & Emem & Erel & Hg2 & Hs2 & Hcm)
                 | (i & c1 & it & r1 & E & Eit & Em & Hg1 & Hs1 & Hw & _)]]; rewrite E; cbn [res_bind].
  - split; [done |]. apply no_room_now; [apply Hg | done].
  - rewrite Eit. cbn [res_bind]. rewrite Em, Emem. cbn [res_bind].
    change (Z.to_nat DIRENTS) with 128%nat. rewrite (entry_loop_spec 128 0 num total name _ (block_entries es b)).
    + pose proof (find_in_block name es b Hnone) as Hfind.
      destruct (list_find (names name) (block_entries es b)) as [[k en] |] eqn:Ek; cbn [res_bind].
      * destruct Hfind as [Hfind Hname]. rewrite Erel. cbn [res_bind].
        assert (Hk : (k < 128)%nat).
        { apply list_find_Some in Ek as (Hk%lookup_lt_Some & _). unfold block_entries in Hk. rewrite length_take in Hk. lia. }
        split; [done |]. split; [done |]. exists (128 * b + k)%nat. destruct en as [inum nm]. cbn [snd] in Hname. subst nm. cbn [fst].
        split; [done |]. change DIRENTS with 128.
        replace (Z.of_nat (128 * b + k) / 128) with (Z.of_nat b) by (Z.to_euclidean_division_equations; lia).
        split; [done |]. split; [Z.to_euclidean_division_equations; lia | done].
      * rewrite Erel. cbn [res_bind].
        replace (block_no x + inside + 1) with (block_no x + (inside + 1)) by lia.
        pose proof (IH (inside + 1) (S b) (num + Z.of_nat (length (block_entries es b))) c2 r e x Hx) as Hl.
        specialize (Hl ltac:(lia) ltac:(lia) ltac:(lia) Hg2 (dir_same _ _ _ _ Hs2 Hd) ltac:(rewrite Hbl; lia) Hfind).
        destruct (block_loop n _ _ _ _ _ _ _) as [[[[[out |] num'] c'] r'] | f]; [by eapply found_in_same | |].
        2: { destruct Hl as [-> Hl]. split; [done | by eapply no_room_later]. }
        replace (S b + n)%nat with (b + S n)%nat in Hl by lia. destruct Hl as (? & ? & ? & Hs' & Hcm' & ?).
        split; [done |]. split; [done |]. split; [done |]. split; [by eapply same_contents_trans |].
        split; [by eapply later_trans | done].
    + intros k en Hk. unfold block_entries in Hk. apply lookup_take_Some in Hk as [Hk Hk128].
      rewrite lookup_drop in Hk. rewrite Z.add_0_l.
      destruct (entry_in_block c d es (128 * b + k) en (block_no x + inside) Hg (holds_data _ _ _ Hd) Hk) as [E1 E2].
      { change DIRENTS with 128. replace (Z.of_nat (128 * b + k) / 128) with (Z.of_nat b)
          by (Z.to_euclidean_division_equations; lia). done. }
      change DIRENTS with 128 in E1, E2.
      replace (Z.of_nat (128 * b + k) mod 128) with (Z.of_nat k) in E1, E2 by (Z.to_euclidean_division_equations; lia).
      done.
    + rewrite Hbl. lia.
    + lia.
  - rewrite Eit. cbn [res_bind]. rewrite Em. split; [done |]. done.
Qed.

Lemma extent_scan_spec k : forall e b num c r,
  (e + k = 7)%nat -> Z.of_nat b = Z.min (ext_base e) (i_block_count d) ->
  good own disk c -> dir_holds c d es -> num = Z.min (128 * Z.of_nat b) total ->
  list_find (names name) (take (128 * b) es) = None ->
  match extent_scan (drop e (ext_array d)) num total name d c r with
  | Ok (out, c', r') => found_in c d es name r out c' r'
  | Crash f => f = AssertFail /\ no_room own BSIZE (fun _ => False) c
  end.
Proof.
  pose proof Hi as (Hlen & Hc & Ha).
  induction k as [| k IH]; intros e b num c r He Hb Hg Hd Hnum Hnone.
  - replace e with 7%nat in * by lia. rewrite drop_ge by lia. cbn. split; [done |]. split; [done |]. split; [| done].
    rewrite take_ge in Hnone; [done |]. rewrite Z.min_r in Hb by lia. rewrite (dh_blocks _ _ _ Hd) in Hb.
    change DIRENTS with 128 in Hb. revert Hb. clear. intros Hb. Z.to_euclidean_division_equations. lia.
  - destruct (lookup_lt_is_Some_2 (ext_array d) e) as [x Hx]; [lia |].
    rewrite (drop_S _ _ _ Hx). cbn [extent_scan]. pose proof (Ha _ _ Hx) as Hnb. unfold filled in Hnb.
    assert (Hu : 0 < unit_of e) by (apply al_unit; lia). assert (Hbn : ext_base (S e) = ext_base e + unit_of e) by done.
    assert (Hl : match block_loop (Z.to_nat (num_blocks x)) (block_no x) num total name d c r with
      | Ok (None, num', c', r') => num' = Z.min (128 * Z.of_nat (b + Z.to_nat (num_blocks x))) total /\ r' = r /\
          good own disk c' /\ same_contents disk c c' /\ calm c c' /\
          list_find (names name) (take (128 * (b + Z.to_nat (num_blocks x))) es) = None
      | Ok (Some out, _, c', r') => found_in c d es name r out c' r'
      | Crash f => f = AssertFail /\ no_room own BSIZE (fun _ => False) c
      end).
    { destruct (decide (num_blocks x = 0)) as [E0 | Hne].
      - rewrite E0. cbn [Z.to_nat block_loop]. rewrite Nat.add_0_r. split_and!; try done. apply later_refl.
      - pose proof (block_loop_spec (Z.to_nat (num_blocks x)) 0 b num c r e x Hx) as H.
        rewrite !Z.add_0_r in H. apply H; try done; lia. }
    destruct (block_loop _ _ _ _ _ _ _ _) as [[[[[out |] num'] c'] r'] | f]; cbn [res_bind]; [done | | done].
    destruct Hl as (Hnum' & -> & Hg' & Hs' & Hcm' & Hnone').
    assert (Hb' : Z.of_nat (b + Z.to_nat (num_blocks x)) = Z.min (ext_base (S e)) (i_block_count d)).
    { rewrite Hbn, Nat2Z.inj_add, Z2Nat.id by lia. rewrite Hnb, Hb. lia. }
    assert (He' : (S e + k = 7)%nat) by lia.
    pose proof (IH (S e) (b + Z.to_nat (num_blocks x))%nat num' c' r He' Hb' Hg' (dir_same _ _ _ _ Hs' Hd)
      Hnum' Hnone') as H.
    destruct (extent_scan _ _ _ _ _ _ _) as [[[out c2] r2] | f]; [by eapply found_in_same |].
    destruct H as [-> H]. split; [done | by eapply no_room_later].
Qed.

End Lookup.

Lemma lookup_spec dir es name c r :
  let d := inodeData dir in
  inode_ok d -> placed d -> owned own d -> good own disk c -> dir_holds c d es ->
  match lookupDirDentry dir name c r with
  | Ok (out, c', r') => found_in c d es name r out c' r'
  | Crash f => f = AssertFail /\ no_room own BSIZE (fun _ => False) c
  end.
Proof.
  intros d Hi Hpl Hown Hg Hd. unfold lookupDirDentry. fold d. rewrite (dh_size _ _ _ Hd).
  rewrite Z.div_mul by done. pose proof Hi as (Hlen & Hc & _). rewrite take_ge by (rewrite Hlen; done).
  apply (extent_scan_spec d es name Hi Hpl Hown 7 0 0 0 c r); try done; cbn [ext_base]; lia.
Qed.

(** ** Changing an entry *)

(** The block is not in the cache, or it is still being read. *)
Definition missing (c : cache) (b : Z) : Prop := forall dirty bs, look c b <> Present dirty bs.

(** A block that is read and can be changed. *)
Lemma update_block c bno ino r :
  good own disk c -> own bno = ino ->
  (full c /\ fs_getBlock false bno true ino c r = Crash AssertFail) \/
  (exists i c1 it, fs_getBlock false bno true ino c r = Ok (i, true, c1, r) /\
     get_item (c_heap c1) i = Ok it /\ inMem it = true /\ mem_of c1 i = Ok (stored disk c bno) /\
     (exists c2, cache_releaseBlock i c1 = Ok c2 /\ good own disk c2 /\ same_contents disk c c2) /\
     forall bs, Z.of_nat (length bs) = BSIZE ->
       exists c2 c3, cache_setItemDirty i true ino (set_mem i bs c1) = Ok c2 /\ cache_releaseBlock i c2 = Ok c3 /\
         good own disk c3 /\ stored disk c3 bno = bs /\ forall b, b <> bno -> stored disk c3 b = stored disk c b) \/
  (exists i c1 it r1, fs_getBlock false bno true ino c r = Ok (i, false, c1, r1) /\
     get_item (c_heap c1) i = Ok it /\ inMem it = false /\ good own disk c1 /\ same_contents disk c c1 /\
     waiting r r1 /\ missing c bno).
Proof.
  intros Hg Hown. destruct (read_block own disk c bno ino r Hg Hown) as [H | [H | H]]; [by left | |].
  2: { right. right. destruct H as (i & c1 & it & r1 & E & H). exists i, c1, it, r1. destruct_and!.
       repeat (split; [done |]). intros dd bs El. pose proof Hg as [Hq _].
       destruct (fs_get_present own BSIZE c bno dd bs Hq El) as (i' & c1' & _ & _ & _ & E'). subst ino. by rewrite E' in E. }
  right. left. destruct H as (i & c1 & it & c2 & E & Eit & Em & Emem & Erel & Hg2 & Hs2 & _).
  exists i, c1, it. split; [done |]. split; [done |]. split; [done |]. split; [done |]. split; [eauto |].
  intros bs Hlen. pose proof Hg as [Hq _]. destruct (look c bno) as [| | dd bs0] eqn:El.
  - destruct (fs_get_absent own BSIZE c bno Hq El) as [[_ E'] | (i' & c1' & Hh & E')]; subst ino;
      rewrite E' in E; discriminate E.
  - destruct (fs_get_reading own BSIZE c bno Hq El) as (i' & c1' & it' & _ & _ & _ & _ & E'). subst ino. by rewrite E' in E.
  - destruct (fs_get_present own BSIZE c bno dd bs0 Hq El) as (i' & c1' & Hh & _ & _ & E'). subst ino. rewrite E' in E.
    injection E as <- <-. destruct (held_writable own disk c c1' bno i' true dd Hg Hh bs Hlen) as (c3 & Ef & Hg3 & Hs3 & Ho3 & _).
    unfold set_mem in Ef. rewrite (finish_in_mem own BSIZE c c1' bno i' dd _ Hq Hh) in Ef.
    apply res_bind_ok in Ef as (c2' & Ed & Er'). exists c2', c3. done.
Qed.

(** The bytes of entry [k] are replaced by those of [e']. *)
Lemma patched c c' d es k e' n :
  file_ok own d -> dir_data c d es -> (k < length es)%nat -> entry_ok e' ->
  block_at d (Z.of_nat k / DIRENTS) = Some n ->
  (forall b, b <> pba n -> stored disk c' b = stored disk c b) ->
  (forall q, stored disk c' (pba n) !! q =
     let o := Z.to_nat (Z.of_nat k mod DIRENTS * DIRENT_SIZE) in
     if decide (o <= q < o + 32)%nat then dirent_bytes (fst e') (snd e') !! (q - o)%nat
     else stored disk c (pba n) !! q) ->
  dir_data c' d (<[k := e']> es).
Proof.
  intros (_ & Hblk & Hinj) [A B C D] Hk He' Hn Hoth Hpat. split.
  - by apply Forall_insert.
  - by rewrite length_insert.
  - by rewrite length_insert.
  - intros k2 e2 i Hk2 Hi. assert (Hk2l : (k2 < length es)%nat) by (apply lookup_lt_Some in Hk2; by rewrite length_insert in Hk2).
    pose proof (blocks_enough d _ _ (proj1 C) Hk2l) as Hb2. pose proof (blocks_enough d _ _ (proj1 C) Hk) as Hb.
    assert (0 <= Z.of_nat k2 / DIRENTS) by (apply Z.div_pos; [lia | done]).
    assert (0 <= Z.of_nat k / DIRENTS) by (apply Z.div_pos; [lia | done]).
    destruct (Hblk (Z.of_nat k2 / DIRENTS)) as (n2 & Hn2 & _); [lia |].
    change DIRENTS with 128 in *. change DIRENT_SIZE with 32 in *.
    pose proof (Z.mod_pos_bound (Z.of_nat k) 128 eq_refl). pose proof (Z.mod_pos_bound (Z.of_nat k2) 128 eq_refl).
    assert (Ediv : (Z.of_nat k2 * 32 + i) / BSIZE = Z.of_nat k2 / 128)
      by (change BSIZE with 4096; Z.to_euclidean_division_equations; lia).
    assert (Emod : (Z.of_nat k2 * 32 + i) mod BSIZE = Z.of_nat k2 mod 128 * 32 + i)
      by (change BSIZE with 4096; Z.to_euclidean_division_equations; lia).
    assert (Hold : k2 <> k -> byte disk c d (Z.of_nat k2 * 32 + i) = dirent_bytes (fst e2) (snd e2) !! Z.to_nat i).
    { intros Hne. apply D; [| lia]. by rewrite list_lookup_insert_ne in Hk2. }
    unfold byte in *. rewrite Ediv, Emod, Hn2 in *. cbn in *.
    destruct (decide (Z.of_nat k2 / 128 = Z.of_nat k / 128)) as [Eb | Eb].
    + rewrite Eb, Hn in Hn2. injection Hn2 as <-. rewrite Hpat. destruct (decide (k2 = k)) as [-> | Hne].
      * rewrite list_lookup_insert_eq in Hk2 by done. injection Hk2 as <-.
        rewrite decide_True by lia. f_equal. lia.
      * rewrite decide_False; [by apply Hold |]. intros Hr. apply Hne.
        assert (Z.of_nat k2 mod 128 = Z.of_nat k mod 128) by (Z.to_euclidean_division_equations; lia).
        Z.to_euclidean_division_equations; lia.
    + rewrite Hoth; [apply Hold; intros ->; done |].
      intros Epb. apply Eb. eapply (Hinj _ _ n2 n); try done; lia.
Qed.

Lemma changed_holds c c' d es k e' : dir_holds c d es -> dir_data c' d (<[k := e']> es) -> dir_holds c' d (<[k := e']> es).
Proof. intros H H'. apply data_holds; [done |]. unfold tight. rewrite length_insert. by apply dh_blocks in H. Qed.

Section Change.
Context (dir : InMemInode) (es : list (Z * list Z)) (k : nat) (inum : Z) (name : list Z) (blkno : Z).
Context (s : FsImpl) (isb c : cache) (r : FsReq).

Let d : cfs_dinode := inodeData dir.
Let j : Z := Z.of_nat k mod DIRENTS.

Hypothesis (Hi : inode_ok d) (Hpl : placed d) (Hown : owned own d) (Hg : good own disk c) (Hd : dir_data c d es).
Hypothesis (Hk : es !! k = Some (inum, name)) (Hin : 0 < inum) (Hb : block_at d (Z.of_nat k / DIRENTS) = Some blkno).
Hypothesis (Hloaded : i_no d ∈ inodeMap s).

Lemma change_facts :
  0 < blkno /\ own (pba blkno) = i_no d /\ 0 <= j < DIRENTS /\ (k < length es)%nat /\
  entry_is (stored disk c (pba blkno)) j name = Ok true.
Proof.
  assert (Hkl : (k < length es)%nat) by (by apply lookup_lt_Some in Hk).
  pose proof (blocks_enough d _ _ (proj1 (dd_blocks _ _ _ Hd)) Hkl) as Hbc.
  assert (Hb0 : 0 <= Z.of_nat k / DIRENTS) by (apply Z.div_pos; [lia | done]).
  split.
  { destruct (block_at_position d (Z.of_nat k / DIRENTS) Hi Hpl) as (e & ins & x & w & Hp & He & Hins & Hx & H0 & Hw & Hu & E); [lia |].
    rewrite Hb in E. injection E as ->. destruct (unit_range _ _ _ Hw He Hu). lia. }
  split; [by apply (Hown (Z.of_nat k / DIRENTS)) |].
  split; [apply Z.mod_pos_bound; done |]. split; [done |].
  destruct (entry_in_block c d es k (inum, name) blkno Hg Hd Hk Hb) as [E1 E2]. fold j in E1, E2.
  unfold entry_is. rewrite E1. cbn [res_bind fst]. rewrite (proj2 (Z.gtb_lt _ _)) by done.
  rewrite E2. cbn. by rewrite bool_decide_true.
Qed.

(** How changing the entry to [e'] ends. *)
Definition change_ends (e' : Z * list Z) (out : res (Z * FsImpl * cache * cache * FsReq)) : Prop :=
  match out with
  | Ok (v, s', isb', c', r') => good own disk c' /\ isb' = isb /\ others_kept own disk (i_no d) c c' /\
      ((v = 0 /\ r' = r /\ s' = set_inodes (dirtyInodeSet s ∪ {[i_no d]}) (inodeMap s) s /\
        dir_data c' d (<[k := e']> es)) \/
       (v = -1 /\ s' = s /\ same_contents disk c c' /\ waiting r r' /\ missing c (pba blkno)))
  | Crash f => f = AssertFail /\ full c
  end.

Lemma writeFileInode_loaded :
  writeFileInode (i_no d) s isb r = Ok (1, set_inodes (dirtyInodeSet s ∪ {[i_no d]}) (inodeMap s) s, isb, r).
Proof. unfold writeFileInode. by rewrite decide_True. Qed.

Lemma block_len : Z.of_nat (length (stored disk c (pba blkno))) = 4096.
Proof. exact (stored_length own disk Hdisk c (pba blkno) Hg). Qed.

(** The block with the bytes [w] at the entry. *)
Lemma write_entry (o : Z) (w bs : list Z) :
  0 <= o -> o + Z.of_nat (length w) <= 32 -> Z.of_nat (length bs) = 4096 ->
  exists bs', write_at bs (Z.to_nat (j * DIRENT_SIZE + o)) w = Ok bs' /\ Z.of_nat (length bs') = 4096 /\
    forall q, bs' !! q = let p := Z.to_nat (j * DIRENT_SIZE + o) in
      if decide (p <= q < p + length w)%nat then w !! (q - p)%nat else bs !! q.
Proof.
  intros Ho Hw Hl. destruct change_facts as (_ & _ & Hj & _). change DIRENTS with 128 in Hj. change DIRENT_SIZE with 32.
  pose proof (write_at_ok bs (Z.to_nat (j * 32 + o)) w ltac:(lia)) as E.
  destruct (write_at_inv _ _ _ _ E) as [El Eq]. eexists. split; [exact E |]. split; [lia | exact Eq].
Qed.

Lemma remove_at_spec : change_ends (0, []) (remove_at dir j blkno name s isb c r).
Proof.
  destruct change_facts as (Hb0 & Ho & Hj & Hkl & He). unfold remove_at. fold d. rewrite (proj2 (Z.gtb_lt _ _)) by done.
  unfold getBlockForIndex. fold (pba blkno).
  destruct (update_block c (pba blkno) (i_no d) r Hg Ho)
    as [[Hf E] | [(i & c1 & it & E & Eit & Em & Emem & _ & Hupd) | (i & c1 & it & r1 & E & Eit & Em & Hg1 & Hs1 & Hw & Hmi)]];
    rewrite E; cbn [res_bind]; [done | |]; rewrite Eit; cbn [res_bind]; rewrite Em.
  - rewrite Emem. cbn [res_bind]. rewrite He. cbn [res_bind].
    destruct (write_entry 0 (replicate 4 0) _ ltac:(lia) ltac:(vm_compute; discriminate) block_len) as (b1 & W1 & L1 & Q1).
    rewrite Z.add_0_r in W1, Q1. rewrite W1. cbn [res_bind].
    destruct (write_entry 4 (replicate (Z.to_nat DIRSIZE) 0) b1 ltac:(lia) ltac:(vm_compute; discriminate) L1) as (b2 & W2 & L2 & Q2).
    rewrite W2. cbn [res_bind]. destruct (Hupd b2 L2) as (c2 & c3 & -> & E3 & Hg3 & Hs3 & Ho3). cbn [res_bind].
    rewrite E3. cbn [res_bind]. rewrite writeFileInode_loaded. cbn [res_bind change_ends].
    split; [done |]. split; [done |]. split; [intros b Hb'; apply Ho3; by intros -> |].
    left. split; [done |]. split; [done |]. split; [done |].
    eapply (patched c c3 d es k (0, []) blkno); try done.
    + by apply placed_file_ok.
    + split; [done |]. split; [done |]. apply not_elem_of_nil.
    + intros q. rewrite Hs3, Q2, Q1. cbn zeta. fold j. change DIRENT_SIZE with 32. change DIRENTS with 128 in Hj.
      change (dirent_bytes (fst (0, [])) (snd (0, []))) with (replicate 32 0).
      change (Z.to_nat DIRSIZE) with 28%nat. rewrite !length_replicate.
      repeat destruct (decide _); rewrite ?lookup_replicate_2 by lia; try done; lia.
  - cbn. split; [done |]. split; [done |]. split; [by intros b _ |]. right. done.
Qed.

Lemma point_spec newIno pos :
  0 <= newIno < 2 ^ 32 -> getDentryDataBlockPosition (i_no d) name pos = Some (blkno, j) ->
  change_ends (newIno, name) (dentryPointToNewInode newIno dir pos name s isb c r).
Proof.
  intros Hni Hpos. destruct change_facts as (Hb0 & Ho & Hj & Hkl & He). unfold dentryPointToNewInode. fold d.
  rewrite Hpos, (proj2 (Z.gtb_lt _ _)) by done. unfold getBlockForIndex. fold (pba blkno).
  destruct (update_block c (pba blkno) (i_no d) r Hg Ho)
    as [[Hf E] | [(i & c1 & it & E & Eit & Em & Emem & _ & Hupd) | (i & c1 & it & r1 & E & Eit & Em & Hg1 & Hs1 & Hw & Hmi)]];
    rewrite E; cbn [res_bind]; [done | |]; rewrite Eit; cbn [res_bind]; rewrite Em.
  - rewrite Emem. cbn [res_bind]. rewrite He. cbn [res_bind].
    destruct (write_entry 0 (le_split 4 newIno) _ ltac:(lia) ltac:(vm_compute; discriminate) block_len) as (b1 & W1 & L1 & Q1).
    rewrite Z.add_0_r in W1, Q1. rewrite W1. cbn [res_bind].
    destruct (Hupd b1 L1) as (c2 & c3 & -> & E3 & Hg3 & Hs3 & Ho3). cbn [res_bind].
    rewrite E3. cbn [res_bind]. rewrite writeFileInode_loaded. cbn [res_bind change_ends].
    split; [done |]. split; [done |]. split; [intros b Hb'; apply Ho3; by intros -> |].
    left. split; [done |]. split; [done |]. split; [done |].
    destruct (Forall_lookup_1 _ _ _ _ (dd_entries _ _ _ Hd) Hk) as (_ & Hnl & Hn0).
    eapply (patched c c3 d es k (newIno, name) blkno); try done.
    + by apply placed_file_ok.
    + intros q. rewrite Hs3, Q1. cbn zeta. fold j. rewrite length_le_split.
      change (Z.to_nat (j * DIRENT_SIZE)) with (Z.to_nat (Z.of_nat k mod DIRENTS * DIRENT_SIZE)).
      set (o := Z.to_nat (Z.of_nat k mod DIRENTS * DIRENT_SIZE)). unfold dirent_bytes. cbn [fst snd].
      destruct (decide (o <= q < o + 4)%nat), (decide (o <= q < o + 32)%nat); try done; [| lia |].
      * by rewrite lookup_app_l by (rewrite length_le_split; lia).
      * pose proof (entry_bytes c d es k _ blkno (q - o)%nat Hd Hk Hb ltac:(lia)) as Eb. fold o in Eb.
        replace (o + (q - o))%nat with q in Eb by lia. rewrite Eb. unfold dirent_bytes. cbn [fst snd].
        by rewrite !lookup_app_r, !length_le_split by (rewrite length_le_split; lia).
  - cbn. split; [done |]. split; [done |]. split; [by intros b _ |]. right. done.
Qed.

End Change.

(** ** Appending an entry *)

Lemma appended_holds c c' d d' es e :
  dir_data c d es -> entry_ok e -> Layout.size d' = Layout.size d + DIRENT_SIZE ->
  i_block_count d' = Z.of_nat (length es) / DIRENTS + 1 ->
  (forall j, 0 <= j < DIRENT_SIZE -> byte disk c' d' (Layout.size d + j) = dirent_bytes (fst e) (snd e) !! Z.to_nat j) ->
  (forall p, 0 <= p < Layout.size d -> byte disk c' d' p = byte disk c d p) ->
  dir_holds c' d' (es ++ [e]).
Proof.
  intros [A B _ D] He Hsz Hbl Hnew Hold. split.
  - apply Forall_app. split; [done | by apply Forall_singleton].
  - rewrite Hsz, B, length_app. cbn. lia.
  - rewrite Hbl, length_app. change DIRENTS with 128. cbn [length]. Z.to_euclidean_division_equations; lia.
  - intros k e' i Hk Hi. apply lookup_app_Some in Hk as [Hk | [Hle Hk]].
    + pose proof (lookup_lt_Some _ _ _ Hk). rewrite Hold by (rewrite B; change DIRENT_SIZE with 32 in *; lia). by apply D.
    + apply list_lookup_singleton_Some in Hk as [Hk <-].
      replace (Z.of_nat k * DIRENT_SIZE + i) with (Layout.size d + i) by (rewrite B; f_equal; f_equal; lia). by apply Hnew.
Qed.

(** How [appendToDir] ends: the entry is there and its position is known, or a block has to
    be read first, or there is no space. *)
Definition append_ends (dir : InMemInode) (es : list (Z * list Z)) (ino : Z) (name : list Z)
    (pos : positions) (s : FsImpl) (c : cache) (r : FsReq) (out : res (positions * InMemInode * FsImpl * cache * FsReq)) : Prop :=
  let d := inodeData dir in
  match out with
  | Ok (pos', dir', s', c', r') =>
      let d' := inodeData dir' in
      good own disk c' /\ i_no d' = i_no d /\ i_dentry_count d' = i_dentry_count d /\ inodeMap s' = inodeMap s /\
      owned own d' /\ in_place (ext_array d) (ext_array d') /\ others_kept own disk (i_no d) c c' /\
      ((dir_holds c' d' (es ++ [(ino, name)]) /\ inode_ok d' /\ placed d' /\ alloc_ready s' /\
        numTotalPendingIoReq r' = 0 /\
        exists blkno, block_at d' (Z.of_nat (length es) / DIRENTS) = Some blkno /\
          pos' = addDentryDataBlockPosition (i_no d) name blkno (Z.of_nat (length es) mod DIRENTS) pos) \/
       (dir_data c' d' es /\ inode_ok d' /\ placed d' /\ alloc_ready s' /\ 0 < numTotalPendingIoReq r') \/
       (Layout.size d' = Layout.size d /\ c' = c /\ r' = r /\
        out_of_space (blocks_for (Layout.size d + DIRENT_SIZE)) s dir' (bmapBlockBuf s')))
  | Crash f => f = AssertFail /\ write_stuck own dir (Layout.size d) DIRENT_SIZE s c r
  end.

Lemma append_written c d es src buf r :
  dir_data c d es -> src ∉ blockIoDoneMap r -> 
  written disk d src buf (Layout.size d) DIRENT_SIZE c (Layout.size d) r.
Proof.
  intros Hd Hsrc t Ht Hst Hin. exfalso. rewrite (dd_size _ _ _ Hd) in Hst. destruct Hst as [-> | Hst].
  - rewrite Z.add_0_r in Hin. done.
  - change DIRENT_SIZE with 32 in *. change BSIZE with 4096 in *.
    assert (t = 0) by (Z.to_euclidean_division_equations; lia). subst t. rewrite Z.add_0_r in Hin. done.
Qed.

Lemma append_spec dir es ino name pos src first s c r :
  let d := inodeData dir in
  inode_ok d -> placed d -> alloc_ready s -> good own disk c -> dir_data c d es -> entry_ok (ino, name) ->
  Z.of_nat (length es) < 2 ^ 36 -> numTotalPendingIoReq r = 0 -> src ∉ blockIoDoneMap r ->
  (forall v dir1 s1 r1, writeInodeAllocDataBlock dir (Layout.size d) DIRENT_SIZE s r = Ok (v, dir1, s1, r1) ->
     owned own (inodeData dir1)) ->
  append_ends dir es ino name pos s c r (appendToDir dir ino pos name src first s c r).
Proof.
  intros d Hi Hpl Hs Hg Hd He H36 Hpend Hsrc Hown. pose proof Hd as [_ Hsz Hbl _].
  assert (Hlen : Z.of_nat (length (dirent_bytes ino name)) = DIRENT_SIZE) by (by rewrite length_dirent_bytes).
  assert (Hbf : blocks_for (Layout.size d + DIRENT_SIZE) = Z.of_nat (length es) / DIRENTS + 1).
  { unfold blocks_for. rewrite Hsz. change BSIZE with 4096. change DIRENTS with 128. change DIRENT_SIZE with 32.
    clear. Z.to_euclidean_division_equations; lia. }
  assert (Hszb : Layout.size d <= i_block_count d * BSIZE).
  { rewrite Hsz. change BSIZE with 4096. change DIRENTS with 128 in Hbl. change DIRENT_SIZE with 32.
    revert Hbl. clear. Z.to_euclidean_division_equations; lia. }
  pose proof (writeAndSave_spec own disk Hdisk dir src (dirent_bytes ino name) (Layout.size d) first s c r) as H.
  cbn zeta in H. rewrite Hlen in H. fold d in H.
  specialize (H Hi Hpl Hs Hg ltac:(rewrite Hsz; change DIRENT_SIZE with 32; lia) ltac:(done)
    ltac:(rewrite Hsz; change DIRENT_SIZE with 32; lia) Hszb ltac:(right; rewrite Hbf; apply Hbl) Hpend
    (append_written _ _ _ _ _ _ Hd Hsrc) Hown).
  unfold appendToDir. fold d.
  destruct (writeInodeAndSaveDataBlockInfo _ _ _ _ _ _ _ _ _) as [[[[[[v [blkno off]] dir'] s'] c'] r'] | f] eqn:E.
  2: { cbn [res_bind write_result append_ends] in *. by rewrite Hlen in H. }
  apply saved_position in E; try done;
    [| fold d; rewrite Hsz; change DIRENT_SIZE with 32; lia
     | rewrite Hsz; change DIRENT_SIZE with 32; change BSIZE with 4096; Z.to_euclidean_division_equations; lia
     | rewrite Hsz; change DIRENT_SIZE with 32; lia | right; rewrite Hbf; apply Hbl].
  cbn [res_bind] in *. cbn [write_result append_ends] in *. rewrite Hlen in H. fold d in H |- *. fold d in E.
  assert (Hdiv : Layout.size d / BSIZE = Z.of_nat (length es) / DIRENTS /\
    Layout.size d mod BSIZE / DIRENT_SIZE = Z.of_nat (length es) mod DIRENTS).
  { rewrite Hsz. change BSIZE with 4096. change DIRENTS with 128. change DIRENT_SIZE with 32. clear.
    split; Z.to_euclidean_division_equations; lia. }
  destruct Hdiv as [Hdiv Hmod]. destruct H as (Hg' & Eno & Hcnt' & Him & Ho' & Hip & Hoth & H). do 7 (split; [done |]).
  destruct H as [(-> & Hi' & Hp' & Hs' & Hsz' & Hc' & Eb & Es & Ez & Hj & Hkeep) | [(-> & Hpos & Hi' & Hp' & Hs' & Hsz' & Hc' & _ & Hz & Hkeep) | (-> & -> & -> & Ez & _ & Hout)]].
  - left. destruct E as [[_ E] | [[? _] | ?]]; [| done..]. injection E as -> ->. rewrite Hdiv, Hmod.
    assert (Hcnt : i_block_count (inodeData dir') = Z.of_nat (length es) / DIRENTS + 1).
    { rewrite Hbf in Hc'. rewrite Ez, Z.max_r in Hsz' by (change DIRENT_SIZE with 32; lia).
      rewrite Hsz in Hsz'. change BSIZE with 4096 in *. change DIRENTS with 128 in *. change DIRENT_SIZE with 32 in *.
      revert Hc' Hsz' Hbl. clear. intros. Z.to_euclidean_division_equations; lia. }
    split; [| split; [done |]; split; [done |]; split; [done |]; split].
    + eapply (appended_holds c); try done; [rewrite Ez; change DIRENT_SIZE with 32; lia |].
      intros p Hp. apply Hkeep; [done | lia].
    + unfold numTotalPendingIoReq in *. by rewrite Eb, Es.
    + destruct (block_at_position (inodeData dir') (Z.of_nat (length es) / DIRENTS) Hi' Hp')
        as (e & ins & x & w & _ & _ & _ & _ & _ & _ & _ & Eb'); [rewrite Hcnt; split; [apply Z.div_pos; [lia | done] | lia] |].
      rewrite Eb'. cbn. eauto.
  - right. left. destruct E as [[? _] | [[_ Ez] | ?]]; [done | | done].
    split; [| done]. destruct Hd as [A B C D]. split; [done | by rewrite Ez | |].
    + rewrite Hbf in Hc'. lia.
    + intros k e i Hk Hir. rewrite Hkeep; [by apply D | | rewrite B; change DIRENT_SIZE with 32 in *; pose proof (lookup_lt_Some _ _ _ Hk); lia].
      rewrite B. change DIRENT_SIZE with 32 in *. pose proof (lookup_lt_Some _ _ _ Hk). lia.
  - right. right. done.
Qed.

End Spec.

(** ** Directories as maps from names to inodes *)

(** The inode of the first entry in use with the name. *)
Definition dir_lookup (es : list (Z * list Z)) (name : list Z) : option Z :=
  (fun x => fst (snd x)) <$> list_find (names name) es.

(** No name is used twice. *)
Definition distinct (es : list (Z * list Z)) : Prop :=
  forall k k' e e', es !! k = Some e -> es !! k' = Some e' -> 0 < fst e -> 0 < fst e' -> snd e = snd e' -> k = k'.

Lemma dir_lookup_some es name i :
  distinct es -> dir_lookup es name = Some i <-> 0 < i /\ exists k, es !! k = Some (i, name).
Proof.
  intros Hd. unfold dir_lookup. split.
  - destruct (list_find _ es) as [[k [i' n']] |] eqn:E; [| done]. intros [= <-]. cbn.
    apply list_find_Some in E as (Hk & [Hp Hn] & _). cbn in *. subst n'. eauto.
  - intros [Hi [k Hk]]. destruct (list_find (names name) es) as [[k' [i' n']] |] eqn:E.
    + apply list_find_Some in E as (Hk' & [Hp Hn] & _). cbn in *. subst n'.
      assert (k = k') as -> by (eapply (Hd _ _ _ _ Hk Hk'); done). cbn. congruence.
    + apply list_find_None in E. by apply (Forall_lookup_1 _ _ _ _ E) in Hk as [].
Qed.

Lemma dir_lookup_none es name :
  distinct es -> dir_lookup es name = None <-> forall k i, es !! k = Some (i, name) -> ~ 0 < i.
Proof.
  intros Hd. rewrite eq_None_not_Some. split.
  - intros H k i Hk Hi. apply H. exists i. apply dir_lookup_some; eauto.
  - intros H [i [Hi [k Hk]]%dir_lookup_some]; [by eapply H | done].
Qed.

(** Two lists of entries agree on the names for which they have the same entries in use. *)
Lemma dir_lookup_ext es es' name :
  distinct es -> distinct es' ->
  (forall i, 0 < i -> (exists k, es !! k = Some (i, name)) <-> exists k, es' !! k = Some (i, name)) ->
  dir_lookup es name = dir_lookup es' name.
Proof.
  intros Hd Hd' H. apply option_eq. intros i. rewrite !dir_lookup_some by done. naive_solver.
Qed.

Lemma distinct_append es ino name : distinct es -> dir_lookup es name = None -> distinct (es ++ [(ino, name)]).
Proof.
  intros Hd Hn. pose proof (proj1 (dir_lookup_none _ _ Hd) Hn) as Hf.
  intros k k' [i n] [i' n'] Hk Hk' Hi Hi' E. cbn in *. subst n'.
  apply lookup_app_Some in Hk as [Hk | [? [Hk E1]%list_lookup_singleton_Some]],
    Hk' as [Hk' | [? [Hk' E2]%list_lookup_singleton_Some]]; simplify_eq.
  - by eapply Hd.
  - by apply Hf in Hk.
  - by apply Hf in Hk'.
  - lia.
Qed.

Lemma lookup_appended es ino name n :
  distinct es -> dir_lookup es name = None -> 0 < ino ->
  dir_lookup (es ++ [(ino, name)]) n = if decide (n = name) then Some ino else dir_lookup es n.
Proof.
  intros Hd Hn Hi. pose proof (distinct_append es ino name Hd Hn) as Hd'. destruct (decide (n = name)) as [-> | Hne].
  - apply dir_lookup_some; [done |]. split; [done |]. exists (length es). rewrite lookup_app_r by lia. by rewrite Nat.sub_diag.
  - apply dir_lookup_ext; [done.. |]. intros i Hip. split.
    + intros [k [Hk | [? [_ E]%list_lookup_singleton_Some]]%lookup_app_Some]; [eauto | congruence].
    + intros [k Hk]. exists k. by apply lookup_app_l_Some.
Qed.

(** Entry [k] of name [name] becomes [e'], which has no other name. *)
Lemma distinct_changed es k i name e' :
  distinct es -> es !! k = Some (i, name) -> 0 < i -> (0 < fst e' -> snd e' = name) -> distinct (<[k := e']> es).
Proof.
  intros Hd Hk Hi He' k1 k2 e1 e2 H1 H2 P1 P2 E.
  apply list_lookup_insert_Some in H1 as [(<- & <- & _) | [N1 H1]], H2 as [(<- & <- & _) | [N2 H2]]; [done | | | by eapply Hd].
  - eapply (Hd k k2 _ _ Hk H2); [done | done |]. cbn. rewrite <- E. symmetry. by apply He'.
  - eapply (Hd k1 k _ _ H1 Hk); [done | done |]. cbn. rewrite E. by apply He'.
Qed.

Lemma lookup_changed es k i name e' n :
  distinct es -> es !! k = Some (i, name) -> 0 < i -> (0 < fst e' -> snd e' = name) ->
  dir_lookup (<[k := e']> es) n =
    if decide (n = name) then (if decide (0 < fst e') then Some (fst e') else None) else dir_lookup es n.
Proof.
  intros Hd Hk Hi He'. pose proof (distinct_changed _ _ _ _ _ Hd Hk Hi He') as Hd'.
  pose proof (lookup_lt_Some _ _ _ Hk) as Hl. destruct (decide (n = name)) as [-> | Hne].
  - destruct (decide (0 < fst e')) as [Hp | Hp].
    + apply dir_lookup_some; [done |]. split; [done |]. exists k. rewrite list_lookup_insert_eq by done.
      destruct e'. f_equal. f_equal. by apply He'.
    + apply dir_lookup_none; [done |]. intros k2 i2 [(<- & -> & _) | [N2 H2]]%list_lookup_insert_Some; [done |].
      intros Hi2. apply N2. by eapply (Hd k k2 _ _ Hk H2).
  - apply dir_lookup_ext; [done.. |]. intros i2 Hi2. split.
    + intros [k2 [(<- & -> & _) | [N2 H2]]%list_lookup_insert_Some]; [| eauto]. destruct Hne. by apply He'.
    + intros [k2 H2]. exists k2. rewrite list_lookup_insert_ne; [done |]. intros <-. congruence.
Qed.

(** ** Properties *)

(** C16. [lookupDir] on a directory with the entries [es], with the cache in any state: it
    returns the inode of the name, or an error exactly when no entry in use has the name,
    or it waits for a block of the directory.  No block changes its contents.  It fails
    only when every slot of the cache has a block that is dirty or being read. *)
Theorem lookupDir_correct (cfg : ExtentConfig) (Hal : AlignedConfig cfg) own disk dir es name c r :
  let d := inodeData dir in
  (forall b, Z.of_nat (length (disk b)) = BSIZE) ->
  inode_ok d -> placed d -> owned own d -> good own disk c -> dir_holds disk c d es ->
  match lookupDir dir name c r with
  | Ok (inum, error, c', r') => good own disk c' /\ same_contents disk c c' /\
      ((error = false /\ 0 < inum /\ dir_lookup es name = Some inum /\ r' = r) \/
       (error = true /\ inum = 0 /\ dir_lookup es name = None /\ r' = r) \/
       (error = false /\ inum = 0 /\ waiting r r'))
  | Crash f => f = AssertFail /\ no_room own BSIZE (fun _ => False) c
  end.
Proof.
  intros d Hdisk Hi Hpl Hown Hg Hd. unfold lookupDir.
  pose proof (lookup_spec own disk Hdisk dir es name c r Hi Hpl Hown Hg Hd) as H.
  destruct (lookupDirDentry _ _ _ _) as [[[e c'] r'] | f]; [| exact H]. cbn [res_bind].
  destruct H as (Hg' & Hs' & H). split; [done |]. split; [done |]. unfold dir_lookup. destruct e as [inum blkno j | |].
  - left. destruct H as (k & Hf & _ & _ & ->). rewrite Hf. apply list_find_Some in Hf as (_ & [Hp _] & _). done.
  - right. right. done.
  - right. left. destruct H as [-> ->]. done.
Qed.

(** C17. [appendToDir] of a name that the directory does not have: it then has the name,
    with the given inode, and every other name as before, and the position that is
    remembered for [removeFromDir] is that of the new entry; or the call waits for a block
    and the directory has the entries it had; or it returns without having written the entry,
    and size, cache and request are as before: the directory would need more blocks than a
    file can have, or the next extent is empty and the search met no free unit for it.  The
    blocks of other files and directories are as before.  It fails only when no slot of a
    cache can be replaced. *)
Theorem appendToDir_correct (cfg : ExtentConfig) (Hal : AlignedConfig cfg) own disk
    dir es ino name pos src first s c r :
  let d := inodeData dir in
  (forall b, Z.of_nat (length (disk b)) = BSIZE) ->
  inode_ok d -> placed d -> alloc_ready s -> good own disk c -> dir_data disk c d es ->
  distinct es -> dir_lookup es name = None -> 0 < ino -> entry_ok (ino, name) ->
  Z.of_nat (length es) < 2 ^ 36 -> numTotalPendingIoReq r = 0 -> src ∉ blockIoDoneMap r ->
  (forall v dir1 s1 r1, writeInodeAllocDataBlock dir (Layout.size d) DIRENT_SIZE s r = Ok (v, dir1, s1, r1) ->
     owned own (inodeData dir1)) ->
  match appendToDir dir ino pos name src first s c r with
  | Ok (pos', dir', s', c', r') =>
      let d' := inodeData dir' in
      good own disk c' /\ i_no d' = i_no d /\ others_kept own disk (i_no d) c c' /\
      ((inode_ok d' /\ placed d' /\ alloc_ready s' /\ numTotalPendingIoReq r' = 0 /\
        exists es' k blkno, dir_holds disk c' d' es' /\ distinct es' /\
          (forall n, dir_lookup es' n = if decide (n = name) then Some ino else dir_lookup es n) /\
          es' !! k = Some (ino, name) /\ block_at d' (Z.of_nat k / DIRENTS) = Some blkno /\
          getDentryDataBlockPosition (i_no d) name pos' = Some (blkno, Z.of_nat k mod DIRENTS)) \/
       (inode_ok d' /\ placed d' /\ alloc_ready s' /\ 0 < numTotalPendingIoReq r' /\ dir_data disk c' d' es) \/
       (Layout.size d' = Layout.size d /\ c' = c /\ r' = r /\
        out_of_space (blocks_for (Layout.size d + DIRENT_SIZE)) s dir' (bmapBlockBuf s')))
  | Crash f => f = AssertFail /\ write_stuck own dir (Layout.size d) DIRENT_SIZE s c r
  end.
Proof.
  intros d Hdisk Hi Hpl Hs Hg Hd Hdis Hnone Hino He H36 Hpend Hsrc Hown.
  pose proof (append_spec own disk Hdisk dir es ino name pos src first s c r Hi Hpl Hs Hg Hd He H36 Hpend Hsrc Hown) as H.
  destruct (appendToDir _ _ _ _ _ _ _ _ _) as [[[[[pos' dir'] s'] c'] r'] | f]; [| exact H].
  destruct H as (Hg' & Eno & _ & _ & _ & _ & Hoth & H). do 3 (split; [done |]).
  destruct H as [(Hh & Hi' & Hp' & Hs' & Hr & blkno & Hb & ->) | [(? & ? & ? & ? & ?) | H]]; [left | by right; left | by right; right].
  split; [done |]. split; [done |]. split; [done |]. split; [done |].
  exists (es ++ [(ino, name)]), (length es), blkno. split; [done |]. split; [by apply distinct_append |].
  split; [intros n; by apply lookup_appended |].
  split; [by rewrite lookup_app_r, Nat.sub_diag by done |]. split; [done |].
  unfold getDentryDataBlockPosition, addDentryDataBlockPosition. apply lookup_insert_eq.
Qed.

(** C18. [removeFromDir] of a name at the position that is remembered for it: the directory
    no longer has the name and has every other name as before, its inode is dirty and the
    position is forgotten; or the call waits for the block of the entry and nothing
    changed. *)
Theorem removeFromDir_correct (cfg : ExtentConfig) (Hal : AlignedConfig cfg) own disk
    dir es k inum name blkno pos s isb c r :
  let d := inodeData dir in
  (forall b, Z.of_nat (length (disk b)) = BSIZE) ->
  inode_ok d -> placed d -> owned own d -> good own disk c -> dir_holds disk c d es -> distinct es ->
  es !! k = Some (inum, name) -> 0 < inum -> block_at d (Z.of_nat k / DIRENTS) = Some blkno ->
  getDentryDataBlockPosition (i_no d) name pos = Some (blkno, Z.of_nat k mod DIRENTS) -> i_no d ∈ inodeMap s ->
  match removeFromDir dir pos name s isb c r with
  | Ok (v, pos', s', isb', c', r') => good own disk c' /\ isb' = isb /\ others_kept own disk (i_no d) c c' /\
      ((v = 0 /\ r' = r /\ getDentryDataBlockPosition (i_no d) name pos' = None /\ i_no d ∈ dirtyInodeSet s' /\
        exists es', dir_holds disk c' d es' /\ distinct es' /\
          forall n, dir_lookup es' n = if decide (n = name) then None else dir_lookup es n) \/
       (v = -1 /\ pos' = pos /\ s' = s /\ same_contents disk c c' /\ waiting r r'))
  | Crash f => f = AssertFail /\ full c
  end.
Proof.
  intros d Hdisk Hi Hpl Hown Hg Hd Hdis Hk Hin Hb Hpos Hl. unfold removeFromDir. fold d. rewrite Hpos.
  pose proof (remove_at_spec own disk Hdisk dir es k inum name blkno s isb c r Hi Hpl Hown Hg (holds_data _ _ _ _ Hd) Hk Hin Hb Hl) as H.
  destruct (remove_at _ _ _ _ _ _ _ _) as [[[[[v s'] isb'] c'] r'] | f]; [| exact H]. cbn [res_bind].
  destruct H as (Hg' & -> & Hoth & [(-> & -> & -> & Hh) | (-> & -> & Hs' & Hw & _)]).
  - cbn [Z.eqb]. unfold delDentryDataBlockPosition. unfold getDentryDataBlockPosition in *. rewrite Hpos. cbn [res_bind].
    do 3 (split; [done |]). left. split; [done |]. split; [done |]. split; [apply lookup_delete_eq |].
    split; [cbn; set_solver |]. exists (<[k := (0, [])]> es). split; [by eapply changed_holds |].
    split; [by eapply distinct_changed |]. intros n. by rewrite (lookup_changed es k inum name).
  - cbn. do 3 (split; [done |]). by right.
Qed.

(** [dentryPointToNewInode] at the position that is remembered for a name: the name has
    the new inode and every other name is as before; or the call waits for the block of
    the entry and nothing changed. *)
Theorem dentryPointToNewInode_correct (cfg : ExtentConfig) (Hal : AlignedConfig cfg) own disk
    newIno dir es k inum name blkno pos s isb c r :
  let d := inodeData dir in
  (forall b, Z.of_nat (length (disk b)) = BSIZE) ->
  inode_ok d -> placed d -> owned own d -> good own disk c -> dir_holds disk c d es -> distinct es ->
  es !! k = Some (inum, name) -> 0 < inum -> block_at d (Z.of_nat k / DIRENTS) = Some blkno ->
  getDentryDataBlockPosition (i_no d) name pos = Some (blkno, Z.of_nat k mod DIRENTS) -> i_no d ∈ inodeMap s ->
  0 < newIno < 2 ^ 32 ->
  match dentryPointToNewInode newIno dir pos name s isb c r with
  | Ok (v, s', isb', c', r') => good own disk c' /\ isb' = isb /\ others_kept own disk (i_no d) c c' /\
      ((v = 0 /\ r' = r /\ i_no d ∈ dirtyInodeSet s' /\
        exists es', dir_holds disk c' d es' /\ distinct es' /\
          forall n, dir_lookup es' n = if decide (n = name) then Some newIno else dir_lookup es n) \/
       (v = -1 /\ s' = s /\ same_contents disk c c' /\ waiting r r'))
  | Crash f => f = AssertFail /\ full c
  end.
Proof.
  intros d Hdisk Hi Hpl Hown Hg Hd Hdis Hk Hin Hb Hpos Hl Hni.
  pose proof (point_spec own disk Hdisk dir es k inum name blkno s isb c r Hi Hpl Hown Hg (holds_data _ _ _ _ Hd) Hk Hin Hb Hl newIno pos
    ltac:(lia) Hpos) as H.
  destruct (dentryPointToNewInode _ _ _ _ _ _ _ _) as [[[[[v s'] isb'] c'] r'] | f]; [| exact H].
  destruct H as (Hg' & -> & Hoth & [(-> & -> & -> & Hh) | (-> & -> & Hs' & Hw & _)]).
  - do 3 (split; [done |]). left. split; [done |]. split; [done |].
    split; [cbn; set_solver |]. exists (<[k := (newIno, name)]> es). split; [by eapply changed_holds |].
    split; [by eapply distinct_changed |]. intros n. rewrite (lookup_changed es k inum name) by done.
    by rewrite (decide_True (P := 0 < fst (newIno, name))) by (cbn; lia).
  - do 3 (split; [done |]). by right.
Qed.

(** ** Examples *)

(** A new directory, a first entry in it, and the state after that. *)
Definition ex_name : list Z := [97; 98].
Definition ex_append : res (positions * InMemInode * FsImpl * cache * FsReq) :=
  appendToDir (cfg := cfg_default) ex_inode 9 ∅ ex_name 1000 (0, 0) ex_worker (new_cache 4 BSIZE) ex_req.

Lemma ex_append_eq :
  ex_append = appendToDir (cfg := cfg_default) ex_inode 9 ∅ ex_name 1000 (0, 0) ex_worker (new_cache 4 BSIZE) ex_req.
Proof. done. Qed.

Lemma ex_empty_dir : dir_data (cfg := cfg_default) ex_disk (new_cache 4 BSIZE) (inodeData ex_inode) [].
Proof. split; [done | done | by_compute | done]. Qed.

Lemma ex_dir_owned v dir1 s1 r1 :
  writeInodeAllocDataBlock (cfg := cfg_default) ex_inode (Layout.size (inodeData ex_inode)) DIRENT_SIZE
    ex_worker ex_req = Ok (v, dir1, s1, r1) ->
  owned (cfg := cfg_default) ex_own (inodeData dir1).
Proof.
  intros E k n _ _. pose proof (alloc_for_write ex_inode 0 32 ex_worker ex_req ex_inode_ok ex_inode_placed
    ex_worker_ready ltac:(by_compute) ltac:(by_compute) ltac:(by_compute) ltac:(by_compute)
    ltac:(right; by_compute)) as H.
  change (Layout.size (inodeData ex_inode)) with 0 in E. change DIRENT_SIZE with 32 in E.
  rewrite E in H. destruct H as ([-> _]%same_inode_fields & _). done.
Qed.

Lemma ex_entry_ok : entry_ok (9, ex_name).
Proof. split; [by_compute |]. split; [by_compute |]. cbn. set_solver. Qed.

Lemma ex_distinct : distinct [].
Proof. intros k k' e e' Hk. by rewrite lookup_nil in Hk. Qed.

Lemma appendToDir_correct_witness :
  match ex_append with
  | Ok (pos', dir', s', c', r') =>
      exists es' k blkno, dir_holds (cfg := cfg_default) ex_disk c' (inodeData dir') es' /\ distinct es' /\
        dir_lookup es' ex_name = Some 9 /\ es' !! k = Some (9, ex_name) /\
        block_at (cfg := cfg_default) (inodeData dir') (Z.of_nat k / DIRENTS) = Some blkno /\
        getDentryDataBlockPosition 7 ex_name pos' = Some (blkno, Z.of_nat k mod DIRENTS) /\
        inode_ok (cfg := cfg_default) (inodeData dir') /\ placed (cfg := cfg_default) (inodeData dir') /\
        good ex_own ex_disk c' /\ i_no (inodeData dir') = 7
  | Crash _ => False
  end.
Proof.
  assert (Hv : match ex_append with Ok (_, dir', _, _, r') => Layout.size (inodeData dir') = 32 /\ numTotalPendingIoReq r' = 0 | Crash _ => False end)
    by by vm_compute.
  pose proof (appendToDir_correct cfg_default default_aligned ex_own ex_disk ex_inode [] 9 ex_name ∅ 1000 (0, 0)
    ex_worker (new_cache 4 BSIZE) ex_req ex_disk_ok ex_inode_ok ex_inode_placed ex_worker_ready ex_data_good ex_empty_dir
    ex_distinct eq_refl ltac:(lia) ex_entry_ok ltac:(by_compute) ltac:(by_compute) ltac:(apply not_elem_of_empty) ex_dir_owned) as H.
  rewrite <- ex_append_eq in H. destruct ex_append as [[[[[pos' dir'] s'] c'] r'] | f]; [| done].
  destruct Hv as [Hv1 Hv2]. destruct H as (Hg & Eno & _ & [H | [(_ & _ & _ & ? & _) | (Hz & _)]]); [| lia | by rewrite Hv1 in Hz].
  destruct H as (Hi & Hp & _ & _ & es' & k & blkno & Hh & Hd & Hl & Hk & Hb & Hpos).
  exists es', k, blkno. split; [done |]. split; [done |]. split; [by rewrite Hl, decide_True |].
  repeat (split; [done |]). exact Eno.
Defined.

Lemma ex_append_done :
  exists pos1 dir1 s1 c1 r1 blkno, ex_append = Ok (pos1, dir1, s1, c1, r1) /\
    dir_holds (cfg := cfg_default) ex_disk c1 (inodeData dir1) [(9, ex_name)] /\
    inode_ok (cfg := cfg_default) (inodeData dir1) /\ placed (cfg := cfg_default) (inodeData dir1) /\
    owned (cfg := cfg_default) ex_own (inodeData dir1) /\ good ex_own ex_disk c1 /\ i_no (inodeData dir1) = 7 /\
    block_at (cfg := cfg_default) (inodeData dir1) (Z.of_nat 0 / DIRENTS) = Some blkno /\
    getDentryDataBlockPosition 7 ex_name pos1 = Some (blkno, Z.of_nat 0 mod DIRENTS) /\ alloc_ready s1.
Proof.
  assert (Hv : match ex_append with Ok (_, dir', _, _, r') => Layout.size (inodeData dir') = 32 /\ numTotalPendingIoReq r' = 0 | Crash _ => False end)
    by by vm_compute.
  pose proof (append_spec ex_own ex_disk ex_disk_ok ex_inode [] 9 ex_name ∅ 1000 (0, 0) ex_worker (new_cache 4 BSIZE) ex_req
    ex_inode_ok ex_inode_placed ex_worker_ready ex_data_good ex_empty_dir ex_entry_ok ltac:(by_compute) ltac:(by_compute)
    ltac:(apply not_elem_of_empty) ex_dir_owned) as H.
  rewrite <- ex_append_eq in H. destruct ex_append as [[[[[pos' dir'] s'] c'] r'] | f]; [| done].
  destruct Hv as [Hv1 Hv2]. destruct H as (Hg & Eno & _ & _ & _ & _ & _ & [H | [(_ & _ & _ & _ & ?) | (Hz & _)]]); [| lia | by rewrite Hv1 in Hz].
  destruct H as (Hh & Hi & Hp & Hs & _ & blkno & Hb & ->). eexists _, dir', s', c', r', blkno. split; [done |].
  split; [done |]. split; [done |]. split; [done |]. split; [intros k n _ _; by rewrite Eno |]. split; [done |].
  split; [done |]. split; [done |]. split; [apply lookup_insert_eq | done].
Qed.

Lemma ex_one_distinct : distinct [(9, ex_name)].
Proof.
  intros k k' e e' Hk Hk'. apply list_lookup_singleton_Some in Hk as [-> _], Hk' as [-> _]. done.
Qed.

Lemma lookupDir_correct_witness :
  match ex_append with
  | Ok (_, dir1, _, c1, _) =>
      match lookupDir dir1 ex_name c1 ex_req, lookupDir dir1 [98] c1 ex_req with
      | Ok (inum, error, _, _), Ok (_, error', _, _) => inum = 9 /\ error = false /\ error' = true
      | _, _ => False
      end
  | Crash _ => False
  end.
Proof.
  assert (Hv : match ex_append with
    | Ok (_, dir1, _, c1, _) =>
        match lookupDir dir1 ex_name c1 ex_req, lookupDir dir1 [98] c1 ex_req with
        | Ok (inum, error, _, _), Ok (_, error', _, _) => 0 < inum /\ error' = true | _, _ => False end
    | Crash _ => False end) by by vm_compute.
  destruct ex_append_done as (pos1 & dir1 & s1 & c1 & r1 & blkno & E & Hh & Hi & Hp & Ho & Hg & _).
  rewrite E in *.
  pose proof (lookupDir_correct cfg_default default_aligned ex_own ex_disk dir1 _ ex_name c1 ex_req ex_disk_ok Hi Hp Ho Hg Hh) as H.
  destruct (lookupDir dir1 ex_name c1 ex_req) as [[[[inum error] c2] r2] | f]; [| done].
  destruct (lookupDir dir1 [98] c1 ex_req) as [[[[inum' error'] c3] r3] | f]; [| done].
  destruct H as (_ & _ & [(-> & _ & [= <-] & _) | [(_ & ? & _) | (_ & ? & _)]]); [| lia..]. by destruct Hv as [_ ->].
Defined.

Lemma removeFromDir_correct_witness :
  match ex_append with
  | Ok (pos1, dir1, s1, c1, _) =>
      match removeFromDir dir1 pos1 ex_name (set_inodes ∅ {[7]} s1) c1 c1 ex_req with
      | Ok (v, pos2, s2, _, c2, _) => v = 0 /\ getDentryDataBlockPosition 7 ex_name pos2 = None /\ 7 ∈ dirtyInodeSet s2 /\
          exists es', dir_holds (cfg := cfg_default) ex_disk c2 (inodeData dir1) es' /\ dir_lookup es' ex_name = None
      | Crash _ => False
      end
  | Crash _ => False
  end.
Proof.
  assert (Hv : match ex_append with
    | Ok (pos1, dir1, s1, c1, _) =>
        match removeFromDir dir1 pos1 ex_name (set_inodes ∅ {[7]} s1) c1 c1 ex_req with
        | Ok (v, _, _, _, _, _) => v = 0 | Crash _ => False end
    | Crash _ => False end) by by vm_compute.
  destruct ex_append_done as (pos1 & dir1 & s1 & c1 & r1 & blkno & E & Hh & Hi & Hp & Ho & Hg & Eno & Hb & Hpos & _).
  rewrite E in *.
  pose proof (removeFromDir_correct cfg_default default_aligned ex_own ex_disk dir1 _ 0 9 ex_name blkno pos1
    (set_inodes ∅ {[7]} s1) c1 c1 ex_req ex_disk_ok Hi Hp Ho Hg Hh ex_one_distinct eq_refl ltac:(lia) Hb) as H.
  rewrite Eno in H. specialize (H Hpos ltac:(cbn; set_solver)).
  destruct (removeFromDir _ _ _ _ _ _ _) as [[[[[[v pos2] s2] isb2] c2] r2] | f]; [| done].
  destruct H as (_ & _ & _ & [(_ & _ & Hn & Hin & es' & Hh' & _ & Hl) | (Hm & _)]); [| by rewrite Hv in Hm].
  split; [done |]. split; [done |]. split; [done |]. exists es'. split; [done |]. by rewrite Hl, decide_True.
Defined.

Lemma dentryPointToNewInode_correct_witness :
  match ex_append with
  | Ok (pos1, dir1, s1, c1, _) =>
      match dentryPointToNewInode 12 dir1 pos1 ex_name (set_inodes ∅ {[7]} s1) c1 c1 ex_req with
      | Ok (v, _, _, c2, _) => v = 0 /\
          exists es', dir_holds (cfg := cfg_default) ex_disk c2 (inodeData dir1) es' /\ dir_lookup es' ex_name = Some 12
      | Crash _ => False
      end
  | Crash _ => False
  end.
Proof.
  assert (Hv : match ex_append with
    | Ok (pos1, dir1, s1, c1, _) =>
        match dentryPointToNewInode 12 dir1 pos1 ex_name (set_inodes ∅ {[7]} s1) c1 c1 ex_req with
        | Ok (v, _, _, _, _) => v = 0 | Crash _ => False end
    | Crash _ => False end) by by vm_compute.
  destruct ex_append_done as (pos1 & dir1 & s1 & c1 & r1 & blkno & E & Hh & Hi & Hp & Ho & Hg & Eno & Hb & Hpos & _).
  rewrite E in *.
  pose proof (dentryPointToNewInode_correct cfg_default default_aligned ex_own ex_disk 12 dir1 _ 0 9 ex_name blkno pos1
    (set_inodes ∅ {[7]} s1) c1 c1 ex_req ex_disk_ok Hi Hp Ho Hg Hh ex_one_distinct eq_refl ltac:(lia) Hb) as H.
  rewrite Eno in H. specialize (H Hpos ltac:(cbn; set_solver) ltac:(lia)).
  destruct (dentryPointToNewInode _ _ _ _ _ _ _ _) as [[[[[v s2] isb2] c2] r2] | f]; [| done].
  destruct H as (_ & _ & _ & [(_ & _ & _ & es' & Hh' & _ & Hl) | (Hm & _)]); [| by rewrite Hv in Hm].
  split; [done |]. exists es'. split; [done |]. by rewrite Hl, decide_True.
Defined.

End Directory.
