(* ===== verification/Rename.v ===== *)
(** Rename.  The transaction at the end of a rename request: the directories, the positions
    of entries that the inodes remember, and the cache of paths are changed together.

    Modelled from FsProc_FileMngOps.cc ([RenameOp::ModifyDirEntries] with its two helpers) and
    FsProc_FsImpl.h ([adjustDentryCount]), on top of the operations on directories
    ([Directory]) and on the cache of paths ([PathCache]).  The inodes that the request has
    looked up are given by their addresses, so that the two directories may be the same.  The
    theorems show that a rename moves the name, in the directories and in the cache, and
    changes no other directory; and what happens when a block is not in memory or the device
    is full. *)

From Stdlib Require Import ZArith List Bool Lia Ascii.
From stdpp Require Import base gmap list strings.
From S2P Require Import Prelude Unordered Layout Codec InodeLog BlockBuf FsCache Alloc Ownership DataPath Directory PathCache.
Import ListNotations.
Open Scope Z_scope.

Module Rename.
Import PathCache Layout FsCache Alloc DataPath Directory.

(** The bytes of a name. *)
Definition to_bytes (s : string) : list Z := (fun a => Z.of_nat (nat_of_ascii a)) <$> String.list_ascii_of_string s.

Definition adjustDentryCount (delta : Z) (i : InMemInode) : InMemInode :=
  let n := (i_dentry_count (inodeData i) + delta) mod 2 ^ 16 in
  mk_inode (InodeLog.direct_set (InodeLog.SetDentryCount n) (inodeData i))
    (InodeLog.set_field (InodeLog.SetDentryCount n) (logEntry i)).

(** What the request knows when the transaction begins: the addresses of the inodes, the
    maps of the two directories in the cache of paths, and the names. *)
Record rename_req : Type := mk_rename {
  dirInode : Z;
  targetInode : Z;
  dstDirInode : Z;
  dstTargetInode : Z;
  parDirMap : option Z;
  dstParDirMap : option Z;
  leafName : string;
  newLeafName : string;
  isDstExist : bool
}.

(** What the environment of a run supplies: the address of a map if one is allocated, that of
    [cur_dirent], the contents of variables that are not initialised, and the times that are
    read from the clock. *)
Record locals : Type := mk_locals {
  new_map : Z;
  cur_dirent : Z;
  first_byte : Z * Z;
  clock1 : Z * Z;
  clock2 : Z * Z
}.

Section Rename.
Context {cfg : ExtentConfig} {M : Type} `{HM : ConcurrentHashMap M MapEntry}.

Record rstate : Type := mk_rstate {
  inodes : gmap Z InMemInode;
  dentryPos : gmap Z positions;
  impl : FsImpl;
  sectors : cache;
  blocks : cache;
  fsreq : FsReq;
  perm : FsPermission (M := M)
}.

Definition get_inode (p : Z) (st : rstate) : res InMemInode :=
  match inodes st !! p with Some i => Ok i | None => Crash OutOfRange end.
Definition get_pos (p : Z) (st : rstate) : positions := default ∅ (dentryPos st !! p).

Definition set_inode (p : Z) (i : InMemInode) (st : rstate) : rstate :=
  mk_rstate (<[p := i]> (inodes st)) (dentryPos st) (impl st) (sectors st) (blocks st) (fsreq st) (perm st).
Definition set_pos (p : Z) (m : positions) (st : rstate) : rstate :=
  mk_rstate (inodes st) (<[p := m]> (dentryPos st)) (impl st) (sectors st) (blocks st) (fsreq st) (perm st).
Definition set_io (s : FsImpl) (isb c : cache) (r : FsReq) (st : rstate) : rstate :=
  mk_rstate (inodes st) (dentryPos st) s isb c r (perm st).
Definition set_perm (m : FsPermission) (st : rstate) : rstate :=
  mk_rstate (inodes st) (dentryPos st) (impl st) (sectors st) (blocks st) (fsreq st) m.

Definition addSecondPathInodeCacheItem (q : rename_req) (l : locals) (st : rstate) : res rstate :=
  let! i := get_inode (targetInode q) st in
  let! (_, _, m) := setPermission (new_map l) (dstParDirMap q) (newLeafName q)
                      (i_uid (inodeData i), i_gid (inodeData i)) (targetInode q) (type (inodeData i)) (perm st) in
  Ok (set_perm m st).

Definition ModifyDstDirHelper (q : rename_req) (l : locals) (st : rstate) : res rstate :=
  let name := to_bytes (newLeafName q) in
  let! dir := get_inode (dstDirInode q) st in
  let! src := get_inode (targetInode q) st in
  let ino := i_no (inodeData src) in
  if negb (isDstExist q) then
    let! (pos, dir, s, c, r) :=
      appendToDir dir ino (get_pos (targetInode q) st) name (cur_dirent l) (first_byte l)
        (impl st) (blocks st) (fsreq st) in
    let st := set_io s (sectors st) c r (set_pos (targetInode q) pos (set_inode (dstDirInode q) dir st)) in
    if negb (numTotalPendingIoReq r =? 0) then Ok st
    else addSecondPathInodeCacheItem q l (set_inode (dstDirInode q) (adjustDentryCount 1 dir) st)
  else
    let! (rt, s, isb, c, r) :=
      dentryPointToNewInode ino dir (get_pos (dstTargetInode q) st) name
        (impl st) (sectors st) (blocks st) (fsreq st) in
    let! _ := check (rt =? 0) in
    let st := set_io s isb c r st in
    let par := i_no (inodeData dir) in
    match getDentryDataBlockPosition par name (get_pos (dstTargetInode q) st) with
    | None => Crash AssertFail
    | Some (dentry_block, dentry_idx) =>
        let st := set_pos (targetInode q)
                    (addDentryDataBlockPosition par name dentry_block dentry_idx (get_pos (targetInode q) st)) st in
        let! pos := delDentryDataBlockPosition par name (get_pos (dstTargetInode q) st) in
        let st := set_pos (dstTargetInode q) pos st in
        let! m := removePathInodeCacheItem (dstParDirMap q) (newLeafName q)
                    (fst (clock1 l)) (snd (clock1 l)) (perm st) in
        addSecondPathInodeCacheItem q l (set_perm m st)
    end.

Definition ModifySrcDirHelper (q : rename_req) (l : locals) (st : rstate) : res rstate :=
  let name := to_bytes (leafName q) in
  let! dir := get_inode (dirInode q) st in
  let par := i_no (inodeData dir) in
  match getDentryDataBlockPosition par name (get_pos (targetInode q) st) with
  | None => Crash AssertFail
  | Some (dentry_block, dentry_idx) =>
      let! (_, s, isb, c, r) :=
        remove_at dir dentry_idx dentry_block name (impl st) (sectors st) (blocks st) (fsreq st) in
      let! pos := delDentryDataBlockPosition par name (get_pos (targetInode q) st) in
      let st := set_io s isb c r (set_pos (targetInode q) pos st) in
      let! _ := check (numTotalPendingIoReq r =? 0) in
      let st := set_inode (dirInode q) (adjustDentryCount (-1) dir) st in
      let! m := removePathInodeCacheItem (parDirMap q) (leafName q)
                  (fst (clock2 l)) (snd (clock2 l)) (perm st) in
      Ok (set_perm m st)
  end.

(** Returns whether the transaction is done; otherwise the reads that it waits for are
    submitted, and it is run again. *)
Definition ModifyDirEntries (q : rename_req) (l : locals) (st : rstate) : res (bool * rstate) :=
  let! st := ModifyDstDirHelper q l st in
  if negb (numTotalPendingIoReq (fsreq st) =? 0) then Ok (false, st)
  else
    let! st := ModifySrcDirHelper q l st in
    let! _ := check (numTotalPendingIoReq (fsreq st) =? 0) in
    Ok (true, st).

End Rename.

(** ** Directories of a state *)

Section Spec.
Context {cfg : ExtentConfig} {Hal : AlignedConfig cfg} {M : Type} `{HM : ConcurrentHashMap M MapEntry}.
Context (own : Z -> Z) (disk : Z -> list Z).
Hypothesis (Hdisk : forall b, Z.of_nat (length (disk b)) = BSIZE).

Local Notation entries := (list (Z * list Z)).

(** The inode at [p] is a directory with the entries [es].  The directory [lo] may have a
    block that it does not need yet. *)
Record dir_ok (lo : option Z) (s : FsImpl) (c : cache) (p : Z) (i : InMemInode) (es : entries) : Prop := {
  do_inode : inode_ok (inodeData i);
  do_placed : placed (inodeData i);
  do_owned : owned own (inodeData i);
  do_data : dir_data disk c (inodeData i) es;
  do_tight : lo <> Some p -> tight (inodeData i) es;
  do_distinct : distinct es;
  do_loaded : i_no (inodeData i) ∈ inodeMap s
}.

(** [V] gives the entries of directories; they are different inodes. *)
Record dirs_ok (lo : option Z) (st : rstate (M := M)) (V : gmap Z entries) : Prop := {
  ds_dir p es : V !! p = Some es -> exists i, inodes st !! p = Some i /\ dir_ok lo (impl st) (blocks st) p i es;
  ds_inj p p' i i' : is_Some (V !! p) -> is_Some (V !! p') -> inodes st !! p = Some i -> inodes st !! p' = Some i' ->
    i_no (inodeData i) = i_no (inodeData i') -> p = p'
}.

(** The inode that a directory has for a name. *)
Definition in_dirs (V : gmap Z entries) (p : Z) (name : list Z) : option Z :=
  V !! p ≫= fun es => dir_lookup es name.

(** [pos] has the position of the entry with the name in the directory at [p]. *)
Definition entry_at (V : gmap Z entries) (ins : gmap Z InMemInode) (p : Z) (name : list Z) (inum blkno : Z)
    (pos : positions) : Prop :=
  exists es k i, V !! p = Some es /\ es !! k = Some (inum, name) /\ 0 < inum /\ ins !! p = Some i /\
    block_at (inodeData i) (Z.of_nat k / DIRENTS) = Some blkno /\
    getDentryDataBlockPosition (i_no (inodeData i)) name pos = Some (blkno, Z.of_nat k mod DIRENTS).

Lemma data_kept c c' ino d es :
  inode_ok d -> placed d -> owned own d -> i_no d <> ino -> others_kept own disk ino c c' -> dir_data disk c d es -> dir_data disk c' d es.
Proof.
  intros Hi Hpl Ho Hne Hk [A B C D]. split; try done. intros k e i He Hr. rewrite <- (D k e i He Hr).
  pose proof (lookup_lt_Some _ _ _ He) as Hl. pose proof (blocks_enough d _ _ (proj1 C) Hl) as Hb.
  assert (Ed : (Z.of_nat k * DIRENT_SIZE + i) / BSIZE = Z.of_nat k / DIRENTS).
  { clear -Hr. change BSIZE with 4096. change DIRENTS with 128. change DIRENT_SIZE with 32 in *. Z.to_euclidean_division_equations; lia. }
  unfold byte. rewrite Ed. destruct (block_at d _) as [n |] eqn:E; [| done]. cbn. rewrite Hk; [done |].
  rewrite (Ho (Z.of_nat k / DIRENTS) n); [done | | done]. split; [apply Z.div_pos; [lia | done] | exact Hb].
Qed.

(** A step changes one directory, its inode and its entries; the others keep theirs. *)
Lemma dirs_step lo lo' (st st' : rstate (M := M)) V p es i i' es' :
  dirs_ok lo st V -> V !! p = Some es -> inodes st !! p = Some i ->
  inodes st' = <[p := i']> (inodes st) -> inodeMap (impl st') = inodeMap (impl st) ->
  i_no (inodeData i') = i_no (inodeData i) -> others_kept own disk (i_no (inodeData i)) (blocks st) (blocks st') ->
  dir_ok lo' (impl st') (blocks st') p i' es' -> (forall p', p' <> p -> lo' <> Some p' -> lo <> Some p') ->
  dirs_ok lo' st' (<[p := es']> V).
Proof.
  intros [Hd Hinj] HV Hp Ei Em En Hk Hok Hlo. split.
  - intros p2 es2 [[<- <-] | [Hne H2]]%lookup_insert_Some; rewrite Ei.
    + exists i'. by rewrite lookup_insert_eq.
    + rewrite lookup_insert_ne by done. destruct (Hd _ _ H2) as (i2 & E2 & [A B C D E F G]). exists i2. split; [done |].
      split; try done; [| intros Hl; apply E, Hlo; done | by rewrite Em].
      eapply data_kept; try done. intros Hno. apply Hne. by eapply Hinj.
  - assert (HV' : forall p2, is_Some (<[p := es']> V !! p2) -> is_Some (V !! p2)).
    { intros p2. rewrite lookup_insert_is_Some. intros [<- | [_ ?]]; [by rewrite HV | done]. }
    assert (Hi2 : forall p2 j, inodes st' !! p2 = Some j -> exists j0, inodes st !! p2 = Some j0 /\ i_no (inodeData j) = i_no (inodeData j0)).
    { intros p2 j. rewrite Ei. intros [[<- <-] | [_ ?]]%lookup_insert_Some; eauto. }
    intros p1 p2 j1 j2 S1 S2 (k1 & K1 & N1)%Hi2 (k2 & K2 & N2)%Hi2 Hno. eapply (Hinj p1 p2 k1 k2); auto. congruence.
Qed.

(** ** Changing a name of a directory *)

(** From [st] to [st'] the inode of the name [z] in the directory at [p0] becomes [v]; [si]
    remembers the positions of its other entries, and the directory counts [n] entries more. *)
Record name_step (p0 : Z) (z : list Z) (v : option Z) (n : Z) (si : Z) (lo' : option Z) (st : rstate (M := M)) (V : gmap Z entries)
    (st' : rstate (M := M)) (V' : gmap Z entries) : Prop := {
  ns_good : good own disk (blocks st');
  ns_dirs : dirs_ok lo' st' V';
  ns_in p x : in_dirs V' p x = if decide ((p, x) = (p0, z)) then v else in_dirs V p x;
  ns_at p x inum b : (p, x) <> (p0, z) -> entry_at V (inodes st) p x inum b (get_pos si st) ->
    entry_at V' (inodes st') p x inum b (get_pos si st');
  ns_kept i : inodes st !! p0 = Some i -> others_kept own disk (i_no (inodeData i)) (blocks st) (blocks st');
  ns_ino p i : inodes st !! p = Some i -> exists i', inodes st' !! p = Some i' /\
    i_no (inodeData i') = i_no (inodeData i) /\
    i_dentry_count (inodeData i') mod 2 ^ 16 =
      (i_dentry_count (inodeData i) + if decide (p = p0) then n else 0) mod 2 ^ 16;
  ns_same p : p <> p0 -> inodes st' !! p = inodes st !! p
}.

Lemma adjust_ino n i : i_no (inodeData (adjustDentryCount n i)) = i_no (inodeData i).
Proof. by destruct i as [[] ?]. Qed.

Lemma adjust_count n i :
  i_dentry_count (inodeData (adjustDentryCount n i)) = (i_dentry_count (inodeData i) + n) mod 2 ^ 16.
Proof. by destruct i as [[] ?]. Qed.

Lemma adjust_ok n lo s c p i es : dir_ok lo s c p i es -> dir_ok lo s c p (adjustDentryCount n i) es.
Proof. destruct i as [[] ?]. intros [A B C [D1 D2 D3 D4] E F G]. split; [exact A | exact B | exact C | by split | exact E | exact F | exact G]. Qed.

Lemma adjust_block n i k : block_at (inodeData (adjustDentryCount n i)) k = block_at (inodeData i) k.
Proof. by destruct i as [[] ?]. Qed.

(** The other entries of [si] stay where they are. *)
Lemma entry_kept V ins p z inum b pos pos' p0 es0 es1 i0 i1 :
  entry_at V ins p z inum b pos -> V !! p0 = Some es0 -> ins !! p0 = Some i0 -> i_no (inodeData i1) = i_no (inodeData i0) ->
  (forall k, p = p0 -> es0 !! k = Some (inum, z) -> es1 !! k = Some (inum, z) /\
     block_at (inodeData i1) (Z.of_nat k / DIRENTS) = block_at (inodeData i0) (Z.of_nat k / DIRENTS)) ->
  (forall i, ins !! p = Some i -> pos' !! (i_no (inodeData i), z) = pos !! (i_no (inodeData i), z)) ->
  entry_at (<[p0 := es1]> V) (<[p0 := i1]> ins) p z inum b pos'.
Proof.
  intros (es & k & i & HV & Hk & Hi & Hp & Hb & Hpos) HV0 H0 En Hkeep Hsame. unfold getDentryDataBlockPosition in Hpos.
  unfold entry_at, getDentryDataBlockPosition. destruct (decide (p = p0)) as [-> | Hne].
  - simplify_eq. destruct (Hkeep k eq_refl Hk) as [Hk' Hb']. exists es1, k, i1. rewrite !lookup_insert_eq.
    repeat (split; [done |]). split; [congruence |]. rewrite En, Hsame by done. done.
  - exists es, k, i. rewrite !lookup_insert_ne by done. repeat (split; [done |]). by rewrite Hsame.
Qed.

Lemma get_pos_set p m (st : rstate (M := M)) : get_pos p (set_pos p m st) = m.
Proof. unfold get_pos. cbn. by rewrite lookup_insert_eq. Qed.

(** Two entries of inodes in [V] with the same key are the same. *)
Lemma key_eq lo st V p p' i i' (n n' : list Z) :
  dirs_ok lo st V -> is_Some (V !! p) -> is_Some (V !! p') -> inodes st !! p = Some i -> inodes st !! p' = Some i' ->
  (i_no (inodeData i), n) = (i_no (inodeData i'), n') -> (p, n) = (p', n').
Proof. intros Hd HV HV' Hp Hp' [= En ->]. f_equal. by eapply (ds_inj lo st V). Qed.

Lemma in_dirs_changed V p0 es es' z v p n :
  V !! p0 = Some es -> (forall n, dir_lookup es' n = if decide (n = z) then v else dir_lookup es n) ->
  in_dirs (<[p0 := es']> V) p n = if decide ((p, n) = (p0, z)) then v else in_dirs V p n.
Proof.
  intros HV He. unfold in_dirs. destruct (decide (p = p0)) as [-> | Hne].
  - rewrite lookup_insert_eq, HV. cbn [mbind option_bind]. rewrite He. destruct (decide (n = z)) as [-> | Hz].
    + by rewrite decide_True.
    + by rewrite decide_False by congruence.
  - rewrite lookup_insert_ne by done. by rewrite decide_False by congruence.
Qed.

Lemma changed_name lo lo' st st' V p0 es es' i i' z v m si :
  dirs_ok lo st V -> V !! p0 = Some es -> inodes st !! p0 = Some i ->
  inodes st' = <[p0 := i']> (inodes st) -> inodeMap (impl st') = inodeMap (impl st) ->
  i_no (inodeData i') = i_no (inodeData i) -> others_kept own disk (i_no (inodeData i)) (blocks st) (blocks st') ->
  dir_ok lo' (impl st') (blocks st') p0 i' es' -> (forall p, p <> p0 -> lo' <> Some p -> lo <> Some p) ->
  good own disk (blocks st') ->
  i_dentry_count (inodeData i') mod 2 ^ 16 = (i_dentry_count (inodeData i) + m) mod 2 ^ 16 ->
  (forall n, dir_lookup es' n = if decide (n = z) then v else dir_lookup es n) ->
  (forall k inum n, n <> z -> es !! k = Some (inum, n) -> es' !! k = Some (inum, n) /\
     block_at (inodeData i') (Z.of_nat k / DIRENTS) = block_at (inodeData i) (Z.of_nat k / DIRENTS)) ->
  (forall key, key <> (i_no (inodeData i), z) -> get_pos si st' !! key = get_pos si st !! key) ->
  name_step p0 z v m si lo' st V st' (<[p0 := es']> V).
Proof.
  intros Hd HV Hp Ei Em En Hoth Hok Hlo Hg Hcnt Hl Hkeep Hpos. split; try done.
  - by eapply dirs_step.
  - intros p n. by eapply in_dirs_changed.
  - intros p n inum b Hpn He. rewrite Ei. eapply entry_kept; try done.
    + intros k ->. apply Hkeep. congruence.
    + intros i2 Hi2. apply Hpos. intros Eq. apply Hpn. destruct He as (? & ? & ? & HV2 & _).
      eapply (key_eq lo st V); try done; by eexists.
  - intros i2 Hi2. by simplify_eq.
  - intros p i2 Hi2. rewrite Ei. destruct (decide (p = p0)) as [-> | Hne].
    + simplify_eq. rewrite lookup_insert_eq. eauto.
    + rewrite lookup_insert_ne by done. exists i2. by rewrite Z.add_0_r.
  - intros p Hne. by rewrite Ei, lookup_insert_ne.
Qed.

(** ** The old name *)

Lemma src_step q l lo st V ino bx m :
  good own disk (blocks st) -> numTotalPendingIoReq (fsreq st) = 0 -> dirs_ok lo st V ->
  entry_at V (inodes st) (dirInode q) (to_bytes (leafName q)) ino bx (get_pos (targetInode q) st) ->
  removePathInodeCacheItem (parDirMap q) (leafName q) (fst (clock2 l)) (snd (clock2 l)) (perm st) = Ok m ->
  match ModifySrcDirHelper q l st with
  | Ok st' => perm st' = m /\ numTotalPendingIoReq (fsreq st') = 0 /\ (alloc_ready (impl st) -> alloc_ready (impl st')) /\
      (forall i, inodes st !! dirInode q = Some i ->
         getDentryDataBlockPosition (i_no (inodeData i)) (to_bytes (leafName q)) (get_pos (targetInode q) st') = None) /\
      exists V', name_step (dirInode q) (to_bytes (leafName q)) None (-1) (targetInode q) lo st V st' V'
  | Crash f => f = AssertFail /\ (full (blocks st) \/ missing (blocks st) (pba bx))
  end.
Proof.
  intros Hg Hr Hd Hx Hperm. set (sd := dirInode q) in *. set (si := targetInode q) in *. set (x := to_bytes (leafName q)) in *.
  pose proof Hx as (es & k & i & HV & Hk & Hino & Hp & Hb & Hpos).
  destruct (ds_dir _ _ _ Hd _ _ HV) as (i' & Hp' & Hok). simplify_eq.
  pose proof Hok as [A B C D E F G].
  unfold ModifySrcDirHelper. fold sd si x. unfold get_inode. rewrite Hp. cbn [res_bind]. rewrite Hpos.
  pose proof (remove_at_spec own disk Hdisk i es k ino x bx (impl st) (sectors st) (blocks st) (fsreq st) A B C Hg D Hk Hino Hb G) as H.
  destruct (remove_at _ _ _ _ _ _ _ _) as [[[[[v s'] isb'] c'] r'] | f]; cbn [res_bind change_ends] in *; [| naive_solver].
  unfold delDentryDataBlockPosition. unfold getDentryDataBlockPosition in Hpos. rewrite Hpos. cbn [res_bind].
  destruct H as (Hg' & -> & Hoth & [(-> & -> & -> & Hh) | (-> & -> & Hs' & Hw & Hm)]).
  2: { destruct Hw as (_ & _ & Hw). unfold check. rewrite (proj2 (Z.eqb_neq _ 0)) by lia. cbn. auto. }
  unfold check. rewrite Hr. cbn [Z.eqb res_bind]. cbn [perm set_inode set_io set_pos]. rewrite Hperm. cbn [res_bind].
  split; [done |]. split; [done |]. split; [done |]. split.
  { intros i' Hi'. simplify_eq. unfold getDentryDataBlockPosition, get_pos. cbn. rewrite lookup_insert_eq. cbn. apply lookup_delete_eq. }
  exists (<[sd := <[k := (0, [])]> es]> V).
  assert (Hd' : distinct (<[k := (0, [])]> es)) by (by eapply distinct_changed).
  eapply (changed_name lo lo _ _ V sd es _ i (adjustDentryCount (-1) i)); try done.
  - apply adjust_ino.
  - apply adjust_ok. split; try done. intros Hl. unfold tight. rewrite length_insert. by apply E.
  - by rewrite adjust_count, Z.mod_mod.
  - intros n. by rewrite (lookup_changed es k ino x).
  - intros k2 inum n Hn Hk2. rewrite adjust_block. split; [| done]. rewrite list_lookup_insert_ne; [done |]. intros <-. congruence.
  - intros key Hkey. unfold get_pos. cbn. rewrite lookup_insert_eq. by apply lookup_delete_ne.
Qed.

(** ** The new name *)

Lemma addSecond_ok q l (st : rstate (M := M)) src b c m :
  inodes st !! targetInode q = Some src ->
  setPermission (new_map l) (dstParDirMap q) (newLeafName q) (i_uid (inodeData src), i_gid (inodeData src))
    (targetInode q) (type (inodeData src)) (perm st) = Ok (b, c, m) ->
  addSecondPathInodeCacheItem q l st = Ok (set_perm m st).
Proof. intros Hs E. unfold addSecondPathInodeCacheItem, get_inode. rewrite Hs. cbn [res_bind]. by rewrite E. Qed.

Lemma get_pos_set_ne p p' m (st : rstate (M := M)) : p <> p' -> get_pos p (set_pos p' m st) = get_pos p st.
Proof. intros H. unfold get_pos. cbn. by rewrite lookup_insert_ne. Qed.

Section Destination.
Context (q : rename_req) (l : locals) (lo : option Z) (st : rstate (M := M)) (V : gmap Z entries).
Context (src : InMemInode) (m1 m2 : FsPermission (M := M)) (pb : bool) (pc : option Z).

Let dd : Z := dstDirInode q.
Let si : Z := targetInode q.
Let y : list Z := to_bytes (newLeafName q).
Let ino : Z := i_no (inodeData src).

Hypothesis (Hg : good own disk (blocks st)) (Hr : numTotalPendingIoReq (fsreq st) = 0) (Hd : dirs_ok lo st V).
Hypothesis (Hsrc : inodes st !! si = Some src) (Hino : 0 < ino) (He : entry_ok (ino, y)).
Hypothesis (Hset : setPermission (new_map l) (dstParDirMap q) (newLeafName q)
  (i_uid (inodeData src), i_gid (inodeData src)) si (type (inodeData src)) m1 = Ok (pb, pc, m2)).

(** There is no space for the entry. *)
Definition no_space : Prop :=
  exists dir pos dir' s' c' r', inodes st !! dd = Some dir /\
    appendToDir dir ino (get_pos si st) y (cur_dirent l) (first_byte l) (impl st) (blocks st) (fsreq st) =
      Ok (pos, dir', s', c', r') /\
    Layout.size (inodeData dir') = Layout.size (inodeData dir) /\ numTotalPendingIoReq r' = 0.

(** The new name has an inode, which is replaced. *)
Lemma dst_present old bd :
  isDstExist q = true -> dstTargetInode q <> si -> entry_at V (inodes st) dd y old bd (get_pos (dstTargetInode q) st) ->
  removePathInodeCacheItem (dstParDirMap q) (newLeafName q) (fst (clock1 l)) (snd (clock1 l)) (perm st) = Ok m1 ->
  match ModifyDstDirHelper q l st with
  | Ok st1 => perm st1 = m2 /\ numTotalPendingIoReq (fsreq st1) = 0 /\ (alloc_ready (impl st) -> alloc_ready (impl st1)) /\
      exists V1, name_step dd y (Some ino) 0 si lo st V st1 V1 /\ entry_at V1 (inodes st1) dd y ino bd (get_pos si st1)
  | Crash f => f = AssertFail /\ (full (blocks st) \/ missing (blocks st) (pba bd))
  end.
Proof.
  intros Hex Hdi Hy Hperm. set (di := dstTargetInode q) in *.
  pose proof Hy as (es & k & i & HV & Hk & Hold & Hp & Hb & Hpos).
  destruct (ds_dir _ _ _ Hd _ _ HV) as (i' & Hp' & Hok). simplify_eq. pose proof Hok as [A B C D E F G].
  unfold ModifyDstDirHelper. fold dd si y di. unfold get_inode. rewrite Hp, Hsrc. cbn [res_bind]. fold ino. rewrite Hex. cbn [negb].
  pose proof (point_spec own disk Hdisk i es k old y bd (impl st) (sectors st) (blocks st) (fsreq st) A B C Hg D Hk Hold Hb G
    ino (get_pos di st) (proj1 He) Hpos) as H.
  destruct (dentryPointToNewInode _ _ _ _ _ _ _ _) as [[[[[v s'] isb'] c'] r'] | f]; cbn [res_bind change_ends] in *; [| naive_solver].
  destruct H as (Hg' & -> & Hoth & [(-> & -> & -> & Hh) | (-> & -> & Hs' & Hw & Hm)]); [| cbn; auto].
  unfold check. cbn [Z.eqb res_bind].
  change (get_pos di (set_io ?a ?b ?c ?d st)) with (get_pos di st). rewrite Hpos.
  rewrite (get_pos_set_ne di si) by done. change (get_pos di (set_io ?a ?b ?c ?d st)) with (get_pos di st).
  unfold delDentryDataBlockPosition. unfold getDentryDataBlockPosition in Hpos. rewrite Hpos. cbn [res_bind].
  cbn [perm set_io set_pos]. rewrite Hperm. cbn [res_bind].
  erewrite addSecond_ok; [| exact Hsrc | exact Hset].
  split; [done |]. split; [done |]. split; [done |]. exists (<[dd := <[k := (ino, y)]> es]> V).
  assert (Hd' : distinct (<[k := (ino, y)]> es)) by (by eapply distinct_changed).
  split.
  - eapply (changed_name lo lo _ _ V dd es _ i i); try done.
    + cbn. by rewrite insert_id.
    + split; try done. intros Hl. unfold tight. rewrite length_insert. by apply E.
    + by rewrite Z.add_0_r.
    + intros n. rewrite (lookup_changed es k old y) by done. by rewrite (decide_True (P := 0 < fst (ino, y))).
    + intros k2 inum n Hn Hk2. split; [| done]. rewrite list_lookup_insert_ne; [done |]. intros <-. congruence.
    + intros key Hkey. unfold get_pos at 1. cbn. rewrite lookup_insert_ne, lookup_insert_eq by done. by apply lookup_insert_ne.
  - exists (<[k := (ino, y)]> es), k, i. rewrite lookup_insert_eq, list_lookup_insert_eq by (by eapply lookup_lt_Some).
    repeat (split; [done |]). unfold get_pos at 1. cbn. rewrite lookup_insert_ne, lookup_insert_eq by done. apply lookup_insert_eq.
Qed.

Lemma append_pos dir pos src0 first0 pos' dir' s' c' r' :
  appendToDir dir ino pos y src0 first0 (impl st) (blocks st) (fsreq st) = Ok (pos', dir', s', c', r') ->
  forall key, key <> (i_no (inodeData dir), y) -> pos' !! key = pos !! key.
Proof.
  unfold appendToDir. destruct (writeInodeAndSaveDataBlockInfo _ _ _ _ _ _ _ _ _) as [[[[[[v [b o]] d1] s1] c1] r1] |]; [| done].
  cbn. intros [= <- <- <- <- <-] key Hkey. by apply lookup_insert_ne.
Qed.

(** The directories other than [dd] are as before. *)
Lemma dirs_without (st1 : rstate (M := M)) i' :
  inodes st1 = <[dd := i']> (inodes st) -> inodeMap (impl st1) = inodeMap (impl st) -> blocks st1 = blocks st ->
  dirs_ok lo st1 (delete dd V).
Proof.
  intros Ei Em Eb. pose proof Hd as [H1 H2]. split.
  - intros p es [Hne HV]%lookup_delete_Some. destruct (H1 _ _ HV) as (i & Hi & []). exists i. rewrite Ei, lookup_insert_ne by done.
    split; [done |]. split; rewrite ?Em, ?Eb; done.
  - intros p p' i j [? [Hp ?]%lookup_delete_Some] [? [Hp' ?]%lookup_delete_Some]. rewrite Ei, !lookup_insert_ne by done.
    apply H2; by eexists.
Qed.

(** The new name is added to the directory [dir] with the entries [es]. *)
Section Append.
Context (dir : InMemInode) (es : entries).
Hypothesis (Hex : isDstExist q = false) (Hsi : si <> dd) (HV : V !! dd = Some es) (Hp : inodes st !! dd = Some dir).
Hypothesis (Hnone : dir_lookup es y = None) (Hs : alloc_ready (impl st)) (H36 : Z.of_nat (length es) < 2 ^ 36).
Hypothesis (Hcur : cur_dirent l ∉ blockIoDoneMap (fsreq st)).
Hypothesis (Hown : forall v dir1 s1 r1,
  writeInodeAllocDataBlock dir (Layout.size (inodeData dir)) DIRENT_SIZE (impl st) (fsreq st) = Ok (v, dir1, s1, r1) ->
  owned own (inodeData dir1)).
Hypothesis (Hlo : lo = None \/ lo = Some dd) (Hperm : perm st = m1).

Let out : res (positions * InMemInode * FsImpl * cache * FsReq) :=
  appendToDir dir ino (get_pos si st) y (cur_dirent l) (first_byte l) (impl st) (blocks st) (fsreq st).

Lemma dst_ok : dir_ok lo (impl st) (blocks st) dd dir es.
Proof. destruct (ds_dir _ _ _ Hd _ _ HV) as (i & Hi & Hok). by simplify_eq. Qed.

Lemma append_ok : append_ends own disk dir es ino y (get_pos si st) (impl st) (blocks st) (fsreq st) out.
Proof. destruct dst_ok. by apply append_spec. Qed.

Lemma absent_run :
  ModifyDstDirHelper q l st =
    let! (pos, dir', s', c', r') := out in
    let st0 := set_io s' (sectors st) c' r' (set_pos si pos (set_inode dd dir' st)) in
    Ok (if negb (numTotalPendingIoReq r' =? 0) then st0 else set_perm m2 (set_inode dd (adjustDentryCount 1 dir') st0)).
Proof.
  unfold ModifyDstDirHelper. fold dd si y. unfold get_inode. rewrite Hp, Hsrc. cbn [res_bind]. fold ino. rewrite Hex. cbn [negb].
  fold out. destruct out as [[[[[pos' dir'] s'] c'] r'] | f]; [| done]. cbn [res_bind].
  destruct (numTotalPendingIoReq r' =? 0); [| done]. cbn [negb]. eapply addSecond_ok.
  - cbn. rewrite !lookup_insert_ne by done. exact Hsrc.
  - cbn. rewrite Hperm. exact Hset.
Qed.

Lemma append_blocks dir' k e :
  inode_ok (inodeData dir') -> in_place (ext_array (inodeData dir)) (ext_array (inodeData dir')) -> es !! k = Some e ->
  block_at (inodeData dir') (Z.of_nat k / DIRENTS) = block_at (inodeData dir) (Z.of_nat k / DIRENTS).
Proof.
  intros Hi' Hip Hk. destruct dst_ok as [A B C D]. apply in_place_block_at; try done. split; [apply Z.div_pos; [lia | done] |].
  eapply blocks_enough; [apply (dd_blocks _ _ _ _ D) | by eapply lookup_lt_Some].
Qed.

(** What is left when there is no space: all directories but [dd]. *)
Definition left_out (st1 : rstate (M := M)) : Prop :=
  perm st1 = m2 /\ numTotalPendingIoReq (fsreq st1) = 0 /\ blocks st1 = blocks st /\ dirs_ok lo st1 (delete dd V) /\
  (exists dir1, inodes st1 = <[dd := dir1]> (inodes st) /\ i_no (inodeData dir1) = i_no (inodeData dir) /\
     Layout.size (inodeData dir1) = Layout.size (inodeData dir)) /\
  forall p n inum b, p <> dd -> entry_at V (inodes st) p n inum b (get_pos si st) ->
    entry_at (delete dd V) (inodes st1) p n inum b (get_pos si st1).

Lemma left_out_ok pos' dir' s' :
  out = Ok (pos', dir', s', blocks st, fsreq st) -> inodeMap s' = inodeMap (impl st) ->
  i_no (inodeData dir') = i_no (inodeData dir) -> Layout.size (inodeData dir') = Layout.size (inodeData dir) ->
  left_out (set_perm m2 (set_inode dd (adjustDentryCount 1 dir')
    (set_io s' (sectors st) (blocks st) (fsreq st) (set_pos si pos' (set_inode dd dir' st))))).
Proof.
  intros Eout Em En Ez. pose proof (append_pos _ _ _ _ _ _ _ _ _ Eout) as Hpos.
  split; [done |]. split; [done |]. split; [done |]. split; [| split].
  - eapply dirs_without; try done. cbn. by rewrite insert_insert_eq.
  - exists (adjustDentryCount 1 dir'). cbn [inodes set_perm set_inode set_io set_pos]. rewrite insert_insert_eq, adjust_ino. split; [done |]. split; [done |].
    rewrite <- Ez. by destruct dir' as [[] ?].
  - intros p n inum b Hne (es2 & k & i2 & HV2 & Hk & Hin & Hi2 & Hb & Hpo). exists es2, k, i2.
    rewrite lookup_delete_ne by done. cbn. rewrite !lookup_insert_ne by done. repeat (split; [done |]).
    unfold get_pos at 1. cbn. rewrite lookup_insert_eq. unfold getDentryDataBlockPosition. cbn. rewrite Hpos; [done |].
    intros [= Eq _]. apply Hne. symmetry. eapply (ds_inj lo st V); try done; by eexists.
Qed.

Lemma dst_absent :
  match ModifyDstDirHelper q l st with
  | Ok st1 =>
      (perm st1 = m2 /\ numTotalPendingIoReq (fsreq st1) = 0 /\ alloc_ready (impl st1) /\
       exists V1 bd, name_step dd y (Some ino) 1 si None st V st1 V1 /\ entry_at V1 (inodes st1) dd y ino bd (get_pos si st1)) \/
      (perm st1 = m1 /\ 0 < numTotalPendingIoReq (fsreq st1) /\ alloc_ready (impl st1) /\
       name_step dd y None 0 si (Some dd) st V st1 V) \/ no_space
  | Crash f => f = AssertFail /\ write_stuck own dir (Layout.size (inodeData dir)) DIRENT_SIZE (impl st) (blocks st) (fsreq st)
  end.
Proof.
  rewrite absent_run. pose proof append_ok as H. destruct dst_ok as [A B C D E F G].
  destruct out as [[[[[pos' dir'] s'] c'] r'] | f] eqn:Eout; cbn [res_bind append_ends] in *; [| exact H].
  pose proof (append_pos _ _ _ _ _ _ _ _ _ Eout) as Hpos. destruct H as (Hg' & Eno & Edc & Em & Ho' & Hip & Hoth & H).
  destruct H as [(Hh & Hi' & Hp' & Hs' & Hr' & bd & Hbd & ->) | [(Hh & Hi' & Hp' & Hs' & Hr') | (Hsz & -> & -> & _)]].
  - rewrite Hr'. cbn [Z.eqb negb]. left. split; [done |]. split; [done |]. split; [done |].
    exists (<[dd := es ++ [(ino, y)]]> V), bd. split.
    + eapply (changed_name lo None _ _ V dd es _ dir (adjustDentryCount 1 dir')); try done.
      * cbn. by rewrite insert_insert_eq.
      * by rewrite adjust_ino.
      * apply adjust_ok. split; try done; [by apply holds_data | intros _; apply Hh | by apply distinct_append |].
        cbn. by rewrite Em, Eno.
      * naive_solver.
      * by rewrite adjust_count, Edc, Z.mod_mod.
      * intros n. by rewrite lookup_appended.
      * intros k inum n Hn Hk. rewrite adjust_block. split; [by apply lookup_app_l_Some | by eapply append_blocks].
      * intros key Hkey. unfold get_pos at 1. cbn. rewrite lookup_insert_eq. by apply Hpos.
    + eexists (es ++ [(ino, y)]), (length es), _. rewrite lookup_insert_eq, lookup_app_r, Nat.sub_diag by done. cbn.
      rewrite lookup_insert_eq. repeat (split; [done |]). rewrite adjust_block, adjust_ino, Eno. split; [done |].
      unfold get_pos at 1. cbn. rewrite lookup_insert_eq. apply lookup_insert_eq.
  - rewrite (proj2 (Z.eqb_neq _ 0)) by lia. cbn [negb]. right. left. split; [done |]. split; [done |]. split; [done |].
    rewrite <- (insert_id V dd es HV) at 2. eapply (changed_name lo (Some dd) _ _ V dd es _ dir dir'); try done.
    + split; try done. cbn. by rewrite Em, Eno.
    + naive_solver.
    + by rewrite Edc, Z.add_0_r.
    + intros n. case_decide; [by subst | done].
    + intros k inum n Hn Hk. split; [done | by eapply append_blocks].
    + intros key Hkey. unfold get_pos at 1. cbn. rewrite lookup_insert_eq. by apply Hpos.
  - right. right. exists dir, pos', dir', s', (blocks st), (fsreq st). done.
Qed.

Lemma dst_full : no_space -> exists st1, ModifyDstDirHelper q l st = Ok st1 /\ left_out st1.
Proof.
  intros (dir0 & pos' & dir' & s' & c' & r' & Hdir0 & Eout & Ez & Hr'). rewrite absent_run.
  assert (dir0 = dir) as -> by congruence.
  pose proof append_ok as H. fold out in Eout. rewrite Eout in *. cbn [res_bind append_ends] in *. rewrite Hr'. cbn [Z.eqb negb].
  destruct H as (_ & Eno & _ & Em & _ & _ & _ & [(Hh & _) | [(_ & _ & _ & _ & ?) | (_ & -> & -> & _)]]); [| lia |].
  - exfalso. destruct dst_ok as [_ _ _ D]. pose proof (dh_size _ _ _ _ Hh) as Hz. rewrite Ez, (dd_size _ _ _ _ D), length_app in Hz.
    change DIRENT_SIZE with 32 in Hz. cbn in Hz. lia.
  - eexists. split; [done |]. by apply left_out_ok.
Qed.

End Append.

End Destination.

(** ** Requests *)

(** What the lookups of the request establish before the transaction.  [src] is the inode that
    is renamed; [lo] is [dd] when the request has waited for a block before.  New blocks of
    [dd] are those that [own] has for it. *)
Record ready (lo : option Z) (q : rename_req) (l : locals) (st : rstate (M := M)) (V : gmap Z entries) (src : InMemInode)
    (bx : Z) : Prop := {
  rd_good : good own disk (blocks st);
  rd_pending : numTotalPendingIoReq (fsreq st) = 0;
  rd_alloc : alloc_ready (impl st);
  rd_dirs : dirs_ok lo st V;
  rd_lo : lo = None \/ lo = Some (dstDirInode q) /\ isDstExist q = false;
  rd_src : inodes st !! targetInode q = Some src;
  rd_not_dir : targetInode q <> dstDirInode q;
  rd_old : entry_at V (inodes st) (dirInode q) (to_bytes (leafName q)) (i_no (inodeData src)) bx (get_pos (targetInode q) st);
  rd_name : entry_ok (i_no (inodeData src), to_bytes (newLeafName q));
  rd_differ : (dirInode q, to_bytes (leafName q)) <> (dstDirInode q, to_bytes (newLeafName q));
  rd_new :
    if isDstExist q then
      dstTargetInode q <> targetInode q /\
      exists old bd, entry_at V (inodes st) (dstDirInode q) (to_bytes (newLeafName q)) old bd (get_pos (dstTargetInode q) st)
    else exists es dir, V !! dstDirInode q = Some es /\ inodes st !! dstDirInode q = Some dir /\
      dir_lookup es (to_bytes (newLeafName q)) = None /\ Z.of_nat (length es) < 2 ^ 36 /\
      cur_dirent l ∉ blockIoDoneMap (fsreq st) /\
      forall v dir1 s1 r1,
        writeInodeAllocDataBlock dir (Layout.size (inodeData dir)) DIRENT_SIZE (impl st) (fsreq st) = Ok (v, dir1, s1, r1) ->
        owned own (inodeData dir1)
}.

(** The directories have the paths [qs] and [qd] in the cache of paths. *)
Record paths_ready (q : rename_req) (l : locals) (s : FsPermission (M := M)) (qs qd : list string) (ls ld : Z) : Prop := {
  pr_wf : PathCache.wf s;
  pr_src : level_at s qs = Some ls /\ parDirMap q = Some ls;
  pr_dst : level_at s qd = Some ld /\ dstParDirMap q = Some ld;
  pr_map : levels s !! new_map l = None;
  pr_inside : isSrcPrefixOfDst (qs ++ [leafName q]) (qd ++ [newLeafName q]) = Ok false;
  pr_above : ~ qd ++ [newLeafName q] `prefix_of` qs;
  pr_absent : isDstExist q = false -> cached s qd (newLeafName q) = None
}.

(** The paths after the rename. *)
Record paths_moved (q : rename_req) (l : locals) (src : InMemInode) (s s' : FsPermission (M := M)) (qs qd : list string)
    : Prop := {
  pm_wf : PathCache.wf s';
  pm_old p z : qs ++ [leafName q] `prefix_of` p ++ [z] -> cached s' p z = None;
  pm_new : cached s' qd (newLeafName q) =
    Some (mk_entry (if type (inodeData src) =? Ownership.T_FILE then None else Some (new_map l))
            (i_uid (inodeData src), i_gid (inodeData src)) (targetInode q));
  pm_other p z : ~ qs ++ [leafName q] `prefix_of` p ++ [z] -> ~ qd ++ [newLeafName q] `prefix_of` p ++ [z] ->
    cached s' p z = cached s p z
}.

(** The calls on the cache of paths that a rename makes. *)
Lemma paths_calls q l src s qs qd ls ld :
  paths_ready q l s qs qd ls ld ->
  exists m1 b c m2 m3,
    (if isDstExist q then removePathInodeCacheItem (dstParDirMap q) (newLeafName q) (fst (clock1 l)) (snd (clock1 l)) s else Ok s) = Ok m1 /\
    setPermission (new_map l) (dstParDirMap q) (newLeafName q) (i_uid (inodeData src), i_gid (inodeData src)) (targetInode q)
      (type (inodeData src)) m1 = Ok (b, c, m2) /\
    removePathInodeCacheItem (parDirMap q) (leafName q) (fst (clock2 l)) (snd (clock2 l)) m2 = Ok m3 /\
    paths_moved q l src s m3 qs qd.
Proof.
  intros [W [Ls Es] [Ld Ed] Hm Hp Ha Hn]. rewrite Es, Ed.
  destruct (rename_moves_path (new_map l) qs ls (leafName q) qd ld (newLeafName q) (isDstExist q)
    (i_uid (inodeData src), i_gid (inodeData src)) (targetInode q) (type (inodeData src))
    (fst (clock1 l)) (snd (clock1 l)) (fst (clock2 l)) (snd (clock2 l)) s W Ls Ld Hm Hp Ha Hn) as (s' & E & W' & H1 & H2 & H3).
  unfold rename_path in E. apply res_bind_ok in E as (m1 & E1 & E). apply res_bind_ok in E as ([[b c] m2] & E2 & E3).
  exists m1, b, c, m2, s'. by repeat (split; [done |]).
Qed.

(** Why a rename can fail: the block of an entry is not in memory when the entry is changed,
    or no slot of a cache can be used for the block. *)
Definition rename_stuck (q : rename_req) (l : locals) (st : rstate (M := M)) (V : gmap Z entries) (bx : Z) : Prop :=
  (isDstExist q = false /\ exists dir, inodes st !! dstDirInode q = Some dir /\
     write_stuck own dir (Layout.size (inodeData dir)) DIRENT_SIZE (impl st) (blocks st) (fsreq st)) \/
  (isDstExist q = true /\ exists old bd,
     entry_at V (inodes st) (dstDirInode q) (to_bytes (newLeafName q)) old bd (get_pos (dstTargetInode q) st) /\
     (full (blocks st) \/ missing (blocks st) (pba bd))) \/
  exists st1, ModifyDstDirHelper q l st = Ok st1 /\ (full (blocks st1) \/ missing (blocks st1) (pba bx)).

(** The blocks of all files but the two directories are as before. *)
Definition blocks_kept (q : rename_req) (st st' : rstate (M := M)) : Prop :=
  forall b, (forall i, inodes st !! dirInode q = Some i -> own b <> i_no (inodeData i)) ->
    (forall i, inodes st !! dstDirInode q = Some i -> own b <> i_no (inodeData i)) ->
    stored disk (blocks st') b = stored disk (blocks st) b.

Record renamed (q : rename_req) (st : rstate (M := M)) (V : gmap Z entries) (src : InMemInode) (st' : rstate (M := M))
    (V' : gmap Z entries) : Prop := {
  rn_good : good own disk (blocks st');
  rn_pending : numTotalPendingIoReq (fsreq st') = 0;
  rn_alloc : alloc_ready (impl st');
  rn_dirs : dirs_ok None st' V';
  rn_names p n : in_dirs V' p n =
    if decide ((p, n) = (dirInode q, to_bytes (leafName q))) then None
    else if decide ((p, n) = (dstDirInode q, to_bytes (newLeafName q))) then Some (i_no (inodeData src))
    else in_dirs V p n;
  rn_new : exists b, entry_at V' (inodes st') (dstDirInode q) (to_bytes (newLeafName q)) (i_no (inodeData src)) b
    (get_pos (targetInode q) st');
  rn_old i : inodes st !! dirInode q = Some i ->
    getDentryDataBlockPosition (i_no (inodeData i)) (to_bytes (leafName q)) (get_pos (targetInode q) st') = None;
  rn_count p i : inodes st !! p = Some i -> exists i', inodes st' !! p = Some i' /\
    i_dentry_count (inodeData i') mod 2 ^ 16 =
      (i_dentry_count (inodeData i) + (if decide (p = dstDirInode q) then if isDstExist q then 0 else 1 else 0) -
       (if decide (p = dirInode q) then 1 else 0)) mod 2 ^ 16;
  rn_kept : blocks_kept q st st'
}.

(** The two changes make a rename. *)
Lemma two_steps q l st V src st1 V1 bd bx m m3 :
  let ino := i_no (inodeData src) in
  (dirInode q, to_bytes (leafName q)) <> (dstDirInode q, to_bytes (newLeafName q)) ->
  entry_at V (inodes st) (dirInode q) (to_bytes (leafName q)) ino bx (get_pos (targetInode q) st) ->
  name_step (dstDirInode q) (to_bytes (newLeafName q)) (Some ino) (if isDstExist q then 0 else 1) (targetInode q) None
    st V st1 V1 ->
  entry_at V1 (inodes st1) (dstDirInode q) (to_bytes (newLeafName q)) ino bd (get_pos (targetInode q) st1) ->
  (exists dir, inodes st !! dstDirInode q = Some dir) ->
  numTotalPendingIoReq (fsreq st1) = 0 -> alloc_ready (impl st1) -> perm st1 = m ->
  removePathInodeCacheItem (parDirMap q) (leafName q) (fst (clock2 l)) (snd (clock2 l)) m = Ok m3 ->
  match ModifySrcDirHelper q l st1 with
  | Ok st' => perm st' = m3 /\ numTotalPendingIoReq (fsreq st') = 0 /\ exists V', renamed q st V src st' V'
  | Crash f => f = AssertFail /\ (full (blocks st1) \/ missing (blocks st1) (pba bx))
  end.
Proof.
  intros ino Hne Hx [G1 D1 I1 A1 K1 N1 S1] Hy [dir Hdd] Hr1 Hs1 <- Hm.
  pose proof (src_step q l None st1 V1 ino bx m3 G1 Hr1 D1 (A1 _ _ _ _ Hne Hx) Hm) as H.
  destruct (ModifySrcDirHelper q l st1) as [st' | f]; [| exact H].
  destruct H as (Hp & Hr' & Hs' & Hold & V' & [G2 D2 I2 A2 K2 N2 S2]). split; [done |]. split; [done |]. exists V'. split; auto.
  - intros p n. by rewrite I2, I1.
  - exists bd. by apply A2.
  - intros i Hi. destruct (N1 _ _ Hi) as (i' & Hi' & <- & _). by apply Hold.
  - intros p i Hi. destruct (N1 _ _ Hi) as (i1 & Hi1 & _ & C1). destruct (N2 _ _ Hi1) as (i2 & Hi2 & _ & C2).
    exists i2. split; [done |]. rewrite C2, <- Z.add_mod_idemp_l, C1, Z.add_mod_idemp_l by done. f_equal.
    destruct (decide (p = dirInode q)); lia.
  - intros b Hb1 Hb2. destruct Hx as (? & ? & i & _ & _ & _ & Hi & _). destruct (N1 _ _ Hi) as (i' & Hi' & Ei' & _).
    rewrite (K2 i' Hi'), (K1 dir Hdd); [done | by apply Hb2 |]. rewrite Ei'. by apply Hb1.
Qed.

(** A request that waits for a block. *)
Record rename_waits (q : rename_req) (st : rstate (M := M)) (V : gmap Z entries) (src : InMemInode) (bx : Z)
    (st' : rstate (M := M)) : Prop := {
  rw_absent : isDstExist q = false;
  rw_pending : 0 < numTotalPendingIoReq (fsreq st');
  rw_good : good own disk (blocks st');
  rw_alloc : alloc_ready (impl st');
  rw_dirs : dirs_ok (Some (dstDirInode q)) st' V;
  rw_old : entry_at V (inodes st') (dirInode q) (to_bytes (leafName q)) (i_no (inodeData src)) bx (get_pos (targetInode q) st');
  rw_perm : perm st' = perm st;
  rw_kept : blocks_kept q st st'
}.

(** C15. A rename, whose request has looked up its inodes and directories: the old name is gone from the
    directory and from the cache of paths, the new name is there with the inode, and every other name of every
    directory is as before, also when the two directories are the same; the counts of entries follow, modulo
    their 16 bits, and the blocks of other files are kept.  Or
    the request waits for a block, and all names are as before.  It fails only when a block of an entry cannot be
    had in memory at once; and it does not look whether the device has space. *)
Theorem rename_correct q l lo st V src bx qs qd ls ld :
  ready lo q l st V src bx -> paths_ready q l (perm st) qs qd ls ld ->
  (isDstExist q = false /\ no_space q l st src) \/
  match ModifyDirEntries q l st with
  | Ok (true, st') => paths_moved q l src (perm st) (perm st') qs qd /\ exists V', renamed q st V src st' V'
  | Ok (false, st') => rename_waits q st V src bx st'
  | Crash f => f = AssertFail /\ rename_stuck q l st V bx
  end.
Proof.
  intros [Hg Hr Hs Hd Hlo Hsrc Hnd Hx He Hne Hnew] Hpaths.
  destruct (paths_calls q l src _ qs qd ls ld Hpaths) as (m1 & b & c & m2 & m3 & E1 & E2 & E3 & Hmoved).
  pose proof Hx as (_ & _ & _ & _ & _ & Hino & _). unfold ModifyDirEntries.
  destruct (isDstExist q) eqn:Hex.
  - right. destruct Hnew as (Hdi & old & bd & Hy). destruct Hlo as [-> | [_ ?]]; [| done].
    pose proof (dst_present q l None st V src m1 m2 b c Hg Hr Hd Hsrc Hino He E2 old bd Hex Hdi Hy E1) as H.
    destruct (ModifyDstDirHelper q l st) as [st1 | f] eqn:Edst; cbn [res_bind]; [| unfold rename_stuck; naive_solver].
    destruct H as (Hp1 & Hr1 & Hs1 & V1 & Hst & Hy1). rewrite Hr1. cbn [Z.eqb negb].
    pose proof (two_steps q l st V src st1 V1 bd bx m2 m3 Hne Hx ltac:(by rewrite Hex) Hy1) as H.
    destruct Hy as (? & ? & dir & _ & _ & _ & Hdir & _). specialize (H (ex_intro _ dir Hdir) Hr1 (Hs1 Hs) Hp1 E3).
    destruct (ModifySrcDirHelper q l st1) as [st' | f]; cbn [res_bind]; [| unfold rename_stuck; naive_solver].
    destruct H as (<- & Hr' & HV). unfold check. rewrite Hr'. cbn. auto.
  - destruct Hnew as (es & dir & HV & Hdir & Hnone & H36 & Hcur & Hown). injection E1 as E1.
    pose proof (dst_absent q l lo st V src m1 m2 b c Hg Hr Hd Hsrc Hino He E2 dir es Hex Hnd HV Hdir Hnone Hs H36 Hcur Hown
      ltac:(naive_solver) E1) as H.
    destruct (ModifyDstDirHelper q l st) as [st1 | f] eqn:Edst; cbn [res_bind]; [| right; unfold rename_stuck; naive_solver].
    destruct H as [(Hp1 & Hr1 & Hs1 & V1 & bd & Hst & Hy1) | [(Hp1 & Hr1 & Hs1 & [G1 D1 I1 A1 K1 N1 S1]) | Hno]]; [right | right | by left].
    + rewrite Hr1. cbn [Z.eqb negb].
      pose proof (two_steps q l st V src st1 V1 bd bx m2 m3 Hne Hx ltac:(by rewrite Hex) Hy1 (ex_intro _ dir Hdir) Hr1 Hs1 Hp1 E3) as H.
      destruct (ModifySrcDirHelper q l st1) as [st' | f]; cbn [res_bind]; [| unfold rename_stuck; naive_solver].
      destruct H as (<- & Hr' & HV'). unfold check. rewrite Hr'. cbn. auto.
    + rewrite (proj2 (Z.eqb_neq _ 0)) by lia. cbn. split; try done; [by apply A1 | congruence |].
      intros b0 _ Hb. apply (K1 dir Hdir). by apply Hb.
Qed.

(** When the directory of the new name cannot grow, the old name is removed all the same: the
    file has no name then. *)
Theorem rename_loses_file q l lo st V src bx qs qd ls ld :
  ready lo q l st V src bx -> paths_ready q l (perm st) qs qd ls ld ->
  isDstExist q = false -> dirInode q <> dstDirInode q -> no_space q l st src ->
  match ModifyDirEntries q l st with
  | Ok (b, st') => b = true /\
      (exists V', dirs_ok lo st' V' /\
         forall n, in_dirs V' (dirInode q) n =
           if decide (n = to_bytes (leafName q)) then None else in_dirs V (dirInode q) n) /\
      forall dir, inodes st !! dstDirInode q = Some dir ->
        (exists dir', inodes st' !! dstDirInode q = Some dir' /\
           Layout.size (inodeData dir') = Layout.size (inodeData dir)) /\
        forall b, own b = i_no (inodeData dir) -> stored disk (blocks st') b = stored disk (blocks st) b
  | Crash f => f = AssertFail /\ (full (blocks st) \/ missing (blocks st) (pba bx))
  end.
Proof.
  intros [Hg Hr Hs Hd Hlo Hsrc Hnd Hx He Hne Hnew] Hpaths Hex Hsd Hno.
  destruct (paths_calls q l src _ qs qd ls ld Hpaths) as (m1 & b & c & m2 & m3 & E1 & E2 & E3 & _).
  rewrite Hex in *. destruct Hnew as (es & dir & HV & Hdir & Hnone & H36 & Hcur & Hown). injection E1 as E1.
  destruct (dst_full q l lo st V src m1 m2 b c Hg Hr Hd Hsrc He E2 dir es)
    as (st1 & Edst & Hp1 & Hr1 & Eb & D1 & (dir1 & Ei & En & Ez) & A1); try done.
  pose proof (src_step q l lo st1 (delete (dstDirInode q) V) _ bx m3 ltac:(by rewrite Eb) Hr1 D1 (A1 _ _ _ _ Hsd Hx) ltac:(by rewrite Hp1)) as H.
  unfold ModifyDirEntries. rewrite Edst. cbn [res_bind]. rewrite Hr1. cbn [Z.eqb negb].
  destruct (ModifySrcDirHelper q l st1) as [st' | f]; cbn [res_bind]; [| by rewrite Eb in H].
  destruct H as (_ & Hr' & _ & _ & V' & [G2 D2 I2 A2 K2 N2 S2]). unfold check. rewrite Hr'. cbn [Z.eqb res_bind].
  split; [done |]. split.
  - exists V'. split; [done |]. intros n. rewrite I2. unfold in_dirs. rewrite lookup_delete_ne by done.
    destruct (decide (n = to_bytes (leafName q))) as [-> | Hn]; [by rewrite decide_True | by rewrite decide_False by congruence].
  - intros dir0 Hdir0. assert (dir0 = dir) as -> by congruence. split.
    + exists dir1. by rewrite S2, Ei, lookup_insert_eq.
    + intros b0 Hb. destruct Hx as (? & ? & i & HVs & _ & _ & Hi & _).
      assert (Hi1 : inodes st1 !! dirInode q = Some i) by (by rewrite Ei, lookup_insert_ne).
      rewrite (K2 i Hi1), Eb; [done |]. rewrite Hb. intros Eq. apply Hsd.
      symmetry. eapply (ds_inj lo st V); try done; by eexists.
Qed.

End Spec.

(** ** Example: a file is renamed in its directory *)

Definition ex_file : InMemInode :=
  let t := mk_timeval 0 0 in
  mk_inode (mk_dinode 1 0 Ownership.T_FILE 9 0 0 0 0 0 t t t (replicate 7 (mk_extent 0 0 0)))
    (InodeLog.mk_log 9 0 0 0 0 0 0 0 0 0 0 t t t 0 ∅ ∅ ∅).
Definition ex_rename : rename_req := mk_rename 1 2 1 0 (Some 2) (Some 2) "ab" "cd" false.
Definition ex_locals : locals := mk_locals 7 1000 (0, 0) (101, 102) (103, 104).
Definition ex_state : rstate (M := ex_map) :=
  match ex_append with
  | Ok (pos1, dir1, s1, c1, _) =>
      mk_rstate {[1 := dir1; 2 := ex_file]} {[2 := pos1]} (set_inodes ∅ {[7]} s1) c1 c1 ex_req (PathCache.cache ex_cached)
  | Crash _ =>
      mk_rstate ∅ ∅ ex_worker (new_cache 4 BSIZE) (new_cache 4 BSIZE) ex_req (PathCache.cache ex_cached)
  end.

Lemma ex_grow_owned dir es s v dir1 s1 r1 :
  inode_ok (cfg := cfg_default) (inodeData dir) -> placed (cfg := cfg_default) (inodeData dir) -> alloc_ready s ->
  dir_data (cfg := cfg_default) ex_disk es (inodeData dir) [(9, ex_name)] -> i_no (inodeData dir) = 7 ->
  writeInodeAllocDataBlock (cfg := cfg_default) dir (Layout.size (inodeData dir)) DIRENT_SIZE s ex_req = Ok (v, dir1, s1, r1) ->
  owned (cfg := cfg_default) ex_own (inodeData dir1).
Proof.
  intros Hi Hp Hs [_ Hz Hb _] Eno E k n _ _. change DIRENT_SIZE with 32 in *. cbn [length] in Hz, Hb.
  assert (Hb1 : i_block_count (inodeData dir) = 1).
  { change DIRENTS with 128 in Hb. revert Hb. clear. change (Z.of_nat 1) with 1. Z.to_euclidean_division_equations; lia. }
  pose proof (alloc_for_write dir 32 32 s ex_req Hi Hp Hs ltac:(lia) ltac:(lia) ltac:(lia)
    ltac:(change BSIZE with 4096; lia) ltac:(right; change (blocks_for (32 + 32)) with 1; lia)) as H.
  replace (Layout.size (inodeData dir)) with 32 in E by lia. rewrite E in H. destruct H as ([-> _]%same_inode_fields & _). done.
Qed.

Lemma ex_ready : exists bx, ready (cfg := cfg_default) ex_own ex_disk None ex_rename ex_locals ex_state {[1 := [(9, ex_name)]]} ex_file bx.
Proof.
  destruct ex_append_done as (pos1 & dir1 & s1 & c1 & r1 & bx & E & Hh & Hi & Hp & Ho & Hg & Eno & Hb & Hpos & Hs).
  exists bx. unfold ex_state. rewrite E. clear E. split; try done; try by left.
  - split.
    + intros p es [<- <-]%lookup_singleton_Some. exists dir1. split; [done |]. split; try done; [by apply holds_data | | apply ex_one_distinct |].
      * intros _. apply Hh.
      * cbn. rewrite Eno. set_solver.
    + intros p p' i i' [? [<- _]%lookup_singleton_Some] [? [<- _]%lookup_singleton_Some]. done.
  - exists [(9, ex_name)], 0%nat, dir1. repeat (split; [done |]). rewrite Eno.
    unfold get_pos. cbn [dentryPos targetInode ex_rename]. rewrite lookup_singleton_eq. exact Hpos.
  - split; [by_compute |]. split; [by_compute |]. cbn. set_solver.
  - exists [(9, ex_name)], dir1. do 4 (split; [done |]). split; [apply not_elem_of_empty |].
    intros v dir2 s2 r2. eapply (ex_grow_owned dir1 c1); try done. by apply holds_data.
Qed.

Lemma ex_paths_ready : paths_ready ex_rename ex_locals (perm ex_state) ["a"%string] ["a"%string] 2 2.
Proof.
  assert (Ep : perm ex_state = PathCache.cache ex_cached) by (unfold ex_state; by destruct ex_append as [[[[[] ?] ?] ?] |]).
  rewrite Ep. clear Ep. split.
  - apply reachable_wf, ex_cached_reachable.
  - done.
  - done.
  - reflexivity.
  - reflexivity.
  - intros Hl%prefix_length. cbn in Hl. lia.
  - reflexivity.
Qed.

Lemma rename_correct_witness :
  match ModifyDirEntries (cfg := cfg_default) ex_rename ex_locals ex_state with
  | Ok (b, st') => b = true /\ cached (perm st') ["a"%string] "cd" = Some (mk_entry None (0, 0) 2) /\
      exists V', dirs_ok (cfg := cfg_default) ex_own ex_disk None st' V' /\
        in_dirs V' 1 (to_bytes "ab") = None /\ in_dirs V' 1 (to_bytes "cd") = Some 9
  | Crash _ => False
  end.
Proof.
  assert (Hv : match ModifyDirEntries (cfg := cfg_default) ex_rename ex_locals ex_state with Ok (b, _) => b = true | Crash _ => False end)
    by by vm_compute.
  assert (Hz : match inodes ex_state !! 1 with
    | Some dir =>
        match appendToDir (cfg := cfg_default) dir 9 (get_pos 2 ex_state) (to_bytes "cd") 1000 (0, 0)
                (impl ex_state) (blocks ex_state) (fsreq ex_state) with
        | Ok (_, dir', _, _, _) => (Layout.size (inodeData dir), Layout.size (inodeData dir')) = (32, 64)
        | Crash _ => False end
    | None => False end) by by vm_compute.
  destruct ex_ready as [bx Hready].
  destruct (rename_correct (cfg := cfg_default) ex_own ex_disk ex_disk_ok ex_rename ex_locals None ex_state _ ex_file bx
    ["a"%string] ["a"%string] 2 2 Hready ex_paths_ready) as [(_ & Hno) | H].
  - exfalso. destruct Hno as (dir & pos & dir' & s' & c' & r' & Hdir & Eapp & Hsz & _).
    change (dstDirInode ex_rename) with 1 in Hdir. rewrite Hdir in Hz.
    change (appendToDir (cfg := cfg_default) dir 9 (get_pos 2 ex_state) (to_bytes "cd") 1000 (0, 0)
      (impl ex_state) (blocks ex_state) (fsreq ex_state) = Ok (pos, dir', s', c', r')) in Eapp.
    rewrite Eapp in Hz. injection Hz as Z1 Z2. lia.
  - clear Hz Hready. destruct (ModifyDirEntries _ _ _) as [[[] st'] | f]; [| discriminate Hv | destruct Hv]. destruct H as [[_ _ Hc _] [V' [_ _ _ Hd Hn _ _ _ _]]].
    split; [reflexivity |]. split; [exact Hc |]. exists V'. split; [exact Hd |]. rewrite !Hn. by split.
Defined.

End Rename.
