(* ===== verification/Shmipc.v ===== *)
(** * Rings of messages in shared memory

    [cfs/src/shmipc.c]: the ring through which the threads of an application send
    requests to a worker of the server, with the parts of its users that touch the ring:
    the calls a thread makes for one request ([send_noargop] and its like in
    [cfs/src/FsLib.cc]), [pollReqFromApps] of [cfs/src/FsProc_Worker.cc] and
    [markComplete] of [cfs/src/FsProc.cc].  The functions run at the same time on the
    shared memory, so each is cut at its accesses to it, and a state moves by one access
    of one thread or of the server.  Accesses are taken to be sequentially consistent.  The
    [memset] that frees a slot clears its bytes one after the other; a wider store is some of
    these accesses with no other in between. *)

From Stdlib Require Import ZArith List Bool Lia.
From stdpp Require Import base gmap list.
From S2P Require Import Prelude.
Import ListNotations.
Open Scope Z_scope.

Module Shmipc.

Definition shmipc_XREQ_MAX_ELEM_SIZE : Z := 2048.
Definition shmipc_DATA_MAX_ELEM_SIZE : Z := 32768.

Definition shmipc_STATUS_EMPTY : Z := 0.
Definition shmipc_STATUS_RESERVED : Z := 1.
Definition shmipc_STATUS_READY_FOR_SERVER : Z := 2.
Definition shmipc_STATUS_IN_PROGRESS : Z := 3.
Definition shmipc_STATUS_READY_FOR_CLIENT : Z := 4.

(** ** Layout of the shared memory *)

(** The part of [shmipc_mgr] that [shmipc_mgr_init] computes; pointers are offsets into
    the shared memory. *)
Record shmipc_mgr : Type := mk_mgr {
  size : Z;
  ring_off : Z;
  xreq_off : Z;
  data_off : Z;
  capacity : Z;
  mask : Z;
  next : Z
}.

(** [shmipc_qp_get] succeeds. *)
Definition shmipc_mgr_init (rsize : Z) : option shmipc_mgr :=
  if (rsize <? 4) || negb (Z.land rsize (to_u64 (rsize - 1)) =? 0) then None
  else
    let mem_required := to_u64 (rsize * 64 + rsize * shmipc_XREQ_MAX_ELEM_SIZE
                                + rsize * shmipc_DATA_MAX_ELEM_SIZE) in
    Some (mk_mgr mem_required 0 (to_u64 (rsize * 64))
            (to_u64 (rsize * 64 + rsize * shmipc_XREQ_MAX_ELEM_SIZE)) rsize (rsize - 1) 0).

Definition IDX_TO_MSG (m : shmipc_mgr) (idx : Z) : Z := ring_off m + idx * 64.
Definition IDX_TO_XREQ (m : shmipc_mgr) (idx : Z) : Z := xreq_off m + idx * shmipc_XREQ_MAX_ELEM_SIZE.
Definition IDX_TO_DATA (m : shmipc_mgr) (idx : Z) : Z := data_off m + idx * shmipc_DATA_MAX_ELEM_SIZE.

(** ** Messages *)

(** A message is its 64 bytes; [status] is the byte after the eight of [retval]. *)
Definition status (m : list Z) : Z := m !!! 8%nat.
Definition set_status (v : Z) (m : list Z) : list Z := <[8%nat := v]> m.

(** [memcpy] from the type to the end of the message. *)
Definition copy_body (src dst : list Z) : list Z := take 9 dst ++ drop 9 src.

Definition slot (k : Z) (r : list (list Z)) : list Z := r !!! Z.to_nat k.
Definition set_slot (k : Z) (m : list Z) (r : list (list Z)) : list (list Z) := <[Z.to_nat k := m]> r.

(** ** The client *)

(** Where a thread is in the calls it makes for one request. *)
Inductive phase : Type :=
| Allocating   (* has drawn its number *)
| Granted      (* has seen its slot empty *)
| Reserved
| Prepared     (* has written its arguments *)
| Copied
| Waiting
| Returning    (* has seen the answer announced *)
| Received (reply : list Z)
| Done (ret : list Z)
| Clearing (n : nat) (ret : list Z).   (* has cleared the first [n] bytes of its slot *)

Record thread : Type := mk_thread {
  t_ticket : Z;
  t_phase : phase;
  t_msg : list Z;
  t_args : list Z
}.

(** A request the server has taken: its message and its arguments. *)
Record FsReq : Type := mk_req {
  r_ticket : Z;
  r_msg : list Z;
  r_args : list Z
}.

(** The last five fields record what happened, for the theorems; a request is numbered
    by the value of [next] it was given.  [disturbed]: some slot was granted while the thread
    that had it before was still clearing it. *)
Record state : Type := mk_state {
  ring : list (list Z);
  xreq : list (list Z);
  c_next : Z;
  s_next : Z;
  threads : gmap Z thread;
  polled : option Z;
  held : gmap Z FsReq;
  sent : list (list Z * list Z);
  received : list (list Z * list Z);
  answered : list (Z * list Z);
  returned : list (Z * list Z);
  disturbed : bool
}.

Definition set_mem (r x : list (list Z)) (s : state) : state :=
  mk_state r x (c_next s) (s_next s) (threads s) (polled s) (held s) (sent s) (received s)
    (answered s) (returned s) (disturbed s).
Definition set_thread (i : Z) (t : thread) (s : state) : state :=
  mk_state (ring s) (xreq s) (c_next s) (s_next s) (<[i := t]> (threads s)) (polled s) (held s)
    (sent s) (received s) (answered s) (returned s) (disturbed s).
Definition set_phase (i : Z) (p : phase) (t : thread) (s : state) : state :=
  set_thread i (mk_thread (t_ticket t) p (t_msg t) (t_args t)) s.
Definition set_disturbed (b : bool) (s : state) : state :=
  mk_state (ring s) (xreq s) (c_next s) (s_next s) (threads s) (polled s) (held s) (sent s) (received s)
    (answered s) (returned s) b.

Section Ring.
Context (rsize nthreads : Z).

Definition ring_idx (n : Z) : Z := Z.land n (rsize - 1).

(** [shmipc_mgr_alloc_slot] up to the [__sync_fetch_and_add]; a thread that has no
    request starts one. *)
Definition alloc_slot_begin (i : Z) (msg args : list Z) (s : state) : option state :=
  if (0 <=? i) && (i <? nthreads) && (length msg =? 64)%nat then
    match threads s !! i with
    | Some _ => None
    | None =>
        Some (mk_state (ring s) (xreq s) (c_next s + 1) (s_next s)
                (<[i := mk_thread (c_next s) Allocating msg args]> (threads s)) (polled s)
                (held s) (sent s ++ [(msg, args)]) (received s) (answered s) (returned s) (disturbed s))
    end
  else None.

(** Some thread is clearing slot [k]. *)
Definition being_cleared (k : Z) (s : state) : bool :=
  existsb (fun e => match t_phase (snd e) with
                    | Clearing _ _ => ring_idx (t_ticket (snd e)) =? k
                    | _ => false
                    end) (map_to_list (threads s)).

(** The rest of [shmipc_mgr_alloc_slot]; a loop that has to go on does not step. *)
Definition shmipc_mgr_alloc_slot (i : Z) (t : thread) (s : state) : option state :=
  let k := ring_idx (t_ticket t) in
  match t_phase t with
  | Allocating =>
      if status (slot k (ring s)) =? shmipc_STATUS_EMPTY
      then Some (set_phase i Granted t (set_disturbed (disturbed s || being_cleared k s) s)) else None
  | Granted =>
      Some (set_phase i Reserved t
              (set_mem (set_slot k (set_status shmipc_STATUS_RESERVED (slot k (ring s))) (ring s)) (xreq s) s))
  | _ => None
  end.

(** The arguments of the request are written to its part of [xreq]. *)
Definition prepare_op (i : Z) (t : thread) (s : state) : option state :=
  let k := ring_idx (t_ticket t) in
  match t_phase t with
  | Reserved => Some (set_phase i Prepared t (set_mem (ring s) (set_slot k (t_args t) (xreq s)) s))
  | _ => None
  end.

Definition shmipc_mgr_put_msg (i : Z) (t : thread) (s : state) : option state :=
  let k := ring_idx (t_ticket t) in
  match t_phase t with
  | Prepared =>
      Some (set_phase i Copied t
              (set_mem (set_slot k (copy_body (t_msg t) (slot k (ring s))) (ring s)) (xreq s) s))
  | Copied =>
      Some (set_phase i Waiting t
              (set_mem (set_slot k (set_status shmipc_STATUS_READY_FOR_SERVER (slot k (ring s))) (ring s))
                 (xreq s) s))
  | Waiting =>
      if status (slot k (ring s)) =? shmipc_STATUS_READY_FOR_CLIENT
      then Some (set_phase i Returning t s) else None
  | Returning => Some (set_phase i (Received (slot k (ring s))) t s)
  | _ => None
  end.

(** The result is read from [xreq] once [put_msg] has returned. *)
Definition read_ret (i : Z) (t : thread) (s : state) : option state :=
  match t_phase t with
  | Received _ => Some (set_phase i (Done (slot (ring_idx (t_ticket t)) (xreq s))) t s)
  | _ => None
  end.

(** The next byte of the [memset]; with the last one the call returns. *)
Definition shmipc_mgr_dealloc_slot (i : Z) (t : thread) (s : state) : option state :=
  let k := ring_idx (t_ticket t) in
  let clear n v :=
    let r := set_slot k (<[n := 0]> (slot k (ring s))) (ring s) in
    if (n =? 63)%nat then
      Some (mk_state r (xreq s) (c_next s) (s_next s) (delete i (threads s)) (polled s) (held s)
              (sent s) (received s) (answered s) (returned s ++ [(t_ticket t, v)]) (disturbed s))
    else Some (set_phase i (Clearing (S n) v) t (set_mem r (xreq s) s)) in
  match t_phase t with
  | Done v => clear 0%nat v
  | Clearing n v => clear n v
  | _ => None
  end.

(** The next access of a thread, in the order of the calls of [send_noargop]. *)
Definition client_step (i : Z) (s : state) : option state :=
  match threads s !! i with
  | None => None
  | Some t =>
      match t_phase t with
      | Allocating | Granted => shmipc_mgr_alloc_slot i t s
      | Reserved => prepare_op i t s
      | Prepared | Copied | Waiting | Returning => shmipc_mgr_put_msg i t s
      | Received _ => read_ret i t s
      | Done _ | Clearing _ _ => shmipc_mgr_dealloc_slot i t s
      end
  end.

(** ** The server *)

Definition shmipc_mgr_get_msg_nowait (s : state) : option state :=
  let k := ring_idx (s_next s) in
  match polled s with
  | Some _ => None
  | None =>
      if status (slot k (ring s)) =? shmipc_STATUS_READY_FOR_SERVER then
        Some (mk_state (ring s) (xreq s) (c_next s) (s_next s + 1) (threads s) (Some k) (held s)
                (sent s) (received s) (answered s) (returned s) (disturbed s))
      else None
  end.

(** [pollReqFromApps] after a message has been polled: a request is made of it. *)
Definition pollReqFromApps (s : state) : option state :=
  match polled s with
  | None => None
  | Some k =>
      let m := slot k (ring s) in
      Some (mk_state (set_slot k (set_status shmipc_STATUS_IN_PROGRESS m) (ring s)) (xreq s)
              (c_next s) (s_next s) (threads s) None
              (<[k := mk_req (s_next s - 1) m (slot k (xreq s))]> (held s)) (sent s)
              (received s ++ [(m, slot k (xreq s))]) (answered s) (returned s) (disturbed s))
  end.

(** The server writes to the arguments of a request that it holds, as often as it likes. *)
Definition set_ret (k : Z) (v : list Z) (s : state) : option state :=
  match held s !! k with
  | Some _ => Some (set_mem (ring s) (set_slot k v (xreq s)) s)
  | None => None
  end.

(** The answer is what the server has left there. *)
Definition markComplete (k : Z) (s : state) : option state :=
  match held s !! k with
  | Some (mk_req n _ _) =>
      Some (mk_state
              (set_slot k (set_status shmipc_STATUS_READY_FOR_CLIENT (slot k (ring s))) (ring s))
              (xreq s) (c_next s) (s_next s) (threads s) (polled s) (delete k (held s)) (sent s)
              (received s) (answered s ++ [(n, slot k (xreq s))]) (returned s) (disturbed s))
  | None => None
  end.

(** ** Steps *)

Inductive label : Type :=
| Start (i : Z) (msg args : list Z)
| Client (i : Z)
| Poll
| Take
| Answer (k : Z) (v : list Z)
| Complete (k : Z).

Definition step (l : label) (s : state) : option state :=
  match l with
  | Start i msg args => alloc_slot_begin i msg args s
  | Client i => client_step i s
  | Poll => shmipc_mgr_get_msg_nowait s
  | Take => pollReqFromApps s
  | Answer k v => set_ret k v s
  | Complete k => markComplete k s
  end.

Fixpoint run (ls : list label) (s : state) : option state :=
  match ls with
  | [] => Some s
  | l :: ls' => match step l s with Some s' => run ls' s' | None => None end
  end.

(** The memory after [shmipc_mgr_init] with [create]. *)
Definition init : state :=
  mk_state (replicate (Z.to_nat rsize) (replicate 64 0)) (replicate (Z.to_nat rsize) []) 0 0 ∅ None ∅
    [] [] [] [] false.

Inductive reachable : state -> Prop :=
| reach_init : reachable init
| reach_step l s s' : reachable s -> step l s = Some s' -> reachable s'.

(** ** Requests and what becomes of them *)

(** The stages of a request, as one sequence over both sides. *)
Inductive stage : Type :=
| SAlloc | SGranted | SReserved | SPrepared | SCopied | SPosted | SPolled | SHandled
| SCompleted (v : list Z) | SSeen (v : list Z)
| SBack (m v : list Z) | SDone (v : list Z) | SClear (n : nat) (v : list Z).

#[local] Instance stage_eq_dec : EqDecision stage.
Proof. solve_decision. Defined.

Record request : Type := mk_request {
  q_no : Z;
  q_stage : stage;
  q_msg : list Z;
  q_args : list Z
}.

Definition q_idx (q : request) : Z := ring_idx (q_no q).

(** What the stage of a request says about the thread, the slot and the server. *)
Definition phase_of (g : stage) : phase :=
  match g with
  | SAlloc => Allocating | SGranted => Granted | SReserved => Reserved | SPrepared => Prepared
  | SCopied => Copied | SPosted | SPolled | SHandled | SCompleted _ => Waiting
  | SSeen _ => Returning | SBack m _ => Received m | SDone v => Done v | SClear n v => Clearing n v
  end.

Definition status_of (g : stage) : Z :=
  match g with
  | SAlloc | SGranted => shmipc_STATUS_EMPTY
  | SReserved | SPrepared | SCopied => shmipc_STATUS_RESERVED
  | SPosted | SPolled => shmipc_STATUS_READY_FOR_SERVER
  | SHandled => shmipc_STATUS_IN_PROGRESS
  | _ => shmipc_STATUS_READY_FOR_CLIENT
  end.

Definition served (g : stage) : bool :=
  match g with
  | SAlloc | SGranted | SReserved | SPrepared | SCopied | SPosted => false
  | _ => true
  end.

(** The slot belongs to the request: from the moment its thread has seen it empty until its
    status is cleared. *)
Definition holding (g : stage) : bool :=
  match g with
  | SAlloc => false
  | SClear n _ => (n <=? 8)%nat
  | _ => true
  end.

(** The answer the server has given. *)
Definition answer_of (g : stage) : option (list Z) :=
  match g with
  | SClear _ v | SCompleted v | SSeen v | SBack _ v | SDone v => Some v
  | _ => None
  end.

Definition held_of (q : request) (m : list Z) : option FsReq :=
  match q_stage q with
  | SHandled => Some (mk_req (q_no q) m (q_args q))
  | _ => None
  end.

(** The part of the messages and of [xreq] that is known at a stage. *)
Definition body_of (q : request) (m : list Z) : Prop :=
  match q_stage q with
  | SAlloc | SGranted | SReserved | SPrepared | SClear _ _ => True
  | _ => drop 9 m = drop 9 (q_msg q)
  end.

Definition xreq_of (q : request) (x : list Z) : Prop :=
  match q_stage q with
  | SAlloc | SGranted | SReserved | SHandled => True
  | SPrepared | SCopied | SPosted | SPolled => x = q_args q
  | SClear _ v | SCompleted v | SSeen v | SBack _ v | SDone v => x = v
  end.

Definition view (q : request) : thread :=
  mk_thread (q_no q) (phase_of (q_stage q)) (q_msg q) (q_args q).

(** Slot [k] is as its owner [q] has it. *)
Record owned (q : request) (s : state) : Prop := mk_owned {
  ow_status : status (slot (q_idx q) (ring s)) = status_of (q_stage q);
  ow_body : disturbed s = false -> body_of q (slot (q_idx q) (ring s));
  ow_xreq : xreq_of q (slot (q_idx q) (xreq s));
  ow_polled : polled s = Some (q_idx q) <-> q_stage q = SPolled;
  ow_held : exists m, held s !! q_idx q = held_of q m
}.

Record unowned (k : Z) (s : state) : Prop := mk_unowned {
  un_status : status (slot k (ring s)) = shmipc_STATUS_EMPTY;
  un_polled : polled s <> Some k;
  un_held : held s !! k = None
}.

(** The requests [a] of the threads account for the whole state. *)
Record sim (a : gmap Z request) (s : state) : Prop := mk_sim {
  sm_ring : length (ring s) = Z.to_nat rsize /\ Forall (fun m => length m = 64%nat) (ring s);
  sm_xreq : length (xreq s) = Z.to_nat rsize;
  sm_next : 0 <= s_next s <= c_next s;
  sm_threads : threads s = view <$> a;
  sm_ids : forall i, is_Some (a !! i) -> 0 <= i < nthreads;
  sm_inj : forall i j p q, a !! i = Some p -> a !! j = Some q -> q_no p = q_no q -> i = j;
  sm_open : forall n, s_next s <= n < c_next s -> exists i q, a !! i = Some q /\ q_no q = n;
  sm_range : forall i q, a !! i = Some q -> 0 <= q_no q < c_next s /\ (served (q_stage q) = true <-> q_no q < s_next s);
  sm_excl : forall i j p q, a !! i = Some p -> a !! j = Some q -> i <> j -> q_idx p = q_idx q ->
    holding (q_stage p) = false \/ holding (q_stage q) = false;
  sm_calm : disturbed s = false -> forall i j p q, a !! i = Some p -> a !! j = Some q -> i <> j -> q_idx p = q_idx q ->
    q_stage p = SAlloc \/ q_stage q = SAlloc;
  sm_owned : forall i q, a !! i = Some q -> holding (q_stage q) = true -> owned q s;
  sm_unowned : forall k, 0 <= k < rsize ->
    (forall i q, a !! i = Some q -> q_idx q = k -> holding (q_stage q) = false) -> unowned k s;
  sm_polled : forall k, polled s = Some k ->
    exists i q, a !! i = Some q /\ q_stage q = SPolled /\ q_idx q = k /\ q_no q = s_next s - 1;
  sm_held : forall k, is_Some (held s !! k) -> 0 <= k < rsize;
  sm_msg : forall i q, a !! i = Some q -> length (q_msg q) = 64%nat;
  sm_clear : forall i q n v, a !! i = Some q -> q_stage q = SClear n v -> (0 < n < 64)%nat
}.

(** What has been recorded agrees with it. *)
Definition request_of (e : list Z * list Z) : list Z * list Z := (drop 9 (fst e), snd e).

Record history (a : gmap Z request) (s : state) : Prop := mk_history {
  hs_sent : Z.of_nat (length (sent s)) = c_next s;
  hs_mine : forall i q, a !! i = Some q -> sent s !! Z.to_nat (q_no q) = Some (q_msg q, q_args q);
  hs_received : disturbed s = false -> request_of <$> received s =
    take (Z.to_nat (s_next s - if polled s then 1 else 0)) (request_of <$> sent s);
  hs_count : Z.of_nat (length (received s)) = s_next s - if polled s then 1 else 0;
  hs_answered : NoDup (answered s).*1 /\ forall n v, (n, v) ∈ answered s -> 0 <= n < s_next s;
  hs_answer : forall i q v, a !! i = Some q -> answer_of (q_stage q) = Some v <-> (q_no q, v) ∈ answered s;
  hs_returned : NoDup (returned s).*1 /\ forall e, e ∈ returned s -> e ∈ answered s;
  hs_all : forall n, 0 <= n < c_next s <-> (exists i q, a !! i = Some q /\ q_no q = n) \/ n ∈ (returned s).*1;
  hs_active : forall i q, a !! i = Some q -> q_no q ∉ (returned s).*1
}.

(** ** Arithmetic of the ring *)

Hypothesis (Hpow : exists e, 2 <= e /\ rsize = 2 ^ e).
Hypothesis (Hthr : nthreads <= rsize).

Lemma rsize_pos : 4 <= rsize.
Proof. destruct Hpow as (e & He & ->). change 4 with (2 ^ 2). apply Z.pow_le_mono_r; lia. Qed.

Lemma ring_idx_mod n : 0 <= n -> ring_idx n = n mod rsize.
Proof.
  intros Hn. unfold ring_idx. destruct Hpow as (e & He & ->).
  rewrite Z.sub_1_r, <- Z.ones_equiv, Z.land_ones by lia. done.
Qed.

Lemma ring_idx_range n : 0 <= n -> 0 <= ring_idx n < rsize.
Proof. intros Hn. rewrite ring_idx_mod by done. pose proof rsize_pos. apply Z.mod_pos_bound. lia. Qed.

Lemma slot_set k m r : 0 <= k -> (Z.to_nat k < length r)%nat -> slot k (set_slot k m r) = m.
Proof. intros _ Hk. unfold slot, set_slot. by rewrite list_lookup_total_insert_eq. Qed.

Lemma slot_set_ne k k' m r : 0 <= k -> 0 <= k' -> k <> k' -> slot k' (set_slot k m r) = slot k' r.
Proof. intros. unfold slot, set_slot. rewrite list_lookup_total_insert_ne; [done | lia]. Qed.

(** Numbers the server has not reached belong to different slots. *)
Lemma tickets_bound a s : sim a s -> c_next s - s_next s <= rsize.
Proof.
  intros Hs. destruct (Z.le_gt_cases (c_next s - s_next s) 0) as [? | Hpos]; [pose proof rsize_pos; lia |].
  assert (Hids : (map_to_list a).*1 ⊆+ seqZ 0 nthreads).
  { apply NoDup_submseteq; [apply NoDup_fst_map_to_list |]. intros i Hi.
    apply list_elem_of_fmap in Hi as ([j q] & -> & Hq%elem_of_map_to_list).
    apply elem_of_seqZ. destruct (sm_ids _ _ Hs j); [eauto | cbn; lia]. }
  assert (Hno : seqZ (s_next s) (c_next s - s_next s) ⊆+ q_no <$> (map_to_list a).*2).
  { apply NoDup_submseteq; [apply NoDup_seqZ |]. intros n Hn%elem_of_seqZ.
    destruct (sm_open _ _ Hs n) as (i & q & Hq & <-); [lia |]. apply list_elem_of_fmap. exists q. split; [done |].
    apply list_elem_of_fmap. exists (i, q). split; [done |]. by apply elem_of_map_to_list. }
  apply submseteq_length in Hids, Hno. rewrite !length_fmap, !length_seqZ in *. lia.
Qed.

Lemma same_slot a s i j p q :
  sim a s -> a !! i = Some p -> a !! j = Some q -> q_idx p = q_idx q ->
  s_next s <= q_no p -> s_next s <= q_no q -> i = j.
Proof.
  intros Hs Hp Hq Hidx H1 H2. pose proof (tickets_bound _ _ Hs) as Hb. pose proof rsize_pos.
  destruct (sm_range _ _ Hs _ _ Hp) as [Rp _], (sm_range _ _ Hs _ _ Hq) as [Rq _].
  apply (sm_inj _ _ Hs _ _ _ _ Hp Hq). unfold q_idx in Hidx. rewrite !ring_idx_mod in Hidx by lia.
  assert (Hrange : forall x y, x mod rsize = y mod rsize -> x < y -> rsize <= y - x).
  { intros x y Hm Hlt. pose proof (Z.div_mod x rsize ltac:(lia)). pose proof (Z.div_mod y rsize ltac:(lia)).
    assert (x / rsize < y / rsize) by nia. nia. }
  destruct (Z.lt_trichotomy (q_no p) (q_no q)) as [Hlt | [? | Hlt]]; [| done |]; exfalso.
  - specialize (Hrange _ _ Hidx Hlt). lia.
  - specialize (Hrange _ _ (eq_sym Hidx) Hlt). lia.
Qed.

(** ** One access changes one slot *)

Record local (k : Z) (s s' : state) : Prop := mk_local {
  lc_ring : length (ring s') = length (ring s) /\
    (Forall (fun m => length m = 64%nat) (ring s) -> Forall (fun m => length m = 64%nat) (ring s'));
  lc_xreq : length (xreq s') = length (xreq s);
  lc_slot : forall k', 0 <= k' -> k' <> k -> slot k' (ring s') = slot k' (ring s) /\ slot k' (xreq s') = slot k' (xreq s);
  lc_polled : forall k', k' <> k -> polled s' = Some k' <-> polled s = Some k';
  lc_held : forall k', k' <> k -> held s' !! k' = held s !! k';
  lc_disturbed : disturbed s' = false -> disturbed s = false
}.

Lemma local_owned k s s' q : local k s s' -> 0 <= q_no q -> q_idx q <> k -> owned q s -> owned q s'.
Proof.
  intros L Hn Hne [A B C D E]. destruct (ring_idx_range (q_no q) Hn) as [H0 _]. fold (q_idx q) in H0.
  destruct (lc_slot _ _ _ L (q_idx q) H0 Hne) as [R X].
  split; rewrite ?R, ?X; try done.
  - intros Hd. apply B. by apply (lc_disturbed _ _ _ L).
  - rewrite (lc_polled _ _ _ L); done.
  - rewrite (lc_held _ _ _ L); done.
Qed.

Lemma local_unowned k s s' k' : local k s s' -> 0 <= k' -> k' <> k -> unowned k' s -> unowned k' s'.
Proof.
  intros L H0 Hne [A B C]. destruct (lc_slot _ _ _ L k' H0 Hne) as [R _].
  split; [by rewrite R | by rewrite (lc_polled _ _ _ L) | by rewrite (lc_held _ _ _ L)].
Qed.

(** A request reaches its next stage. *)
Record moves (i : Z) (q : request) (g : stage) (s s' : state) : Prop := mk_moves {
  mv_local : local (q_idx q) s s';
  mv_threads : threads s' = <[i := view (mk_request (q_no q) g (q_msg q) (q_args q))]> (threads s);
  mv_c_next : c_next s' = c_next s;
  mv_s_next : s_next s' = s_next s \/ s_next s' = s_next s + 1 /\ q_no q = s_next s;
  mv_served : served g = true <-> q_no q < s_next s';
  mv_polled : forall k, polled s' = Some k ->
    k = q_idx q /\ g = SPolled /\ q_no q = s_next s' - 1 \/ k <> q_idx q /\ s_next s' = s_next s;
  mv_stage : holding g = true;
  mv_clear : forall n v, g = SClear n v -> (0 < n < 64)%nat;
  mv_owned : owned (mk_request (q_no q) g (q_msg q) (q_args q)) s'
}.

Section Move.
Context (a : gmap Z request) (s s' : state) (i : Z) (q : request) (g : stage).
Hypothesis (Hs : sim a s) (Hi : a !! i = Some q) (Hm : moves i q g s s').
Hypothesis (Halone : forall j p, a !! j = Some p -> j <> i -> q_idx p = q_idx q -> holding (q_stage p) = false).
Hypothesis (Hcalm : disturbed s' = false -> q_stage q = SAlloc ->
  forall j p, a !! j = Some p -> j <> i -> q_idx p = q_idx q -> q_stage p = SAlloc).

Let q' : request := mk_request (q_no q) g (q_msg q) (q_args q).

Lemma moved_cases j p : <[i := q']> a !! j = Some p -> (j = i /\ p = q') \/ (j <> i /\ a !! j = Some p).
Proof. intros [[-> ->] | [? ?]]%lookup_insert_Some; auto. Qed.

Lemma moved_no j p : <[i := q']> a !! j = Some p ->
  exists p0, a !! j = Some p0 /\ q_no p0 = q_no p /\ q_idx p0 = q_idx p /\ q_msg p0 = q_msg p.
Proof. intros [[-> ->] | [_ ?]]%moved_cases; eauto. Qed.

Lemma sim_move : sim (<[i := q']> a) s'.
Proof.
  pose proof (mv_local _ _ _ _ _ Hm) as L. destruct (sm_ring _ _ Hs) as [R1 R2]. destruct (lc_ring _ _ _ L) as [R3 R4].
  pose proof (sm_next _ _ Hs) as Hn. destruct (sm_range _ _ Hs _ _ Hi) as [Hq0 _]. split.
  - split; [congruence | auto].
  - rewrite (lc_xreq _ _ _ L). apply Hs.
  - rewrite (mv_c_next _ _ _ _ _ Hm). destruct (mv_s_next _ _ _ _ _ Hm) as [-> | [-> ?]]; lia.
  - rewrite (mv_threads _ _ _ _ _ Hm), (sm_threads _ _ Hs). by rewrite fmap_insert.
  - intros j [p (p0 & Hp & _)%moved_no]. apply (sm_ids _ _ Hs). eauto.
  - intros j1 j2 p1 p2 (x1 & H1 & E1 & _)%moved_no (x2 & H2 & E2 & _)%moved_no He.
    eapply (sm_inj _ _ Hs); eauto. congruence.
  - intros n Hr. rewrite (mv_c_next _ _ _ _ _ Hm) in Hr.
    destruct (sm_open _ _ Hs n) as (j & p & Hp & <-); [destruct (mv_s_next _ _ _ _ _ Hm) as [E | [E _]]; lia |].
    destruct (decide (j = i)) as [-> | Hne].
    + exists i, q'. rewrite lookup_insert_eq. split; [done |]. rewrite Hi in Hp. by injection Hp as <-.
    + exists j, p. by rewrite lookup_insert_ne.
  - intros j p [[-> ->] | [Hne Hp]]%moved_cases; rewrite (mv_c_next _ _ _ _ _ Hm).
    + split; [done | apply (mv_served _ _ _ _ _ Hm)].
    + destruct (sm_range _ _ Hs _ _ Hp) as [? Hsv]. split; [done |]. rewrite Hsv.
      destruct (mv_s_next _ _ _ _ _ Hm) as [-> | [-> E]]; [done |].
      assert (q_no p <> q_no q) by (intros E'; apply Hne; by eapply (sm_inj _ _ Hs)). lia.
  - intros j1 j2 p1 p2 [[-> ->] | [Hn1 H1]]%moved_cases [[-> ->] | [Hn2 H2]]%moved_cases Hne Hidx;
      [done | right | left |]; eauto using (sm_excl _ _ Hs). by eapply (sm_excl _ _ Hs).
  - intros Hd j1 j2 p1 p2 H1 H2 Hne Hidx. pose proof (sm_calm _ _ Hs (lc_disturbed _ _ _ L Hd)) as Hc.
    destruct (decide (q_stage q = SAlloc)) as [Eq | Eq].
    + apply moved_cases in H1 as [[-> ->] | [Hn1 H1]], H2 as [[-> ->] | [Hn2 H2]]; [done | right | left | by eapply Hc];
        by eapply (Hcalm Hd Eq).
    + apply moved_cases in H1 as [[-> ->] | [Hn1 H1]], H2 as [[-> ->] | [Hn2 H2]]; [done | right | left | by eapply Hc].
      * destruct (Hc _ _ _ _ Hi H2 Hne Hidx); done.
      * destruct (Hc _ _ _ _ H1 Hi Hne Hidx); done.
  - intros j p [[-> ->] | [Hne Hp]]%moved_cases Hst; [apply (mv_owned _ _ _ _ _ Hm) |].
    apply (local_owned _ _ _ _ L); [by apply (sm_range _ _ Hs) in Hp as [? _]; lia | | by apply (sm_owned _ _ Hs) in Hp].
    intros Hidx. rewrite (Halone j p Hp Hne Hidx) in Hst. done.
  - intros k Hk Hfree. destruct (decide (k = q_idx q)) as [-> | Hne].
    { pose proof (mv_stage _ _ _ _ _ Hm) as Hg. pose proof (Hfree i q' ltac:(apply lookup_insert_eq) eq_refl) as Hf.
      cbn in Hf. congruence. }
    apply (local_unowned _ _ _ _ L); [lia | done |]. apply (sm_unowned _ _ Hs); [done |].
    intros j p Hp Hidx. destruct (decide (j = i)) as [-> | Hji]; [congruence |].
    apply (Hfree j p); [by rewrite lookup_insert_ne | done].
  - intros k Hk. destruct (mv_polled _ _ _ _ _ Hm k Hk) as [(-> & -> & E) | [Hne E]].
    { exists i, q'. rewrite lookup_insert_eq. done. }
    apply (lc_polled _ _ _ L k Hne) in Hk. destruct (sm_polled _ _ Hs k Hk) as (j & p & Hp & Hst & Hidx & Hno).
    exists j, p. rewrite lookup_insert_ne by (intros <-; congruence). by rewrite E.
  - intros k Hk. destruct (decide (k = q_idx q)) as [-> | Hne]; [apply ring_idx_range; lia |].
    rewrite (lc_held _ _ _ L k Hne) in Hk. by apply (sm_held _ _ Hs).
  - intros j p (p0 & Hp & _ & _ & <-)%moved_no. by eapply (sm_msg _ _ Hs).
  - intros j p n v [[-> ->] | [_ Hp]]%moved_cases; [apply (mv_clear _ _ _ _ _ Hm) | by eapply (sm_clear _ _ Hs)].
Qed.

End Move.

(** ** The steps as moves *)

Inductive advances : stage -> stage -> Prop :=
| adv_grant : advances SAlloc SGranted
| adv_reserve : advances SGranted SReserved
| adv_prepare : advances SReserved SPrepared
| adv_copy : advances SPrepared SCopied
| adv_post : advances SCopied SPosted
| adv_poll : advances SPosted SPolled
| adv_take : advances SPolled SHandled
| adv_complete v : advances SHandled (SCompleted v)
| adv_see v : advances (SCompleted v) (SSeen v)
| adv_back m v : advances (SSeen v) (SBack m v)
| adv_done m v : advances (SBack m v) (SDone v)
| adv_first v : advances (SDone v) (SClear 1 v)
| adv_clear n v : (n < 63)%nat -> advances (SClear n v) (SClear (S n) v).

Lemma status_set v m : length m = 64%nat -> status (set_status v m) = v.
Proof. intros H. unfold status, set_status. rewrite list_lookup_total_insert_eq; [done | lia]. Qed.

Lemma body_set v m : drop 9 (set_status v m) = drop 9 m.
Proof. unfold set_status. rewrite drop_insert_lt; [done | lia]. Qed.

Lemma status_copy src dst : length dst = 64%nat -> status (copy_body src dst) = status dst.
Proof.
  intros H. unfold status, copy_body. rewrite lookup_total_app_l by (rewrite length_take; lia).
  rewrite lookup_total_take_lt by lia. done.
Qed.

Lemma body_copy src dst : length dst = 64%nat -> drop 9 (copy_body src dst) = drop 9 src.
Proof. intros H. unfold copy_body. rewrite drop_app_length'; [done | rewrite length_take; lia]. Qed.

(** Clearing a byte other than the status. *)
Lemma status_clear n m : n <> 8%nat -> status (<[n := 0]> m) = status m.
Proof. intros H. unfold status. by rewrite list_lookup_total_insert_ne. Qed.

Lemma slot_length a s k : sim a s -> 0 <= k < rsize -> length (slot k (ring s)) = 64%nat.
Proof.
  intros Hs Hk. destruct (sm_ring _ _ Hs) as [Hl Hf]. unfold slot. rewrite Forall_lookup in Hf.
  eapply (Hf (Z.to_nat k)). apply list_lookup_lookup_total_lt. lia.
Qed.

Lemma set_slot_Forall k m (r : list (list Z)) :
  length m = 64%nat -> Forall (fun m => length m = 64%nat) r -> Forall (fun m => length m = 64%nat) (set_slot k m r).
Proof. intros. by apply Forall_insert. Qed.

(** An access to the slot by the thread; [m] and [x] are what it leaves in memory. *)
Lemma local_client k m x i p t s :
  0 <= k -> length m = 64%nat ->
  local k s (set_phase i p t (set_mem (set_slot k m (ring s)) (set_slot k x (xreq s)) s)).
Proof.
  intros Hk Hm. split; cbn; try done.
  - split; [apply length_insert |]. by apply set_slot_Forall.
  - apply length_insert.
  - intros k' Hk' Hne. by rewrite !slot_set_ne.
Qed.

Lemma set_slot_same k r : set_slot k (slot k r) r = r.
Proof.
  unfold set_slot, slot. destruct (decide (Z.to_nat k < length r)%nat).
  - apply list_insert_id. by apply list_lookup_lookup_total_lt.
  - apply list_insert_ge. lia.
Qed.

Section Client.
Context (a : gmap Z request) (s : state) (i : Z) (q : request).
Hypothesis (Hs : sim a s) (Hi : a !! i = Some q).

Let k : Z := q_idx q.

Lemma k_range : 0 <= k < rsize /\ 0 <= q_no q < c_next s.
Proof. destruct (sm_range _ _ Hs _ _ Hi) as [? _]. split; [apply ring_idx_range; lia | done]. Qed.

Lemma alone j p :
  holding (q_stage q) = true -> a !! j = Some p -> j <> i -> q_idx p = q_idx q -> holding (q_stage p) = false.
Proof. intros Hst Hp Hne Hidx. destruct (sm_excl _ _ Hs _ _ _ _ Hp Hi Hne Hidx); [done | congruence]. Qed.

(** The thread of [q] leaves [m] and [x] in its slot, and [q] at stage [g]. *)
Lemma client_moves g m x :
  holding (q_stage q) = true -> holding g = true -> (forall n v, g = SClear n v -> (0 < n < 64)%nat) ->
  served g = served (q_stage q) -> q_stage q <> SPolled -> g <> SPolled -> length m = 64%nat -> status m = status_of g ->
  (disturbed s = false -> body_of (mk_request (q_no q) g (q_msg q) (q_args q)) m) ->
  xreq_of (mk_request (q_no q) g (q_msg q) (q_args q)) x ->
  (forall m, held_of q m = None) -> (forall m, held_of (mk_request (q_no q) g (q_msg q) (q_args q)) m = None) ->
  moves i q g s (set_phase i (phase_of g) (view q) (set_mem (set_slot k m (ring s)) (set_slot k x (xreq s)) s)).
Proof.
  intros Hst Hg Hcl Hsv Hp Hgp Hm Hstat Hb Hx Hh Hh'. destruct k_range as [Hk Hn].
  destruct (sm_range _ _ Hs _ _ Hi) as [_ Hr]. pose proof (sm_owned _ _ Hs _ _ Hi Hst) as Ho.
  destruct (sm_ring _ _ Hs) as [R1 _]. pose proof (sm_xreq _ _ Hs) as X1.
  split; cbn; try done; [apply local_client; [lia | done] | by left | by rewrite Hsv | |].
  - intros k' Hk'. destruct (decide (k' = q_idx q)) as [-> | Hne]; [| by right].
    apply (ow_polled _ _ Ho) in Hk'. done.
  - split; change (q_idx (mk_request (q_no q) g (q_msg q) (q_args q))) with k; cbn [set_phase set_thread set_mem ring xreq polled held];
      rewrite ?slot_set by lia; [done | done | done | |].
    + split; [| done]. intros E. apply (ow_polled _ _ Ho) in E. done.
    + exists []. rewrite Hh'. destruct (ow_held _ _ Ho) as [m' E]. rewrite Hh in E. exact E.
Qed.

Lemma alone_grant j p :
  q_stage q = SAlloc -> status (slot k (ring s)) = shmipc_STATUS_EMPTY ->
  a !! j = Some p -> j <> i -> q_idx p = q_idx q -> holding (q_stage p) = false.
Proof.
  intros Hst Hemp Hp Hne Hidx. destruct (decide (served (q_stage p) = false)) as [Hns | Hns].
  - destruct Hne. apply (same_slot a s j i p q); try done.
    + destruct (sm_range _ _ Hs _ _ Hp) as [_ Hr]. rewrite Hns in Hr. destruct (Z.lt_ge_cases (q_no p) (s_next s)); [naive_solver | done].
    + destruct (sm_range _ _ Hs _ _ Hi) as [_ Hr]. rewrite Hst in Hr. cbn in Hr.
      destruct (Z.lt_ge_cases (q_no q) (s_next s)); [naive_solver | done].
  - destruct (holding (q_stage p)) eqn:Hh; [exfalso | done].
    pose proof (ow_status _ _ (sm_owned _ _ Hs _ _ Hp Hh)) as E. rewrite Hidx in E. fold k in E. rewrite Hemp in E.
    destruct (q_stage p); done.
Qed.

(** No other thread is at the slot, not even to clear it. *)
Lemma calm_grant j p :
  q_stage q = SAlloc -> status (slot k (ring s)) = shmipc_STATUS_EMPTY -> being_cleared k s = false ->
  a !! j = Some p -> j <> i -> q_idx p = q_idx q -> q_stage p = SAlloc.
Proof.
  intros Hst Hemp Hcl Hp Hne Hidx. pose proof (alone_grant j p Hst Hemp Hp Hne Hidx) as Hh.
  destruct (q_stage p) eqn:Ep; try done. exfalso.
  assert (Ht : threads s !! j = Some (view p)) by (by rewrite (sm_threads _ _ Hs), lookup_fmap, Hp).
  assert (E : being_cleared k s = true); [| congruence].
  unfold being_cleared. apply existsb_exists. exists (j, view p). split.
  - by apply list_elem_of_In, elem_of_map_to_list.
  - cbn. rewrite Ep. cbn. by apply Z.eqb_eq.
Qed.

Lemma grant_moves :
  q_stage q = SAlloc -> status (slot k (ring s)) = shmipc_STATUS_EMPTY ->
  moves i q SGranted s (set_phase i Granted (view q) (set_disturbed (disturbed s || being_cleared k s) s)).
Proof.
  intros Hst Hemp. destruct k_range as [Hk Hn].
  destruct (sm_range _ _ Hs _ _ Hi) as [_ Hr]. rewrite Hst in Hr.
  destruct (sm_unowned _ _ Hs k Hk) as [_ Hp Hh].
  { intros j p Hp Hidx. destruct (decide (j = i)) as [-> |]; [| by eapply alone_grant].
    replace p with q by congruence. by rewrite Hst. }
  split; try done; [| by left | |].
  - split; try done. cbn. by intros [? _]%orb_false_iff.
  - cbn. intros k' Hk'. right. split; [| done]. intros ->. done.
  - split; change (q_idx _) with k; cbn [set_phase set_thread set_disturbed ring xreq polled held]; try done. by exists [].
Qed.

End Client.

(** The records that do not change. *)
Definition same_records (s s' : state) : Prop :=
  sent s' = sent s /\ received s' = received s /\ answered s' = answered s /\ returned s' = returned s.

Lemma set_mem_same s : set_mem (ring s) (xreq s) s = s.
Proof. by destruct s. Qed.

(** The step leaves the thread of [q] at stage [g], with [m] and [x] in the slot. *)
Ltac client_at g m x :=
  match goal with
  | Hs : sim _ ?s, Hi : _ !! ?i = Some ?q, Ho : owned ?q ?s |- _ =>
      exists g; split; [by constructor |];
      split; [| split; [done |]; split; [done |]; split;
                [intros ? ?; eapply alone; [exact Hs | exact Hi | match goal with Eq : q_stage q = _ |- _ => by rewrite Eq end]
                | intros _ ?; congruence]];
      replace (set_phase i _ _ _)
        with (set_phase i (phase_of g) (view q)
                (set_mem (set_slot (q_idx q) m (ring s)) (set_slot (q_idx q) x (xreq s)) s))
        by (rewrite ?set_slot_same, ?set_mem_same; reflexivity);
      destruct Ho; unfold body_of, xreq_of in *;
      match goal with Eq : q_stage q = _ |- _ =>
        rewrite Eq in *; eapply client_moves; [exact Hs | exact Hi | ..];
        unfold held_of, body_of, xreq_of; cbn [q_stage q_msg q_args]; intros; rewrite ?Eq;
        first [discriminate | done
          | unfold set_status, copy_body; rewrite ?length_insert, ?length_app, ?length_take, ?length_drop; lia
          | rewrite ?status_set, ?status_copy, ?body_set, ?body_copy, ?status_clear by (done || lia); done
          | by rewrite ?body_set by done; auto
          | match goal with E : SClear _ _ = SClear _ _ |- _ => injection E as <- <-; lia end]
      end
  end.

Lemma client_step_moves a s s' i :
  sim a s -> client_step i s = Some s' ->
  exists q, a !! i = Some q /\
    ((exists n v, q_stage q = SClear n v /\ (8 <= n)%nat /\ shmipc_mgr_dealloc_slot i (view q) s = Some s') \/
     exists g, advances (q_stage q) g /\ moves i q g s s' /\ same_records s s' /\
       (polled s' = polled s /\ s_next s' = s_next s /\ answer_of g = answer_of (q_stage q)) /\
       (forall j p, a !! j = Some p -> j <> i -> q_idx p = q_idx q -> holding (q_stage p) = false) /\
       (disturbed s' = false -> q_stage q = SAlloc ->
        forall j p, a !! j = Some p -> j <> i -> q_idx p = q_idx q -> q_stage p = SAlloc)).
Proof.
  intros Hs E. unfold client_step in E. rewrite (sm_threads _ _ Hs), lookup_fmap in E.
  destruct (a !! i) as [q |] eqn:Hi; [| done]. cbn in E. exists q. split; [done |].
  destruct (k_range _ _ _ _ Hs Hi) as [Hk Hn]. pose proof (slot_length _ _ _ Hs Hk) as Hlen.
  pose proof (sm_msg _ _ Hs _ _ Hi) as Hml.
  destruct (decide (q_stage q = SAlloc)) as [Eq | Hna].
  { right. rewrite Eq in *. unfold shmipc_mgr_alloc_slot in E. cbn [view t_phase t_ticket phase_of] in E.
    rewrite Eq in E. cbn [phase_of] in E. case_if_in E; [| done]. injection E as <-.
    exists SGranted. split; [constructor |]. split; [by apply (grant_moves a) |]. split; [done |]. split; [done |].
    split; [intros j p; by apply (alone_grant a s i q) |].
    intros [_ Hc]%orb_false_iff _ j p. by apply (calm_grant a s i q). }
  destruct (holding (q_stage q)) eqn:Hho.
  2: { left. destruct (q_stage q) eqn:Eq; try done. cbn in Hho, E. exists n, v. split; [done |].
       apply Nat.leb_gt in Hho. split; [lia | done]. }
  pose proof (sm_owned _ _ Hs _ _ Hi Hho) as Ho. pose proof (ow_status _ _ Ho) as Hst.
  destruct (q_stage q) as [| | | | | | | | v | v | m v | v | n v] eqn:Eq; cbn [phase_of] in E; try done;
    [.. | destruct (decide (n = 8%nat)) as [-> | H8]; [left; eauto |]]; right;
    unfold shmipc_mgr_alloc_slot, prepare_op, shmipc_mgr_put_msg, read_ret, shmipc_mgr_dealloc_slot in E;
    cbn [view t_phase t_ticket t_msg t_args] in E;
    rewrite ?Eq in E; cbn [phase_of] in E; change (ring_idx (q_no q)) with (q_idx q) in E;
    try (rewrite Hst in E; cbn in E; discriminate E); rewrite ?Hst in E; cbn [status_of] in E.
  - injection E as <-.
    client_at SReserved (set_status shmipc_STATUS_RESERVED (slot (q_idx q) (ring s))) (slot (q_idx q) (xreq s)).
  - injection E as <-. client_at SPrepared (slot (q_idx q) (ring s)) (q_args q).
  - injection E as <-.
    client_at SCopied (copy_body (q_msg q) (slot (q_idx q) (ring s))) (slot (q_idx q) (xreq s)).
  - injection E as <-.
    client_at SPosted (set_status shmipc_STATUS_READY_FOR_SERVER (slot (q_idx q) (ring s))) (slot (q_idx q) (xreq s)).
  - injection E as <-. client_at (SSeen v) (slot (q_idx q) (ring s)) (slot (q_idx q) (xreq s)).
  - injection E as <-.
    client_at (SBack (slot (q_idx q) (ring s)) v) (slot (q_idx q) (ring s)) (slot (q_idx q) (xreq s)).
  - injection E as <-. pose proof (ow_xreq _ _ Ho) as Hx. unfold xreq_of in Hx. rewrite Eq in Hx. rewrite Hx.
    client_at (SDone v) (slot (q_idx q) (ring s)) (slot (q_idx q) (xreq s)).
  - injection E as <-.
    client_at (SClear 1 v) (<[0%nat := 0]> (slot (q_idx q) (ring s))) (slot (q_idx q) (xreq s)).
  - pose proof (proj1 (Nat.leb_le n 8) Hho) as Hle. rewrite (proj2 (Nat.eqb_neq n 63)) in E by lia. injection E as <-.
    assert (Hc : (n < 63)%nat) by lia. assert (Hho' : holding (SClear (S n) v) = true) by (apply Nat.leb_le; lia).
    client_at (SClear (S n) v) (<[n := 0]> (slot (q_idx q) (ring s))) (slot (q_idx q) (xreq s)).
Qed.

(** ** The steps of the server *)

Lemma owner_or_free (a : gmap Z request) k :
  (exists i q, a !! i = Some q /\ q_idx q = k /\ holding (q_stage q) = true) \/
  (forall i q, a !! i = Some q -> q_idx q = k -> holding (q_stage q) = false).
Proof.
  destruct (decide (Exists (fun e => q_idx (snd e) = k /\ holding (q_stage (snd e)) = true) (map_to_list a))) as [H | H].
  - left. apply Exists_exists in H as ([i q] & Hin%elem_of_map_to_list & ?). eauto.
  - right. intros i q Hi Hk. destruct (holding (q_stage q)) eqn:Hh; [| done].
    destruct H. apply Exists_exists. exists (i, q). by rewrite elem_of_map_to_list.
Qed.

Lemma owner a s k :
  sim a s -> 0 <= k < rsize -> ~ unowned k s ->
  exists i q, a !! i = Some q /\ q_idx q = k /\ holding (q_stage q) = true /\ owned q s.
Proof.
  intros Hs Hk Hu. destruct (owner_or_free a k) as [(i & q & Hi & Hq & Hst) | Hfree].
  - exists i, q. split; [done |]. split; [done |]. split; [done |]. by eapply (sm_owned _ _ Hs).
  - destruct Hu. by apply (sm_unowned _ _ Hs).
Qed.

Lemma threads_view a s i q g :
  sim a s -> a !! i = Some q -> phase_of g = phase_of (q_stage q) ->
  threads s = <[i := view (mk_request (q_no q) g (q_msg q) (q_args q))]> (threads s).
Proof.
  intros Hs Hi Hp. symmetry. apply insert_id. rewrite (sm_threads _ _ Hs), lookup_fmap, Hi. cbn.
  unfold view. cbn. by rewrite Hp.
Qed.

Lemma poll_moves a s s' :
  sim a s -> shmipc_mgr_get_msg_nowait s = Some s' ->
  exists i q, a !! i = Some q /\ q_stage q = SPosted /\ q_no q = s_next s /\ polled s = None /\
    moves i q SPolled s s' /\ same_records s s' /\ polled s' = Some (q_idx q).
Proof.
  intros Hs E. unfold shmipc_mgr_get_msg_nowait in E. destruct (polled s) eqn:Ep; [done |].
  destruct (Z.eqb_spec (status (slot (ring_idx (s_next s)) (ring s))) shmipc_STATUS_READY_FOR_SERVER) as [Hst |];
    [| done]. injection E as <-. pose proof (sm_next _ _ Hs) as Hn. pose proof (tickets_bound _ _ Hs) as Hb. pose proof rsize_pos as Hr.
  destruct (owner a s (ring_idx (s_next s)) Hs) as (i & q & Hi & Hq & Hna & Ho).
  { apply ring_idx_range. lia. }
  { intros [Hu _ _]. by rewrite Hst in Hu. }
  pose proof (ow_status _ _ Ho) as Ho1. rewrite Hq, Hst in Ho1.
  pose proof (ow_polled _ _ Ho) as Ho2. rewrite Ep in Ho2.
  assert (Eq : q_stage q = SPosted).
  { destruct (q_stage q); try discriminate Ho1; [done |]. discriminate (proj2 Ho2 eq_refl). }
  destruct (sm_range _ _ Hs _ _ Hi) as [Rq Sq]. rewrite Eq in Sq. cbn in Sq.
  assert (Hno : q_no q = s_next s).
  { unfold q_idx in Hq. rewrite !ring_idx_mod in Hq by lia.
    assert (s_next s <= q_no q) by (destruct (Z.lt_ge_cases (q_no q) (s_next s)); [naive_solver | done]).
    pose proof (Z.div_mod (q_no q) rsize ltac:(lia)). pose proof (Z.div_mod (s_next s) rsize ltac:(lia)).
    assert (q_no q / rsize = s_next s / rsize) by nia. nia. }
  exists i, q. rewrite <- Hq. split; [done |]. split; [done |]. split; [done |]. split; [done |].
  split; [| done]. split; cbn [c_next s_next polled]; try done.
  - split; cbn; try done. intros k' Hk'. rewrite Ep. split; [intros [= <-] | ]; done.
  - cbn. apply (threads_view a); [done | done | by rewrite Eq].
  - right. lia.
  - split; [lia | done].
  - intros k [= <-]. left. split; [done |]. split; [done | lia].
  - destruct Ho as [A B C D F]. unfold body_of, xreq_of in *. rewrite Eq in *. split; cbn; try done.
    destruct F as [m F]. exists m. unfold held_of in F. rewrite Eq in F. exact F.
Qed.

(** The server changes the slot of [q] and what it holds there. *)
Lemma server_moves a s i q g s' m :
  sim a s -> a !! i = Some q -> holding g = true -> (forall n v, g <> SClear n v) -> g <> SPolled ->
  phase_of g = phase_of (q_stage q) -> served g = served (q_stage q) ->
  local (q_idx q) s s' -> threads s' = threads s -> c_next s' = c_next s -> s_next s' = s_next s ->
  polled s' <> Some (q_idx q) ->
  status (slot (q_idx q) (ring s')) = status_of g ->
  (disturbed s' = false -> body_of (mk_request (q_no q) g (q_msg q) (q_args q)) (slot (q_idx q) (ring s'))) ->
  xreq_of (mk_request (q_no q) g (q_msg q) (q_args q)) (slot (q_idx q) (xreq s')) ->
  held s' !! q_idx q = held_of (mk_request (q_no q) g (q_msg q) (q_args q)) m ->
  moves i q g s s'.
Proof.
  intros Hs Hi Hg Hgc Hgp Hph Hsv L Ht Hc Hn Hp Hst Hb Hx Hh.
  destruct (sm_range _ _ Hs _ _ Hi) as [_ Sq]. split; try done.
  - rewrite Ht. by apply (threads_view a).
  - by left.
  - by rewrite Hsv, Hn.
  - intros k Hk. right. split; [congruence | done].
  - intros n v E. by destruct (Hgc n v).
  - split; try done. by exists m.
Qed.

Lemma take_moves a s s' :
  sim a s -> pollReqFromApps s = Some s' ->
  exists i q, a !! i = Some q /\ q_stage q = SPolled /\ q_no q = s_next s - 1 /\ polled s = Some (q_idx q) /\
    moves i q SHandled s s' /\ polled s' = None /\ s_next s' = s_next s /\
    sent s' = sent s /\ answered s' = answered s /\ returned s' = returned s /\
    exists m, (disturbed s = false -> drop 9 m = drop 9 (q_msg q)) /\ received s' = received s ++ [(m, q_args q)].
Proof.
  intros Hs E. unfold pollReqFromApps in E. destruct (polled s) as [k |] eqn:Ep; [| done]. injection E as <-.
  destruct (sm_polled _ _ Hs k Ep) as (i & q & Hi & Eq & <- & Hno).
  destruct (k_range _ _ _ _ Hs Hi) as [Hk Hn]. pose proof (slot_length _ _ _ Hs Hk) as Hlen.
  assert (Hna : holding (q_stage q) = true) by (by rewrite Eq).
  destruct (sm_owned _ _ Hs _ _ Hi Hna) as [A B C D F]. unfold body_of, xreq_of in *. rewrite Eq in *.
  destruct (sm_ring _ _ Hs) as [R1 _].
  exists i, q. split; [done |]. split; [done |]. split; [done |]. split; [done |].
  split; [| cbn; rewrite C; eauto 10].
  eapply (server_moves a s i q SHandled); cbn [c_next s_next polled ring xreq held threads]; rewrite ?Eq; try done.
  - split; cbn; try done.
    + split; [apply length_insert |]. apply set_slot_Forall. unfold set_status. by rewrite length_insert.
    + intros k' H0 Hne. by rewrite slot_set_ne by lia.
    + intros k' Hne. rewrite Ep. split; [done |]. intros [= E]. done.
    + intros k' Hne. by rewrite lookup_insert_ne.
  - rewrite slot_set by lia. by apply status_set.
  - unfold body_of. cbn. rewrite slot_set by lia. by rewrite body_set.
  - rewrite lookup_insert_eq. unfold held_of. cbn. by rewrite C, Hno.
Qed.

Lemma held_owner a s k f :
  sim a s -> held s !! k = Some f ->
  exists i q m, a !! i = Some q /\ q_idx q = k /\ q_stage q = SHandled /\ owned q s /\ held_of q m = Some f /\
    polled s <> Some (q_idx q).
Proof.
  intros Hs Hf. destruct (owner a s k Hs) as (i & q & Hi & <- & Hna & Ho).
  { apply (sm_held _ _ Hs). eauto. }
  { intros [_ _ Hu]. congruence. }
  destruct (ow_held _ _ Ho) as [m Hm]. rewrite Hf in Hm. exists i, q, m. split_and!; try done.
  { unfold held_of in Hm. by destruct (q_stage q). }
  rewrite (ow_polled _ _ Ho). intros E. unfold held_of in Hm. by rewrite E in Hm.
Qed.

(** The server writes its answer. *)
Lemma sim_answer a s s' k v :
  sim a s -> set_ret k v s = Some s' ->
  sim a s' /\ s_next s' = s_next s /\ c_next s' = c_next s /\ polled s' = polled s /\ same_records s s' /\
  disturbed s' = disturbed s.
Proof.
  intros Hs E. unfold set_ret in E. destruct (held s !! k) as [f |] eqn:Eh; [| done]. injection E as <-.
  split; [| by repeat split]. destruct (held_owner _ _ _ _ Hs Eh) as (i & q & m & Hi & Ek & Eq & Ho & _ & _).
  pose proof (sm_xreq _ _ Hs) as X1. pose proof (sm_held _ _ Hs k ltac:(eauto)) as Hk.
  split; cbn; try apply Hs; [unfold set_slot; by rewrite length_insert | |].
  - intros j p Hp Hh. destruct (sm_owned _ _ Hs _ _ Hp Hh) as [A B C D F]. split; try done. cbn.
    destruct (decide (q_idx p = k)) as [Ep | Ep].
    + assert (j = i) as ->.
      { destruct (decide (j = i)) as [| Hne]; [done |]. exfalso.
        destruct (sm_excl _ _ Hs _ _ _ _ Hp Hi Hne ltac:(congruence)) as [E | E]; [congruence | by rewrite Eq in E]. }
      replace p with q by congruence. unfold xreq_of. by rewrite Eq.
    + rewrite slot_set_ne; [done | lia | | done]. destruct (k_range _ _ _ _ Hs Hp) as [[? _] _]. done.
  - intros k' Hk' Hfree. by destruct (sm_unowned _ _ Hs k' Hk' Hfree).
Qed.

Lemma complete_moves a s s' k :
  sim a s -> markComplete k s = Some s' ->
  exists i q v, a !! i = Some q /\ q_stage q = SHandled /\ moves i q (SCompleted v) s s' /\ polled s' = polled s /\
    s_next s' = s_next s /\ sent s' = sent s /\ received s' = received s /\ returned s' = returned s /\
    disturbed s' = disturbed s /\ answered s' = answered s ++ [(q_no q, v)].
Proof.
  intros Hs E. unfold markComplete in E. destruct (held s !! k) as [[n m args] |] eqn:Eh; try done.
  injection E as <-. destruct (held_owner _ _ _ _ Hs Eh) as (i & q & m' & Hi & <- & Eq & [A B C D F] & Hh & Hp).
  destruct (k_range _ _ _ _ Hs Hi) as [Hk Hn]. pose proof (slot_length _ _ _ Hs Hk) as Hlen.
  destruct (sm_ring _ _ Hs) as [R1 _].
  unfold held_of, body_of, xreq_of in *. rewrite Eq in *. injection Hh as <- <- <-.
  exists i, q, (slot (q_idx q) (xreq s)). split; [done |]. split; [done |]. split; [| done].
  eapply (server_moves a s i q (SCompleted _) _ m'); cbn [c_next s_next polled ring xreq held threads disturbed]; rewrite ?Eq; try done.
  - split; cbn; try done.
    + split; [apply length_insert |]. apply set_slot_Forall. unfold set_status. by rewrite length_insert.
    + intros k' H0 Hne. by rewrite slot_set_ne by lia.
    + intros k' Hne. by rewrite lookup_delete_ne.
  - rewrite slot_set by lia. by apply status_set.
  - intros Hd. unfold body_of. cbn. rewrite slot_set by lia. rewrite body_set. by apply B.
  - by rewrite lookup_delete_eq.
Qed.

(** ** Requests come and go *)

Lemma sim_start a s s' i msg args :
  sim a s -> alloc_slot_begin i msg args s = Some s' ->
  a !! i = None /\ sim (<[i := mk_request (c_next s) SAlloc msg args]> a) s'.
Proof.
  intros Hs E. unfold alloc_slot_begin in E. case_if_in E; [| done].
  rewrite (sm_threads _ _ Hs), lookup_fmap in E. destruct (a !! i) eqn:Hi; [done |]. cbn in E. injection E as <-.
  pose proof (sm_next _ _ Hs) as Hn. split; [done |].
  assert (Hold : forall j p, a !! j = Some p -> j <> i) by (intros j p ? ->; congruence).
  split; cbn [ring xreq c_next s_next threads polled held disturbed]; [apply Hs | apply Hs | lia | | | | | | | | | | | apply Hs | |].
  - by rewrite fmap_insert.
  - intros j [p [[<- _] | [_ ?]]%lookup_insert_Some]; [lia | apply (sm_ids _ _ Hs); eauto].
  - intros j1 j2 p1 p2 [[<- <-] | [? G1]]%lookup_insert_Some [[<- <-] | [? G2]]%lookup_insert_Some; cbn; intros E;
      [done | | | by eapply (sm_inj _ _ Hs)].
    + apply (sm_range _ _ Hs) in G2 as [? _]. lia.
    + apply (sm_range _ _ Hs) in G1 as [? _]. lia.
  - intros n Hr. destruct (decide (n = c_next s)) as [-> | Hne].
    + exists i. eexists. rewrite lookup_insert_eq. done.
    + destruct (sm_open _ _ Hs n) as (j & p & Hp & ?); [lia |]. exists j, p.
      rewrite lookup_insert_ne; [done |]. intros <-. by eapply Hold.
  - intros j p [[<- <-] | [? G1]]%lookup_insert_Some; cbn.
    + split; [lia |]. split; [done | lia].
    + destruct (sm_range _ _ Hs _ _ G1). split; [lia | done].
  - intros j1 j2 p1 p2 [[<- <-] | [? G1]]%lookup_insert_Some [[<- <-] | [? G2]]%lookup_insert_Some; cbn; try tauto.
    by apply (sm_excl _ _ Hs).
  - intros Hd j1 j2 p1 p2 [[<- <-] | [? G1]]%lookup_insert_Some [[<- <-] | [? G2]]%lookup_insert_Some; cbn; try tauto.
    by apply (sm_calm _ _ Hs Hd).
  - intros j p [[<- <-] | [? G1]]%lookup_insert_Some Hst; [done |].
    by destruct (sm_owned _ _ Hs _ _ G1 Hst).
  - intros k Hk Hfree. destruct (sm_unowned _ _ Hs k Hk); [| done].
    intros j p Hp. apply Hfree with (i := j). rewrite lookup_insert_ne; [done |]. intros <-. by eapply Hold.
  - intros k Hk. destruct (sm_polled _ _ Hs k Hk) as (j & p & Hp & ?). exists j, p.
    rewrite lookup_insert_ne; [done |]. intros <-. by eapply Hold.
  - intros j p [[<- <-] | [? G1]]%lookup_insert_Some; cbn; [by apply Nat.eqb_eq | by eapply (sm_msg _ _ Hs)].
  - intros j p n v [[<- <-] | [? G1]]%lookup_insert_Some; [done | by eapply (sm_clear _ _ Hs)].
Qed.

(** A byte of the slot from the status on is cleared, and the thread of [q] no longer has the
    slot afterwards. *)
Section Clear.
Context (a a' : gmap Z request) (s s' : state) (i : Z) (q : request) (n : nat) (v : list Z).
Hypothesis (Hs : sim a s) (Hi : a !! i = Some q) (Eq : q_stage q = SClear n v) (Hn : (8 <= n < 64)%nat).
Hypothesis (Hring : ring s' = set_slot (q_idx q) (<[n := 0]> (slot (q_idx q) (ring s))) (ring s)).
Hypothesis (Hxreq : xreq s' = xreq s) (Hc : c_next s' = c_next s) (Hsn : s_next s' = s_next s).
Hypothesis (Hpol : polled s' = polled s) (Hheld : held s' = held s) (Hdis : disturbed s' = disturbed s).
Hypothesis (Hthreads : threads s' = view <$> a') (Hother : forall j, j <> i -> a' !! j = a !! j).
Hypothesis (Hmine : forall q', a' !! i = Some q' ->
  q_no q' = q_no q /\ q_msg q' = q_msg q /\ exists m, q_stage q' = SClear m v /\ (8 < m < 64)%nat).

Lemma clear_cases j p : a' !! j = Some p ->
  (j = i /\ q_no p = q_no q /\ q_msg p = q_msg q /\ exists m, q_stage p = SClear m v /\ (8 < m < 64)%nat) \/
  (j <> i /\ a !! j = Some p).
Proof.
  intros Hp. destruct (decide (j = i)) as [-> | Hne]; [left; split; [done | by apply Hmine] | right].
  by rewrite <- Hother.
Qed.

Lemma clear_free j p : a' !! j = Some p -> j = i -> holding (q_stage p) = false.
Proof.
  intros Hp ->. destruct (Hmine p Hp) as (_ & _ & m & -> & Hm). cbn [holding]. apply Nat.leb_gt. lia.
Qed.

Lemma clear_local : local (q_idx q) s s'.
Proof.
  destruct (k_range _ _ _ _ Hs Hi) as [Hk _]. split; rewrite ?Hring, ?Hxreq, ?Hpol, ?Hheld, ?Hdis; try done.
  - split; [apply length_insert |]. apply set_slot_Forall. rewrite length_insert. by apply (slot_length a).
  - intros k' H0 Hne. by rewrite slot_set_ne by lia.
Qed.

Lemma clear_status : n <> 8%nat -> status (slot (q_idx q) (ring s')) = status (slot (q_idx q) (ring s)).
Proof.
  intros Hne. destruct (k_range _ _ _ _ Hs Hi) as [Hk _]. destruct (sm_ring _ _ Hs) as [R1 _].
  rewrite Hring, slot_set by lia. by apply status_clear.
Qed.

Lemma clear_owned j p : a !! j = Some p -> j <> i -> holding (q_stage p) = true -> owned p s'.
Proof.
  intros Hp Hne Hh. pose proof (sm_owned _ _ Hs _ _ Hp Hh) as Ho. destruct (sm_range _ _ Hs _ _ Hp) as [Rp _].
  destruct (decide (q_idx p = q_idx q)) as [Hidx | Hidx]; [| by apply (local_owned _ _ _ _ clear_local); [lia | |]].
  destruct (sm_excl _ _ Hs _ _ _ _ Hp Hi Hne Hidx) as [E | E]; [congruence |].
  rewrite Eq in E. cbn [holding] in E. apply Nat.leb_gt in E.
  destruct Ho as [A B C D F]. split; rewrite ?Hxreq, ?Hpol, ?Hheld, ?Hdis; try done.
  - rewrite Hidx in *. by rewrite clear_status by lia.
  - intros Hd. exfalso. destruct (sm_calm _ _ Hs Hd _ _ _ _ Hp Hi Hne Hidx) as [E' | E']; [by rewrite E' in Hh | congruence].
Qed.

Lemma clear_unowned k :
  0 <= k < rsize -> (forall j p, a' !! j = Some p -> q_idx p = k -> holding (q_stage p) = false) -> unowned k s'.
Proof.
  intros Hk Hfree. destruct (k_range _ _ _ _ Hs Hi) as [Hkq _]. destruct (sm_ring _ _ Hs) as [R1 _].
  assert (Hfree' : forall j p, a !! j = Some p -> j <> i -> q_idx p = k -> holding (q_stage p) = false).
  { intros j p Hp Hne. apply (Hfree j). by rewrite Hother. }
  destruct (decide (k = q_idx q)) as [-> | Hne].
  2: { apply (local_unowned _ _ _ _ clear_local); [lia | done |]. apply (sm_unowned _ _ Hs); [done |].
       intros j p Hp Hidx. apply (Hfree' j p); [done | | done]. intros ->. congruence. }
  destruct (decide (n = 8%nat)) as [E8 | E8].
  - destruct (sm_owned _ _ Hs _ _ Hi ltac:(by rewrite Eq, E8)) as [A B C D [m F]].
    split; rewrite ?Hpol, ?Hheld; [| by rewrite D, Eq |].
    + rewrite Hring, slot_set by lia. unfold status. rewrite E8, list_lookup_total_insert_eq; [done |].
      rewrite (slot_length a) by done. lia.
    + unfold held_of in F. by rewrite Eq in F.
  - destruct (sm_unowned _ _ Hs (q_idx q) Hkq) as [A B C].
    { intros j p Hp Hidx. destruct (decide (j = i)) as [-> |]; [| by eapply Hfree'].
      replace p with q by congruence. rewrite Eq. apply Nat.leb_gt. lia. }
    split; rewrite ?Hpol, ?Hheld; try done. by rewrite clear_status.
Qed.

Lemma sim_clear : sim a' s'.
Proof.
  destruct (sm_range _ _ Hs _ _ Hi) as [Rq Sq]. rewrite Eq in Sq. cbn in Sq.
  assert (Hlt : q_no q < s_next s) by (by apply Sq).
  split; rewrite ?Hxreq, ?Hc, ?Hsn, ?Hpol, ?Hheld, ?Hdis; try apply Hs.
  - destruct (sm_ring _ _ Hs) as [R1 R2]. destruct (lc_ring _ _ _ clear_local) as [-> ?]. auto.
  - exact Hthreads.
  - intros j [p [(-> & _) | (_ & Hp)]%clear_cases]; apply (sm_ids _ _ Hs); eauto.
  - intros j1 j2 p1 p2 [(-> & E1 & _) | (_ & H1)]%clear_cases [(-> & E2 & _) | (_ & H2)]%clear_cases Hno; [done | ..];
      eapply (sm_inj _ _ Hs); eauto; congruence.
  - intros m Hm. destruct (sm_open _ _ Hs m Hm) as (j & p & Hp & <-). exists j, p.
    rewrite Hother; [done |]. intros ->. replace p with q in Hm by congruence. lia.
  - intros j p [(-> & -> & _ & m & -> & _) | (_ & Hp)]%clear_cases; [done | by eapply (sm_range _ _ Hs)].
  - intros j1 j2 p1 p2 H1 H2 Hne Hidx. destruct (decide (j1 = i)) as [E1 | E1]; [left; by eapply clear_free |].
    destruct (decide (j2 = i)) as [E2 | E2]; [right; by eapply clear_free |].
    rewrite Hother in H1, H2 by done. by eapply (sm_excl _ _ Hs).
  - intros Hd j1 j2 p1 p2 H1 H2 Hne Hidx.
    destruct (clear_cases _ _ H1) as [(-> & N1 & _) | (E1 & G1)], (clear_cases _ _ H2) as [(-> & N2 & _) | (E2 & G2)];
      [done | right | left | by eapply (sm_calm _ _ Hs Hd)].
    + destruct (sm_calm _ _ Hs Hd _ _ _ _ Hi G2 Hne) as [E | E]; [| congruence | done]. unfold q_idx in *. by rewrite <- N1.
    + destruct (sm_calm _ _ Hs Hd _ _ _ _ G1 Hi Hne) as [E | E]; [| done | congruence]. unfold q_idx in *. by rewrite <- N2.
  - intros j p Hp Hh. destruct (clear_cases _ _ Hp) as [(-> & _) | (Hne & Hp')]; [| by eapply clear_owned].
    rewrite (clear_free i p Hp eq_refl) in Hh. done.
  - apply clear_unowned.
  - intros k Hk. destruct (sm_polled _ _ Hs k Hk) as (j & p & Hj & E & ? & ?). exists j, p.
    rewrite Hother; [done |]. intros ->. congruence.
  - intros j p [(-> & _ & -> & _) | (_ & Hp)]%clear_cases; by eapply (sm_msg _ _ Hs).
  - intros j p m w [(-> & _ & _ & m' & -> & Hm) | (_ & Hp)]%clear_cases; [intros [= <- _]; lia | by eapply (sm_clear _ _ Hs)].
Qed.

End Clear.

(** A step of the [memset] from the status on. *)
Lemma clear_step a s s' i q n v :
  sim a s -> a !! i = Some q -> q_stage q = SClear n v -> (8 <= n)%nat -> shmipc_mgr_dealloc_slot i (view q) s = Some s' ->
  (polled s' = polled s /\ s_next s' = s_next s /\ c_next s' = c_next s /\ sent s' = sent s /\
   received s' = received s /\ answered s' = answered s /\ disturbed s' = disturbed s) /\
  ((n = 63%nat /\ sim (delete i a) s' /\ returned s' = returned s ++ [(q_no q, v)]) \/
   ((n < 63)%nat /\ sim (<[i := mk_request (q_no q) (SClear (S n) v) (q_msg q) (q_args q)]> a) s' /\ returned s' = returned s)).
Proof.
  intros Hs Hi Eq Hn E. pose proof (sm_clear _ _ Hs _ _ _ _ Hi Eq) as Hc.
  unfold shmipc_mgr_dealloc_slot in E. cbn [view t_phase t_ticket] in E. rewrite Eq in E. cbn [phase_of] in E.
  change (ring_idx (q_no q)) with (q_idx q) in E. destruct (Nat.eqb_spec n 63) as [E63 | E63]; injection E as <-.
  - split; [by repeat split |]. left. split; [done |]. split; [| done].
    eapply (sim_clear a _ s _ i q n v); try done; try lia; cbn [threads].
    + by rewrite (sm_threads _ _ Hs), fmap_delete.
    + intros j Hne. by apply lookup_delete_ne.
    + intros q'. by rewrite lookup_delete_eq.
  - split; [by repeat split |]. right. split; [lia |]. split; [| done].
    eapply (sim_clear a _ s _ i q n v); try done; try lia; cbn [threads set_phase set_thread set_mem].
    + by rewrite fmap_insert, (sm_threads _ _ Hs).
    + intros j Hne. by apply lookup_insert_ne.
    + intros q'. rewrite lookup_insert_eq. intros [= <-]. split; [done |]. split; [done |]. exists (S n). split; [done | lia].
Qed.

(** ** The records *)

Lemma hist_init : sim ∅ init /\ history ∅ init.
Proof.
  pose proof rsize_pos. split; split; cbn; try done; try lia; try (by intros ? [? ?]).
  - split; [apply length_replicate |]. by apply Forall_replicate.
  - apply length_replicate.
  - intros k Hk _. split; try done. cbn. unfold slot. rewrite lookup_total_replicate_2 by lia. done.
  - split; [constructor |]. by intros n v ?%elem_of_nil.
  - split; [constructor |]. by intros e ?%elem_of_nil.
  - intros n. split; [lia |]. intros [(i & q & ? & _) | ?%elem_of_nil]; done.
Qed.

Lemma hist_start a s s' i msg args :
  sim a s -> history a s -> alloc_slot_begin i msg args s = Some s' ->
  history (<[i := mk_request (c_next s) SAlloc msg args]> a) s'.
Proof.
  intros Hs [A B C C' [D1 D2] E [F1 F2] G K] Hst. destruct (sim_start _ _ _ _ _ _ Hs Hst) as [Hi _].
  unfold alloc_slot_begin in Hst. case_if_in Hst; [| done]. destruct (threads s !! i); [done |]. injection Hst as <-.
  pose proof (sm_next _ _ Hs) as Hn. split; cbn [sent c_next s_next received answered returned polled disturbed]; try done.
  - rewrite length_app. cbn. lia.
  - intros j p [[<- <-] | [? Hp]]%lookup_insert_Some; cbn.
    + rewrite lookup_app_r by lia. replace (_ - _)%nat with 0%nat by lia. done.
    + apply lookup_app_l_Some. by apply B in Hp.
  - intros Hd. rewrite C, fmap_app, take_app_le; [done | | done]. rewrite length_fmap. destruct (polled s); lia.
  - intros j p v [[<- <-] | [? Hp]]%lookup_insert_Some; cbn; [| by eapply E].
    split; [done |]. intros Hin%D2. lia.
  - intros n. split.
    + intros Hr. destruct (decide (n = c_next s)) as [-> | Hne].
      * left. exists i. eexists. rewrite lookup_insert_eq. done.
      * destruct (proj1 (G n)) as [(j & p & Hp & <-) | ?]; [lia | left | by right].
        exists j, p. rewrite lookup_insert_ne; [done |]. intros <-. congruence.
    + intros [(j & p & [[<- <-] | [? Hp]]%lookup_insert_Some & <-) | Hin]; cbn; [lia | |].
      * apply (sm_range _ _ Hs) in Hp. lia.
      * assert (0 <= n < c_next s) by (apply G; by right). lia.
  - intros j p [[<- <-] | [? Hp]]%lookup_insert_Some; cbn; [| by eapply K].
    intros Hin. assert (0 <= c_next s < c_next s) by (apply G; by right). lia.
Qed.

Lemma hist_finish a s s' i q m v :
  sim a s -> history a s -> a !! i = Some q -> q_stage q = SClear m v ->
  (polled s' = polled s /\ s_next s' = s_next s /\ c_next s' = c_next s /\ sent s' = sent s /\
   received s' = received s /\ answered s' = answered s /\ disturbed s' = disturbed s) ->
  returned s' = returned s ++ [(q_no q, v)] -> history (delete i a) s'.
Proof.
  intros Hs [A B C C' [D1 D2] E [F1 F2] G K] Hi Eq (P1 & P2 & P3 & P4 & P5 & P6 & P7) P8.
  split; rewrite ?P1, ?P2, ?P3, ?P4, ?P5, ?P6, ?P7, ?P8; try done.
  - intros j p [_ Hp]%lookup_delete_Some. by apply B in Hp.
  - intros j p v' [_ Hp]%lookup_delete_Some. by eapply E.
  - rewrite fmap_app. split.
    + apply NoDup_app. split; [done |]. split; [| apply NoDup_singleton].
      intros n Hn ->%list_elem_of_singleton. by apply (K i q).
    + intros e [He | ->%list_elem_of_singleton]%elem_of_app; [auto |]. apply (E i q); [done |]. by rewrite Eq.
  - intros n. rewrite G, fmap_app, elem_of_app. change ([(q_no q, v)].*1) with [q_no q]. rewrite list_elem_of_singleton. split.
    + intros [(j & p & Hp & <-) | ?]; [| tauto]. destruct (decide (j = i)) as [-> |].
      * right. right. congruence.
      * left. exists j, p. by rewrite lookup_delete_ne.
    + intros [(j & p & [_ Hp]%lookup_delete_Some & <-) | [? | ->]]; [eauto | tauto | eauto].
  - intros j p [Hne Hp]%lookup_delete_Some. rewrite fmap_app. cbn.
    intros [Hin | Hin%list_elem_of_singleton]%elem_of_app; [by apply (K j p) |].
    apply Hne. symmetry. by eapply (sm_inj _ _ Hs).
Qed.

Lemma hist_move a s s' i q g :
  sim a s -> history a s -> a !! i = Some q ->
  c_next s' = c_next s -> s_next s <= s_next s' -> (q_stage q = SHandled -> q_no q < s_next s') ->
  sent s' = sent s -> returned s' = returned s ->
  (disturbed s' = false ->
   request_of <$> received s' = take (Z.to_nat (s_next s' - if polled s' then 1 else 0)) (request_of <$> sent s)) ->
  Z.of_nat (length (received s')) = s_next s' - (if polled s' then 1 else 0) ->
  (answered s' = answered s /\ answer_of g = answer_of (q_stage q) \/
   exists v, answered s' = answered s ++ [(q_no q, v)] /\ q_stage q = SHandled /\ g = SCompleted v) ->
  history (<[i := mk_request (q_no q) g (q_msg q) (q_args q)]> a) s'.
Proof.
  intros Hs [A B C C' [D1 D2] E [F1 F2] G K] Hi Hcn Hsn Hsv H1 H2 H3 H3' Han.
  split; rewrite ?H1, ?H2, ?Hcn; try done.
  - intros j p [[<- <-] | [? Hp]]%lookup_insert_Some; cbn; [by apply (B i) | by eapply B].
  - destruct Han as [[-> _] | (v & -> & Eq & ->)].
    + split; [done |]. intros n v Hin%D2. lia.
    + rewrite fmap_app. split.
      * apply NoDup_app. split; [done |]. split; [| apply NoDup_singleton].
        intros n Hn ->%list_elem_of_singleton. apply list_elem_of_fmap in Hn as ([n v'] & E1 & Hin). cbn in E1. subst n.
        apply (E i q v' Hi) in Hin. by rewrite Eq in Hin.
      * intros n v' [Hin%D2 | [= -> ->]%list_elem_of_singleton]%elem_of_app; [lia |].
        destruct (sm_range _ _ Hs _ _ Hi) as [? _]. split; [lia | by apply Hsv].
  - intros j p v [[<- <-] | [? Hp]]%lookup_insert_Some; cbn.
    + destruct Han as [[-> ->] | (v' & -> & Eq & ->)]; [by apply (E i) |].
      rewrite elem_of_app, list_elem_of_singleton. split.
      * intros [= <-]. by right.
      * intros [Hin | [= <-]]; [| done]. apply (E i q v Hi) in Hin. by rewrite Eq in Hin.
    + rewrite (E j p v Hp). destruct Han as [[-> _] | (v' & -> & _)]; [done |].
      rewrite elem_of_app, list_elem_of_singleton. split; [tauto |]. intros [? | [= Hno _]]; [done |].
      assert (j = i) by (by eapply (sm_inj _ _ Hs)). congruence.
  - split; [done |]. intros e He%F2. destruct Han as [[-> _] | (v & -> & _)]; [done |]. apply elem_of_app. by left.
  - intros n. rewrite G. split; (intros [(j & p & Hp & <-) | ?]; [left | by right]).
    + destruct (decide (j = i)) as [-> |].
      * exists i. eexists. rewrite lookup_insert_eq. split; [done |]. cbn. congruence.
      * exists j, p. by rewrite lookup_insert_ne.
    + apply lookup_insert_Some in Hp as [[<- <-] | [? Hp]]; eauto.
  - intros j p [[<- <-] | [? Hp]]%lookup_insert_Some; cbn; [by apply (K i) | by eapply K].
Qed.

(** ** Every step *)

(** What a step other than the start of a request does to the requests. *)
Definition progress (a a' : gmap Z request) : Prop :=
  exists i q, a !! i = Some q /\
    ((exists v, q_stage q = SClear 63 v /\ a' = delete i a) \/
     exists g, advances (q_stage q) g /\ a' = <[i := mk_request (q_no q) g (q_msg q) (q_args q)]> a).

Lemma moved a s s' i q g :
  sim a s -> history a s -> a !! i = Some q -> advances (q_stage q) g -> moves i q g s s' ->
  (forall j p, a !! j = Some p -> j <> i -> q_idx p = q_idx q -> holding (q_stage p) = false) ->
  (disturbed s' = false -> q_stage q = SAlloc ->
   forall j p, a !! j = Some p -> j <> i -> q_idx p = q_idx q -> q_stage p = SAlloc) ->
  sent s' = sent s -> returned s' = returned s ->
  (disturbed s' = false ->
   request_of <$> received s' = take (Z.to_nat (s_next s' - if polled s' then 1 else 0)) (request_of <$> sent s)) ->
  Z.of_nat (length (received s')) = s_next s' - (if polled s' then 1 else 0) ->
  (answered s' = answered s /\ answer_of g = answer_of (q_stage q) \/
   exists v, answered s' = answered s ++ [(q_no q, v)] /\ q_stage q = SHandled /\ g = SCompleted v) ->
  exists a', sim a' s' /\ history a' s' /\ progress a a'.
Proof.
  intros Hs Hh Hi Hadv Hm Hal Hca H1 H2 H3 H3' H4. eexists. split; [by apply (sim_move a s s' i q g) |].
  split.
  { eapply hist_move; [exact Hs | exact Hh | exact Hi | apply (mv_c_next _ _ _ _ _ Hm) | | | exact H1 | exact H2 | exact H3 | exact H3' | exact H4].
    - destruct (mv_s_next _ _ _ _ _ Hm) as [-> | [-> _]]; lia.
    - intros Eq. rewrite Eq in Hadv. inversion Hadv; subst g. by apply (mv_served _ _ _ _ _ Hm). }
 exists i, q. split; [done |]. right. eauto.
Qed.

Lemma step_sim a s s' l :
  sim a s -> history a s -> step l s = Some s' ->
  exists a', sim a' s' /\ history a' s' /\
    match l with
    | Start i msg args => a !! i = None /\ a' = <[i := mk_request (c_next s) SAlloc msg args]> a
    | Answer _ _ => a' = a
    | _ => progress a a'
    end.
Proof.
  intros Hs Hh E. pose proof (hs_received _ _ Hh) as Hr. pose proof (hs_count _ _ Hh) as Hct.
  pose proof (hs_sent _ _ Hh) as Hl. pose proof (sm_next _ _ Hs) as Hn.
  destruct l as [i msg args | i | | | k v | k]; cbn [step] in E.
  - destruct (sim_start _ _ _ _ _ _ Hs E) as [Hi Hs']. eexists. split; [exact Hs' |].
    split; [by eapply hist_start | done].
  - destruct (client_step_moves _ _ _ _ Hs E) as (q & Hi & [(n & v & Eq & H8 & Ed) | (g & Ha & Hm & (R1 & R2 & R3 & R4) & (Hp & Hsn & Han) & Hal & Hca)]).
    + destruct (clear_step _ _ _ _ _ _ _ Hs Hi Eq H8 Ed) as (HP & [(-> & Hs' & Hret) | (H63 & Hs' & Hret)]).
      * exists (delete i a). split; [done |]. split; [by eapply hist_finish |]. exists i, q. split; [done |]. left. eauto.
      * destruct HP as (P1 & P2 & P3 & P4 & P5 & P6 & P7). eexists. split; [exact Hs' |]. split.
        { eapply hist_move; eauto; [lia | congruence | | |].
          - rewrite P7, P5, P2, P1. done.
          - by rewrite P5, P2, P1.
          - left. by rewrite Eq. }
        exists i, q. split; [done |]. right. eexists. split; [| done]. rewrite Eq. by constructor.
    + eapply moved; eauto; [| by rewrite R2, Hp, Hsn].
      intros Hd. rewrite R2, Hp, Hsn. apply Hr. by apply (lc_disturbed _ _ _ (mv_local _ _ _ _ _ Hm)).
  - destruct (poll_moves _ _ _ Hs E) as (i & q & Hi & Eq & Hno & Hp & Hm & (R1 & R2 & R3 & R4) & Hp').
    assert (Hsn : s_next s' = s_next s + 1).
    { destruct (mv_s_next _ _ _ _ _ Hm) as [E1 | [-> _]]; [| done]. pose proof (proj1 (mv_served _ _ _ _ _ Hm) eq_refl). lia. }
    eapply (moved a s s' i q SPolled); eauto; [rewrite Eq; constructor | | congruence | | |].
    + intros j p. apply (alone a s i q Hs Hi). by rewrite Eq.
    + intros Hd. rewrite R2, Hr, Hp, Hp', Hsn by (by apply (lc_disturbed _ _ _ (mv_local _ _ _ _ _ Hm))). f_equal. lia.
    + rewrite R2, Hp', Hsn, Hct, Hp. lia.
    + left. by rewrite Eq.
  - destruct (take_moves _ _ _ Hs E) as (i & q & Hi & Eq & Hno & Hp & Hm & Hp' & Hsn & R1 & R3 & R4 & m & Hb & R2).
    eapply (moved a s s' i q SHandled); eauto; [rewrite Eq; constructor | | congruence | | |].
    + intros j p. apply (alone a s i q Hs Hi). by rewrite Eq.
    + intros Hd. apply (lc_disturbed _ _ _ (mv_local _ _ _ _ _ Hm)) in Hd.
      rewrite R2, Hp', Hsn, fmap_app, (Hr Hd), Hp. cbn. destruct (sm_range _ _ Hs _ _ Hi) as [Hq0 _].
      replace (Z.to_nat (s_next s - 0)) with (S (Z.to_nat (s_next s - 1))) by lia.
      rewrite (take_S_r _ _ (request_of (q_msg q, q_args q))).
      * unfold request_of. cbn. by rewrite Hb.
      * rewrite list_lookup_fmap. pose proof (hs_mine _ _ Hh _ _ Hi) as Hq. rewrite Hno in Hq. by rewrite Hq.
    + rewrite R2, length_app, Hp', Hsn. rewrite Hp in Hct. cbn. lia.
    + left. by rewrite Eq.
  - destruct (sim_answer _ _ _ _ _ Hs E) as (Hs' & P2 & P3 & P1 & (R1 & R2 & R3 & R4) & P4).
    exists a. split; [done |]. split; [| done]. destruct Hh. split; by rewrite ?P1, ?P2, ?P3, ?P4, ?R1, ?R2, ?R3, ?R4.
  - destruct (complete_moves _ _ _ _ Hs E) as (i & q & v & Hi & Eq & Hm & Hp & Hsn & R1 & R2 & R4 & P4 & R3).
    assert (Ha : advances (q_stage q) (SCompleted v)) by (rewrite Eq; constructor).
    eapply (moved a s s' i q (SCompleted v)); eauto; [| congruence | |].
    + intros j p. apply (alone a s i q Hs Hi). by rewrite Eq.
    + by rewrite R2, Hp, Hsn, P4.
    + by rewrite R2, Hp, Hsn.
Qed.

Lemma reachable_sim s : reachable s -> exists a, sim a s /\ history a s.
Proof.
  induction 1 as [| l s s' _ (a & Hs & Hh) E]; [exists ∅; apply hist_init |].
  destruct (step_sim _ _ _ _ Hs Hh E) as (a' & ? & ? & _). eauto.
Qed.

(** ** Progress *)

Definition rank (g : stage) : nat :=
  match g with
  | SAlloc => 0 | SGranted => 1 | SReserved => 2 | SPrepared => 3 | SCopied => 4 | SPosted => 5 | SPolled => 6
  | SHandled => 7 | SCompleted _ => 8 | SSeen _ => 9 | SBack _ _ => 10 | SDone _ => 11 | SClear n _ => 11 + n
  end.

(** The accesses that are left to the requests under way. *)
Definition remaining (a : gmap Z request) : nat :=
  map_fold (fun _ q n => (75 - rank (q_stage q) + n)%nat) 0%nat a.

Lemma remaining_insert a i q :
  a !! i = None -> remaining (<[i := q]> a) = (75 - rank (q_stage q) + remaining a)%nat.
Proof. intros Hi. unfold remaining. rewrite map_fold_insert_L; [done | intros; lia | done]. Qed.

Lemma remaining_delete a i q :
  a !! i = Some q -> remaining a = (75 - rank (q_stage q) + remaining (delete i a))%nat.
Proof.
  intros Hi. rewrite <- (insert_delete_id a i q Hi) at 1. apply remaining_insert, lookup_delete_eq.
Qed.

Lemma remaining_bound a : (remaining a <= 75 * base.size a)%nat.
Proof.
  induction a as [| i q a Hi IH] using map_ind; [done |].
  rewrite remaining_insert, map_size_insert_None by done. lia.
Qed.

Lemma progress_remaining a a' : progress a a' -> remaining a = S (remaining a').
Proof.
  intros (i & q & Hi & [(v & Eq & ->) | (g & Hg & ->)]); rewrite (remaining_delete a i q Hi).
  - rewrite Eq. cbn. lia.
  - rewrite <- insert_delete_eq, remaining_insert by apply lookup_delete_eq. cbn [q_stage].
    destruct Hg; cbn; lia.
Qed.

Definition is_start (l : label) : bool := match l with Start _ _ _ => true | _ => false end.

(** Writes of the server to the arguments of requests, of which there may be any number. *)
Definition is_answer (l : label) : bool := match l with Answer _ _ => true | _ => false end.

Lemma run_remaining ls : forall a s s',
  sim a s -> history a s -> Forall (fun l => is_start l = false) ls -> run ls s = Some s' ->
  exists a', sim a' s' /\ (length (filter (fun l => is_answer l = false) ls) + remaining a' = remaining a)%nat.
Proof.
  induction ls as [| l ls IH]; intros a s s' Hs Hh Hf E; cbn in E; [injection E as <-; eauto |].
  apply Forall_cons in Hf as [Hl Hf]. destruct (step l s) as [s1 |] eqn:E1; [| done].
  destruct (step_sim _ _ _ _ Hs Hh E1) as (a1 & Hs1 & Hh1 & Hp).
  destruct (IH a1 s1 s' Hs1 Hh1 Hf E) as (a' & Hs' & Hr). exists a'. split; [done |].
  rewrite filter_cons. destruct (decide (is_answer l = false)) as [Ha | Ha].
  - assert (progress a a1) as Hpr%progress_remaining by (by destruct l). cbn. lia.
  - destruct l; try done. by subst a1.
Qed.

(** An access other than the start of a request and the writes of the server. *)
Definition can_move (s : state) : Prop :=
  exists l, is_start l = false /\ is_answer l = false /\ is_Some (step l s).

Lemma client_can a s i q :
  sim a s -> a !! i = Some q -> is_Some (client_step i s) -> can_move s.
Proof. intros _ _ [s' E]. exists (Client i). split; [done |]. split; [done |]. by exists s'. Qed.

Lemma active_steps a s i q :
  sim a s -> a !! i = Some q -> q_stage q <> SAlloc -> q_stage q <> SPosted -> can_move s.
Proof.
  intros Hs Hi Hna Hnp.
  assert (Ht : threads s !! i = Some (view q)) by (by rewrite (sm_threads _ _ Hs), lookup_fmap, Hi).
  destruct (holding (q_stage q)) eqn:Hh.
  2: { destruct (q_stage q) as [| | | | | | | | | | | | n v] eqn:Eq; try done. apply (client_can a s i q Hs Hi).
       unfold client_step. rewrite Ht. cbn. rewrite Eq. cbn. unfold shmipc_mgr_dealloc_slot. cbn. rewrite Eq. cbn.
       case_match; eauto. }
  destruct (sm_owned _ _ Hs _ _ Hi Hh) as [A B C D [m F]].
  unfold held_of in F. destruct (q_stage q) eqn:Eq; try done;
    try (apply (client_can a s i q Hs Hi); unfold client_step; rewrite Ht; cbn; rewrite Eq; cbn;
         unfold shmipc_mgr_alloc_slot, prepare_op, shmipc_mgr_put_msg, read_ret, shmipc_mgr_dealloc_slot; cbn; rewrite Eq; cbn;
         change (ring_idx (q_no q)) with (q_idx q); rewrite ?A; cbn; first [by eauto | by case_match; eauto]).
  - exists Take. split; [done |]. split; [done |]. cbn. unfold pollReqFromApps. rewrite (proj2 D eq_refl). eauto.
  - exists (Complete (q_idx q)). split; [done |]. split; [done |]. cbn. unfold markComplete. rewrite F. eauto.
Qed.

Lemma waiting_step a s :
  sim a s -> a <> ∅ -> (forall i q, a !! i = Some q -> q_stage q = SAlloc \/ q_stage q = SPosted) -> can_move s.
Proof.
  intros Hs Hne Hall. apply map_choose in Hne as (i0 & q0 & Hi0).
  assert (Hopen : forall i q, a !! i = Some q -> s_next s <= q_no q < c_next s).
  { intros i q Hi. destruct (sm_range _ _ Hs _ _ Hi) as [? Hr]. split; [| lia].
    destruct (Hall i q Hi) as [E | E]; rewrite E in Hr; cbn in Hr; destruct (Z.lt_ge_cases (q_no q) (s_next s)); naive_solver. }
  destruct (sm_open _ _ Hs (s_next s)) as (i & q & Hi & Hno); [specialize (Hopen _ _ Hi0); lia |].
  destruct (Hall i q Hi) as [Eq | Eq].
  - apply (client_can a s i q Hs Hi). unfold client_step, shmipc_mgr_alloc_slot.
    rewrite (sm_threads _ _ Hs), lookup_fmap, Hi. cbn. rewrite Eq. cbn. change (ring_idx (q_no q)) with (q_idx q).
    destruct (sm_unowned _ _ Hs (q_idx q)) as [-> _ _]; [by eapply k_range | | by cbn; eauto].
    intros j p Hj Hidx. destruct (Hall j p Hj) as [-> | Ep]; [done |].
    assert (j = i) by (eapply (same_slot a s j i p q); eauto; eapply Hopen; eauto). congruence.
  - exists Poll. split; [done |]. split; [done |]. cbn. unfold shmipc_mgr_get_msg_nowait. destruct (polled s) as [k |] eqn:Ep.
    + destruct (sm_polled _ _ Hs k Ep) as (j & p & Hj & E & _). destruct (Hall j p Hj); congruence.
    + rewrite <- Hno. change (ring_idx (q_no q)) with (q_idx q).
      rewrite (ow_status _ _ (sm_owned _ _ Hs _ _ Hi ltac:(by rewrite Eq))), Eq. cbn. eauto.
Qed.

Lemma someone_steps a s : sim a s -> a <> ∅ -> can_move s.
Proof.
  intros Hs Hne.
  destruct (decide (map_Forall (fun _ q => q_stage q = SAlloc \/ q_stage q = SPosted) a)) as [Hall | Hex].
  - by apply (waiting_step a).
  - apply map_not_Forall in Hex as (i & q & Hi & Hq); [| solve_decision]. eapply active_steps; eauto.
Qed.

End Ring.

(** ** The ring of a manager *)

Lemma power_of_two n : 0 < n -> Z.land n (n - 1) = 0 -> n = 2 ^ Z.log2 n.
Proof.
  intros Hn Hl. destruct (Z.log2_spec n Hn) as [Hlo Hhi].
  destruct (Z.eq_dec n (2 ^ Z.log2 n)) as [| Hne]; [done | exfalso].
  assert (Hlog : Z.log2 (n - 1) = Z.log2 n) by (apply Z.log2_unique; [apply Z.log2_nonneg | lia]).
  assert (Hb : Z.testbit (Z.land n (n - 1)) (Z.log2 n) = true).
  { rewrite Z.land_spec, Z.bit_log2 by done. rewrite <- Hlog, Z.bit_log2; [done |].
    pose proof (Z.pow_pos_nonneg 2 (Z.log2 n) ltac:(lia) (Z.log2_nonneg n)). lia. }
  by rewrite Hl, Z.bits_0 in Hb.
Qed.

Lemma init_pow rsize m :
  rsize < 2 ^ 64 -> shmipc_mgr_init rsize = Some m -> exists e, 2 <= e /\ rsize = 2 ^ e.
Proof.
  intros Hw E. unfold shmipc_mgr_init in E. destruct ((rsize <? 4) || _) eqn:Hc; [done |]. clear E.
  apply orb_false_iff in Hc as [H4%Z.ltb_ge Hl%negb_false_iff%Z.eqb_eq].
  rewrite to_u64_small in Hl by lia. exists (Z.log2 rsize). split; [| apply power_of_two; lia].
  change 2 with (Z.log2 4). apply Z.log2_le_mono. lia.
Qed.

(** C24. A ring of a power of two slots, with at most as many threads as slots, in every
    interleaving of the accesses: a slot belongs to one thread from the moment the thread has
    seen it empty until it has cleared its status.  As long as no slot has been granted while
    the thread before was still clearing it, a slot belongs to one thread until it has been
    cleared whole, so that no thread writes into the request or reads the answer of another. *)
Theorem ring_slots_exclusive (rsize nthreads : Z) (m : shmipc_mgr) (s : state)
    (Hw : rsize < 2 ^ 64) (Hm : shmipc_mgr_init rsize = Some m) (Hn : nthreads <= rsize)
    (Hr : reachable rsize nthreads s) :
  forall i j t u, threads s !! i = Some t -> threads s !! j = Some u -> i <> j ->
    ring_idx rsize (t_ticket t) = ring_idx rsize (t_ticket u) ->
    (t_phase t = Allocating \/ t_phase u = Allocating) \/
    (disturbed s = true /\ exists n v, (8 < n)%nat /\ (t_phase t = Clearing n v \/ t_phase u = Clearing n v)).
Proof.
  pose proof (init_pow _ _ Hw Hm) as Hpow.
  destruct (reachable_sim rsize nthreads Hpow Hn s Hr) as (a & Hs & _). intros i j t u Ht Hu Hne Hidx.
  rewrite (sm_threads _ _ _ _ Hs), lookup_fmap in Ht, Hu.
  destruct (a !! i) as [p |] eqn:Ei; [| done]. destruct (a !! j) as [q |] eqn:Ej; [| done].
  injection Ht as <-. injection Hu as <-. cbn in *.
  destruct (disturbed s) eqn:Hd.
  - assert (Hfree : forall g, holding g = false -> phase_of g = Allocating \/ exists n v, (8 < n)%nat /\ phase_of g = Clearing n v).
    { intros [] Hg; try done; [by left | right]. apply Nat.leb_gt in Hg. eauto. }
    destruct (sm_excl _ _ _ _ Hs i j p q Ei Ej Hne Hidx) as [E | E]; apply Hfree in E; naive_solver.
  - left. destruct (sm_calm _ _ _ _ Hs Hd i j p q Ei Ej Hne Hidx) as [E | E]; rewrite E; auto.
Qed.

(** C23. The server takes as many requests as the threads have posted, and answers a request at
    most once; the result a thread reads is the answer to its own request.  As long as no slot
    has been granted while the thread before was still clearing it, the server receives the
    requests of all threads in the order in which they drew their numbers, none lost, doubled
    or altered. *)
Theorem ring_refines_queue (rsize nthreads : Z) (m : shmipc_mgr) (s : state)
    (Hw : rsize < 2 ^ 64) (Hm : shmipc_mgr_init rsize = Some m) (Hn : nthreads <= rsize)
    (Hr : reachable rsize nthreads s) :
  (disturbed s = false ->
   request_of <$> received s = take (length (received s)) (request_of <$> sent s)) /\
  Z.of_nat (length (received s)) = s_next s - (if polled s then 1 else 0) /\
  (forall n v, (n, v) ∈ answered s -> 0 <= n < s_next s) /\ NoDup (answered s).*1 /\
  (forall e, e ∈ returned s -> e ∈ answered s) /\ NoDup (returned s).*1 /\
  (forall i t v, threads s !! i = Some t -> t_phase t = Done v -> (t_ticket t, v) ∈ answered s).
Proof.
  pose proof (init_pow _ _ Hw Hm) as Hpow.
  destruct (reachable_sim rsize nthreads Hpow Hn s Hr) as (a & Hs & [A B C C' [D1 D2] E [F1 F2] _ _]).
  split; [intros Hd; rewrite (C Hd); f_equal; lia |].
  split; [done |]. split; [done |]. split; [done |]. split; [done |]. split; [done |].
  intros i t v Ht Hp. rewrite (sm_threads _ _ _ _ Hs), lookup_fmap in Ht.
  destruct (a !! i) as [q |] eqn:Ei; [| done]. injection Ht as <-. cbn in *. apply (E i q v Ei).
  destruct (q_stage q); try done. cbn in *. congruence.
Qed.

(** C25. The protocol neither blocks nor spins for ever: without new requests, every
    sequence of accesses has at most 75 per thread that are not idle polls or writes of
    results by the server, 64 of them to clear the slot byte by byte, and as long as a
    request is under way some thread or the server can make another one; so every
    schedule ends with all requests answered and all slots returned. *)
Theorem ring_requests_return (rsize nthreads : Z) (m : shmipc_mgr) (s s' : state) (ls : list label)
    (Hw : rsize < 2 ^ 64) (Hm : shmipc_mgr_init rsize = Some m) (Hn : nthreads <= rsize)
    (Hr : reachable rsize nthreads s) (Hls : Forall (fun l => is_start l = false) ls)
    (E : run rsize nthreads ls s = Some s') :
  (length (filter (fun l => is_answer l = false) ls) <= 75 * base.size (threads s))%nat /\
  (threads s' <> ∅ -> exists l, is_start l = false /\ is_answer l = false /\ is_Some (step rsize nthreads l s')).
Proof.
  pose proof (init_pow _ _ Hw Hm) as Hpow.
  destruct (reachable_sim rsize nthreads Hpow Hn s Hr) as (a & Hs & Hh).
  destruct (run_remaining rsize nthreads Hpow Hn ls a s s' Hs Hh Hls E) as (a' & Hs' & Hrem).
  pose proof (remaining_bound a) as Hb. split.
  - rewrite (sm_threads _ _ _ _ Hs), map_size_fmap. lia.
  - intros Hne. apply (someone_steps rsize nthreads Hpow Hn a' s' Hs').
    intros ->. apply Hne. rewrite (sm_threads _ _ _ _ Hs'). apply fmap_empty.
Qed.

(** The parts of the shared memory that belong to the slots lie within it and do not
    overlap. *)
Lemma slots_disjoint rsize m i j :
  rsize < 2 ^ 40 -> shmipc_mgr_init rsize = Some m -> 0 <= i < rsize -> 0 <= j < rsize ->
  0 <= IDX_TO_MSG m i /\ IDX_TO_MSG m i + 64 <= IDX_TO_XREQ m j /\
  IDX_TO_XREQ m i + shmipc_XREQ_MAX_ELEM_SIZE <= IDX_TO_DATA m j /\
  IDX_TO_DATA m i + shmipc_DATA_MAX_ELEM_SIZE <= size m /\
  (i < j -> IDX_TO_MSG m i + 64 <= IDX_TO_MSG m j /\
    IDX_TO_XREQ m i + shmipc_XREQ_MAX_ELEM_SIZE <= IDX_TO_XREQ m j /\
    IDX_TO_DATA m i + shmipc_DATA_MAX_ELEM_SIZE <= IDX_TO_DATA m j).
Proof.
  intros Hw E Hi Hj. unfold shmipc_mgr_init in E. destruct ((rsize <? 4) || _); [done |]. injection E as <-.
  unfold IDX_TO_MSG, IDX_TO_XREQ, IDX_TO_DATA, shmipc_XREQ_MAX_ELEM_SIZE, shmipc_DATA_MAX_ELEM_SIZE. cbn.
  rewrite !to_u64_small by lia. lia.
Qed.

(** ** Examples *)

Definition ex_msg (type : Z) : list Z := replicate 9 0 ++ type :: replicate 54 0.

(** Two threads, of which the second is served while the first still waits. *)
Definition ex_start : list label :=
  [Start 0 (ex_msg 1) [10]; Start 1 (ex_msg 2) [20]] ++ replicate 5 (Client 0) ++ replicate 5 (Client 1)
  ++ [Poll; Take; Poll; Take; Answer 1 [21]; Complete 1; Client 1].

Definition ex_run (ls : list label) (s : state) : state := default (init 4) (run 4 2 ls s).

Lemma run_reachable rsize nthreads ls : forall s s',
  reachable rsize nthreads s -> run rsize nthreads ls s = Some s' -> reachable rsize nthreads s'.
Proof.
  induction ls as [| l ls IH]; intros s s' Hr E; cbn in E; [by injection E as <- |].
  destruct (step rsize nthreads l s) as [s1 |] eqn:E1; [| done]. apply (IH s1); [| done]. by eapply reach_step.
Qed.

Lemma ex_reachable : reachable 4 2 (ex_run ex_start (init 4)).
Proof. eapply (run_reachable _ _ ex_start); [constructor | by vm_compute]. Qed.

Lemma ring_slots_exclusive_witness :
  ring_idx 4 0 <> ring_idx 4 1 /\ t_phase <$> threads (ex_run ex_start (init 4)) !! 0 = Some Waiting.
Proof.
  split; [| by vm_compute]. intros E.
  destruct (ring_slots_exclusive 4 2 (mk_mgr 139520 0 256 8448 4 3 0) (ex_run ex_start (init 4)) ltac:(lia) ltac:(by vm_compute)
    ltac:(lia) ex_reachable 0 1 (mk_thread 0 Waiting (ex_msg 1) [10]) (mk_thread 1 Returning (ex_msg 2) [20])
    ltac:(by vm_compute) ltac:(by vm_compute) ltac:(lia) E) as [[H | H] | [H _]]; by vm_compute in H.
Defined.

Lemma ring_refines_queue_witness :
  request_of <$> received (ex_run ex_start (init 4)) =
    take (length (received (ex_run ex_start (init 4)))) (request_of <$> sent (ex_run ex_start (init 4))) /\
  length (received (ex_run ex_start (init 4))) = 2%nat.
Proof.
  split; [| by vm_compute].
  apply (ring_refines_queue 4 2 (mk_mgr 139520 0 256 8448 4 3 0)); [lia | by vm_compute | lia | apply ex_reachable | by vm_compute].
Defined.

Lemma ring_requests_return_witness :
  (length (filter (fun l => is_answer l = false) [Client 1; Client 1; Client 1]) <=
   75 * base.size (threads (ex_run ex_start (init 4))))%nat.
Proof.
  apply (ring_requests_return 4 2 (mk_mgr 139520 0 256 8448 4 3 0) (ex_run ex_start (init 4))
    (ex_run (ex_start ++ [Client 1; Client 1; Client 1]) (init 4)));
    [lia | by vm_compute | lia | apply ex_reachable | by repeat constructor | by vm_compute].
Defined.

(** Two threads, four slots.  The first has cleared the status of its slot, not yet the rest;
    the second, which has come round to the same slot, is granted it and posts its message,
    which the first then clears before the server has taken it. *)
Definition ex_request (i : Z) (type : Z) : list label :=
  [Start i (ex_msg type) []] ++ replicate 5 (Client i).
Definition ex_served (k : Z) : list label := [Poll; Take; Complete k].
Definition ex_round (k : Z) : list label := ex_request 1 7 ++ ex_served k ++ replicate 67 (Client 1).
Definition ex_overlap : list label :=
  ex_request 0 7 ++ ex_served 0 ++ replicate 3 (Client 0) ++ ex_round 1 ++ ex_round 2 ++ ex_round 3 ++
  replicate 9 (Client 0) ++ ex_request 1 5 ++ replicate 55 (Client 0) ++ [Poll; Take].

Lemma memset_erases_request :
  match run 4 2 ex_overlap (init 4) with
  | Some s => threads s !! 0 = None /\ disturbed s = true /\ sent s !! 4%nat = Some (ex_msg 5, []) /\
      received s !! 4%nat = Some (set_status shmipc_STATUS_READY_FOR_SERVER (replicate 64 0), [])
  | None => False
  end.
Proof. vm_compute. auto. Qed.

(** With one thread more than slots the first and the last share a slot, and both may see
    it empty before either has marked it: the server then takes the request of the last
    for the first one. *)
Definition ex_crowd : list label :=
  [Start 0 (ex_msg 1) [10]; Start 1 (ex_msg 1) []; Start 2 (ex_msg 1) []; Start 3 (ex_msg 1) [];
   Start 4 (ex_msg 5) [50]; Client 0; Client 4; Client 0; Client 4; Client 4; Client 4; Client 4; Poll; Take].

Lemma crowded_ring_mixes_requests :
  match run 4 5 ex_crowd (init 4) with
  | Some s => t_phase <$> threads s !! 0 = Some Reserved /\ sent s !! 0%nat = Some (ex_msg 1, [10]) /\
      request_of <$> received s = [request_of (ex_msg 5, [50])]
  | None => False
  end.
Proof. vm_compute. auto. Qed.

End Shmipc.
