(* ===== verification/RBTree.v ===== *)
(** * The red-black tree

    [cfs/src/rbtree.cc]: a map with parent pointers, colours, and a rebalancing step
    after each insertion and deletion.  The memory is a map from addresses to nodes; every
    function of the file that is not for printing is a function on it, with the checks that
    are compiled with [VERIFY_RBTREE] among them.  The theorems show that the functions
    implement a finite map, that the checks never fail, that no node is lost, and that the
    paths are as short as red-black trees promise. *)

From Stdlib Require Import ZArith List Lia Bool Sorted.
From stdpp Require Import base list option gmap sorting.
From S2P Require Import Prelude.
Import ListNotations.
Open Scope Z_scope.

Module RBTree.

(** ** Memory *)

Inductive color : Type := RED | BLACK.

#[global] Instance color_eq_dec : EqDecision color.
Proof. solve_decision. Defined.

(** Pointers are addresses, [NULL] is 0. *)
Record rbtree_node : Type := mk_node {
  key : Z;
  value : Z;
  left : Z;
  right : Z;
  parent : Z;
  ncolor : color
}.

(** The memory, the field of [rbtree_t], and where [malloc] goes on. *)
Record rbtree : Type := mk_rbtree {
  heap : gmap Z rbtree_node;
  root : Z;
  brk : Z
}.

Definition get (n : Z) (t : rbtree) : res rbtree_node :=
  match heap t !! n with Some x => Ok x | None => Crash OutOfRange end.
Definition put (n : Z) (x : rbtree_node) (t : rbtree) : rbtree := mk_rbtree (<[n := x]> (heap t)) (root t) (brk t).
Definition set_root (n : Z) (t : rbtree) : rbtree := mk_rbtree (heap t) n (brk t).
Definition free (n : Z) (t : rbtree) : rbtree := mk_rbtree (delete n (heap t)) (root t) (brk t).

Definition set_left (n l : Z) (t : rbtree) : res rbtree :=
  let! x := get n t in Ok (put n (mk_node (key x) (value x) l (right x) (parent x) (ncolor x)) t).
Definition set_right (n r : Z) (t : rbtree) : res rbtree :=
  let! x := get n t in Ok (put n (mk_node (key x) (value x) (left x) r (parent x) (ncolor x)) t).
Definition set_parent (n p : Z) (t : rbtree) : res rbtree :=
  let! x := get n t in Ok (put n (mk_node (key x) (value x) (left x) (right x) p (ncolor x)) t).
Definition set_color (n : Z) (c : color) (t : rbtree) : res rbtree :=
  let! x := get n t in Ok (put n (mk_node (key x) (value x) (left x) (right x) (parent x) c) t).
Definition set_value (n v : Z) (t : rbtree) : res rbtree :=
  let! x := get n t in Ok (put n (mk_node (key x) v (left x) (right x) (parent x) (ncolor x)) t).
Definition set_key_value (n k v : Z) (t : rbtree) : res rbtree :=
  let! x := get n t in Ok (put n (mk_node k v (left x) (right x) (parent x) (ncolor x)) t).

(** [a && b]: [b] is evaluated when [a] holds. *)
Definition andM (a b : res bool) : res bool := let! x := a in if x then b else Ok false.
Notation "a &&! b" := (andM a b) (at level 40, left associativity).

(** [if (n != NULL) n->parent = p] *)
Definition reparent (n p : Z) (t : rbtree) : res rbtree :=
  if n =? 0 then Ok t else set_parent n p t.

Section Operations.
(** [compare_func]: a node, the key that is sought and the key of a node. *)
Context (compare : Z -> Z -> Z -> Z).

(** ** Neighbours *)

Definition grandparent (n : Z) (t : rbtree) : res Z :=
  let! _ := check (negb (n =? 0)) in
  let! x := get n t in
  let! _ := check (negb (parent x =? 0)) in
  let! p := get (parent x) t in
  let! _ := check (negb (parent p =? 0)) in
  Ok (parent p).

Definition sibling (n : Z) (t : rbtree) : res Z :=
  let! _ := check (negb (n =? 0)) in
  let! x := get n t in
  let! _ := check (negb (parent x =? 0)) in
  let! p := get (parent x) t in
  Ok (if n =? left p then right p else left p).

Definition uncle (n : Z) (t : rbtree) : res Z :=
  let! _ := check (negb (n =? 0)) in
  let! x := get n t in
  let! _ := check (negb (parent x =? 0)) in
  let! p := get (parent x) t in
  let! _ := check (negb (parent p =? 0)) in
  sibling (parent x) t.

Definition node_color (n : Z) (t : rbtree) : res color :=
  if n =? 0 then Ok BLACK else let! x := get n t in Ok (ncolor x).

(** [n->parent], [n->left], [n->right] *)
Definition get_parent (n : Z) (t : rbtree) : res Z := let! x := get n t in Ok (parent x).
Definition get_left (n : Z) (t : rbtree) : res Z := let! x := get n t in Ok (left x).
Definition get_right (n : Z) (t : rbtree) : res Z := let! x := get n t in Ok (right x).

(** ** Lookup *)

Definition rbtree_create : rbtree := mk_rbtree ∅ 0 1.

(** [malloc] returns addresses that were never used. *)
Definition new_node (k v : Z) (c : color) (l r : Z) (t : rbtree) : res (Z * rbtree) :=
  let n := brk t in
  let t := mk_rbtree (<[n := mk_node k v l r 0 c]> (heap t)) (root t) (n + 1) in
  let! t := reparent l n t in
  let! t := reparent r n t in
  Ok (n, t).

Fixpoint lookup_loop (fuel : nat) (n k : Z) (t : rbtree) : res Z :=
  if n =? 0 then Ok n
  else
    match fuel with
    | O => Crash NoFuel
    | S fuel =>
        let! x := get n t in
        let comp_result := compare n k (key x) in
        if comp_result =? 0 then Ok n
        else if comp_result <? 0 then lookup_loop fuel (left x) k t
        else
          let! _ := check (comp_result >? 0) in
          lookup_loop fuel (right x) k t
    end.

(** A path has at most as many nodes as the memory. *)
Definition path_fuel (t : rbtree) : nat := size (heap t).

Definition lookup_node (k : Z) (t : rbtree) : res Z := lookup_loop (path_fuel t) (root t) k t.

Definition rbtree_lookup (k : Z) (t : rbtree) : res Z :=
  let! n := lookup_node k t in
  if n =? 0 then Ok 0 else let! x := get n t in Ok (value x).

(** ** Rotations *)

Definition replace_node (oldn newn : Z) (t : rbtree) : res rbtree :=
  let! o := get oldn t in
  let! t :=
    if parent o =? 0 then Ok (set_root newn t)
    else
      let! p := get (parent o) t in
      if oldn =? left p then set_left (parent o) newn t else set_right (parent o) newn t in
  let! o := get oldn t in
  reparent newn (parent o) t.

Definition rotate_left (n : Z) (t : rbtree) : res rbtree :=
  let! r := get_right n t in
  let! t := replace_node n r t in
  let! rl := get_left r t in
  let! t := set_right n rl t in
  let! t := reparent rl n t in
  let! t := set_left r n t in
  set_parent n r t.

Definition rotate_right (n : Z) (t : rbtree) : res rbtree :=
  let! l := get_left n t in
  let! t := replace_node n l t in
  let! lr := get_right l t in
  let! t := set_left n lr t in
  let! t := reparent lr n t in
  let! t := set_right l n t in
  set_parent n l t.

(** ** Insertion *)

Definition insert_case5 (n : Z) (t : rbtree) : res rbtree :=
  let! p := get_parent n t in
  let! t := set_color p BLACK t in
  let! g := grandparent n t in
  let! t := set_color g RED t in
  let! px := get p t in
  let! gx := get g t in
  if (n =? left px) && (p =? left gx) then rotate_right g t
  else
    let! _ := check ((n =? right px) && (p =? right gx)) in
    rotate_left g t.

Definition insert_case4 (n : Z) (t : rbtree) : res rbtree :=
  let! p := get_parent n t in
  let! px := get p t in
  let! c1 := Ok (n =? right px) &&! (let! g := grandparent n t in let! gl := get_left g t in Ok (p =? gl)) in
  if c1 then
    let! t := rotate_left p t in
    let! n := get_left n t in
    insert_case5 n t
  else
    let! c2 := Ok (n =? left px) &&! (let! g := grandparent n t in let! gr := get_right g t in Ok (p =? gr)) in
    if c2 then
      let! t := rotate_right p t in
      let! n := get_right n t in
      insert_case5 n t
    else insert_case5 n t.

(** [rec] is [insert_case1]. *)
Definition insert_case3 (rec : Z -> rbtree -> res rbtree) (n : Z) (t : rbtree) : res rbtree :=
  let! u := uncle n t in
  let! c := node_color u t in
  if decide (c = RED) then
    let! p := get_parent n t in
    let! t := set_color p BLACK t in
    let! t := set_color u BLACK t in
    let! g := grandparent n t in
    let! t := set_color g RED t in
    rec g t
  else insert_case4 n t.

Definition insert_case2 (rec : Z -> rbtree -> res rbtree) (n : Z) (t : rbtree) : res rbtree :=
  let! p := get_parent n t in
  let! c := node_color p t in
  if decide (c = BLACK) then Ok t else insert_case3 rec n t.

Fixpoint insert_case1 (fuel : nat) (n : Z) (t : rbtree) : res rbtree :=
  match fuel with
  | O => Crash NoFuel
  | S fuel =>
      let! p := get_parent n t in
      if p =? 0 then set_color n BLACK t else insert_case2 (insert_case1 fuel) n t
  end.

(** The loop of [rbtree_insert]: [None] when the key was found, and else the node below
    which the new node was put. *)
Fixpoint insert_loop (fuel : nat) (n k v inserted : Z) (t : rbtree) : res (option Z * rbtree) :=
  match fuel with
  | O => Crash NoFuel
  | S fuel =>
      let! x := get n t in
      let comp_result := compare 0 k (key x) in
      if comp_result =? 0 then
        let! t := set_value n v t in
        Ok (None, free inserted t)
      else if comp_result <? 0 then
        if left x =? 0 then let! t := set_left n inserted t in Ok (Some n, t)
        else insert_loop fuel (left x) k v inserted t
      else
        let! _ := check (comp_result >? 0) in
        if right x =? 0 then let! t := set_right n inserted t in Ok (Some n, t)
        else insert_loop fuel (right x) k v inserted t
  end.

Definition rbtree_insert (k v : Z) (t : rbtree) : res rbtree :=
  let! (inserted, t) := new_node k v RED 0 0 t in
  if root t =? 0 then insert_case1 (path_fuel t) inserted (set_root inserted t)
  else
    let! (at_node, t) := insert_loop (path_fuel t) (root t) k v inserted t in
    match at_node with
    | None => Ok t
    | Some n =>
        let! t := set_parent inserted n t in
        insert_case1 (path_fuel t) inserted t
    end.

(** ** Deletion *)

Fixpoint maximum_loop (fuel : nat) (n : Z) (t : rbtree) : res Z :=
  let! x := get n t in
  if right x =? 0 then Ok n
  else match fuel with O => Crash NoFuel | S fuel => maximum_loop fuel (right x) t end.

Definition maximum_node (n : Z) (t : rbtree) : res Z :=
  let! _ := check (negb (n =? 0)) in
  maximum_loop (path_fuel t) n t.

(** [n->left] and [n->right] of the sibling of [n]. *)
Definition sibling_left (n : Z) (t : rbtree) : res Z := let! s := sibling n t in get_left s t.
Definition sibling_right (n : Z) (t : rbtree) : res Z := let! s := sibling n t in get_right s t.

(** [node_color(m) == c] for the node [m] that an expression yields. *)
Definition has_color (m : res Z) (c : color) (t : rbtree) : res bool :=
  let! n := m in
  let! x := node_color n t in
  Ok (bool_decide (x = c)).

Definition delete_case6 (n : Z) (t : rbtree) : res rbtree :=
  let! p := get_parent n t in
  let! s := sibling n t in
  let! c := node_color p t in
  let! t := set_color s c t in
  let! t := set_color p BLACK t in
  let! px := get p t in
  let! sx := get s t in
  if n =? left px then
    let! c := node_color (right sx) t in
    let! _ := check (bool_decide (c = RED)) in
    let! t := set_color (right sx) BLACK t in
    rotate_left p t
  else
    let! c := node_color (left sx) t in
    let! _ := check (bool_decide (c = RED)) in
    let! t := set_color (left sx) BLACK t in
    rotate_right p t.

Definition delete_case5 (n : Z) (t : rbtree) : res rbtree :=
  let! p := get_parent n t in
  let! px := get p t in
  let! c1 := Ok (n =? left px) &&! has_color (sibling n t) BLACK t &&!
    has_color (sibling_left n t) RED t &&! has_color (sibling_right n t) BLACK t in
  let! t :=
    if c1 then
      let! s := sibling n t in
      let! t := set_color s RED t in
      let! sl := get_left s t in
      let! t := set_color sl BLACK t in
      rotate_right s t
    else
      let! c2 := Ok (n =? right px) &&! has_color (sibling n t) BLACK t &&!
        has_color (sibling_right n t) RED t &&! has_color (sibling_left n t) BLACK t in
      if c2 then
        let! s := sibling n t in
        let! t := set_color s RED t in
        let! sr := get_right s t in
        let! t := set_color sr BLACK t in
        rotate_left s t
      else Ok t in
  delete_case6 n t.

Definition delete_case4 (n : Z) (t : rbtree) : res rbtree :=
  let! c := has_color (get_parent n t) RED t &&! has_color (sibling n t) BLACK t &&!
    has_color (sibling_left n t) BLACK t &&! has_color (sibling_right n t) BLACK t in
  if c then
    let! s := sibling n t in
    let! t := set_color s RED t in
    let! p := get_parent n t in
    set_color p BLACK t
  else delete_case5 n t.

(** [rec] is [delete_case1]. *)
Definition delete_case3 (rec : Z -> rbtree -> res rbtree) (n : Z) (t : rbtree) : res rbtree :=
  let! c := has_color (get_parent n t) BLACK t &&! has_color (sibling n t) BLACK t &&!
    has_color (sibling_left n t) BLACK t &&! has_color (sibling_right n t) BLACK t in
  if c then
    let! s := sibling n t in
    let! t := set_color s RED t in
    let! p := get_parent n t in
    rec p t
  else delete_case4 n t.

Definition delete_case2 (rec : Z -> rbtree -> res rbtree) (n : Z) (t : rbtree) : res rbtree :=
  let! s := sibling n t in
  let! c := node_color s t in
  let! t :=
    if decide (c = RED) then
      let! p := get_parent n t in
      let! t := set_color p RED t in
      let! t := set_color s BLACK t in
      let! px := get p t in
      if n =? left px then rotate_left p t else rotate_right p t
    else Ok t in
  delete_case3 rec n t.

Fixpoint delete_case1 (fuel : nat) (n : Z) (t : rbtree) : res rbtree :=
  match fuel with
  | O => Crash NoFuel
  | S fuel =>
      let! p := get_parent n t in
      if p =? 0 then Ok t else delete_case2 (delete_case1 fuel) n t
  end.

(** The end of [rbtree_delete]: node [n], which has at most one child, is taken out. *)
Definition delete_node (n : Z) (t : rbtree) : res rbtree :=
  let! x := get n t in
  let! _ := check ((left x =? 0) || (right x =? 0)) in
  let child := if right x =? 0 then left x else right x in
  let! c := node_color n t in
  let! t :=
    if decide (c = BLACK) then
      let! cc := node_color child t in
      let! t := set_color n cc t in
      delete_case1 (path_fuel t) n t
    else Ok t in
  let! t := replace_node n child t in
  let! x := get n t in
  let! t := if (parent x =? 0) && negb (child =? 0) then set_color child BLACK t else Ok t in
  Ok (free n t).

Definition rbtree_delete (k : Z) (t : rbtree) : res rbtree :=
  let! n := lookup_node k t in
  if n =? 0 then Ok t
  else
    let! x := get n t in
    if negb (left x =? 0) && negb (right x =? 0) then
      let! pred := maximum_node (left x) t in
      let! y := get pred t in
      let! t := set_key_value n (key y) (value y) t in
      delete_node pred t
    else delete_node n t.

End Operations.

(** ** The checks of [VERIFY_RBTREE] *)

Fixpoint verify_property_1 (fuel : nat) (n : Z) (t : rbtree) : res unit :=
  let! c := node_color n t in
  let! _ := check (bool_decide (c = RED) || bool_decide (c = BLACK)) in
  if n =? 0 then Ok tt
  else
    match fuel with
    | O => Crash NoFuel
    | S fuel =>
        let! x := get n t in
        let! _ := verify_property_1 fuel (left x) t in
        verify_property_1 fuel (right x) t
    end.

Definition verify_property_2 (n : Z) (t : rbtree) : res unit :=
  let! c := node_color n t in check (bool_decide (c = BLACK)).

Fixpoint verify_property_4 (fuel : nat) (n : Z) (t : rbtree) : res unit :=
  let! c := node_color n t in
  let! _ :=
    if decide (c = RED) then
      let! x := get n t in
      let! cl := node_color (left x) t in
      let! _ := check (bool_decide (cl = BLACK)) in
      let! cr := node_color (right x) t in
      let! _ := check (bool_decide (cr = BLACK)) in
      let! cp := node_color (parent x) t in
      check (bool_decide (cp = BLACK))
    else Ok tt in
  if n =? 0 then Ok tt
  else
    match fuel with
    | O => Crash NoFuel
    | S fuel =>
        let! x := get n t in
        let! _ := verify_property_4 fuel (left x) t in
        verify_property_4 fuel (right x) t
    end.

(** The result is [*path_black_count]. *)
Fixpoint verify_property_5_helper (fuel : nat) (n black_count path_black_count : Z) (t : rbtree) : res Z :=
  let! c := node_color n t in
  let black_count := if decide (c = BLACK) then black_count + 1 else black_count in
  if n =? 0 then
    if path_black_count =? -1 then Ok black_count
    else let! _ := check (black_count =? path_black_count) in Ok path_black_count
  else
    match fuel with
    | O => Crash NoFuel
    | S fuel =>
        let! x := get n t in
        let! path_black_count := verify_property_5_helper fuel (left x) black_count path_black_count t in
        verify_property_5_helper fuel (right x) black_count path_black_count t
    end.

Definition verify_property_5 (n : Z) (t : rbtree) : res unit :=
  let! _ := verify_property_5_helper (path_fuel t) n 0 (-1) t in Ok tt.

Definition verify_properties (t : rbtree) : res unit :=
  let! _ := verify_property_1 (path_fuel t) (root t) t in
  let! _ := verify_property_2 (root t) t in
  let! _ := verify_property_4 (path_fuel t) (root t) t in
  verify_property_5 (root t) t.

(** ** Trees in memory *)

(** A tree with the addresses of its nodes. *)
Inductive tree : Type :=
| E
| T (a : Z) (c : color) (l : tree) (k v : Z) (r : tree).

#[global] Instance tree_eq_dec : EqDecision tree.
Proof. solve_decision. Defined.

Definition ptr (x : tree) : Z := match x with E => 0 | T a _ _ _ _ _ => a end.
Definition color_of (x : tree) : color := match x with E => BLACK | T _ c _ _ _ _ => c end.

Fixpoint addrs (x : tree) : list Z :=
  match x with E => [] | T a _ l _ _ r => a :: addrs l ++ addrs r end.

Fixpoint inorder (x : tree) : list (Z * Z) :=
  match x with E => [] | T _ _ l k v r => inorder l ++ (k, v) :: inorder r end.

(** The functions come in mirrored pairs.  [node d] has [x] on side [d] and [y] on the
    other side, and [rotate d] is the rotation towards [d]. *)
Inductive side : Type := Left | Right.

Definition opp (d : side) : side := match d with Left => Right | Right => Left end.

Definition node (d : side) (a : Z) (c : color) (x : tree) (k v : Z) (y : tree) : tree :=
  match d with Left => T a c x k v y | Right => T a c y k v x end.

Definition dnode (d : side) (k v x y p : Z) (c : color) : rbtree_node :=
  match d with Left => mk_node k v x y p c | Right => mk_node k v y x p c end.

Definition get_child (d : side) (n : Z) (t : rbtree) : res Z :=
  match d with Left => get_left n t | Right => get_right n t end.
Definition set_child (d : side) (n m : Z) (t : rbtree) : res rbtree :=
  match d with Left => set_left n m t | Right => set_right n m t end.

Definition rotate (d : side) (n : Z) (t : rbtree) : res rbtree :=
  let! r := get_child (opp d) n t in
  let! t := replace_node n r t in
  let! rd := get_child d r t in
  let! t := set_child (opp d) n rd t in
  let! t := reparent rd n t in
  let! t := set_child d r n t in
  set_parent n r t.

Lemma rotate_left_eq : rotate_left = rotate Left.
Proof. done. Qed.
Lemma rotate_right_eq : rotate_right = rotate Right.
Proof. done. Qed.

(** A path from a subtree up to the root: at each node the side of the subtree, the
    node, and the subtree on the other side. *)
Record frame : Type := mk_frame {
  f_side : side;
  f_addr : Z;
  f_color : color;
  f_key : Z;
  f_val : Z;
  f_sib : tree
}.

Definition plug1 (f : frame) (x : tree) : tree :=
  node (f_side f) (f_addr f) (f_color f) x (f_key f) (f_val f) (f_sib f).

Fixpoint plug (C : list frame) (x : tree) : tree :=
  match C with [] => x | f :: C => plug C (plug1 f x) end.

(** The parent of the subtree, and the root when the subtree is at [p]. *)
Definition cpar (C : list frame) : Z := match C with [] => 0 | f :: _ => f_addr f end.
Fixpoint croot (C : list frame) (p : Z) : Z := match C with [] => p | f :: C => croot C (f_addr f) end.
Fixpoint caddrs (C : list frame) : list Z :=
  match C with [] => [] | f :: C => f_addr f :: addrs (f_sib f) ++ caddrs C end.

(** The nodes of the tree are in memory, below the parent [p]. *)
Fixpoint rep (h : gmap Z rbtree_node) (p : Z) (x : tree) : Prop :=
  match x with
  | E => True
  | T a c l k v r =>
      a <> 0 /\ h !! a = Some (mk_node k v (ptr l) (ptr r) p c) /\ rep h a l /\ rep h a r
  end.

(** The nodes of the path are in memory, with [p] in place of the subtree. *)
Fixpoint repc (h : gmap Z rbtree_node) (C : list frame) (p : Z) : Prop :=
  match C with
  | [] => True
  | f :: C =>
      f_addr f <> 0 /\
      h !! f_addr f = Some (dnode (f_side f) (f_key f) (f_val f) p (ptr (f_sib f)) (cpar C) (f_color f)) /\
      rep h (f_addr f) (f_sib f) /\ repc h C (f_addr f)
  end.

Record shape (s : rbtree) (x : tree) : Prop := mk_shape {
  sh_root : root s = ptr x;
  sh_rep : rep (heap s) 0 x;
  sh_nodup : NoDup (addrs x)
}.

(** No node is allocated or freed. *)
Definition same_nodes (s s' : rbtree) : Prop := dom (heap s') = dom (heap s) /\ brk s' = brk s.

(** ** Lemmas on trees and paths *)

Lemma same_nodes_refl s : same_nodes s s.
Proof. done. Qed.

Lemma same_nodes_trans s1 s2 s3 : same_nodes s1 s2 -> same_nodes s2 s3 -> same_nodes s1 s3.
Proof. unfold same_nodes. intros [-> ->] [-> ->]. done. Qed.

Lemma same_nodes_put s n x y : heap s !! n = Some y -> same_nodes s (put n x s).
Proof. intros H. split; [| done]. cbn. apply dom_insert_lookup_L. eauto. Qed.

Lemma ptr_node d a c x k v y : ptr (node d a c x k v y) = a.
Proof. by destruct d. Qed.

Lemma color_node d a c x k v y : color_of (node d a c x k v y) = c.
Proof. by destruct d. Qed.

Lemma addrs_node d a c x k v y : addrs (node d a c x k v y) ≡ₚ a :: addrs x ++ addrs y.
Proof. destruct d; cbn; solve_Permutation. Qed.

Lemma rep_node h p d a c x k v y :
  rep h p (node d a c x k v y) <->
  a <> 0 /\ h !! a = Some (dnode d k v (ptr x) (ptr y) p c) /\ rep h a x /\ rep h a y.
Proof. destruct d; cbn; tauto. Qed.

Lemma ptr_plug C x : ptr (plug C x) = croot C (ptr x).
Proof. revert x. induction C as [| f C IH]; intros x; [done |]. cbn. by rewrite IH; unfold plug1; rewrite ptr_node. Qed.

Lemma addrs_plug C x : addrs (plug C x) ≡ₚ addrs x ++ caddrs C.
Proof.
  revert x. induction C as [| f C IH]; intros x; cbn; [by rewrite app_nil_r |].
  rewrite IH. unfold plug1. rewrite addrs_node. solve_Permutation.
Qed.

Lemma rep_plug h C x : rep h 0 (plug C x) <-> repc h C (ptr x) /\ rep h (cpar C) x.
Proof.
  revert x. induction C as [| f C IH]; intros x; cbn; [tauto |].
  rewrite IH. unfold plug1. rewrite rep_node, ptr_node. tauto.
Qed.

Lemma rep_agree h h' p x : (forall a, a ∈ addrs x -> h' !! a = h !! a) -> rep h p x -> rep h' p x.
Proof.
  revert p. induction x as [| a c l IHl k v r IHr]; intros p Hag; cbn; [done |]. cbn in Hag.
  intros (? & ? & ? & ?). split; [done |]. split; [rewrite Hag; [done | set_solver] |].
  split; [apply IHl; [set_solver | done] | apply IHr; [set_solver | done]].
Qed.

Lemma repc_agree h h' C p : (forall a, a ∈ caddrs C -> h' !! a = h !! a) -> repc h C p -> repc h' C p.
Proof.
  revert p. induction C as [| f C IH]; intros p Hag; cbn; [done |]. cbn in Hag.
  intros (? & ? & ? & ?). split; [done |]. split; [rewrite Hag; [done | set_solver] |].
  split; [eapply rep_agree; [| done]; set_solver | apply IH; [set_solver | done]].
Qed.

Lemma rep_zero h p x : rep h p x -> ptr x = 0 <-> x = E.
Proof. intros H. split; [| by intros ->]. destruct x; cbn in *; tauto. Qed.

Lemma ptr_in x : ptr x <> 0 -> ptr x ∈ addrs x.
Proof. destruct x; cbn; [done |]. set_solver. Qed.

Lemma ptr_fresh x (L : list Z) : 0 ∉ L -> (forall b, b ∈ addrs x -> b ∉ L) -> ptr x ∉ L.
Proof. intros H0 Hx. destruct (decide (ptr x = 0)) as [-> | E0]; [done |]. by apply Hx, ptr_in. Qed.

Lemma rep_nonzero h p x : rep h p x -> 0 ∉ addrs x.
Proof.
  revert p. induction x as [| a c l IHl k v r IHr]; intros p; cbn; [set_solver |].
  intros (Ha & _ & Hl%IHl & Hr%IHr). set_solver.
Qed.

Lemma repc_nonzero h C p : repc h C p -> 0 ∉ caddrs C.
Proof.
  revert p. induction C as [| f C IH]; intros p; cbn; [set_solver |].
  intros (Ha & _ & Hs%rep_nonzero & Hc%IH). set_solver.
Qed.

Lemma plug_nodup C x : NoDup (addrs (plug C x)) <-> NoDup (addrs x ++ caddrs C).
Proof. by rewrite addrs_plug. Qed.

(** Membership goals, from the hypotheses about membership. *)
Ltac mem :=
  repeat match goal with
  | H : ?P |- _ =>
      lazymatch type of P with
      | Prop =>
          lazymatch P with
          | context [elem_of] => fail
          | _ <> _ => fail
          | _ => clear H
          end
      end
  end; set_solver.

(** The lookup of an address that was not written. *)
Ltac unwritten := cbn [heap put]; rewrite ?lookup_insert_ne by mem.

(** Only the subtree changes. *)
Lemma shape_local s s' C x x' :
  shape s (plug C x) -> ptr x' = ptr x -> root s' = root s -> addrs x' ≡ₚ addrs x ->
  (forall a, a ∉ addrs x -> heap s' !! a = heap s !! a) -> rep (heap s') (cpar C) x' ->
  shape s' (plug C x').
Proof.
  intros [Hr Hp Hn] Ep Er Ha Hag Hx'. apply plug_nodup in Hn. split.
  - by rewrite Er, Hr, !ptr_plug, Ep.
  - apply rep_plug. rewrite Ep. split; [| done]. apply rep_plug in Hp as [Hc _].
    eapply repc_agree; [| exact Hc]. intros a Hin. apply Hag. apply NoDup_app in Hn as (_ & Hd & _).
    intros Hin'. by eapply Hd.
  - apply plug_nodup. by rewrite Ha.
Qed.

Lemma shape_agree s s' x :
  shape s x -> root s' = root s -> (forall a, a ∈ addrs x -> heap s' !! a = heap s !! a) -> shape s' x.
Proof. intros [H1 H2 H3] Hr Ha. split; [congruence | by eapply rep_agree | done]. Qed.

Lemma shape_get s C d a c x k v y :
  shape s (plug C (node d a c x k v y)) -> get a s = Ok (dnode d k v (ptr x) (ptr y) (cpar C) c).
Proof. intros [_ Hp _]. apply rep_plug in Hp as [_ (_ & H & _)%rep_node]. unfold get. by rewrite H. Qed.

Lemma shape_put s C d a c x k v y c' k' v' :
  shape s (plug C (node d a c x k v y)) ->
  let s' := put a (dnode d k' v' (ptr x) (ptr y) (cpar C) c') s in
  shape s' (plug C (node d a c' x k' v' y)) /\ same_nodes s s'.
Proof.
  intros H. cbv zeta. pose proof H as [_ Hp Hn]. apply rep_plug in Hp as [_ (Ha & Hl & Hx & Hy)%rep_node].
  apply plug_nodup in Hn. rewrite addrs_node in Hn. cbn in Hn. apply NoDup_cons in Hn as [Hna _].
  split; [| by eapply same_nodes_put]. eapply shape_local; [exact H | by rewrite !ptr_node | done | by rewrite !addrs_node | |].
  - intros b Hb. rewrite addrs_node in Hb. by unwritten.
  - apply rep_node. split; [done |]. split; [cbn; by rewrite lookup_insert_eq |].
    split; (eapply rep_agree; [| done]); intros b Hb; by unwritten.
Qed.

(** ** Pointers *)

Lemma reparent_spec s p q x :
  rep (heap s) p x -> NoDup (addrs x) ->
  exists s', reparent (ptr x) q s = Ok s' /\ rep (heap s') q x /\ same_nodes s s' /\ root s' = root s /\
    forall a, a <> ptr x -> heap s' !! a = heap s !! a.
Proof.
  destruct x as [| a c l k v r]; cbn; [by exists s |]. intros (Ha & Hl & Hrl & Hrr) [Hna _]%NoDup_cons.
  unfold reparent, set_parent, get. rewrite (proj2 (Z.eqb_neq a 0)), Hl by done. cbn [res_bind]. eexists. split; [done |].
  split; [| split; [by eapply same_nodes_put | split; [done | intros b Hb; cbn; by rewrite lookup_insert_ne]]].
  cbn. split; [done |]. split; [by rewrite lookup_insert_eq |].
  split; (eapply rep_agree; [| done]); intros b Hb; by unwritten.
Qed.

(** The parent's pointer to the subtree at [o] becomes [m]. *)
Definition relink (o m p : Z) (s : rbtree) : res rbtree :=
  if p =? 0 then Ok (set_root m s)
  else
    let! x := get p s in
    if o =? left x then set_left p m s else set_right p m s.

Lemma relink_spec s C o m :
  repc (heap s) C o -> root s = croot C o -> o ∉ caddrs C -> o <> 0 -> NoDup (caddrs C) ->
  exists s', relink o m (cpar C) s = Ok s' /\ repc (heap s') C m /\ root s' = croot C m /\ same_nodes s s' /\
    (forall a, a <> cpar C -> heap s' !! a = heap s !! a).
Proof.
  intros Hc Hroot Ho Ho0 Hnd. unfold relink. destruct C as [| f C]; cbn [cpar repc caddrs] in *.
  { cbn [Z.eqb]. eexists. split; [done |]. done. }
  destruct Hc as (Hf0 & Hf & Hfs & HcC). rewrite (proj2 (Z.eqb_neq _ _)) by done. apply NoDup_cons in Hnd as [Hfn Hnd].
  assert (Hos : o <> ptr (f_sib f)).
  { intros ->. apply Ho. apply elem_of_cons. right. apply elem_of_app. left. by apply ptr_in. }
  set (y := dnode (f_side f) (f_key f) (f_val f) m (ptr (f_sib f)) (cpar C) (f_color f)).
  exists (put (f_addr f) y s). split.
  { unfold set_left, set_right, get, y, dnode in *. rewrite Hf. clear Hf. destruct (f_side f); cbn [res_bind left right].
    - by rewrite Z.eqb_refl.
    - by rewrite (proj2 (Z.eqb_neq o _)). }
  split; [| split; [done |]; split; [by eapply same_nodes_put | intros a Ha; by unwritten]].
  cbn. split; [done |]. split; [by rewrite lookup_insert_eq |].
  split; [eapply rep_agree; [| exact Hfs] | eapply repc_agree; [| exact HcC]]; intros a Ha; by unwritten.
Qed.

(** The subtree at [o] is replaced by the tree [x], which is in memory. *)
Lemma replace_node_spec s C o ox p x :
  heap s !! o = Some ox -> parent ox = cpar C -> o ∉ caddrs C -> o ∉ addrs x -> o <> 0 -> repc (heap s) C o ->
  root s = croot C o -> NoDup (addrs x ++ caddrs C) -> rep (heap s) p x ->
  exists s', replace_node o (ptr x) s = Ok s' /\ repc (heap s') C (ptr x) /\ rep (heap s') (cpar C) x /\
    root s' = croot C (ptr x) /\ same_nodes s s' /\ (forall a, a <> cpar C -> a <> ptr x -> heap s' !! a = heap s !! a).
Proof.
  intros Ho Hpar HoC Hox Ho0 Hc Hroot Hnd Hx. apply NoDup_app in Hnd as (Hndx & Hdis & HndC).
  assert (Hcp : cpar C ∉ addrs x).
  { pose proof (rep_nonzero _ _ _ Hx). destruct C as [| f C]; cbn in *; [done |]. intros ?. by eapply Hdis; [| left]. }
  assert (Hop : o <> cpar C) by (destruct C; cbn in *; mem).
  unfold replace_node. unfold get at 1. rewrite Ho. cbn [res_bind]. rewrite Hpar. fold (relink o (ptr x) (cpar C) s).
  destruct (relink_spec s C o (ptr x) Hc Hroot HoC Ho0 HndC) as (s1 & -> & Hc1 & Hr1 & Hs1 & Hag1). cbn [res_bind].
  unfold get. rewrite Hag1, Ho by done. cbn [res_bind]. rewrite Hpar.
  assert (Hx1 : rep (heap s1) p x) by (eapply rep_agree; [| exact Hx]; intros a Ha; apply Hag1; mem).
  destruct (reparent_spec s1 p (cpar C) x Hx1 Hndx) as (s' & -> & Hx' & Hs' & Hr' & Hag').
  exists s'. split; [done |]. split; [| split; [done |]; split; [congruence |]; split].
  - eapply repc_agree; [| exact Hc1]. intros a Ha. apply Hag'. intros ->.
    destruct (decide (ptr x = 0)) as [E0 | E0]; [rewrite E0 in Ha; by eapply repc_nonzero |].
    by apply (Hdis (ptr x)); [apply ptr_in |].
  - by eapply same_nodes_trans.
  - intros a Ha1 Ha2. rewrite Hag', Hag1; done.
Qed.

Lemma set_child_spec d e n k v x y p c m s :
  heap s !! n = Some (dnode d k v x y p c) ->
  set_child e n m s = Ok (put n (match d, e with
    | Left, Left | Right, Right => dnode d k v m y p c
    | _, _ => dnode d k v x m p c end) s).
Proof. intros H. destruct d, e; cbn; unfold set_left, set_right, get; by rewrite H. Qed.

Lemma get_child_spec d e n k v x y p c s :
  heap s !! n = Some (dnode d k v x y p c) ->
  get_child e n s = Ok (match d, e with Left, Left | Right, Right => x | _, _ => y end).
Proof. intros H. destruct d, e; cbn; unfold get_left, get_right, get; by rewrite H. Qed.

Lemma set_parent_spec d n k v x y p c q s :
  heap s !! n = Some (dnode d k v x y p c) -> set_parent n q s = Ok (put n (dnode d k v x y q c) s).
Proof. intros H. destruct d; cbn; unfold set_parent, get; by rewrite H. Qed.

Lemma set_child_same d n k v x y p c m s :
  heap s !! n = Some (dnode d k v x y p c) -> set_child d n m s = Ok (put n (dnode d k v m y p c) s).
Proof. intros H. erewrite set_child_spec by exact H. by destruct d. Qed.

Lemma set_child_opp d n k v x y p c m s :
  heap s !! n = Some (dnode d k v x y p c) -> set_child (opp d) n m s = Ok (put n (dnode d k v x m p c) s).
Proof. intros H. erewrite set_child_spec by exact H. by destruct d. Qed.

Lemma get_child_same d n k v x y p c s :
  heap s !! n = Some (dnode d k v x y p c) -> get_child d n s = Ok x.
Proof. intros H. erewrite get_child_spec by exact H. by destruct d. Qed.

Lemma get_child_opp d n k v x y p c s :
  heap s !! n = Some (dnode d k v x y p c) -> get_child (opp d) n s = Ok y.
Proof. intros H. erewrite get_child_spec by exact H. by destruct d. Qed.

(** The list that an address is in.  Addresses of different lists differ. *)
Fixpoint label (Ls : list (list Z)) (a : Z) : Z :=
  match Ls with [] => 0 | L :: Ls => if decide (a ∈ L) then 0 else 1 + label Ls a end.

Lemma label_in Ls i L a : NoDup (concat Ls) -> Ls !! i = Some L -> a ∈ L -> label Ls a = Z.of_nat i.
Proof.
  revert i. induction Ls as [| L' Ls IH]; intros i Hn Hi Ha; [done |]. cbn in Hn. apply NoDup_app in Hn as (_ & Hd & Hn). cbn [label].
  destruct i as [| i]; cbn in Hi; simplify_eq; [by rewrite decide_True |].
  rewrite decide_False, (IH i Hn Hi Ha); [lia |]. intros Ha'. apply (Hd a Ha'). apply list_elem_of_In, in_concat.
  exists L. rewrite <- !list_elem_of_In. split; [by eapply list_elem_of_lookup_2 | done].
Qed.

(** Addresses with different labels. *)
Ltac apart :=
  repeat match goal with
  | H : _ ∈ _ :: _ |- _ => apply elem_of_cons in H as [-> | H]
  | H : _ ∈ _ ++ _ |- _ => apply elem_of_app in H as [H | H]
  | H : _ \/ _ |- _ => destruct H
  | W : forall a, a ∈ ?L -> _, H : _ ∈ ?L |- _ => apply W in H
  end; congruence.

Lemma parent_dnode d k v x y p c : parent (dnode d k v x y p c) = p.
Proof. by destruct d. Qed.

(** The rotation changes the pointers of [n], of its child [r] and of the parent of [y]. *)
Lemma rotate_spec d s C n cn x k v r cr y rk rv z :
  shape s (plug C (node d n cn x k v (node d r cr y rk rv z))) ->
  exists s', rotate d n s = Ok s' /\ same_nodes s s' /\
    shape s' (plug C (node d r cr (node d n cn x k v y) rk rv z)).
Proof.
  intros [Hroot Hp Hn]. pose proof (rep_nonzero _ _ _ Hp) as H0. rewrite addrs_plug, !addrs_node in H0.
  apply rep_plug in Hp as [HC (Hn0 & Hln & Hx & Hr)%rep_node].
  apply plug_nodup in Hn. rewrite !addrs_node in Hn. rewrite ptr_plug in Hroot. rewrite ptr_node in *.
  set (Ls := [[0]; [n]; addrs x; [r]; addrs y; addrs z; caddrs C]). set (w := label Ls).
  assert (HW : forall i L a, Ls !! i = Some L -> a ∈ L -> w a = Z.of_nat i).
  { intros i L a. apply label_in. cbn. constructor; [set_solver |]. eapply NoDup_Permutation_proper; [| exact Hn]. solve_Permutation. }
  assert (W0 : w 0 = 0) by (apply (HW 0%nat _ 0 eq_refl); by left). assert (Wn : w n = 1) by (apply (HW 1%nat _ n eq_refl); by left).
  assert (Wr : w r = 3) by (apply (HW 3%nat _ r eq_refl); by left). assert (Wx : forall a, a ∈ addrs x -> w a = 2) by (intros a; apply (HW 2%nat _ a eq_refl)).
  assert (Wy : forall a, a ∈ addrs y -> w a = 4) by (intros a; apply (HW 4%nat _ a eq_refl)).
  assert (Wz : forall a, a ∈ addrs z -> w a = 5) by (intros a; apply (HW 5%nat _ a eq_refl)).
  assert (WC : forall a, a ∈ caddrs C -> w a = 6) by (intros a; apply (HW 6%nat _ a eq_refl)).
  assert (Hcp : w (cpar C) = 0 \/ w (cpar C) = 6) by (destruct C; cbn [cpar]; [by left | right; apply WC; by left]).
  assert (Hyp : w (ptr y) = 0 \/ w (ptr y) = 4) by (destruct (decide (ptr y = 0)) as [-> |]; [by left | right; by apply Wy, ptr_in]).
  clearbody w. clear HW Ls H0.
  destruct (replace_node_spec s C n _ n (node d r cr y rk rv z) Hln (parent_dnode _ _ _ _ _ _ _)) as (s1 & E1 & HC1 & Hr1 & Hroot1 & Hs1 & Hag1);
    [intros H; apart | rewrite addrs_node; intros H; apart | done | done | done | | done |].
  { rewrite addrs_node. cbn in Hn. rewrite <- app_assoc in Hn. by apply NoDup_cons in Hn as [_ (_ & _ & Hn)%NoDup_app]. }
  unfold rotate. erewrite get_child_opp by exact Hln. cbn [res_bind]. rewrite ptr_node in *. rewrite E1. cbn [res_bind].
  apply rep_node in Hr1 as (Hr0 & Hlr & Hy & Hz).
  assert (Hln1 : heap s1 !! n = Some (dnode d k v (ptr x) r (cpar C) cn)) by (rewrite Hag1; [done | apart ..]).
  assert (Hx1 : rep (heap s1) n x).
  { eapply rep_agree; [| exact Hx]. intros a Ha. apply Hag1; apart. }
  assert (Hy2 : rep (<[n := dnode d k v (ptr x) (ptr y) (cpar C) cn]> (heap s1)) r y).
  { eapply rep_agree; [| exact Hy]. intros a Ha. rewrite lookup_insert_ne; [done | apart]. }
  rewrite (get_child_same _ _ _ _ _ _ _ _ _ Hlr). cbn [res_bind]. rewrite (set_child_opp _ _ _ _ _ _ _ _ _ _ Hln1). cbn [res_bind].
  set (s2 := put n _ s1). destruct (reparent_spec s2 r n y Hy2) as (s3 & E3 & Hy3 & Hs3 & Hroot3 & Hag3).
  { apply NoDup_app in Hn as [[_ (_ & _ & Hn)%NoDup_app]%NoDup_cons _]. by apply NoDup_cons in Hn as [_ [Hn _]%NoDup_app]. }
  rewrite E3. cbn [res_bind].
  assert (Hag31 : forall a, a <> n -> a <> ptr y -> heap s3 !! a = heap s1 !! a) by (intros; rewrite Hag3 by done; unfold s2; cbn; by rewrite lookup_insert_ne).
  assert (Hlr3 : heap s3 !! r = Some (dnode d rk rv (ptr y) (ptr z) (cpar C) cr)) by (rewrite Hag31; [done | apart ..]).
  assert (Hln3 : heap s3 !! n = Some (dnode d k v (ptr x) (ptr y) (cpar C) cn)).
  { rewrite Hag3 by apart. unfold s2. cbn. by rewrite lookup_insert_eq. }
  rewrite (set_child_same _ _ _ _ _ _ _ _ _ _ Hlr3). cbn [res_bind]. set (s4 := put r _ s3).
  assert (Hln4 : heap s4 !! n = Some (dnode d k v (ptr x) (ptr y) (cpar C) cn)) by (unfold s4; cbn; rewrite lookup_insert_ne; [done | apart]).
  rewrite (set_parent_spec _ _ _ _ _ _ _ _ _ _ Hln4). set (s5 := put n _ s4).
  exists s5. split; [done |]. split.
  { apply (same_nodes_trans _ s1 _ Hs1). apply (same_nodes_trans _ s2); [by eapply same_nodes_put |]. apply (same_nodes_trans _ s3 _ Hs3).
    apply (same_nodes_trans _ s4); by eapply same_nodes_put. }
  assert (Hag5 : forall a, a <> n -> a <> r -> heap s5 !! a = heap s3 !! a) by (intros; unfold s5, s4; cbn; by rewrite !lookup_insert_ne).
  split.
  - rewrite ptr_plug, ptr_node. transitivity (root s1); [exact Hroot3 | done].
  - apply rep_plug. rewrite ptr_node. split.
    { eapply repc_agree; [| exact HC1]. intros a Ha. rewrite Hag5, Hag31 by apart. done. }
    apply rep_node. split; [done |]. split; [| split; [apply rep_node; split; [done |]; split; [| split] |]].
    + unfold s5, s4. rewrite ptr_node. cbn. rewrite lookup_insert_ne by apart. by rewrite lookup_insert_eq.
    + unfold s5. cbn. by rewrite lookup_insert_eq.
    + eapply rep_agree; [| exact Hx1]. intros a Ha. rewrite Hag5, Hag31 by apart. done.
    + eapply rep_agree; [| exact Hy3]. intros a Ha. rewrite Hag5 by apart. done.
    + eapply rep_agree; [| exact Hz]. intros a Ha. rewrite Hag5, Hag31 by apart. done.
  - apply plug_nodup. rewrite !addrs_node. eapply NoDup_Permutation_proper; [| exact Hn]. solve_Permutation.
Qed.

(** ** Neighbours *)

Definition paint (c : color) (x : tree) : tree :=
  match x with E => E | T a _ l k v r => T a c l k v r end.

(** The path to the sibling of the subtree [x]. *)
Definition flip (f : frame) (x : tree) : frame :=
  mk_frame (opp (f_side f)) (f_addr f) (f_color f) (f_key f) (f_val f) x.

Lemma node_opp d a c x k v y : node (opp d) a c y k v x = node d a c x k v y.
Proof. by destruct d. Qed.

Lemma plug_flip f C x : plug (flip f x :: C) (f_sib f) = plug (f :: C) x.
Proof. cbn. unfold plug1. cbn. by rewrite node_opp. Qed.

Lemma paint_node c d a c' x k v y : paint c (node d a c' x k v y) = node d a c x k v y.
Proof. by destruct d. Qed.

Lemma ptr_paint c x : ptr (paint c x) = ptr x.
Proof. by destruct x. Qed.

Lemma paint_E c x : paint c x = E <-> x = E.
Proof. by destruct x. Qed.

(** A non-empty tree, seen from either side. *)
Lemma tree_node d x : x <> E -> exists a c y k v z, x = node d a c y k v z.
Proof. destruct x as [| a c l k v r]; [done |]. intros _. destruct d; [exists a, c, l, k, v, r | exists a, c, r, k, v, l]; done. Qed.

(** [m] ends in a state with the same nodes, in the form of the tree [y]. *)
Definition becomes (s : rbtree) (m : res rbtree) (y : tree) : Prop :=
  exists s', m = Ok s' /\ same_nodes s s' /\ shape s' y.

Lemma becomes_ret s y : shape s y -> becomes s (Ok s) y.
Proof. intros H. by exists s. Qed.

Lemma becomes_bind s m x (k : rbtree -> res rbtree) (P : res rbtree -> Prop) :
  becomes s m x -> (forall s', same_nodes s s' -> shape s' x -> P (k s')) -> P (res_bind m k).
Proof. intros (s' & -> & Hs & Hx) Hk. by apply Hk. Qed.

Lemma becomes_after s s' m y : same_nodes s s' -> becomes s' m y -> becomes s m y.
Proof. intros H (s2 & -> & Hs & Hx). exists s2. split; [done |]. split; [by eapply same_nodes_trans | done]. Qed.

Lemma set_color_spec s C x c :
  shape s (plug C x) -> x <> E -> becomes s (set_color (ptr x) c s) (plug C (paint c x)).
Proof.
  intros H Hx. destruct (tree_node Left x Hx) as (a & c' & y & k & v & z & ->). cbn [ptr node].
  unfold set_color. rewrite (shape_get s C Left a c' y k v z H). cbn [res_bind dnode key value left right parent ncolor].
  destruct (shape_put s C Left a c' y k v z c k v H) as [Hp Hs]. eexists. split; [done |]. by split.
Qed.

Section Neighbours.
Context {s : rbtree} {C : list frame} {x : tree}.
Context (Hs : shape s (plug C x)).

Lemma ptr_ne0 : x <> E -> ptr x <> 0.
Proof. destruct x; [done |]. intros _. by destruct (proj1 (rep_plug _ _ _) (sh_rep _ _ Hs)) as [_ [H _]]. Qed.

Lemma node_color_spec : node_color (ptr x) s = Ok (color_of x).
Proof.
  unfold node_color. pose proof ptr_ne0 as H0. destruct x as [| a c l k v r]; [done |]. specialize (H0 ltac:(done)). cbn [ptr] in *.
  rewrite (proj2 (Z.eqb_neq _ 0)) by done. by rewrite (shape_get s C Left a c l k v r Hs).
Qed.

Lemma get_parent_spec : x <> E -> get_parent (ptr x) s = Ok (cpar C).
Proof.
  intros Hx. destruct (tree_node Left x Hx) as (a & c' & y & k & v & z & E1). pose proof Hs as H. rewrite E1 in H. rewrite E1.
  unfold get_parent. cbn [ptr node]. by rewrite (shape_get s C Left a c' y k v z H).
Qed.

Lemma has_color_spec c m : m = Ok (ptr x) -> has_color m c s = Ok (bool_decide (color_of x = c)).
Proof. intros ->. unfold has_color. cbn [res_bind]. by rewrite node_color_spec. Qed.
End Neighbours.

Section Parents.
Context {s : rbtree} {f : frame} {C : list frame} {x : tree}.
Context (Hs : shape s (plug (f :: C) x)).

Lemma shape_sib : shape s (plug (flip f x :: C) (f_sib f)).
Proof. by rewrite plug_flip. Qed.

Lemma get_frame : get (f_addr f) s = Ok (dnode (f_side f) (f_key f) (f_val f) (ptr x) (ptr (f_sib f)) (cpar C) (f_color f)).
Proof. exact (shape_get s C _ _ _ _ _ _ _ Hs). Qed.

Lemma frame_ne0 : f_addr f <> 0.
Proof. by destruct (proj1 (rep_plug _ _ _) (sh_rep _ _ Hs)) as [[H _] _]. Qed.

Lemma frame_color : node_color (f_addr f) s = Ok (f_color f).
Proof. pose proof (@node_color_spec s C (plug1 f x) Hs) as H. unfold plug1 in H. by rewrite ptr_node, color_node in H. Qed.

Lemma set_frame_color c : becomes s (set_color (f_addr f) c s)
  (plug (mk_frame (f_side f) (f_addr f) c (f_key f) (f_val f) (f_sib f) :: C) x).
Proof.
  pose proof (set_color_spec s C (plug1 f x) c Hs) as H. unfold plug1 in H. rewrite ptr_node, paint_node in H.
  apply H. by destruct (f_side f).
Qed.

Lemma set_sib_color c : f_sib f <> E -> becomes s (set_color (ptr (f_sib f)) c s)
  (plug (mk_frame (f_side f) (f_addr f) (f_color f) (f_key f) (f_val f) (paint c (f_sib f)) :: C) x).
Proof.
  intros H0. pose proof (set_color_spec s _ _ c shape_sib H0) as H.
  cbn in *. unfold plug1 in *. cbn in *. by rewrite node_opp in H.
Qed.

Context (Hx : x <> E).

Lemma sib_ne : ptr x <> ptr (f_sib f).
Proof.
  pose proof (ptr_in x (ptr_ne0 Hs Hx)) as Hin. pose proof (sh_nodup _ _ Hs) as Hn.
  rewrite plug_nodup in Hn. cbn [caddrs] in Hn. apply NoDup_app in Hn as (_ & Hd & _). intros Heq.
  apply (Hd _ Hin). right. apply elem_of_app. left. rewrite Heq. apply ptr_in. rewrite <- Heq. by apply (ptr_ne0 Hs).
Qed.

(** Which child of the parent. *)
Definition is_left (d : side) : bool := match d with Left => true | Right => false end.

Lemma eqb_left p c : (ptr x =? left (dnode (f_side f) (f_key f) (f_val f) (ptr x) (ptr (f_sib f)) p c)) = is_left (f_side f).
Proof. unfold dnode. destruct (f_side f); cbn; [apply Z.eqb_refl |]. apply Z.eqb_neq, sib_ne. Qed.

Lemma eqb_right p c : (ptr x =? right (dnode (f_side f) (f_key f) (f_val f) (ptr x) (ptr (f_sib f)) p c)) = negb (is_left (f_side f)).
Proof. unfold dnode. destruct (f_side f); cbn; [| apply Z.eqb_refl]. apply Z.eqb_neq, sib_ne. Qed.

Lemma get_node : exists nx, get (ptr x) s = Ok nx /\ parent nx = f_addr f.
Proof. pose proof (get_parent_spec Hs Hx) as H. unfold get_parent in H. destruct (get (ptr x) s) as [nx |]; cbn in H; [| done]. exists nx. split; [done |]. by injection H. Qed.

Lemma sibling_spec : sibling (ptr x) s = Ok (ptr (f_sib f)).
Proof.
  unfold sibling. rewrite (proj2 (Z.eqb_neq _ 0)) by (by apply (ptr_ne0 Hs)). cbn [negb check res_bind].
  destruct get_node as (nx & -> & Ep). cbn [res_bind]. rewrite Ep, (proj2 (Z.eqb_neq _ 0)) by apply frame_ne0. cbn [negb check res_bind].
  rewrite get_frame. cbn [res_bind]. rewrite eqb_left. by destruct (f_side f).
Qed.
End Parents.

Section Grandparents.
Context {s : rbtree} {f g : frame} {C : list frame} {x : tree}.
Context (Hs : shape s (plug (f :: g :: C) x)) (Hx : x <> E).

Lemma plug1_ne h y : plug1 h y <> E.
Proof. unfold plug1. by destruct (f_side h). Qed.

Lemma grandparent_spec : grandparent (ptr x) s = Ok (f_addr g).
Proof.
  unfold grandparent. rewrite (proj2 (Z.eqb_neq _ 0)) by (by apply (ptr_ne0 Hs)). cbn [negb check res_bind].
  destruct (get_node Hs Hx) as (nx & -> & Ep). cbn [res_bind]. rewrite Ep, (proj2 (Z.eqb_neq _ 0)) by apply (frame_ne0 Hs). cbn [negb check res_bind].
  rewrite (get_frame Hs). cbn [res_bind]. rewrite !parent_dnode. cbn [cpar].
  by rewrite (proj2 (Z.eqb_neq _ 0)) by apply (@frame_ne0 s g C (plug1 f x) Hs).
Qed.

Lemma uncle_spec : uncle (ptr x) s = Ok (ptr (f_sib g)).
Proof.
  unfold uncle. rewrite (proj2 (Z.eqb_neq _ 0)) by (by apply (ptr_ne0 Hs)). cbn [negb check res_bind].
  destruct (get_node Hs Hx) as (nx & -> & Ep). cbn [res_bind]. rewrite Ep, (proj2 (Z.eqb_neq _ 0)) by apply (frame_ne0 Hs). cbn [negb check res_bind].
  rewrite (get_frame Hs). cbn [res_bind]. rewrite !parent_dnode. cbn [cpar].
  rewrite (proj2 (Z.eqb_neq _ 0)) by apply (@frame_ne0 s g C (plug1 f x) Hs). cbn [negb check res_bind].
  pose proof (@sibling_spec s g C (plug1 f x) Hs (plug1_ne f x)) as H. unfold plug1 in H. by rewrite ptr_node in H.
Qed.
End Grandparents.

(** ** Colours *)

(** Every path to a leaf has [n] black nodes, and no red node has a red child. *)
Fixpoint rb (x : tree) (n : nat) : Prop :=
  match x with
  | E => n = O
  | T _ RED l _ _ r => color_of l = BLACK /\ color_of r = BLACK /\ rb l n /\ rb r n
  | T _ BLACK l _ _ r => match n with O => False | S n => rb l n /\ rb r n end
  end.

(** The colour of the parent of the subtree. *)
Definition ccolor (C : list frame) : option color := match C with [] => None | f :: _ => Some (f_color f) end.

(** The path of a tree with a black root, with a gap for a subtree of black height [n]. *)
Fixpoint rbc (C : list frame) (n : nat) : Prop :=
  match C with
  | [] => True
  | f :: C =>
      rb (f_sib f) n /\
      match f_color f with
      | RED => color_of (f_sib f) = BLACK /\ ccolor C = Some BLACK /\ rbc C n
      | BLACK => rbc C (S n)
      end
  end.

Definition redblack (x : tree) : Prop := color_of x = BLACK /\ exists n, rb x n.

Lemma rb_red d a x k v y n : rb (node d a RED x k v y) n <-> color_of x = BLACK /\ color_of y = BLACK /\ rb x n /\ rb y n.
Proof. destruct d; cbn; tauto. Qed.

Lemma rb_black d a x k v y n : rb (node d a BLACK x k v y) (S n) <-> rb x n /\ rb y n.
Proof. destruct d; cbn; tauto. Qed.

Lemma rb_paint_black x n : rb x n -> color_of x = RED -> rb (paint BLACK x) (S n).
Proof. destruct x as [| a [] l k v r]; cbn; [done | tauto | done]. Qed.

Lemma rb_black_inv x n : rb x (S n) -> color_of x = BLACK -> x <> E.
Proof. by destruct x. Qed.

Lemma redblack_plug C x n : rbc C n -> rb x n -> (color_of x = RED -> ccolor C = Some BLACK) -> redblack (plug C x).
Proof.
  revert x n. induction C as [| f C IH]; intros x n; cbn [plug].
  - intros _ Hx Hc. split; [| by exists n]. destruct (color_of x); [by specialize (Hc eq_refl) | done].
  - intros [Hs Hf] Hx Hc. unfold plug1. destruct (f_color f) eqn:Ef.
    + destruct Hf as (Hsb & HC & Hf). apply (IH _ n Hf); [apply rb_red | by intros _].
      split; [| done]. destruct (color_of x); [| done]. specialize (Hc eq_refl). cbn in Hc. congruence.
    + apply (IH _ (S n) Hf); [by apply rb_black |]. by rewrite color_node.
Qed.

Lemma redblack_unplug C x : redblack (plug C x) -> exists n, rbc C n /\ rb x n /\ (color_of x = RED -> ccolor C = Some BLACK).
Proof.
  revert x. induction C as [| f C IH]; intros x; cbn [plug].
  - intros [Hc [n Hx]]. exists n. split; [done |]. split; [done |]. congruence.
  - intros (n & HC & Hx & Hc)%IH. unfold plug1 in *. rewrite color_node in Hc. cbn [rbc ccolor]. destruct (f_color f).
    + apply rb_red in Hx as (? & ? & ? & ?). exists n. split; [| split; [done | congruence]]. split; [done |]. split; [done |]. split; [by apply Hc | done].
    + destruct n as [| n]; [by destruct (f_side f) |]. apply rb_black in Hx as [? ?]. by exists n.
Qed.

(** ** The same elements in the same order *)

Definition alike (x y : tree) : Prop := inorder x = inorder y /\ addrs x ≡ₚ addrs y.

#[global] Instance alike_equiv : Equivalence alike.
Proof.
  split.
  - done.
  - intros x y [H1 H2]. by split.
  - intros x y z [H1 H2] [H3 H4]. split; [congruence | by rewrite H2].
Qed.

Lemma alike_node d a c c' x x' k v y y' : alike x x' -> alike y y' -> alike (node d a c x k v y) (node d a c' x' k v y').
Proof. intros [Hx1 Hx2] [Hy1 Hy2]. split; [destruct d; cbn; congruence |]. by rewrite !addrs_node, Hx2, Hy2. Qed.

#[global] Instance plug_alike C : Proper (alike ==> alike) (plug C).
Proof. induction C as [| f C IH]; intros x y H; [done |]. cbn. apply IH. by apply alike_node. Qed.

Lemma alike_paint c x : alike x (paint c x).
Proof. by destruct x. Qed.

Lemma alike_rotate d n cn cn' x k v r cr cr' y rk rv z :
  alike (node d n cn x k v (node d r cr y rk rv z)) (node d r cr' (node d n cn' x k v y) rk rv z).
Proof.
  split; [| rewrite !addrs_node; solve_Permutation]. destruct d; cbn; by rewrite <- ?app_assoc.
Qed.

Lemma alike_flip d n c x k v y z : alike (node d n c x k v y) z -> alike (node (opp d) n c y k v x) z.
Proof. by rewrite node_opp. Qed.

(** ** Rebalancing after an insertion *)

Ltac fcbn := cbn [f_side f_addr f_color f_key f_val f_sib].

Lemma insert_case5_spec s f g C x :
  shape s (plug (f :: g :: C) x) -> x <> E -> f_side f = f_side g ->
  becomes s (insert_case5 (ptr x) s)
    (plug C (node (f_side g) (f_addr f) BLACK x (f_key f) (f_val f)
       (node (f_side g) (f_addr g) RED (f_sib f) (f_key g) (f_val g) (f_sib g)))).
Proof.
  intros Hs Hx Hd. unfold insert_case5. rewrite (get_parent_spec Hs Hx). cbn [res_bind cpar].
  eapply becomes_bind; [apply (set_frame_color Hs) |]. intros s1 N1 H1. apply (becomes_after _ _ _ _ N1).
  rewrite (grandparent_spec H1 Hx). cbn [res_bind].
  eapply becomes_bind; [apply (@set_frame_color s1 g C _ H1) |]. intros s2 N2 H2. apply (becomes_after _ _ _ _ N2).
  set (f1 := mk_frame (f_side f) _ _ _ _ _) in *. set (g2 := mk_frame (f_side g) _ _ _ _ _) in *.
  change (plug (g2 :: C) (plug1 f1 x)) with (plug (f1 :: g2 :: C) x) in H2.
  pose proof (get_frame H2) as Gf. pose proof (@get_frame s2 g2 C (plug1 f1 x) H2) as Gg. cbn [f_addr f1 g2] in Gf, Gg.
  rewrite Gf, Gg. cbn [res_bind]. rewrite (eqb_left H2 Hx), (eqb_right H2 Hx).
  pose proof (@eqb_left s2 g2 C (plug1 f1 x) H2 (plug1_ne _ _)) as El. pose proof (@eqb_right s2 g2 C (plug1 f1 x) H2 (plug1_ne _ _)) as Er.
  unfold plug1 in El, Er. rewrite ptr_node in El, Er. cbn [f_addr f1 g2] in El, Er. unfold plug1 at 1. rewrite ptr_node. rewrite El. 
  assert (Hrot : becomes s2 (rotate (opp (f_side g)) (f_addr g) s2)
    (plug C (node (f_side g) (f_addr f) BLACK x (f_key f) (f_val f)
       (node (f_side g) (f_addr g) RED (f_sib f) (f_key g) (f_val g) (f_sib g))))).
  { rewrite <- node_opp, <- (node_opp _ (f_addr g)). apply rotate_spec. rewrite !node_opp. subst f1 g2. unfold plug1 in H2. cbn in H2. by rewrite Hd in H2. }
  cbn [f_side f1 g2]. rewrite Hd. destruct (f_side g); cbn [is_left negb andb check res_bind]; [exact Hrot |].
  unfold plug1. rewrite ptr_node, Er. cbn. exact Hrot.
Qed.

Lemma shape_lookup s C d a c x k v y :
  shape s (plug C (node d a c x k v y)) -> heap s !! a = Some (dnode d k v (ptr x) (ptr y) (cpar C) c).
Proof. intros [_ Hp _]. by apply rep_plug in Hp as [_ (_ & H & _)%rep_node]. Qed.

(** On which sides the node and its parent are. *)
Section Sides.
Context {s : rbtree} {f g : frame} {C : list frame} {x : tree}.
Context (Hs : shape s (plug (f :: g :: C) x)) (Hx : x <> E).

Lemma parent_left : (let! g' := grandparent (ptr x) s in let! gl := get_left g' s in Ok (f_addr f =? gl)) = Ok (is_left (f_side g)).
Proof.
  rewrite (grandparent_spec Hs Hx). cbn [res_bind]. unfold get_left. rewrite (@get_frame s g C (plug1 f x) Hs). cbn [res_bind].
  rewrite <- (@eqb_left s g C (plug1 f x) Hs (plug1_ne _ _) (cpar C) (f_color g)). unfold plug1. by rewrite ptr_node.
Qed.

Lemma parent_right : (let! g' := grandparent (ptr x) s in let! gr := get_right g' s in Ok (f_addr f =? gr)) = Ok (negb (is_left (f_side g))).
Proof.
  rewrite (grandparent_spec Hs Hx). cbn [res_bind]. unfold get_right. rewrite (@get_frame s g C (plug1 f x) Hs). cbn [res_bind].
  rewrite <- (@eqb_right s g C (plug1 f x) Hs (plug1_ne _ _) (cpar C) (f_color g)). unfold plug1. by rewrite ptr_node.
Qed.
End Sides.

(** The node is an inner grandchild: a rotation makes it an outer one. *)
Lemma insert_inner s f g C x :
  shape s (plug (f :: g :: C) x) -> x <> E -> f_side f <> f_side g ->
  exists a c y k v z, x = node (f_side g) a c y k v z /\
  insert_case4 (ptr x) s =
    (let! t := rotate (f_side g) (f_addr f) s in let! n := get_child (f_side g) a t in insert_case5 n t).
Proof.
  intros Hs Hx Hd. destruct (tree_node (f_side g) x Hx) as (a & c & y & k & v & z & E1). exists a, c, y, k, v, z. split; [done |].
  unfold insert_case4. rewrite (get_parent_spec Hs Hx). cbn [res_bind cpar]. rewrite (get_frame Hs). cbn [res_bind].
  rewrite (eqb_left Hs Hx), (eqb_right Hs Hx), (parent_left Hs Hx), (parent_right Hs Hx).
  assert (Ep : ptr x = a) by (rewrite E1; apply ptr_node). rewrite Ep.
  unfold andM. destruct (f_side f), (f_side g); try done.
Qed.

Lemma insert_outer s f g C x :
  shape s (plug (f :: g :: C) x) -> x <> E -> f_side f = f_side g -> insert_case4 (ptr x) s = insert_case5 (ptr x) s.
Proof.
  intros Hs Hx Hd. unfold insert_case4. rewrite (get_parent_spec Hs Hx). cbn [res_bind cpar]. rewrite (get_frame Hs). cbn [res_bind].
  rewrite (eqb_left Hs Hx), (eqb_right Hs Hx), (parent_left Hs Hx), (parent_right Hs Hx). unfold andM. rewrite Hd. by destruct (f_side g).
Qed.

Lemma insert_case4_spec s f g C x :
  shape s (plug (f :: g :: C) x) -> color_of x = RED -> f_color f = RED ->
  exists y, becomes s (insert_case4 (ptr x) s) (plug C y) /\ alike (plug1 g (plug1 f x)) y /\
    forall n, rb x n -> rb (f_sib f) n -> rb (f_sib g) n -> color_of (f_sib f) = BLACK -> color_of (f_sib g) = BLACK ->
      rb y (S n) /\ color_of y = BLACK.
Proof.
  intros Hs Hred Hfr. assert (Hx : x <> E) by (by intros ->). destruct (decide (is_left (f_side f) = is_left (f_side g))) as [Hd | Hd].
  - assert (Hd' : f_side f = f_side g) by (by destruct (f_side f), (f_side g)).
    rewrite (insert_outer _ _ _ _ _ Hs Hx Hd'). eexists. split; [by apply insert_case5_spec |]. split.
    + unfold plug1. rewrite Hd'. rewrite <- (node_opp _ (f_addr g)). rewrite <- (node_opp _ (f_addr f)). rewrite <- (node_opp _ (f_addr f) BLACK).
      rewrite <- (node_opp _ (f_addr g) RED). apply alike_rotate.
    + intros n H1 H2 H3 H4 H5. rewrite rb_black, rb_red, color_node. done.
  - assert (Hd' : f_side f = opp (f_side g)) by (by destruct (f_side f), (f_side g)).
    destruct (insert_inner _ _ _ _ _ Hs Hx) as (a & c & y & k & v & z & E1 & ->); [by intros E1; rewrite E1 in Hd |].
    rewrite E1, color_node in Hred. subst c. 
    assert (Hs' : shape s (plug (g :: C) (node (f_side g) (f_addr f) (f_color f) (f_sib f) (f_key f) (f_val f) (node (f_side g) a RED y k v z)))).
    { cbn in *. rewrite <- E1. unfold plug1 in Hs at 2. by rewrite Hd', node_opp in Hs. }
    eexists. split; [| split].
    + eapply becomes_bind; [apply rotate_spec; exact Hs' |]. intros s1 N1 H1. apply (becomes_after _ _ _ _ N1).
      rewrite (get_child_same _ _ _ _ _ _ _ _ _ (shape_lookup _ _ _ _ _ _ _ _ _ H1)). cbn [res_bind].
      apply (insert_case5_spec s1 (mk_frame (f_side g) a RED k v z) g C); [exact H1 | by destruct (f_side g) | done].
    + unfold plug1. rewrite Hd', node_opp, E1. cbn [f_side f_addr f_sib f_key f_val].
      rewrite (alike_node (f_side g) (f_addr g) (f_color g) (f_color g) _ _ _ _ _ _ (alike_rotate _ _ _ (f_color f) _ _ _ _ _ RED _ _ _ _) (reflexivity (f_sib g))).
      rewrite <- (node_opp _ (f_addr g)), <- (node_opp _ a), <- (node_opp _ a BLACK), <- (node_opp _ (f_addr g) RED). apply alike_rotate.
    + intros n H1 H2 H3 H4 H5. rewrite E1 in H1. apply rb_red in H1 as (? & ? & ? & ?). cbn. rewrite rb_black, color_node, Hfr, !rb_red. done.
Qed.

(** The parent and its sibling become black and the grandparent red. *)
Definition recoloured (f g : frame) (x : tree) : tree :=
  node (f_side g) (f_addr g) RED (node (f_side f) (f_addr f) BLACK x (f_key f) (f_val f) (f_sib f))
    (f_key g) (f_val g) (paint BLACK (f_sib g)).

Lemma insert_recolour rec s f g C x :
  shape s (plug (f :: g :: C) x) -> x <> E -> f_sib g <> E -> color_of (f_sib g) = RED ->
  exists s', insert_case3 rec (ptr x) s = rec (f_addr g) s' /\ same_nodes s s' /\ shape s' (plug C (recoloured f g x)).
Proof.
  intros Hs Hx Hu Hr. unfold insert_case3. rewrite (uncle_spec Hs Hx). cbn [res_bind].
  pose proof (@shape_sib s g C (plug1 f x) Hs) as Hsib. rewrite (node_color_spec Hsib). cbn [res_bind]. rewrite decide_True by done.
  rewrite (get_parent_spec Hs Hx). cbn [res_bind cpar].
  eapply becomes_bind; [apply (set_frame_color Hs) |]. intros s1 N1 H1. set (f1 := mk_frame (f_side f) _ _ _ _ _) in H1.
  eapply becomes_bind; [apply (@set_sib_color s1 g C (plug1 f1 x) H1 BLACK Hu) |]. intros s2 N2 H2. set (g2 := mk_frame (f_side g) _ _ _ _ _) in H2.
  rewrite (@grandparent_spec s2 f1 g2 C x H2 Hx). cbn [res_bind].
  eapply becomes_bind; [apply (@set_frame_color s2 g2 C (plug1 f1 x) H2) |]. intros s3 N3 H3.
  exists s3. split; [done |]. split; [| exact H3]. apply (same_nodes_trans _ s1 _ N1). by apply (same_nodes_trans _ s2).
Qed.

(** The tree after a red node was put at the end of a path. *)
Lemma insert_case1_spec fuel s C x n :
  shape s (plug C x) -> color_of x = RED -> rb x n -> rbc C n -> (length C < fuel)%nat ->
  exists y, becomes s (insert_case1 fuel (ptr x) s) y /\ alike (plug C x) y /\ redblack y.
Proof.
  revert s C x n. induction fuel as [| fuel IH]; intros s C x n Hs Hred Hn HC Hf; [lia |].
  assert (Hx : x <> E) by (by intros ->). cbn [insert_case1]. rewrite (get_parent_spec Hs Hx). cbn [res_bind].
  destruct C as [| f C]; cbn [cpar].
  { cbn. exists (paint BLACK x). split; [by apply (set_color_spec s []) |]. split; [apply alike_paint |].
    split; [by destruct x | exists (S n); by apply rb_paint_black]. }
  rewrite (proj2 (Z.eqb_neq _ 0)) by apply (frame_ne0 Hs). unfold insert_case2. rewrite (get_parent_spec Hs Hx). cbn [res_bind cpar].
  rewrite (frame_color Hs). cbn [res_bind]. destruct (f_color f) eqn:Ef.
  2: { rewrite decide_True by done. exists (plug (f :: C) x). split; [by apply becomes_ret |]. split; [done |].
       apply (redblack_plug _ _ n HC Hn). intros _. cbn. by rewrite Ef. }
  rewrite decide_False by done. cbn [rbc] in HC. rewrite Ef in HC. destruct HC as (Hfs & Hfb & Hg & HC).
  destruct C as [| g C]; [done |]. cbn in Hg. injection Hg as Hg. cbn [rbc] in HC. rewrite Hg in HC. destruct HC as [Hgs HC].
  destruct (color_of (f_sib g)) eqn:Eu.
  - destruct (insert_recolour (insert_case1 fuel) s f g C x Hs Hx ltac:(by destruct (f_sib g)) Eu) as (s' & -> & N' & H').
    destruct (IH s' C (recoloured f g x) (S n) H') as (y & Hy & Hal & Hrb); [by unfold recoloured; rewrite color_node | | done | cbn in Hf; lia |].
    { unfold recoloured. rewrite rb_red, color_node, rb_black. split; [done |]. split; [by destruct (f_sib g) |]. split; [done |]. by apply rb_paint_black. }
    unfold recoloured in Hy at 1. rewrite ptr_node in Hy. exists y. split; [by eapply becomes_after |]. split; [| done].
    rewrite <- Hal. change (plug (f :: g :: C) x) with (plug C (plug1 g (plug1 f x))). apply (plug_alike C). apply alike_node; [by apply alike_node | apply alike_paint].
  - unfold insert_case3. rewrite (uncle_spec Hs Hx). cbn [res_bind].
    rewrite (node_color_spec (@shape_sib s g C (plug1 f x) Hs)). cbn [res_bind]. rewrite decide_False by congruence.
    destruct (insert_case4_spec s f g C x Hs Hred Ef) as (y & Hy & Hal & Hrb).
    destruct (Hrb n) as [Hy1 Hy2]; [done .. |]. exists (plug C y). split; [done |]. split; [cbn; by rewrite Hal |].
    apply (redblack_plug _ _ (S n) HC Hy1). by rewrite Hy2.
Qed.

(** ** Rebalancing before a deletion *)

(** The paths give the same elements in the same order. *)
Definition calike (C C' : list frame) : Prop := forall x, alike (plug C x) (plug C' x).

(** The path has a gap for a subtree of a black height that is one less, and of any colour. *)
Definition mended (C : list frame) (n : nat) (C' : list frame) : Prop :=
  calike C C' /\ rbc C' n /\ ccolor C' <> Some RED.

Section Nephews.
Context {s : rbtree} {f : frame} {C : list frame} {x : tree} {sa : Z} {sc : color} {y z : tree} {sk sv : Z}.
Context (Hs : shape s (plug (f :: C) x)) (Hx : x <> E) (Hsib : f_sib f = node (f_side f) sa sc y sk sv z).

Lemma shape_inner : shape s (plug (mk_frame (f_side f) sa sc sk sv z :: flip f x :: C) y).
Proof. pose proof (shape_sib Hs) as H. by rewrite Hsib in H. Qed.

Lemma shape_outer : shape s (plug (mk_frame (opp (f_side f)) sa sc sk sv y :: flip f x :: C) z).
Proof. pose proof (shape_sib Hs) as H. rewrite Hsib in H. cbn in *. unfold plug1 at 2. cbn. by rewrite node_opp. Qed.

Lemma get_sib : get (ptr (f_sib f)) s = Ok (dnode (f_side f) sk sv (ptr y) (ptr z) (f_addr f) sc).
Proof. rewrite Hsib, ptr_node. exact (get_frame shape_inner). Qed.

Lemma sibling_left_spec : sibling_left (ptr x) s = Ok (ptr (if is_left (f_side f) then y else z)).
Proof. unfold sibling_left, get_left. rewrite (sibling_spec Hs Hx). cbn [res_bind]. rewrite get_sib. by destruct (f_side f). Qed.

Lemma sibling_right_spec : sibling_right (ptr x) s = Ok (ptr (if is_left (f_side f) then z else y)).
Proof. unfold sibling_right, get_right. rewrite (sibling_spec Hs Hx). cbn [res_bind]. rewrite get_sib. by destruct (f_side f). Qed.

Lemma sibling_left_color c :
  has_color (sibling_left (ptr x) s) c s = Ok (bool_decide (color_of (if is_left (f_side f) then y else z) = c)).
Proof. rewrite sibling_left_spec. destruct (is_left (f_side f)); [by apply (has_color_spec shape_inner) | by apply (has_color_spec shape_outer)]. Qed.

Lemma sibling_right_color c :
  has_color (sibling_right (ptr x) s) c s = Ok (bool_decide (color_of (if is_left (f_side f) then z else y) = c)).
Proof. rewrite sibling_right_spec. destruct (is_left (f_side f)); [by apply (has_color_spec shape_outer) | by apply (has_color_spec shape_inner)]. Qed.

Lemma parent_color c : has_color (get_parent (ptr x) s) c s = Ok (bool_decide (f_color f = c)).
Proof. unfold has_color. rewrite (get_parent_spec Hs Hx). cbn [res_bind cpar]. by rewrite (frame_color Hs). Qed.

Lemma sibling_color c : has_color (sibling (ptr x) s) c s = Ok (bool_decide (sc = c)).
Proof. rewrite (has_color_spec (shape_sib Hs) c _ (sibling_spec Hs Hx)). by rewrite Hsib, color_node. Qed.

(** The condition of cases 3 and 4. *)
Lemma black_nephews c :
  has_color (get_parent (ptr x) s) c s &&! has_color (sibling (ptr x) s) BLACK s &&!
    has_color (sibling_left (ptr x) s) BLACK s &&! has_color (sibling_right (ptr x) s) BLACK s =
  Ok (bool_decide (f_color f = c /\ sc = BLACK /\ color_of y = BLACK /\ color_of z = BLACK)).
Proof.
  rewrite parent_color, sibling_color, sibling_left_color, sibling_right_color.
  destruct (f_color f), c, sc, (is_left (f_side f)), (color_of y), (color_of z); done.
Qed.

(** The two conditions of case 5. *)
Lemma case5_left :
  (Ok (ptr x =? left (dnode (f_side f) (f_key f) (f_val f) (ptr x) (ptr (f_sib f)) (cpar C) (f_color f))) &&!
    has_color (sibling (ptr x) s) BLACK s &&! has_color (sibling_left (ptr x) s) RED s &&!
    has_color (sibling_right (ptr x) s) BLACK s) =
  Ok (is_left (f_side f) && bool_decide (sc = BLACK /\ color_of y = RED /\ color_of z = BLACK)).
Proof.
  rewrite (eqb_left Hs Hx), sibling_color, sibling_left_color, sibling_right_color.
  destruct sc, (is_left (f_side f)), (color_of y), (color_of z); done.
Qed.

Lemma case5_right :
  (Ok (ptr x =? right (dnode (f_side f) (f_key f) (f_val f) (ptr x) (ptr (f_sib f)) (cpar C) (f_color f))) &&!
    has_color (sibling (ptr x) s) BLACK s &&! has_color (sibling_right (ptr x) s) RED s &&!
    has_color (sibling_left (ptr x) s) BLACK s) =
  Ok (negb (is_left (f_side f)) && bool_decide (sc = BLACK /\ color_of y = RED /\ color_of z = BLACK)).
Proof.
  rewrite (eqb_right Hs Hx), sibling_color, sibling_left_color, sibling_right_color.
  destruct sc, (is_left (f_side f)), (color_of y), (color_of z); done.
Qed.
End Nephews.

Lemma delete_case6_spec s f C x sa sc y sk sv z :
  shape s (plug (f :: C) x) -> x <> E -> f_sib f = node (f_side f) sa sc y sk sv z -> color_of z = RED ->
  becomes s (delete_case6 (ptr x) s)
    (plug (mk_frame (f_side f) (f_addr f) BLACK (f_key f) (f_val f) y :: mk_frame (f_side f) sa (f_color f) sk sv (paint BLACK z) :: C) x).
Proof.
  intros Hs Hx Hsib Hz. unfold delete_case6. rewrite (get_parent_spec Hs Hx). cbn [res_bind cpar].
  rewrite (sibling_spec Hs Hx). cbn [res_bind]. rewrite (frame_color Hs). cbn [res_bind].
  eapply becomes_bind; [apply (set_sib_color Hs (f_color f)) |]; [rewrite Hsib; by destruct (f_side f) |].
  intros s1 N1 H1. apply (becomes_after _ _ _ _ N1). rewrite Hsib, paint_node in H1. 
  eapply becomes_bind; [apply (set_frame_color H1 BLACK) |]. intros s2 N2 H2. apply (becomes_after _ _ _ _ N2). cbn in H2.
  set (f2 := mk_frame (f_side f) _ _ _ _ _) in H2. change (shape s2 (plug (f2 :: C) x)) in H2.
  pose proof (get_frame H2) as Gp. pose proof (get_sib H2 eq_refl) as Gs. cbn [f2 f_addr f_sib] in Gp, Gs. rewrite ptr_node in Gs.
  rewrite Gp. cbn [res_bind]. rewrite Hsib, ptr_node, Gs. cbn [res_bind]. rewrite (eqb_left H2 Hx). cbn [f_side f2].
  pose proof (shape_outer H2 eq_refl) as Ho. cbn [f2 f_side f_color f_addr f_key f_val f_sib] in Ho.
  pose proof (node_color_spec Ho) as Hzc. rewrite Hz in Hzc.
  pose proof (set_color_spec s2 _ _ BLACK Ho ltac:(by intros ->)) as Hset.
  assert (Hrot : forall s3, shape s3 (plug (mk_frame (opp (f_side f)) sa (f_color f) sk sv y :: flip f2 x :: C) (paint BLACK z)) ->
    becomes s3 (rotate (f_side f) (f_addr f) s3)
      (plug (mk_frame (f_side f) (f_addr f) BLACK (f_key f) (f_val f) y :: mk_frame (f_side f) sa (f_color f) sk sv (paint BLACK z) :: C) x)).
  { intros s3 H3. apply rotate_spec. cbn in H3. unfold plug1 in H3. cbn in H3. by rewrite !node_opp in H3. }
  assert (Hend : becomes s2 (let! t := set_color (ptr z) BLACK s2 in rotate (f_side f) (f_addr f) t)
      (plug (mk_frame (f_side f) (f_addr f) BLACK (f_key f) (f_val f) y :: mk_frame (f_side f) sa (f_color f) sk sv (paint BLACK z) :: C) x)).
  { eapply becomes_bind; [exact Hset |]. intros s3 N3 H3. apply (becomes_after _ _ _ _ N3). by apply Hrot. }
  clear Hrot Hset. destruct (f_side f); cbn [is_left right left dnode]; rewrite Hzc; exact Hend.
Qed.

(** The end of case 5: the outer child of the sibling is red. *)
Lemma case6_mended s f C x sa y sk sv z n :
  shape s (plug (f :: C) x) -> x <> E -> rbc (f :: C) (S n) -> f_sib f = node (f_side f) sa BLACK y sk sv z -> color_of z = RED ->
  exists C', becomes s (delete_case6 (ptr x) s) (plug C' x) /\ mended (f :: C) n C'.
Proof.
  intros Hs Hx Hrb Hsib Hz. eexists. split; [by eapply delete_case6_spec |]. split; [| split; [| done]].
  - intros t. cbn. apply (plug_alike C). unfold plug1. cbn. rewrite Hsib.
    transitivity (node (f_side f) (f_addr f) (f_color f) t (f_key f) (f_val f) (node (f_side f) sa BLACK y sk sv (paint BLACK z))).
    { apply alike_node; [done |]. apply alike_node; [done | apply alike_paint]. }
    apply alike_rotate.
  - cbn in *. rewrite Hsib in Hrb. destruct Hrb as [(Hy & Hrz)%rb_black Hc]. split; [done |].
    split; [by apply rb_paint_black |]. destruct (f_color f); [| done]. destruct Hc as (_ & Hc & HC). split; [by destruct z | done].
Qed.

(** In case 5 the inner child of the sibling is red, and a rotation makes it the outer one. *)
Lemma delete_case5_inner s f C x sa y sk sv z :
  shape s (plug (f :: C) x) -> x <> E -> f_sib f = node (f_side f) sa BLACK y sk sv z -> color_of y = RED -> color_of z = BLACK ->
  delete_case5 (ptr x) s =
    (let! t := set_color sa RED s in
     let! sd := get_child (f_side f) sa t in
     let! t := set_color sd BLACK t in
     let! t := rotate (opp (f_side f)) sa t in
     delete_case6 (ptr x) t).
Proof.
  intros Hs Hx Hsib Hy Hz. unfold delete_case5. rewrite (get_parent_spec Hs Hx). cbn [res_bind cpar]. rewrite (get_frame Hs). cbn [res_bind].
  rewrite (case5_left Hs Hx Hsib), (case5_right Hs Hx Hsib), bool_decide_true by done.
  rewrite (sibling_spec Hs Hx), Hsib, ptr_node. cbn [res_bind].
  destruct (f_side f); cbn [is_left negb andb res_bind opp get_child].
  - by destruct (set_color sa RED s) as [t1 |]; cbn [res_bind]; [destruct (get_left sa t1) as [sd |]; cbn [res_bind]; [destruct (set_color sd BLACK t1) |] |].
  - by destruct (set_color sa RED s) as [t1 |]; cbn [res_bind]; [destruct (get_right sa t1) as [sd |]; cbn [res_bind]; [destruct (set_color sd BLACK t1) |] |].
Qed.

Lemma delete_case5_outer s f C x sa y sk sv z :
  shape s (plug (f :: C) x) -> x <> E -> f_sib f = node (f_side f) sa BLACK y sk sv z -> color_of z = RED ->
  delete_case5 (ptr x) s = delete_case6 (ptr x) s.
Proof.
  intros Hs Hx Hsib Hz. unfold delete_case5. rewrite (get_parent_spec Hs Hx). cbn [res_bind cpar]. rewrite (get_frame Hs). cbn [res_bind].
  rewrite (case5_left Hs Hx Hsib), (case5_right Hs Hx Hsib), bool_decide_false by (rewrite Hz; by intros (_ & _ & ?)).
  by rewrite !andb_false_r.
Qed.

Lemma inner_rotated s f C x sa a y1 k v y2 sk sv z :
  shape s (plug (f :: C) x) -> x <> E ->
  f_sib f = node (f_side f) sa BLACK (node (opp (f_side f)) a RED y1 k v y2) sk sv z -> color_of z = BLACK ->
  exists s', delete_case5 (ptr x) s = delete_case6 (ptr x) s' /\ same_nodes s s' /\
    shape s' (plug (mk_frame (f_side f) (f_addr f) (f_color f) (f_key f) (f_val f)
      (node (f_side f) a BLACK y2 k v (node (f_side f) sa RED y1 sk sv z)) :: C) x).
Proof.
  intros Hs Hx Hsib Hz. rewrite (delete_case5_inner s f C x _ _ _ _ _ Hs Hx Hsib) by (by rewrite ?color_node).
  pose proof (shape_sib Hs) as H0. rewrite Hsib in H0.
  pose proof (set_color_spec s _ _ RED H0 ltac:(by destruct (f_side f))) as Hset. rewrite ptr_node, paint_node in Hset.
  eapply becomes_bind; [exact Hset |]. intros s1 N1 H1.
  rewrite (get_child_same _ _ _ _ _ _ _ _ _ (shape_lookup _ _ _ _ _ _ _ _ _ H1)). cbn [res_bind].
  change (shape s1 (plug (mk_frame (f_side f) sa RED sk sv z :: flip f x :: C) (node (opp (f_side f)) a RED y1 k v y2))) in H1.
  eapply becomes_bind; [apply (set_color_spec s1 _ _ BLACK H1); by destruct (f_side f) |]. intros s2 N2 H2. rewrite paint_node in H2.
  change (shape s2 (plug (flip f x :: C) (node (f_side f) sa RED (node (opp (f_side f)) a BLACK y1 k v y2) sk sv z))) in H2.
  rewrite <- node_opp in H2. eapply becomes_bind; [apply (rotate_spec _ _ _ _ _ _ _ _ _ _ _ _ _ _ H2) |]. intros s3 N3 H3.
  exists s3. split; [done |]. split; [apply (same_nodes_trans _ s1 _ N1); by apply (same_nodes_trans _ s2) |].
  cbn in *. unfold plug1 in *. cbn in *. by rewrite !node_opp in H3.
Qed.

Lemma delete_case5_spec s f C x sa y sk sv z n :
  shape s (plug (f :: C) x) -> x <> E -> rbc (f :: C) (S n) -> f_sib f = node (f_side f) sa BLACK y sk sv z ->
  (color_of y = BLACK -> color_of z = BLACK -> False) ->
  exists C', becomes s (delete_case5 (ptr x) s) (plug C' x) /\ mended (f :: C) n C'.
Proof.
  intros Hs Hx Hrb Hsib Hred. destruct (color_of z) eqn:Hz.
  - rewrite (delete_case5_outer s f C x _ _ _ _ _ Hs Hx Hsib Hz). by eapply case6_mended.
  - destruct (color_of y) eqn:Hy; [| tauto]. destruct (tree_node (opp (f_side f)) y) as (a & c & y1 & k & v & y2 & ->); [by intros -> |].
    rewrite color_node in Hy. subst c. destruct (inner_rotated s f C x _ _ _ _ _ _ _ _ _ Hs Hx Hsib Hz) as (s' & -> & N & H').
    destruct (case6_mended s' _ C x a y2 k v (node (f_side f) sa RED y1 sk sv z) n H' Hx) as (C' & HC' & Hm); [| done | by rewrite color_node |].
    + cbn in *. destruct Hrb as [Hr Hc]. rewrite Hsib in Hr, Hc. rewrite rb_black, rb_red in Hr. rewrite rb_black, rb_red, !color_node in *. tauto.
    + exists C'. split; [by eapply becomes_after |]. destruct Hm as (Hal & Hm). split; [| done]. intros t. rewrite <- (Hal t).
      cbn. apply (plug_alike C). unfold plug1. cbn. apply alike_node; [done |]. rewrite Hsib.
      rewrite <- node_opp, <- (node_opp _ a BLACK), <- (node_opp _ sa RED). apply alike_rotate.
Qed.

(** ** The cases that recolour *)

Lemma sib_node f C n : rbc (f :: C) (S n) -> exists sa sc y sk sv z, f_sib f = node (f_side f) sa sc y sk sv z.
Proof. intros [Hr _]. apply tree_node. intros H0. by rewrite H0 in Hr. Qed.

Lemma paint_sib_alike f c C x : alike (plug (f :: C) x) (plug (mk_frame (f_side f) (f_addr f) c (f_key f) (f_val f) (paint RED (f_sib f)) :: C) x).
Proof. cbn. apply (plug_alike C). apply alike_node; [done | apply alike_paint]. Qed.

Lemma delete_case4_spec s f C x sa y sk sv z n :
  shape s (plug (f :: C) x) -> x <> E -> rbc (f :: C) (S n) -> f_sib f = node (f_side f) sa BLACK y sk sv z ->
  (f_color f = BLACK -> color_of y = BLACK -> color_of z = BLACK -> False) ->
  exists C', becomes s (delete_case4 (ptr x) s) (plug C' x) /\ mended (f :: C) n C'.
Proof.
  intros Hs Hx Hrb Hsib Hblack. unfold delete_case4. rewrite (black_nephews Hs Hx Hsib). cbn [res_bind].
  case_bool_decide as Hc.
  - destruct Hc as (Hf & _ & Hy & Hz). rewrite (sibling_spec Hs Hx). cbn [res_bind].
    pose proof (set_sib_color Hs RED ltac:(rewrite Hsib; by destruct (f_side f))) as Hset.
    eexists. split.
    { eapply becomes_bind; [exact Hset |]. intros s1 N1 H1. apply (becomes_after _ _ _ _ N1).
      rewrite (get_parent_spec H1 Hx). cbn [res_bind cpar]. apply (set_frame_color H1). }
    split; [intros t; apply (paint_sib_alike f BLACK) | split; [| done]]. cbn in *. rewrite Hsib, paint_node, rb_red. rewrite Hsib, Hf, rb_black in Hrb. tauto.
  - eapply delete_case5_spec; [done .. |]. intros Hy Hz. destruct (f_color f); [| tauto]. by apply Hc.
Qed.

(** [rec] rebalances the tree at the parent. *)
Lemma delete_case3_spec rec s f C x sa y sk sv z n :
  (f_color f = BLACK -> forall s t, shape s (plug C t) -> t <> E ->
    exists C', becomes s (rec (ptr t) s) (plug C' t) /\ mended C (S n) C') ->
  shape s (plug (f :: C) x) -> x <> E -> rbc (f :: C) (S n) -> f_sib f = node (f_side f) sa BLACK y sk sv z ->
  exists C', becomes s (delete_case3 rec (ptr x) s) (plug C' x) /\ mended (f :: C) n C'.
Proof.
  intros Hrec Hs Hx Hrb Hsib. unfold delete_case3. rewrite (black_nephews Hs Hx Hsib). cbn [res_bind].
  case_bool_decide as Hc.
  2: { eapply delete_case4_spec; [done .. |]. intros Hf Hy Hz. by apply Hc. }
  destruct Hc as (Hf & _ & Hy & Hz). rewrite (sibling_spec Hs Hx). cbn [res_bind].
  pose proof (set_sib_color Hs RED ltac:(rewrite Hsib; by destruct (f_side f))) as Hset.
  set (f1 := mk_frame (f_side f) _ _ _ _ _) in Hset.
  eapply becomes_bind; [exact Hset |]. intros s1 N1 H1. rewrite (get_parent_spec H1 Hx). cbn [res_bind cpar].
  destruct (Hrec Hf s1 (plug1 f1 x) H1 (plug1_ne _ _)) as (C' & HC' & Hal & Hrb' & _).
  unfold plug1 in HC' at 1. rewrite ptr_node in HC'. exists (f1 :: C'). split; [by eapply becomes_after |]. split; [| split].
  - intros t. rewrite (paint_sib_alike f (f_color f)). apply (Hal (plug1 f1 t)).
  - cbn in *. rewrite Hf in *. rewrite Hsib, paint_node, rb_red. rewrite Hsib, rb_black in Hrb. tauto.
  - unfold f1. cbn. by rewrite Hf.
Qed.

(** A red sibling: after the rotation the sibling is black and the parent red. *)
Lemma delete_red_sibling rec s f C x sa y sk sv z n :
  shape s (plug (f :: C) x) -> x <> E -> rbc (f :: C) (S n) -> f_sib f = node (f_side f) sa RED y sk sv z ->
  let C1 := mk_frame (f_side f) (f_addr f) RED (f_key f) (f_val f) y :: mk_frame (f_side f) sa BLACK sk sv z :: C in
  exists s', delete_case2 rec (ptr x) s = delete_case3 rec (ptr x) s' /\ same_nodes s s' /\ shape s' (plug C1 x) /\
    rbc C1 (S n) /\ calike (f :: C) C1.
Proof.
  intros Hs Hx Hrb Hsib C1. unfold delete_case2. rewrite (sibling_spec Hs Hx). cbn [res_bind].
  rewrite (node_color_spec (shape_sib Hs)), Hsib, color_node. cbn [res_bind]. rewrite decide_True by done.
  rewrite (get_parent_spec Hs Hx). cbn [res_bind cpar].
  destruct (set_frame_color Hs RED) as (s1 & -> & N1 & H1). cbn [res_bind].
  pose proof (set_sib_color H1 BLACK) as Hset. cbn [f_sib] in Hset. rewrite Hsib, ptr_node, paint_node in Hset. rewrite ptr_node.
  destruct Hset as (s2 & -> & N2 & H2); [by destruct (f_side f) |]. cbn [res_bind]. cbn [f_side f_addr f_color f_key f_val] in H2.
  pose proof (get_frame H2) as Gp. cbn [f_addr] in Gp. rewrite Gp. cbn [res_bind]. rewrite (eqb_left H2 Hx).
  destruct (rotate_spec (f_side f) s2 C (f_addr f) RED x (f_key f) (f_val f) sa BLACK y sk sv z H2) as (s3 & E3 & N3 & H3).
  exists s3. split; [cbn [f_side]; destruct (f_side f); cbn [is_left]; by rewrite ?rotate_left_eq, ?rotate_right_eq, E3 |].
  split; [apply (same_nodes_trans _ s1 _ N1); by apply (same_nodes_trans _ s2) |]. split; [done |]. split.
  - cbn in *. rewrite Hsib, color_node in Hrb. destruct Hrb as [(Hy & Hz & Hry & Hrz)%rb_red Hc]. destruct (f_color f); [by destruct Hc | done].
  - intros t. cbn. apply (plug_alike C). unfold plug1. cbn. rewrite Hsib. apply alike_rotate.
Qed.

Lemma mended_trans C C1 n C' : calike C C1 -> mended C1 n C' -> mended C n C'.
Proof. intros H (Hal & Hm). split; [| done]. intros t. by rewrite (H t). Qed.

Lemma delete_case1_spec fuel s C x n :
  shape s (plug C x) -> x <> E -> rbc C (S n) -> (length C < fuel)%nat ->
  exists C', becomes s (delete_case1 fuel (ptr x) s) (plug C' x) /\ mended C n C'.
Proof.
  revert s C x n. induction fuel as [| fuel IH]; intros s C x n Hs Hx Hrb Hf; [lia |].
  cbn [delete_case1]. rewrite (get_parent_spec Hs Hx). cbn [res_bind]. destruct C as [| f C].
  { exists []. split; [by apply becomes_ret |]. done. }
  cbn [cpar]. rewrite (proj2 (Z.eqb_neq _ 0)) by apply (frame_ne0 Hs). cbn in Hf.
  destruct (sib_node f C n Hrb) as (sa & sc & y & sk & sv & z & Hsib). destruct sc.
  - destruct (delete_red_sibling (delete_case1 fuel) s f C x sa y sk sv z n Hs Hx Hrb Hsib) as (s1 & -> & N1 & H1 & Hrb1 & Hal1).
    set (f1 := mk_frame (f_side f) (f_addr f) _ _ _ _) in *.
    destruct (sib_node f1 _ n Hrb1) as (sa1 & sc1 & y1 & sk1 & sv1 & z1 & Hsib1).
    assert (Hb : sc1 = BLACK) by (destruct Hrb1 as (_ & Hb & _); by rewrite Hsib1, color_node in Hb). subst sc1.
    destruct (delete_case3_spec (delete_case1 fuel) s1 f1 _ x sa1 y1 sk1 sv1 z1 n ltac:(done) H1 Hx Hrb1 Hsib1) as (C' & HC' & Hm).
    exists C'. split; [by eapply becomes_after | by eapply mended_trans].
  - unfold delete_case2. rewrite (sibling_spec Hs Hx). cbn [res_bind].
    rewrite (node_color_spec (shape_sib Hs)), Hsib, color_node. cbn [res_bind]. rewrite decide_False by done. cbn [res_bind].
    eapply delete_case3_spec; [| done ..]. intros Hfb s' t Hs' Ht. apply IH; [done | done | | lia]. cbn in Hrb. rewrite Hfb in Hrb. tauto.
Qed.

(** ** Search *)

Fixpoint height (x : tree) : nat :=
  match x with E => O | T _ _ l _ _ r => S (Nat.max (height l) (height r)) end.

(** The elements to the left and to the right of the subtree. *)
Fixpoint cl (C : list frame) : list (Z * Z) :=
  match C with
  | [] => []
  | f :: C => match f_side f with Left => cl C | Right => cl C ++ inorder (f_sib f) ++ [(f_key f, f_val f)] end
  end.
Fixpoint cr (C : list frame) : list (Z * Z) :=
  match C with
  | [] => []
  | f :: C => match f_side f with Left => (f_key f, f_val f) :: inorder (f_sib f) ++ cr C | Right => cr C end
  end.

Lemma inorder_plug C x : inorder (plug C x) = cl C ++ inorder x ++ cr C.
Proof.
  revert x. induction C as [| f C IH]; intros x; cbn; [by rewrite app_nil_r |].
  rewrite IH. unfold plug1, node. destruct (f_side f); cbn; by rewrite <- ?app_assoc.
Qed.

Lemma inorder_mid C a c l k v r :
  inorder (plug C (T a c l k v r)) = (cl C ++ inorder l) ++ (k, v) :: inorder r ++ cr C.
Proof. rewrite inorder_plug. cbn. by rewrite <- !app_assoc. Qed.

Lemma height_addrs x : (height x <= length (addrs x))%nat.
Proof. induction x as [| a c l IHl k v r IHr]; cbn; [lia |]. rewrite length_app. lia. Qed.

Lemma length_addrs x : length (addrs x) = length (inorder x).
Proof. induction x as [| a c l IHl k v r IHr]; cbn; [done |]. rewrite !length_app. cbn. lia. Qed.

Lemma length_caddrs C : (length C <= length (caddrs C))%nat.
Proof. induction C as [| f C IH]; cbn; [lia |]. rewrite length_app. lia. Qed.

(** What the functions rely on in [compare]: a total order on the keys, whatever the node. *)
Class CompareOk (compare : Z -> Z -> Z -> Z) : Prop := {
  cmp_node n a b : compare n a b = compare 0 a b;
  cmp_eq a b : compare 0 a b = 0 <-> a = b;
  cmp_opp a b : compare 0 a b < 0 <-> 0 < compare 0 b a;
  cmp_trans a b c : compare 0 a b < 0 -> compare 0 b c < 0 -> compare 0 a c < 0
}.

(** The path that the loops follow: to the key or to the empty place for it. *)
Fixpoint descend (compare : Z -> Z -> Z -> Z) (k : Z) (x : tree) (C : list frame) : list frame * tree :=
  match x with
  | E => (C, E)
  | T a c l k' v r =>
      if compare 0 k k' =? 0 then (C, x)
      else if compare 0 k k' <? 0 then descend compare k l (mk_frame Left a c k' v r :: C)
      else descend compare k r (mk_frame Right a c k' v l :: C)
  end.

Section Search.
Context {compare : Z -> Z -> Z -> Z} `{Hcmp : CompareOk compare}.

Lemma descend_plug k x C C' y : descend compare k x C = (C', y) -> plug C' y = plug C x.
Proof.
  revert C. induction x as [| a c l IHl k' v r IHr]; intros C; cbn; [by intros [= <- <-] |].
  case_if; [by intros [= <- <-] |]. case_if; [intros H; by apply IHl in H | intros H; by apply IHr in H].
Qed.

Lemma descend_key k x C C' a c l k' v r : descend compare k x C = (C', T a c l k' v r) -> k' = k.
Proof.
  revert C. induction x as [| a0 c0 l0 IHl k0 v0 r0 IHr]; intros C; cbn; [by intros [= ] |].
  case_if; [intros [= <- <- <- <- <- <-]; b2p; symmetry; by apply cmp_eq |]. case_if; eauto.
Qed.

Lemma lookup_loop_spec fuel s C x k :
  shape s (plug C x) -> (height x <= fuel)%nat -> lookup_loop compare fuel (ptr x) k s = Ok (ptr (descend compare k x C).2).
Proof.
  revert s C x. induction fuel as [| fuel IH]; intros s C x Hs Hf.
  { destruct x; [done | cbn in Hf; lia]. }
  destruct x as [| a c l k' v r]; [done |]. cbn [lookup_loop]. pose proof (ptr_ne0 Hs ltac:(done)) as H0. cbn [ptr] in *.
  rewrite (proj2 (Z.eqb_neq a 0)) by done. rewrite (shape_get s C Left a c l k' v r Hs). cbn [res_bind dnode key left right descend].
  rewrite cmp_node. cbn in Hf. case_if; [done |]. case_if.
  - apply IH; [exact Hs | lia].
  - rewrite (proj2 (Z.gtb_lt _ _)) by (b2p; lia). cbn [check res_bind]. apply IH; [exact Hs | lia].
Qed.

Lemma insert_loop_spec fuel s C x k v ins :
  shape s (plug C x) -> x <> E -> (height x <= fuel)%nat ->
  insert_loop compare fuel (ptr x) k v ins s =
    match (descend compare k x C).2 with
    | T a _ _ _ _ _ => let! t := set_value a v s in Ok (None, free ins t)
    | E =>
        match (descend compare k x C).1 with
        | [] => Crash NoFuel
        | f :: _ => let! t := set_child (f_side f) (f_addr f) ins s in Ok (Some (f_addr f), t)
        end
    end.
Proof.
  revert s C x. induction fuel as [| fuel IH]; intros s C x Hs Hx Hf.
  { destruct x; [done | cbn in Hf; lia]. }
  destruct x as [| a c l k' w r]; [done |]. cbn [insert_loop ptr].
  rewrite (shape_get s C Left a c l k' w r Hs). cbn [res_bind dnode key left right descend]. cbn in Hf. case_if; [done |]. case_if.
  - destruct (decide (l = E)) as [-> | Hl]; [done |].
    change (shape s (plug (mk_frame Left a c k' w r :: C) l)) in Hs.
    rewrite (proj2 (Z.eqb_neq _ 0)) by (by apply (ptr_ne0 Hs)). apply IH; [exact Hs | done | lia].
  - rewrite (proj2 (Z.gtb_lt _ _)) by (b2p; lia). cbn [check res_bind].
    destruct (decide (r = E)) as [-> | Hr]; [done |].
    change (shape s (plug (mk_frame Right a c k' w l :: C) r)) in Hs.
    rewrite (proj2 (Z.eqb_neq _ 0)) by (by apply (ptr_ne0 Hs)). apply IH; [exact Hs | done | lia].
Qed.
End Search.

(** ** The order of the keys *)

Definition below (compare : Z -> Z -> Z -> Z) (a b : Z) : Prop := compare 0 a b < 0.
Definition sorted (compare : Z -> Z -> Z -> Z) (L : list (Z * Z)) : Prop := StronglySorted (below compare) L.*1.

(** The map that a list of elements stands for. *)
Definition contents (L : list (Z * Z)) : gmap Z Z := list_to_map L.

Section Order.
Context {compare : Z -> Z -> Z -> Z} `{Hcmp : CompareOk compare}.

Lemma below_irrefl a : ~ below compare a a.
Proof. unfold below. rewrite (proj2 (cmp_eq a a) eq_refl). lia. Qed.

Lemma sorted_nodup L : sorted compare L -> NoDup L.*1.
Proof.
  unfold sorted. induction L.*1 as [| a l IH]; [constructor |]. intros [H1 H2]%StronglySorted_inv. constructor; [| by apply IH].
  intros Hin. rewrite Forall_forall in H2. by apply (below_irrefl a), H2.
Qed.

Lemma sorted_mid L1 k v L2 :
  sorted compare (L1 ++ (k, v) :: L2) <->
  sorted compare (L1 ++ L2) /\ (forall a, a ∈ L1.*1 -> below compare a k) /\ (forall a, a ∈ L2.*1 -> below compare k a).
Proof.
  unfold sorted. rewrite !fmap_app, fmap_cons, !StronglySorted_app, StronglySorted_cons, Forall_forall. cbn. split.
  - intros (Hx & H1 & Hk & H2). split; [split; [intros a b Ha Hb; apply Hx; [done | by right] | done] |].
    split; [intros a Ha; apply Hx; [done | by left] | exact Hk].
  - intros ((Hx & H1 & H2) & Hl & Hr). split; [| done]. intros a b Ha [-> | Hb]%elem_of_cons; [by apply Hl | by apply Hx].
Qed.

Lemma contents_mid L1 k v L2 :
  sorted compare (L1 ++ (k, v) :: L2) ->
  contents (L1 ++ (k, v) :: L2) = <[k := v]> (contents (L1 ++ L2)) /\ contents (L1 ++ L2) !! k = None.
Proof.
  intros Hn%sorted_nodup. unfold contents. split.
  - rewrite (list_to_map_proper (L1 ++ (k, v) :: L2) ((k, v) :: L1 ++ L2)); [done | done | solve_Permutation].
  - apply not_elem_of_list_to_map_1. rewrite fmap_app, fmap_cons in Hn. rewrite fmap_app.
    assert (Hn' : NoDup (k :: L1.*1 ++ L2.*1)) by (eapply NoDup_Permutation_proper; [| exact Hn]; solve_Permutation).
    by apply NoDup_cons in Hn' as [? _].
Qed.

(** The search goes between the smaller and the larger keys. *)
Lemma descend_between k x C C' y :
  sorted compare (inorder (plug C x)) ->
  (forall a, a ∈ (cl C).*1 -> below compare a k) -> (forall a, a ∈ (cr C).*1 -> below compare k a) ->
  descend compare k x C = (C', y) ->
  (forall a, a ∈ (cl C').*1 -> below compare a k) /\ (forall a, a ∈ (cr C').*1 -> below compare k a).
Proof.
  revert C. induction x as [| a c l IHl k' v r IHr]; intros C Hso Hl Hr; cbn [descend]; [by intros [= <- <-] |].
  case_if; [by intros [= <- <-] |].
  pose proof Hso as Hso'. rewrite inorder_mid in Hso'. apply sorted_mid in Hso' as (_ & Hbl & Hbr). setoid_rewrite fmap_app in Hbl. setoid_rewrite fmap_app in Hbr.
  case_if; intros Hd.
  - eapply (IHl (mk_frame Left a c k' v r :: C) Hso); [ exact Hl | | exact Hd]. intros b. cbn. rewrite fmap_app.
    intros [-> | Hb]%elem_of_cons; [done |]. eapply cmp_trans; [done | by apply Hbr].
  - assert (Hk : below compare k' k) by (apply cmp_opp; lia).
    eapply (IHr (mk_frame Right a c k' v l :: C) Hso); [ | exact Hr | exact Hd]. intros b. cbn. rewrite !fmap_app. cbn. rewrite app_assoc.
    intros [Hb | ->%list_elem_of_singleton]%elem_of_app; [| done]. eapply cmp_trans; [by apply Hbl | done].
Qed.

(** What the search finds. *)
Lemma descend_found k x C' a c l k' v r :
  sorted compare (inorder x) -> descend compare k x [] = (C', T a c l k' v r) ->
  k' = k /\ x = plug C' (T a c l k v r) /\ contents (inorder x) !! k = Some v.
Proof.
  intros Hso Hd. pose proof (descend_key _ _ _ _ _ _ _ _ _ _ Hd) as ->. apply descend_plug in Hd. cbn in Hd. subst x. split; [done |]. split; [done |].
  rewrite inorder_mid in *. destruct (contents_mid _ _ _ _ Hso) as [-> _]. apply lookup_insert_eq.
Qed.

Lemma descend_missing k x C' v :
  sorted compare (inorder x) -> descend compare k x [] = (C', E) ->
  x = plug C' E /\ contents (inorder x) !! k = None /\ sorted compare (cl C' ++ (k, v) :: cr C').
Proof.
  intros Hso Hd. destruct (descend_between k x [] C' E Hso ltac:(set_solver) ltac:(set_solver) Hd) as [Hl Hr].
  apply descend_plug in Hd. cbn in Hd. subst x. rewrite inorder_plug in *. cbn in *. split; [done |].
  assert (Hs : sorted compare (cl C' ++ (k, v) :: cr C')) by (by apply sorted_mid). split; [| done]. by destruct (contents_mid _ _ _ _ Hs).
Qed.
End Order.

(** ** Taking out a node *)

(** The subtree that takes the place of a node with at most one child. *)
Definition child (l r : tree) : tree := if decide (r = E) then l else r.

Lemma child_cases l r : l = E \/ r = E ->
  inorder (child l r) = inorder l ++ inorder r /\ addrs (child l r) = addrs l ++ addrs r /\
  (forall n, rb l n -> rb r n -> rb (child l r) n) /\ (forall h p, rep h p l -> rep h p r -> rep h p (child l r)).
Proof.
  unfold child. intros H. case_decide as Hr; [subst r; by rewrite !app_nil_r |]. destruct H as [-> |]; [| done]. done.
Qed.

Lemma ptr_child s C a c l k v r : shape s (plug C (T a c l k v r)) -> (if ptr r =? 0 then ptr l else ptr r) = ptr (child l r).
Proof.
  intros Hs. change (shape s (plug (mk_frame Right a c k v l :: C) r)) in Hs. unfold child. case_decide as Hr; [by rewrite Hr |].
  by rewrite (proj2 (Z.eqb_neq _ 0)) by (by apply (ptr_ne0 Hs)).
Qed.

Lemma child_color s C a c l k v r : shape s (plug C (T a c l k v r)) -> node_color (ptr (child l r)) s = Ok (color_of (child l r)).
Proof.
  intros Hs. unfold child. case_decide.
  - exact (@node_color_spec s (mk_frame Left a c k v r :: C) l Hs).
  - exact (@node_color_spec s (mk_frame Right a c k v l :: C) r Hs).
Qed.

Lemma unlink s C a c l k v r :
  shape s (plug C (T a c l k v r)) -> l = E \/ r = E ->
  exists s', replace_node a (ptr (child l r)) s = Ok s' /\ same_nodes s s' /\ shape s' (plug C (child l r)) /\
    (exists nx, get a s' = Ok nx /\ parent nx = cpar C) /\ a ∉ addrs (plug C (child l r)).
Proof.
  intros Hs Hlr. destruct (child_cases l r Hlr) as (_ & Ha & _ & Hrep). pose proof (shape_lookup s C Left a c l k v r Hs) as Hl.
  pose proof Hs as [Hroot Hp Hn]. apply rep_plug in Hp as [HC (Ha0 & _ & Hrl & Hrr)]. rewrite ptr_plug in Hroot.
  apply plug_nodup in Hn. cbn in Hn. rewrite <- Ha in Hn. apply NoDup_cons in Hn as [Hna Hn].
  destruct (replace_node_spec s C a _ a (child l r) Hl eq_refl) as (s' & E1 & HC' & Hx' & Hr' & N & Hag); [set_solver | set_solver | done | done | done | done | by apply Hrep |].
  exists s'. split; [done |]. split; [done |].
  assert (Hap : a ∉ addrs (plug C (child l r))) by (by rewrite addrs_plug).
  split; [split; [by rewrite ptr_plug | by apply rep_plug | by apply plug_nodup] |]. split; [| done].
  assert (a <> cpar C) by (destruct C; [done | cbn in *; set_solver]).
  assert (a <> ptr (child l r)). { intros E2. apply Hna. apply elem_of_app. left. rewrite E2 at 1. apply ptr_in. by rewrite <- E2. }
  eexists. unfold get. rewrite Hag, Hl by done. done.
Qed.

(** Before the node is taken out, the path gets a gap that fits the child. *)
Lemma delete_rebalance s C a c l k v r :
  shape s (plug C (T a c l k v r)) -> redblack (plug C (T a c l k v r)) -> l = E \/ r = E -> (length C < path_fuel s)%nat ->
  exists s' C' c' n,
    (if decide (c = BLACK) then
       let! cc := node_color (ptr (child l r)) s in let! t := set_color a cc s in delete_case1 (path_fuel t) a t
     else Ok s) = Ok s' /\ same_nodes s s' /\ shape s' (plug C' (T a c' l k v r)) /\ calike C C' /\
    rbc C' n /\ rb (child l r) n /\ ccolor C' <> Some RED.
Proof.
  intros Hs Hrb Hlr Hf. destruct (redblack_unplug _ _ Hrb) as (m & HC & Hx & Hc). destruct (child_cases l r Hlr) as (_ & _ & Hch & _). destruct c.
  - rewrite decide_False by done. destruct Hx as (_ & _ & Hl & Hr). exists s, C, RED, m. split; [done |]. split; [done |]. split; [done |].
    split; [done |]. split; [done |]. split; [by apply Hch |]. by rewrite (Hc eq_refl).
  - rewrite decide_True by done. destruct m as [| n]; [done |]. destruct Hx as [Hl Hr].
    rewrite (child_color _ _ _ _ _ _ _ _ Hs). cbn [res_bind].
    destruct (set_color_spec s C _ (color_of (child l r)) Hs ltac:(done)) as (s1 & E1 & N1 & H1). cbn [ptr paint] in E1, H1. rewrite E1. cbn [res_bind].
    destruct (delete_case1_spec (path_fuel s1) s1 C _ n H1 ltac:(done) HC) as (C' & (s2 & E2 & N2 & H2) & Hal & HC' & Hcc).
    { unfold path_fuel in *. destruct N1 as [Hd _]. by rewrite <- size_dom, Hd, size_dom. }
    exists s2, C', (color_of (child l r)), n. split; [done |]. split; [by eapply same_nodes_trans |]. split; [done |]. split; [done |]. split; [done |]. split; [by apply Hch | done].
Qed.

(** A red node at the root becomes black. *)
Definition blacken (C : list frame) (x : tree) : tree := match C with [] => paint BLACK x | _ => x end.

Lemma redblack_blacken C x n : rbc C n -> rb x n -> ccolor C <> Some RED -> redblack (plug C (blacken C x)).
Proof.
  intros HC Hx Hc. destruct C as [| f C]; cbn [blacken].
  - split; [by destruct x |]. destruct (color_of x) eqn:E1; [exists (S n); by apply rb_paint_black |].
    exists n. destruct x as [| a [] l k v r]; done.
  - apply (redblack_plug _ _ n HC Hx). intros _. cbn in *. by destruct (f_color f).
Qed.

Lemma blacken_alike C x : alike (plug C x) (plug C (blacken C x)).
Proof. apply (plug_alike C). destruct C; [apply alike_paint | done]. Qed.

Lemma blacken_spec s C x :
  shape s (plug C x) ->
  becomes s (if (cpar C =? 0) && negb (ptr x =? 0) then set_color (ptr x) BLACK s else Ok s) (plug C (blacken C x)).
Proof.
  intros Hs. destruct C as [| f C]; cbn [cpar blacken].
  - cbn [Z.eqb andb]. destruct (decide (x = E)) as [-> | Hx]; [by apply becomes_ret |].
    rewrite (proj2 (Z.eqb_neq _ 0)) by (by apply (ptr_ne0 Hs)). by apply (set_color_spec s []).
  - rewrite (proj2 (Z.eqb_neq _ 0)) by apply (frame_ne0 Hs). by apply becomes_ret.
Qed.

Lemma delete_node_spec s C a c l k v r :
  shape s (plug C (T a c l k v r)) -> redblack (plug C (T a c l k v r)) -> l = E \/ r = E -> (length C < path_fuel s)%nat ->
  exists s' z, delete_node a s = Ok s' /\ shape s' z /\ redblack z /\ inorder z = cl C ++ (inorder l ++ inorder r) ++ cr C /\
    a :: addrs z ≡ₚ addrs (plug C (T a c l k v r)) /\ dom (heap s') = dom (heap s) ∖ {[a]} /\ brk s' = brk s.
Proof.
  intros Hs Hrb Hlr Hf. destruct (child_cases l r Hlr) as (Hin & Had & _).
  destruct (delete_rebalance s C a c l k v r Hs Hrb Hlr Hf) as (s1 & C' & c' & n & E1 & N1 & H1 & Hal & HC' & Hch & Hcc).
  destruct (unlink s1 C' a c' l k v r H1 Hlr) as (s2 & E2 & N2 & H2 & (nx & Enx & Hpar) & Hna).
  destruct (blacken_spec s2 C' (child l r) H2) as (s3 & E3 & N3 & H3).
  assert (Hz : alike (plug C (child l r)) (plug C' (blacken C' (child l r)))) by (rewrite (Hal (child l r)); apply blacken_alike).
  unfold delete_node. rewrite (shape_get s C Left a c l k v r Hs). cbn [res_bind dnode left right].
  assert (Hck : (ptr l =? 0) || (ptr r =? 0) = true) by (destruct Hlr as [-> | ->]; [done | by rewrite orb_true_r]).
  rewrite Hck, (ptr_child _ _ _ _ _ _ _ _ Hs). cbn [check res_bind].
  pose proof (node_color_spec Hs) as Hcol. cbn [ptr color_of] in Hcol. rewrite Hcol. cbn [res_bind]. rewrite E1. cbn [res_bind].
  rewrite E2. cbn [res_bind]. rewrite Enx. cbn [res_bind]. rewrite Hpar, E3. cbn [res_bind].
  exists (free a s3), (plug C' (blacken C' (child l r))). split; [done |]. destruct Hz as [Hz1 Hz2]. split; [| split; [by apply (redblack_blacken C' _ n) |]; split; [| split; [| split]]].
  - apply (shape_agree s3); [done | done |]. intros b Hb. cbn. rewrite lookup_delete_ne; [done |]. intros <-. apply Hna.
    destruct (blacken_alike C' (child l r)) as [_ Hp]. by rewrite Hp.
  - by rewrite <- Hz1, inorder_plug, Hin.
  - rewrite <- Hz2, !addrs_plug, Had. cbn. solve_Permutation.
  - cbn. rewrite dom_delete_L. destruct N1 as [<- _], N2 as [<- _], N3 as [<- _]. done.
  - cbn. destruct N1 as [_ <-], N2 as [_ <-], N3 as [_ <-]. done.
Qed.

(** ** The tree as a map *)

(** The memory holds a red-black search tree and nothing else. *)
Record valid (compare : Z -> Z -> Z -> Z) (s : rbtree) (x : tree) : Prop := mk_valid {
  va_shape : shape s x;
  va_rb : redblack x;
  va_sorted : sorted compare (inorder x);
  va_dom : dom (heap s) = list_to_set (addrs x);
  va_brk : forall a, a ∈ addrs x -> a < brk s;
  va_pos : 0 < brk s
}.

Definition holds (compare : Z -> Z -> Z -> Z) (s : rbtree) (m : gmap Z Z) : Prop :=
  exists x, valid compare s x /\ m = contents (inorder x).

Lemma path_fuel_addrs s (L : list Z) : dom (heap s) = list_to_set L -> NoDup L -> path_fuel s = length L.
Proof. intros Hd Hn. unfold path_fuel. by rewrite <- size_dom, Hd, size_list_to_set. Qed.

(** A new node is put in the empty place. *)
Lemma graft s f C b k v :
  shape s (plug (f :: C) E) -> heap s !! b = Some (mk_node k v 0 0 0 RED) -> b <> 0 -> b ∉ addrs (plug (f :: C) E) ->
  exists t s', set_child (f_side f) (f_addr f) b s = Ok t /\ set_parent b (f_addr f) t = Ok s' /\ same_nodes s s' /\
    same_nodes s t /\ shape s' (plug (f :: C) (T b RED E k v E)).
Proof.
  intros Hs Hb Hb0 Hbn. pose proof (shape_lookup _ _ _ _ _ _ _ _ _ Hs) as Hf. pose proof Hs as [Hr Hp Hn].
  apply plug_nodup in Hn. rewrite addrs_plug in Hbn. cbn in Hn, Hbn.
  assert (Hbf : b <> f_addr f) by set_solver. apply rep_plug in Hp as [(Hf0 & _ & Hsib & HC) _].
  eexists _, _. split; [by apply (set_child_same _ _ _ _ _ _ _ _ _ _ Hf) |]. split.
  { unfold set_parent, get. cbn [put heap]. rewrite lookup_insert_ne, Hb by done. done. }
  set (t := put (f_addr f) _ s). assert (Nt : same_nodes s t) by (by eapply same_nodes_put).
  split; [| split; [done | split]].
  - apply (same_nodes_trans _ t _ Nt). eapply same_nodes_put. unfold t. cbn. by rewrite lookup_insert_ne.
  - cbn in *. unfold plug1 in *. rewrite ptr_plug, ptr_node in *. done.
  - apply rep_plug. cbn [repc rep cpar ptr key value left right ncolor heap put t].
    apply NoDup_cons in Hn as [Hfn Hn]. split; [split; [done |]; split; [| split] |].
    + rewrite lookup_insert_ne by done. by rewrite lookup_insert_eq.
    + eapply rep_agree; [| exact Hsib]. intros a Ha. rewrite !lookup_insert_ne by set_solver. done.
    + eapply repc_agree; [| exact HC]. intros a Ha. rewrite !lookup_insert_ne by set_solver. done.
    + split; [done |]. split; [by rewrite lookup_insert_eq | done].
  - apply plug_nodup. cbn. by apply NoDup_cons.
Qed.

Section Map.
Context {compare : Z -> Z -> Z -> Z} `{Hcmp : CompareOk compare}.

Lemma valid_size s x : valid compare s x -> path_fuel s = length (addrs x).
Proof. intros H. apply path_fuel_addrs; [apply (va_dom _ _ _ H) | apply (sh_nodup _ _ (va_shape _ _ _ H))]. Qed.

Lemma lookup_node_spec s x k : valid compare s x -> lookup_node compare k s = Ok (ptr (descend compare k x []).2).
Proof.
  intros H. unfold lookup_node. rewrite (sh_root _ _ (va_shape _ _ _ H)). apply lookup_loop_spec; [apply (va_shape _ _ _ H) |].
  rewrite (valid_size _ _ H). apply height_addrs.
Qed.

Lemma rbtree_lookup_spec s x k : valid compare s x -> rbtree_lookup compare k s = Ok (default 0 (contents (inorder x) !! k)).
Proof.
  intros H. unfold rbtree_lookup. rewrite (lookup_node_spec _ _ _ H). cbn [res_bind].
  destruct (descend compare k x []) as [C' [| a c l k' v r]] eqn:Hd; cbn [snd].
  - destruct (descend_missing k x C' 0 (va_sorted _ _ _ H) Hd) as (_ & -> & _). done.
  - destruct (descend_found k x C' a c l k' v r (va_sorted _ _ _ H) Hd) as (-> & Ex & ->).
    pose proof (va_shape _ _ _ H) as Hs. rewrite Ex in Hs. pose proof (ptr_ne0 Hs ltac:(done)) as H0. cbn [ptr] in *.
    rewrite (proj2 (Z.eqb_neq a 0)) by done. by rewrite (shape_get s C' Left a c l k v r Hs).
Qed.

(** The state after [new_node]. *)
Definition with_new (k v : Z) (s : rbtree) : rbtree :=
  mk_rbtree (<[brk s := mk_node k v 0 0 0 RED]> (heap s)) (root s) (brk s + 1).

Lemma with_new_shape s x k v : valid compare s x ->
  shape (with_new k v s) x /\ brk s ∉ addrs x /\ path_fuel (with_new k v s) = S (length (addrs x)).
Proof.
  intros H. assert (Hb : brk s ∉ addrs x) by (intros Hb; apply (va_brk _ _ _ H) in Hb; lia). split; [| split; [done |]].
  - apply (shape_agree s); [apply (va_shape _ _ _ H) | done |]. intros a Ha. cbn. rewrite lookup_insert_ne; [done |]. by intros <-.
  - rewrite (path_fuel_addrs _ (brk s :: addrs x)); [done | |].
    + cbn. rewrite dom_insert_L, (va_dom _ _ _ H). done.
    + constructor; [done | apply (sh_nodup _ _ (va_shape _ _ _ H))].
Qed.

(** A state with the nodes of the tree [y]. *)
Lemma valid_after s x s' y b :
  valid compare s x -> redblack y -> sorted compare (inorder y) -> shape s' y ->
  addrs y ≡ₚ b :: addrs x -> b = brk s -> dom (heap s') = {[b]} ∪ dom (heap s) -> brk s' = brk s + 1 -> valid compare s' y.
Proof.
  intros H Hrb Hso Hs Ha -> Hd Hb. pose proof (va_pos _ _ _ H). split; [done | done | done | | | lia].
  - rewrite Hd, (va_dom _ _ _ H), Ha. done.
  - intros a. rewrite Ha, Hb. intros [-> | Hin]%elem_of_cons; [lia |]. apply (va_brk _ _ _ H) in Hin. lia.
Qed.

Lemma insert_rebalance s x k v s1 C :
  valid compare s x -> x = plug C E -> sorted compare (cl C ++ (k, v) :: cr C) ->
  same_nodes (with_new k v s) s1 -> shape s1 (plug C (T (brk s) RED E k v E)) ->
  exists s' y, insert_case1 (path_fuel s1) (brk s) s1 = Ok s' /\ valid compare s' y /\
    contents (inorder y) = <[k := v]> (contents (inorder x)).
Proof.
  intros H Hx Hso N1 H1. destruct (with_new_shape s x k v H) as (_ & Hb & Hf).
  pose proof (va_rb _ _ _ H) as Hrb. rewrite Hx in Hrb. destruct (redblack_unplug _ _ Hrb) as (n & HC & Hn & _). cbn in Hn. subst n.
  assert (Hfuel : path_fuel s1 = S (length (addrs x))) by (rewrite <- Hf; unfold path_fuel; destruct N1 as [Hd _]; by rewrite <- !size_dom, Hd).
  destruct (insert_case1_spec (path_fuel s1) s1 C (T (brk s) RED E k v E) 0 H1) as (y & (s' & E1 & N' & Hs') & [Hin Had] & Hy); [done | done | done | |].
  { rewrite Hfuel, Hx, addrs_plug. cbn. pose proof (length_caddrs C). lia. }
  rewrite inorder_plug in Hin. cbn in Hin. exists s', y. split; [exact E1 |]. split.
  - destruct N1 as [Hd1 Hb1], N' as [Hd' Hb']. eapply (valid_after s x _ _ (brk s)); [done | done | by rewrite <- Hin | done | | done | |].
    + rewrite <- Had, Hx, !addrs_plug. done.
    + rewrite Hd', Hd1. cbn. by rewrite dom_insert_L.
    + by rewrite Hb', Hb1.
  - rewrite <- Hin. destruct (contents_mid _ _ _ _ Hso) as [-> _]. by rewrite Hx, inorder_plug.
Qed.

Lemma insert_found s x k v C a c l w r :
  valid compare s x -> x = plug C (T a c l k w r) ->
  exists t, set_value a v (with_new k v s) = Ok t /\
    valid compare (free (brk s) t) (plug C (T a c l k v r)).
Proof.
  intros H Hx. destruct (with_new_shape s x k v H) as (Hs & Hb & _). pose proof Hs as Hs'. rewrite Hx in Hs.
  destruct (shape_put _ C Left a c l k w r c k v Hs) as [Hp N]. cbn [node dnode] in Hp, N.
  eexists. split; [unfold set_value; by rewrite (shape_get _ C Left a c l k w r Hs) |]. cbn [key value left right parent ncolor dnode].
  assert (Ha : addrs (plug C (T a c l k v r)) ≡ₚ addrs x) by (rewrite Hx, !addrs_plug; done).
  pose proof (va_pos _ _ _ H). split.
  - apply (shape_agree _ _ _ Hp); [done |]. intros b Hin. rewrite Ha in Hin. cbn. rewrite lookup_delete_ne; [done |]. by intros <-.
  - pose proof (va_rb _ _ _ H) as Hrb. rewrite Hx in Hrb. destruct (redblack_unplug _ _ Hrb) as (n & HC & Hn & Hc).
    by apply (redblack_plug _ _ n HC).
  - pose proof (va_sorted _ _ _ H) as Hso. rewrite Hx in Hso. rewrite inorder_plug in *. unfold sorted in *. cbn in *.
    rewrite !fmap_app in *. done.
  - cbn. rewrite dom_delete_L, dom_insert_L, dom_insert_L, Ha, (va_dom _ _ _ H).
    assert (a ∈ addrs x) by (rewrite <- Ha, addrs_plug; set_solver). set_solver.
  - intros b. rewrite Ha. intros Hin%(va_brk _ _ _ H). cbn. lia.
  - cbn. lia.
Qed.

Lemma rbtree_insert_spec s x k v : valid compare s x ->
  exists s' y, rbtree_insert compare k v s = Ok s' /\ valid compare s' y /\
    contents (inorder y) = <[k := v]> (contents (inorder x)).
Proof.
  intros H. destruct (with_new_shape s x k v H) as (Hs & Hb & Hf). unfold rbtree_insert, new_node. cbn [reparent Z.eqb res_bind].
  fold (with_new k v s). pose proof (sh_root _ _ Hs) as Hr. cbn [root with_new] in Hr |- *. rewrite Hr.
  destruct (decide (x = E)) as [-> | Hx]; [cbn [ptr Z.eqb] | rewrite (proj2 (Z.eqb_neq _ 0)) by (by apply (@ptr_ne0 _ [] _ Hs))].
  { apply (insert_rebalance s E k v (set_root (brk s) (with_new k v s)) []); [done | done | by repeat constructor | done |].
    pose proof (va_pos _ _ _ H). split; [done | | cbn; repeat constructor; set_solver]. cbn. rewrite lookup_insert_eq. repeat split. lia. }
  rewrite (insert_loop_spec _ _ [] x k v (brk s) Hs Hx) by (rewrite Hf; pose proof (height_addrs x); lia).
  destruct (descend compare k x []) as [C' [| a c l k' w r]] eqn:Hd; cbn [fst snd].
  - destruct (descend_missing k x C' v (va_sorted _ _ _ H) Hd) as (Ex & _ & Hso). destruct C' as [| f C']; [done |].
    rewrite Ex in Hs, Hb. destruct (graft _ f C' (brk s) k v Hs) as (t & s1 & -> & E1 & N1 & _ & H1); [cbn; by rewrite lookup_insert_eq | | done |].
    { pose proof (va_pos _ _ _ H). lia. }
    cbn [res_bind]. rewrite E1. cbn [res_bind]. by apply (insert_rebalance s x k v s1 (f :: C')).
  - destruct (descend_found k x C' a c l k' w r (va_sorted _ _ _ H) Hd) as (-> & Ex & Hl).
    destruct (insert_found s x k v C' a c l w r H Ex) as (t & -> & Hv). cbn [res_bind]. eexists _, _. split; [done |]. split; [exact Hv |].
    pose proof (va_sorted _ _ _ Hv) as Hso'. pose proof (va_sorted _ _ _ H) as Hso. rewrite Ex in Hso |- *.
    rewrite inorder_mid in Hso, Hso'. rewrite !inorder_mid.
    rewrite (proj1 (contents_mid _ _ _ _ Hso)), (proj1 (contents_mid _ _ _ _ Hso')), insert_insert_eq. done.
Qed.

End Map.

(** ** Deletion *)

(** The last node, and the path to it. *)
Fixpoint last_node (x : tree) (C : list frame) : list frame * tree :=
  match x with
  | E => (C, E)
  | T a c l k v r => match r with E => (C, x) | _ => last_node r (mk_frame Right a c k v l :: C) end
  end.

Lemma last_node_spec x C : x <> E ->
  exists D a c l k v, last_node x C = (D ++ C, T a c l k v E) /\ plug D (T a c l k v E) = x /\ cr D = [].
Proof.
  revert C. induction x as [| a c l IHl k v r IHr]; intros C Hx; [done |]. destruct (decide (r = E)) as [-> | Hr].
  - by exists [], a, c, l, k, v.
  - destruct (IHr (mk_frame Right a c k v l :: C) Hr) as (D & a' & c' & l' & k' & v' & E1 & E2 & E3).
    exists (D ++ [mk_frame Right a c k v l]), a', c', l', k', v'. split; [| split].
    + rewrite <- app_assoc. cbn. cbn in E1. rewrite <- E1. by destruct r.
    + clear -E2. revert E2. generalize (T a' c' l' k' v' E). induction D as [| g D IH]; intros y; cbn; [by intros -> | apply IH].
    + clear -E3. induction D as [| g D IH]; cbn in *; [done |]. by destruct (f_side g); [| apply IH].
Qed.

Lemma plug_app D C x : plug (D ++ C) x = plug C (plug D x).
Proof. revert x. induction D as [| f D IH]; intros x; cbn; [done | apply IH]. Qed.

Lemma cl_app D C : cl (D ++ C) = cl C ++ cl D.
Proof. induction D as [| f D IH]; cbn; [by rewrite app_nil_r |]. destruct (f_side f); [done |]. by rewrite IH, <- app_assoc. Qed.

Lemma cr_app D C : cr (D ++ C) = cr D ++ cr C.
Proof. induction D as [| f D IH]; cbn; [done |]. destruct (f_side f); [| done]. cbn. by rewrite IH, <- app_assoc. Qed.

Lemma maximum_loop_spec fuel s C x :
  shape s (plug C x) -> x <> E -> (height x <= S fuel)%nat -> maximum_loop fuel (ptr x) s = Ok (ptr (last_node x C).2).
Proof.
  revert s C x. induction fuel as [| fuel IH]; intros s C x Hs Hx Hf; (destruct x as [| a c l k v r]; [done |]); cbn [ptr maximum_loop];
    rewrite (shape_get s C Left a c l k v r Hs); cbn [res_bind dnode right last_node]; (destruct (decide (r = E)) as [-> | Hr]; [done |]);
    change (shape s (plug (mk_frame Right a c k v l :: C) r)) in Hs; rewrite (proj2 (Z.eqb_neq _ 0)) by (by apply (ptr_ne0 Hs)); cbn in Hf.
  - destruct r; [done |]. cbn in Hf. lia.
  - rewrite (IH s _ r Hs Hr) by lia. by destruct r.
Qed.

Lemma plug_height C x : (height x <= length (addrs (plug C x)))%nat.
Proof. rewrite addrs_plug, length_app. pose proof (height_addrs x). lia. Qed.

Lemma path_fits s C x : x <> E -> shape s (plug C x) -> path_fuel s = length (addrs (plug C x)) -> (length C < path_fuel s)%nat.
Proof.
  intros Hx Hs ->. rewrite addrs_plug, length_app. pose proof (length_caddrs C). destruct x; [done |]. cbn. lia.
Qed.

(** A node with two children gets the key and the value of its predecessor, which is taken out. *)
Lemma delete_inner s C a c l k v r :
  shape s (plug C (T a c l k v r)) -> redblack (plug C (T a c l k v r)) -> l <> E ->
  path_fuel s = length (addrs (plug C (T a c l k v r))) ->
  exists s' z, (let! pred := maximum_node (ptr l) s in let! y := get pred s in
      let! t := set_key_value a (key y) (value y) s in delete_node pred t) = Ok s' /\
    shape s' z /\ redblack z /\ inorder z = (cl C ++ inorder l) ++ inorder r ++ cr C /\
    exists b, b :: addrs z ≡ₚ addrs (plug C (T a c l k v r)) /\ dom (heap s') = dom (heap s) ∖ {[b]} /\ brk s' = brk s.
Proof.
  intros Hs Hrb Hl Hf. pose proof Hs as Hs'. change (shape s (plug (mk_frame Left a c k v r :: C) l)) in Hs'.
  destruct (last_node_spec l (mk_frame Left a c k v r :: C) Hl) as (D & pa & pc & pl & pk & pv & Elast & El & Hcr).
  unfold maximum_node. rewrite (proj2 (Z.eqb_neq _ 0)) by (by apply (ptr_ne0 Hs')). cbn [negb check res_bind].
  rewrite (maximum_loop_spec _ s _ l Hs' Hl), Elast by (rewrite Hf; pose proof (plug_height C (T a c l k v r)) as Hh; cbn [height] in Hh; lia).
  cbn [res_bind snd ptr]. rewrite <- El in Hs'. rewrite <- plug_app in Hs'.
  rewrite (shape_get s _ Left pa pc pl pk pv E Hs'). cbn [res_bind dnode key value].
  unfold set_key_value. rewrite (shape_get s C Left a c l k v r Hs). cbn [res_bind dnode left right parent ncolor].
  destruct (shape_put s C Left a c l k v r c pk pv Hs) as [H1 N1]. cbn [node dnode] in H1, N1. set (s1 := put a _ s) in *.
  set (C1 := D ++ mk_frame Left a c pk pv r :: C).
  assert (Ey : plug C1 (T pa pc pl pk pv E) = plug C (T a c l pk pv r)) by (unfold C1; by rewrite plug_app, El).
  assert (Had : addrs (plug C (T a c l pk pv r)) ≡ₚ addrs (plug C (T a c l k v r))) by (by rewrite !addrs_plug).
  assert (Hf1 : path_fuel s1 = length (addrs (plug C1 (T pa pc pl pk pv E)))).
  { rewrite Ey, Had, <- Hf. unfold path_fuel. destruct N1 as [Hd _]. by rewrite <- !size_dom, Hd. }
  destruct (delete_node_spec s1 C1 pa pc pl pk pv E) as (s' & z & -> & Hz & Hzrb & Hzin & Hzad & Hzd & Hzb).
  - by rewrite Ey.
  - rewrite Ey. destruct (redblack_unplug _ _ Hrb) as (n & HC & Hn & Hc). by apply (redblack_plug _ _ n HC).
  - by right.
  - apply (path_fits s1 C1 (T pa pc pl pk pv E)); [done | by rewrite Ey | done].
  - exists s', z. split; [done |]. split; [done |]. split; [done |]. destruct N1 as [Hd1 Hb1]. split; [| exists pa; split; [rewrite Hzad, Ey; exact Had | by rewrite Hzd, Hzb, Hd1]].
    rewrite Hzin. unfold C1. rewrite cl_app, cr_app, Hcr, <- El, inorder_plug. cbn. rewrite Hcr. cbn. rewrite !app_nil_r, <- !app_assoc. done.
Qed.

Section Delete.
Context {compare : Z -> Z -> Z -> Z} `{Hcmp : CompareOk compare}.

Lemma valid_without s x s' z b L1 k v L2 :
  valid compare s x -> inorder x = L1 ++ (k, v) :: L2 -> shape s' z -> redblack z -> inorder z = L1 ++ L2 ->
  b :: addrs z ≡ₚ addrs x -> dom (heap s') = dom (heap s) ∖ {[b]} -> brk s' = brk s ->
  valid compare s' z /\ contents (inorder z) = delete k (contents (inorder x)).
Proof.
  intros H Hx Hs Hrb Hz Ha Hd Hb. pose proof (va_sorted _ _ _ H) as Hso. rewrite Hx in Hso.
  pose proof (sh_nodup _ _ (va_shape _ _ _ H)) as Hn. rewrite <- Ha in Hn. apply NoDup_cons in Hn as [Hbn _]. split.
  - split; [done | done | rewrite Hz; by apply sorted_mid in Hso as [? _] | | | rewrite Hb; apply (va_pos _ _ _ H)].
    + rewrite Hd, (va_dom _ _ _ H), <- Ha. cbn. set_solver.
    + intros a Hin. rewrite Hb. apply (va_brk _ _ _ H). rewrite <- Ha. by right.
  - destruct (contents_mid _ _ _ _ Hso) as [E1 E2]. by rewrite Hx, E1, Hz, delete_insert_id.
Qed.

Lemma rbtree_delete_spec s x k : valid compare s x ->
  exists s' z, rbtree_delete compare k s = Ok s' /\ valid compare s' z /\ contents (inorder z) = delete k (contents (inorder x)).
Proof.
  intros H. unfold rbtree_delete. rewrite (lookup_node_spec _ _ _ H). cbn [res_bind].
  destruct (descend compare k x []) as [C [| a c l k' v r]] eqn:Hd; cbn [snd ptr].
  { destruct (descend_missing k x C 0 (va_sorted _ _ _ H) Hd) as (_ & Hk & _). exists s, x. split; [done |]. split; [done |].
    by rewrite delete_id. }
  destruct (descend_found k x C a c l k' v r (va_sorted _ _ _ H) Hd) as (-> & Ex & _).
  pose proof (va_shape _ _ _ H) as Hs. pose proof (va_rb _ _ _ H) as Hrb. pose proof (valid_size _ _ H) as Hf. rewrite Ex in Hs, Hrb, Hf.
  assert (Hx : inorder x = (cl C ++ inorder l) ++ (k, v) :: inorder r ++ cr C) by (by rewrite Ex, inorder_mid).
  rewrite (proj2 (Z.eqb_neq a 0)) by (by apply (ptr_ne0 Hs)). rewrite (shape_get s C Left a c l k v r Hs). cbn [res_bind dnode left right].
  destruct (negb (ptr l =? 0) && negb (ptr r =? 0)) eqn:Hlr; b2p.
  - destruct (delete_inner s C a c l k v r Hs Hrb ltac:(by intros ->) Hf) as (s' & z & E1 & Hz & Hzrb & Hzin & b & Hzad & Hzd & Hzb).
    rewrite <- Ex in Hzad. destruct (valid_without _ _ _ _ _ _ _ _ _ H Hx Hz Hzrb Hzin Hzad Hzd Hzb). by exists s', z.
  - assert (Hlr' : l = E \/ r = E).
    { destruct (decide (l = E)) as [| Hl]; [by left |]. destruct (decide (r = E)) as [| Hr]; [by right |]. exfalso.
      apply (@ptr_ne0 s (mk_frame Left a c k v r :: C) l Hs) in Hl. apply (@ptr_ne0 s (mk_frame Right a c k v l :: C) r Hs) in Hr. b2p. destruct Hlr; b2p; done. }
    destruct (delete_node_spec s C a c l k v r Hs Hrb Hlr' (path_fits s C (T a c l k v r) ltac:(done) Hs Hf)) as (s' & z & -> & Hz & Hzrb & Hzin & Hzad & Hzd & Hzb).
    rewrite <- Ex in Hzad. rewrite <- app_assoc, (app_assoc (cl C)) in Hzin.
    destruct (valid_without _ _ _ _ _ _ _ _ _ H Hx Hz Hzrb Hzin Hzad Hzd Hzb). by exists s', z.
Qed.
End Delete.

(** ** The checks and the length of paths *)

Lemma rb_size x n : rb x n -> 2 ^ Z.of_nat n <= Z.of_nat (length (addrs x)) + 1.
Proof.
  revert n. induction x as [| a [] l IHl k v r IHr]; intros n; cbn [rb addrs]; [intros ->; done | |];
    (cbn [length]; rewrite length_app).
  - intros (_ & _ & Hl%IHl & Hr%IHr). lia.
  - destruct n as [| n]; [done |]. intros [Hl%IHl Hr%IHr]. rewrite Nat2Z.inj_succ, Z.pow_succ_r by lia. lia.
Qed.

Lemma rb_height x n : rb x n -> (height x <= 2 * n + (if decide (color_of x = RED) then 1 else 0))%nat.
Proof.
  revert n. induction x as [| a [] l IHl k v r IHr]; intros n; cbn [rb height color_of]; [intros ->; cbn; lia | |].
  - intros (Hl & Hr & Hrl%IHl & Hrr%IHr). rewrite Hl in Hrl. rewrite Hr in Hrr. rewrite decide_False in Hrl, Hrr by done. rewrite decide_True by done. lia.
  - destruct n as [| n]; [done |]. intros [Hl%IHl Hr%IHr]. rewrite (decide_False (P := BLACK = RED)) by done. repeat case_decide; lia.
Qed.

Lemma redblack_height x : redblack x -> Z.of_nat (height x) <= 2 * Z.log2 (Z.of_nat (length (addrs x)) + 1).
Proof.
  intros [Hc [n Hn]]. pose proof (rb_height _ _ Hn) as H1. pose proof (rb_size _ _ Hn) as H2. rewrite Hc, decide_False in H1 by done.
  apply Z.log2_le_mono in H2. rewrite Z.log2_pow2 in H2 by lia. lia.
Qed.

Section Verify.
Context {s : rbtree}.

Lemma verify_1_spec fuel C x : shape s (plug C x) -> (height x <= fuel)%nat -> verify_property_1 fuel (ptr x) s = Ok tt.
Proof.
  revert C x. induction fuel as [| fuel IH]; intros C x Hs Hf; (destruct x as [| a c l k v r]; [done |]); [cbn in Hf; lia |].
  cbn [verify_property_1]. rewrite (node_color_spec Hs). cbn [res_bind].
  assert (Hc : forall c0, bool_decide (c0 = RED) || bool_decide (c0 = BLACK) = true) by (by intros []). rewrite Hc. cbn [check res_bind].
  rewrite (proj2 (Z.eqb_neq _ 0)) by (by apply (ptr_ne0 Hs)). cbn [ptr]. rewrite (shape_get s C Left a c l k v r Hs). cbn [res_bind dnode left right].
  cbn in Hf. rewrite (IH (mk_frame Left a c k v r :: C) l Hs) by lia. cbn [res_bind]. apply (IH (mk_frame Right a c k v l :: C) r Hs). lia.
Qed.

Lemma verify_4_spec fuel C x n :
  shape s (plug C x) -> rb x n -> (color_of x = RED -> ccolor C = Some BLACK) -> (height x <= fuel)%nat ->
  verify_property_4 fuel (ptr x) s = Ok tt.
Proof.
  revert C x n. induction fuel as [| fuel IH]; intros C x n Hs Hrb Hc Hf; (destruct x as [| a c l k v r]; [done |]); [cbn in Hf; lia |].
  assert (Hl : shape s (plug (mk_frame Left a c k v r :: C) l)) by exact Hs.
  assert (Hr : shape s (plug (mk_frame Right a c k v l :: C) r)) by exact Hs.
  cbn [verify_property_4]. rewrite (node_color_spec Hs). cbn [res_bind color_of ptr].
  rewrite (shape_get s C Left a c l k v r Hs). cbn [res_bind dnode left right parent]. cbn in Hf.
  rewrite (node_color_spec Hl), (node_color_spec Hr), (proj2 (Z.eqb_neq a 0)) by (by apply (ptr_ne0 Hs)).
  destruct c; cbn in Hrb.
  - destruct Hrb as (Hbl & Hbr & Hrl & Hrr). rewrite decide_True by done. cbn [res_bind]. rewrite Hbl, Hbr. cbn [res_bind].
    destruct C as [| f C]; [by specialize (Hc eq_refl) |]. specialize (Hc eq_refl). injection Hc as Hc. cbn [cpar]. rewrite (frame_color (x := T a RED l k v r) Hs), Hc. cbn [res_bind].
    cbn. rewrite (IH _ l n Hl Hrl) by (first [lia | congruence]). apply (IH _ r n Hr Hrr); [congruence | lia].
  - rewrite decide_False by done. cbn [res_bind]. destruct n as [| n]; [done |]. destruct Hrb as [Hrl Hrr].
    rewrite (IH _ l n Hl Hrl) by (first [lia | done]). apply (IH _ r n Hr Hrr); [done | lia].
Qed.

Lemma verify_5_spec fuel C x n bc pc :
  shape s (plug C x) -> rb x n -> (height x <= fuel)%nat -> pc = -1 \/ pc = bc + Z.of_nat n + 1 -> 0 <= bc ->
  verify_property_5_helper fuel (ptr x) bc pc s = Ok (bc + Z.of_nat n + 1).
Proof.
  revert C x n bc pc. induction fuel as [| fuel IH]; intros C x n bc pc Hs Hrb Hf Hp Hbc; (destruct x as [| a c l k v r]; [| cbn in Hf; try lia]).
  1, 2: cbn in Hrb; subst n; cbn; replace (bc + Z.of_nat 0 + 1) with (bc + 1) in * by lia; destruct Hp as [-> | ->]; [done |];
    rewrite (proj2 (Z.eqb_neq _ _)) by lia; by rewrite Z.eqb_refl.
  assert (Hl : shape s (plug (mk_frame Left a c k v r :: C) l)) by exact Hs.
  assert (Hr : shape s (plug (mk_frame Right a c k v l :: C) r)) by exact Hs.
  cbn [verify_property_5_helper]. rewrite (node_color_spec Hs). cbn [res_bind color_of ptr].
  rewrite (shape_get s C Left a c l k v r Hs), (proj2 (Z.eqb_neq a 0)) by (by apply (ptr_ne0 Hs)). cbn [res_bind dnode left right].
  destruct c; cbn in Hrb.
  - destruct Hrb as (_ & _ & Hrl & Hrr). rewrite decide_False by done. rewrite (IH _ l n _ _ Hl Hrl) by lia. cbn [res_bind].
    apply (IH _ r n _ _ Hr Hrr); lia.
  - rewrite decide_True by done. destruct n as [| n]; [done |]. destruct Hrb as [Hrl Hrr]. rewrite (IH _ l n _ _ Hl Hrl) by lia. cbn [res_bind].
    rewrite (IH _ r n _ _ Hr Hrr) by lia. f_equal. lia.
Qed.
End Verify.

(** ** Correctness *)

Section Correct.
Context {compare : Z -> Z -> Z -> Z} `{Hcmp : CompareOk compare}.

Lemma holds_create : holds compare rbtree_create ∅.
Proof.
  exists E. split; [| done]. split; [split; [done | done | constructor] | by split; [| exists O] | constructor | done | set_solver | done].
Qed.

Lemma holds_size s m : holds compare s m -> size (heap s) = size m.
Proof.
  intros (x & H & ->). change (size (heap s)) with (path_fuel s). rewrite (valid_size _ _ H), length_addrs. unfold contents.
  pose proof (sorted_nodup _ (va_sorted _ _ _ H)) as Hn. apply (map_to_list_to_map (M := gmap Z)), Permutation_length in Hn. rewrite <- Hn. by rewrite length_map_to_list.
Qed.

Lemma holds_insert s m k v : holds compare s m -> exists s', rbtree_insert compare k v s = Ok s' /\ holds compare s' (<[k := v]> m).
Proof. intros (x & H & ->). destruct (rbtree_insert_spec s x k v H) as (s' & y & E1 & Hy & <-). exists s'. split; [done |]. by exists y. Qed.

Lemma holds_delete s m k : holds compare s m -> exists s', rbtree_delete compare k s = Ok s' /\ holds compare s' (delete k m).
Proof. intros (x & H & ->). destruct (rbtree_delete_spec s x k H) as (s' & y & E1 & Hy & <-). exists s'. split; [done |]. by exists y. Qed.

Lemma holds_lookup s m k : holds compare s m -> rbtree_lookup compare k s = Ok (default 0 (m !! k)).
Proof. intros (x & H & ->). by apply rbtree_lookup_spec. Qed.

Lemma holds_verify s m : holds compare s m -> verify_properties s = Ok tt.
Proof.
  intros (x & H & _). pose proof (va_shape _ _ _ H) as Hs. destruct (va_rb _ _ _ H) as [Hc [n Hn]]. pose proof (height_addrs x) as Hh.
  rewrite <- (valid_size _ _ H) in Hh. unfold verify_properties, verify_property_2, verify_property_5.
  rewrite (sh_root _ _ Hs), (verify_1_spec _ [] x Hs Hh). cbn [res_bind]. rewrite (@node_color_spec s [] x Hs), Hc. cbn [res_bind check].
  rewrite bool_decide_true by done. cbn [res_bind check].
  rewrite (verify_4_spec _ [] x n Hs Hn) by (first [done | congruence]). cbn [res_bind].
  by rewrite (verify_5_spec _ [] x n 0 (-1) Hs Hn Hh) by lia.
Qed.
End Correct.

(** A use of the tree. *)
Inductive op : Type := OpInsert (k v : Z) | OpDelete (k : Z) | OpLookup (k : Z).

(** The operations one after another on the tree, with the checks after each of them, and on a map; the results
    of the lookups. *)
Fixpoint run (compare : Z -> Z -> Z -> Z) (ops : list op) (t : rbtree) : res (list Z * rbtree) :=
  match ops with
  | [] => Ok ([], t)
  | o :: ops =>
      let! (out, t) :=
        match o with
        | OpInsert k v => let! t := rbtree_insert compare k v t in Ok ([], t)
        | OpDelete k => let! t := rbtree_delete compare k t in Ok ([], t)
        | OpLookup k => let! v := rbtree_lookup compare k t in Ok ([v], t)
        end in
      let! _ := verify_properties t in
      let! (outs, t) := run compare ops t in
      Ok (out ++ outs, t)
  end.

Fixpoint run_map (ops : list op) (m : gmap Z Z) : list Z * gmap Z Z :=
  match ops with
  | [] => ([], m)
  | OpInsert k v :: ops => run_map ops (<[k := v]> m)
  | OpDelete k :: ops => run_map ops (delete k m)
  | OpLookup k :: ops => let '(outs, m') := run_map ops m in (default 0 (m !! k) :: outs, m')
  end.

Lemma run_spec compare `{CompareOk compare} ops s m : holds compare s m ->
  exists s', run compare ops s = Ok ((run_map ops m).1, s') /\ holds compare s' (run_map ops m).2.
Proof.
  revert s m. induction ops as [| [k v | k | k] ops IH]; intros s m Hs; cbn [run run_map].
  - by exists s.
  - destruct (holds_insert s m k v Hs) as (s1 & -> & H1). cbn [res_bind]. rewrite (holds_verify _ _ H1). cbn [res_bind].
    destruct (IH _ _ H1) as (s' & -> & H'). by exists s'.
  - destruct (holds_delete s m k Hs) as (s1 & -> & H1). cbn [res_bind]. rewrite (holds_verify _ _ H1). cbn [res_bind].
    destruct (IH _ _ H1) as (s' & -> & H'). by exists s'.
  - rewrite (holds_lookup _ _ k Hs). cbn [res_bind]. rewrite (holds_verify _ _ Hs). cbn [res_bind].
    destruct (IH _ _ Hs) as (s' & -> & H'). destruct (run_map ops m) as [outs m']. by exists s'.
Qed.

(** C22. Whatever sequence of insertions, deletions and lookups is made, the red-black tree
    answers as a finite map (a missing key is [NULL]), no assertion of the file fails, the
    checks of [VERIFY_RBTREE] hold after every operation, and exactly one node is allocated
    per key. *)
Theorem rbtree_refines_map (compare : Z -> Z -> Z -> Z) (Hcmp : CompareOk compare) (ops : list op) :
  exists s', run compare ops rbtree_create = Ok ((run_map ops ∅).1, s') /\
    holds compare s' (run_map ops ∅).2 /\ size (heap s') = size (run_map ops ∅).2.
Proof.
  destruct (run_spec compare ops rbtree_create ∅ holds_create) as (s' & E1 & H'). exists s'. split; [done |]. split; [done |]. by eapply holds_size.
Qed.

(** An insertion puts the key in the map or replaces its value, and leaves a red-black
    search tree with parent pointers. *)
Theorem rbtree_insert_correct (compare : Z -> Z -> Z -> Z) (Hcmp : CompareOk compare) (s : rbtree) (m : gmap Z Z) (k v : Z) :
  holds compare s m -> exists s', rbtree_insert compare k v s = Ok s' /\ holds compare s' (<[k := v]> m).
Proof. apply holds_insert. Qed.

(** A deletion removes the key from the map (a missing key changes nothing), frees the
    node, and leaves a red-black search tree with parent pointers. *)
Theorem rbtree_delete_correct (compare : Z -> Z -> Z -> Z) (Hcmp : CompareOk compare) (s : rbtree) (m : gmap Z Z) (k : Z) :
  holds compare s m -> exists s', rbtree_delete compare k s = Ok s' /\ holds compare s' (delete k m).
Proof. apply holds_delete. Qed.

(** The four properties that [verify_properties] checks hold of every tree that the
    operations build: no assertion of it fails. *)
Theorem verify_properties_pass (compare : Z -> Z -> Z -> Z) (Hcmp : CompareOk compare) (s : rbtree) (m : gmap Z Z) :
  holds compare s m -> verify_properties s = Ok tt.
Proof. apply holds_verify. Qed.

(** C39. A lookup follows at most [2 log2 (size + 1)] pointers: with that many iterations of
    its loop it is done. *)
Theorem lookup_logarithmic (compare : Z -> Z -> Z -> Z) (Hcmp : CompareOk compare) (s : rbtree) (m : gmap Z Z) (k : Z) :
  holds compare s m ->
  exists n, lookup_loop compare (Z.to_nat (2 * Z.log2 (Z.of_nat (size m) + 1))) (root s) k s = Ok n /\ lookup_node compare k s = Ok n.
Proof.
  intros H. pose proof (holds_size _ _ H) as Hsz. destruct H as (x & H & _). rewrite (lookup_node_spec _ _ k H).
  exists (ptr (descend compare k x []).2). split; [| done]. rewrite (sh_root _ _ (va_shape _ _ _ H)).
  apply lookup_loop_spec; [apply (va_shape _ _ _ H) |]. pose proof (redblack_height _ (va_rb _ _ _ H)) as Hh.
  rewrite <- Hsz. change (size (heap s)) with (path_fuel s). rewrite (valid_size _ _ H). lia.
Qed.

(** ** Witnesses *)

(** Keys in the order of numbers. *)
Definition compare_key (n a b : Z) : Z := if a <? b then -1 else if b <? a then 1 else 0.

#[global] Instance compare_key_ok : CompareOk compare_key.
Proof.
  unfold compare_key. split.
  - done.
  - intros a b. destruct (Z.ltb_spec a b), (Z.ltb_spec b a); lia.
  - intros a b. destruct (Z.ltb_spec a b), (Z.ltb_spec b a); lia.
  - intros a b c. destruct (Z.ltb_spec a b), (Z.ltb_spec b a), (Z.ltb_spec b c), (Z.ltb_spec c b), (Z.ltb_spec a c), (Z.ltb_spec c a); lia.
Qed.

Definition ex_ops : list op :=
  [OpInsert 5 50; OpInsert 3 30; OpInsert 8 80; OpInsert 1 10; OpInsert 4 40; OpDelete 3; OpLookup 4; OpInsert 8 88; OpLookup 8; OpLookup 3].

Lemma rbtree_refines_map_witness :
  exists s', run compare_key ex_ops rbtree_create = Ok ([40; 88; 0], s') /\
    holds compare_key s' (run_map ex_ops ∅).2 /\ size (heap s') = 4%nat.
Proof. exact (rbtree_refines_map compare_key compare_key_ok ex_ops). Defined.

Definition ex_tree : rbtree :=
  match run compare_key ex_ops rbtree_create with Ok (_, s) => s | Crash _ => rbtree_create end.
Definition ex_map : gmap Z Z := (run_map ex_ops ∅).2.

Lemma ex_holds : holds compare_key ex_tree ex_map.
Proof. destruct (run_spec compare_key ex_ops rbtree_create ∅ holds_create) as (s' & E1 & H'). unfold ex_tree. by rewrite E1. Qed.

Lemma rbtree_insert_correct_witness :
  holds compare_key ex_tree ex_map /\
  exists s', rbtree_insert compare_key 6 60 ex_tree = Ok s' /\ holds compare_key s' (<[6 := 60]> ex_map).
Proof. split; [exact ex_holds |]. exact (rbtree_insert_correct compare_key compare_key_ok ex_tree ex_map 6 60 ex_holds). Defined.

Lemma rbtree_delete_correct_witness :
  holds compare_key ex_tree ex_map /\
  exists s', rbtree_delete compare_key 5 ex_tree = Ok s' /\ holds compare_key s' (delete 5 ex_map).
Proof. split; [exact ex_holds |]. exact (rbtree_delete_correct compare_key compare_key_ok ex_tree ex_map 5 ex_holds). Defined.

Lemma verify_properties_pass_witness : holds compare_key ex_tree ex_map /\ verify_properties ex_tree = Ok tt.
Proof. split; [exact ex_holds |]. exact (verify_properties_pass compare_key compare_key_ok ex_tree ex_map ex_holds). Defined.

Lemma lookup_logarithmic_witness :
  holds compare_key ex_tree ex_map /\
  exists n, lookup_loop compare_key (Z.to_nat (2 * Z.log2 (Z.of_nat (size ex_map) + 1))) (root ex_tree) 4 ex_tree = Ok n /\
    lookup_node compare_key 4 ex_tree = Ok n.
Proof. split; [exact ex_holds |]. exact (lookup_logarithmic compare_key compare_key_ok ex_tree ex_map 4 ex_holds). Defined.

End RBTree.
