(* ===== verification/FsLibMalloc.v ===== *)
(** * Buffers shared with the server

    [cfs/src/FsLibMalloc.cc] and [cfs/include/FsLibMalloc.h]: a client allocates its
    buffers in shared memory, in three arrays of blocks of one size each, so that a request
    only names the array and the block.  [cfs/src/FsProc.cc] ([AppProc]) is the side of the
    server, which maps the same memory at another address.  The theorems show that the
    buffers a client holds never overlap, that an allocation and its release are inverse,
    and that the server finds the block the client means. *)

From Stdlib Require Import ZArith List Lia Bool String.
From stdpp Require Import base list option gmap strings pretty list_numbers.
From S2P Require Import Prelude.
Import ListNotations.
Open Scope Z_scope.

Module FsLibMalloc.

(** ** Constants *)

Definition gFsLibMallocPageSize : Z := 4096.
Definition MEM_BLOCK_META_IN_USE_MASK : Z := 1.
Definition MEM_BLOCK_META_DIRTY_MASK : Z := 2.
Definition FsLibMem_ERR_MALLOC_SIZE_NOT_SUPPORT : Z := -1.
Definition FsLibMem_ERR_MALLOC_USED_UP : Z := -2.
Definition FsLibMem_ERR_FREE_NOT_FOUND : Z := -3.
Definition kHeaderAlignBytes : Z := 64.

Definition ROUND_UP (n s : Z) : Z := (n + s - 1) / s * s.
Definition UTIL_BIT_FLIP (x mask : Z) : Z := Z.lor (Z.land x (Z.lnot mask)) (Z.lxor x mask).

(** The macros that choose the size of the buffers. *)
Inductive build : Type := EXTENT_FOR_LDB | EXTENT_FOR_FILEBENCH | EXTENT_DEFAULT.

Definition kBlockSizeNum : Z := 3.
Definition kPerSizeTotalBytes (b : build) : list Z :=
  [match b with
   | EXTENT_FOR_LDB => 2 * 1024 * 1024 * 1024
   | EXTENT_FOR_FILEBENCH => 1024 * 1024 * 1024
   | EXTENT_DEFAULT => 256 * 1024 * 1024
   end; 128 * 1024 * 1024; 8 * 1024 * 1024].
Definition kBlockSizeArr : list Z := [8 * 1024; 48 * 1024; 2 * 1024 * 1024].

(** ** The blocks of one size *)

Record MemBlockMeta : Type := mk_meta {
  flags : Z;
  dataPtrOffset : Z;
  shmInnerId : Z;
  bSize : Z;
  numPages : Z
}.

(** [sizeof(MemBlockMeta)]: the fields with their alignment. *)
Definition sizeof_MemBlockMeta : Z := 32.

(** A pointer to a [MemBlockMeta]: the shared memory and the position in its header. *)
Notation metaptr := (Z * Z)%type (only parsing).

(** [seg] is the shared memory behind [firstBlockMetaPtr]. *)
Record SingleSizeMemBlockArr : Type := mk_arr {
  seg : Z;
  dataStartPtr : Z;
  blockSize : Z;
  numBlocks : Z;
  headerSize : Z;
  totalMemBytes : Z;
  memArrName : string;
  blockVec : list metaptr
}.

Definition computeBlockArrShmHeaderBytes (n : Z) : Z := to_u64 (ROUND_UP (sizeof_MemBlockMeta * n) kHeaderAlignBytes).
Definition computeBlockArrShmSizeBytes (bsz n : Z) : Z := to_u64 (computeBlockArrShmHeaderBytes n + to_u32 (bsz * n)).

(** The contents of the memory by address. *)
Definition memory : Type := Z -> Z.
Definition memset0 (addr n : Z) (m : memory) : memory :=
  fun a => if (addr <=? a) && (a <? addr + n) then 0 else m a.

Definition meta_ptrs (sg n : Z) : list metaptr := (fun i => (sg, i)) <$> seqZ 0 n.

(** The constructor that lays out the memory. *)
Definition layoutMemBlockArr (sg bsz n sizeBytes addr : Z) (name : string) (m : memory)
    : res (SingleSizeMemBlockArr * list MemBlockMeta * memory) :=
  let! _ := check (sizeBytes =? computeBlockArrShmSizeBytes bsz n) in
  let m := memset0 addr sizeBytes m in
  let hsz := computeBlockArrShmHeaderBytes n in
  let metas := (fun i => mk_meta 0 (to_u32 (bsz * i)) i bsz (bsz / gFsLibMallocPageSize)) <$> seqZ 0 n in
  Ok (mk_arr sg (addr + hsz) bsz n hsz sizeBytes name (meta_ptrs sg n), metas, m).

(** The constructor with [skipLayout], for memory that is laid out. *)
Definition attachMemBlockArr (sg bsz n sizeBytes addr : Z) (name : string) (skipLayout : bool) : res SingleSizeMemBlockArr :=
  let! _ := check skipLayout in
  let! _ := check (sizeBytes =? computeBlockArrShmSizeBytes bsz n) in
  let hsz := computeBlockArrShmHeaderBytes n in
  Ok (mk_arr sg (addr + hsz) bsz n hsz sizeBytes name (meta_ptrs sg n)).

Definition dataPtr2MemBlock (a : SingleSizeMemBlockArr) (dataPtr : Z) : res metaptr :=
  load (blockVec a) (to_u64 (dataPtr - dataStartPtr a) / blockSize a).

Definition isAddrInBlock (a : SingleSizeMemBlockArr) (dataPtr : Z) : bool :=
  let curOff := dataPtr - dataStartPtr a in
  (0 <=? curOff) && (curOff <? to_u32 (numBlocks a * blockSize a)).

Definition fromDataPtrOffset2Addr (a : SingleSizeMemBlockArr) (offset : Z) : Z := dataStartPtr a + offset.

Definition getMetaFromId (a : SingleSizeMemBlockArr) (id : Z) : option metaptr :=
  if numBlocks a <=? id then None else Some (seg a, id).

(** The headers of the shared memories. *)
Definition headers : Type := list (list MemBlockMeta).

Definition get_meta (h : headers) (p : metaptr) : res MemBlockMeta :=
  let! l := load h p.1 in load l p.2.
Definition set_meta (h : headers) (p : metaptr) (x : MemBlockMeta) : res headers :=
  let! l := load h p.1 in
  let! l := store l p.2 x in
  store h p.1 l.

(** A null [curMeta] is dereferenced. *)
Definition getDataPtrFromId (a : SingleSizeMemBlockArr) (h : headers) (id : Z) : res Z :=
  match getMetaFromId a id with
  | None => Crash OutOfRange
  | Some p => let! x := get_meta h p in Ok (dataStartPtr a + dataPtrOffset x)
  end.

(** ** The allocator *)

Record FsLibLinearListsAllocator : Type := mk_alloc {
  blockSizeNum : Z;
  helperBlockSizeVec : list Z;
  perSizeMemArrVec : list SingleSizeMemBlockArr;
  perSizeFreeListVec : list (list metaptr);
  memBytes : Z;
  totalAllocatedBytes : Z
}.

(** The inner loop of the constructor: [push_back] of the pointers to the blocks [js]. *)
Fixpoint push_blocks (a : SingleSizeMemBlockArr) (js : list Z) : res (list metaptr) :=
  match js with
  | [] => Ok []
  | j :: js =>
      let! p := load (blockVec a) j in
      let! ps := push_blocks a js in
      Ok (p :: ps)
  end.

(** The loop of the constructor. *)
Definition newLinearListsAllocator (n : Z) (sizes : list Z) (arrs : list SingleSizeMemBlockArr) : res FsLibLinearListsAllocator :=
  foldM (fun al i =>
    let! sz := load sizes i in
    let! a := load arrs i in
    let! free := push_blocks a (seqZ 0 (numBlocks a)) in
    Ok (mk_alloc (blockSizeNum al) (helperBlockSizeVec al ++ [sz]) (perSizeMemArrVec al ++ [a])
          (perSizeFreeListVec al ++ [free])
          (to_u64 (memBytes al + to_u32 (numBlocks a * blockSize a))) (totalAllocatedBytes al)))
    (seqZ 0 n) (mk_alloc n [0] [] [] 0 0).

Fixpoint size_loop (fuel : nat) (al : FsLibLinearListsAllocator) (bsz i : Z) : res Z :=
  match fuel with
  | O => Crash NoFuel
  | S fuel =>
      if i <? blockSizeNum al then
        let! lo := load (helperBlockSizeVec al) i in
        let! hi := load (helperBlockSizeVec al) (i + 1) in
        if (lo <? bsz) && (bsz <=? hi) then Ok i else size_loop fuel al bsz (i + 1)
      else Ok (-1)
  end.

Definition fromBlockSize2VecIdx (al : FsLibLinearListsAllocator) (bsz : Z) : res Z :=
  size_loop (S (Z.to_nat (blockSizeNum al))) al bsz 0.

(** [inr (meta, dataPtr)], or [inl err]. *)
Definition doAllocate (al : FsLibLinearListsAllocator) (h : headers) (sizeBytes : Z)
    : res ((Z + metaptr * Z) * FsLibLinearListsAllocator) :=
  let! idx := fromBlockSize2VecIdx al sizeBytes in
  if idx <? 0 then Ok (inl FsLibMem_ERR_MALLOC_SIZE_NOT_SUPPORT, al)
  else
    let! free := load (perSizeFreeListVec al) idx in
    match last free with
    | None => Ok (inl FsLibMem_ERR_FREE_NOT_FOUND, al)
    | Some p =>
        let! lists := store (perSizeFreeListVec al) idx (removelast free) in
        let! sz := load (helperBlockSizeVec al) (idx + 1) in
        let! a := load (perSizeMemArrVec al) idx in
        let! x := get_meta h p in
        Ok (inr (p, fromDataPtrOffset2Addr a (dataPtrOffset x)),
            mk_alloc (blockSizeNum al) (helperBlockSizeVec al) (perSizeMemArrVec al) lists (memBytes al)
              (to_u64 (totalAllocatedBytes al + sz)))
    end.

Definition doFree (al : FsLibLinearListsAllocator) (h : headers) (p : metaptr) : res (Z * FsLibLinearListsAllocator) :=
  let! x := get_meta h p in
  let! idx := fromBlockSize2VecIdx al (bSize x) in
  if idx <? 0 then Ok (-1, al)
  else
    let! sz := load (helperBlockSizeVec al) (idx + 1) in
    let! free := load (perSizeFreeListVec al) idx in
    let! lists := store (perSizeFreeListVec al) idx (free ++ [p]) in
    Ok (0, mk_alloc (blockSizeNum al) (helperBlockSizeVec al) (perSizeMemArrVec al) lists (memBytes al)
             (to_u64 (totalAllocatedBytes al - sz))).

Definition getFreeSize (al : FsLibLinearListsAllocator) : Z := to_u64 (memBytes al - totalAllocatedBytes al).

(** ** The buffers of a client *)

Record FsLibMemMng : Type := mk_mng {
  shm : headers;
  mem : memory;
  bufferMemArrVec : list SingleSizeMemBlockArr;
  bufferAllocator : FsLibLinearListsAllocator;
  shmidVec : list Z;
  shmFnameVec : list string
}.

Definition FS_SHM_KEY_BASE : Z := 20190301.

Definition getSingleSizeMemBlockArrName (sizeKb gUniqueMemId withinSizeId : Z) : string :=
  "fsp_" +:+ pretty sizeKb +:+ "_" +:+
  (if FS_SHM_KEY_BASE <? gUniqueMemId then pretty (gUniqueMemId - FS_SHM_KEY_BASE) else pretty gUniqueMemId) +:+
  "_" +:+ pretty withinSizeId.

(** One round of the loop of [init]; [addr] is what [malloc] or [shmOpenInit] returns. *)
Definition init_size (b : build) (appid memMngId : Z) (s : FsLibMemMng) (i : Z) (addr : Z) : res FsLibMemMng :=
  let! bsz := load kBlockSizeArr i in
  let! total := load (kPerSizeTotalBytes b) i in
  let cnt := to_u32 (total / bsz) in
  let size := computeBlockArrShmSizeBytes bsz cnt in
  let! _ := check (bsz mod gFsLibMallocPageSize =? 0) in
  let name := getSingleSizeMemBlockArrName (bsz / 1024) appid memMngId in
  let! (a, metas, m) := layoutMemBlockArr i bsz cnt size addr name (mem s) in
  Ok (mk_mng (shm s ++ [metas]) m (bufferMemArrVec s ++ [a]) (bufferAllocator s) (shmidVec s ++ [to_u8 (-1)]) (shmFnameVec s ++ [name])).

(** [addrs] are the addresses of the memories, [None] when there is no memory; the result
    is [None] when [init] returns -1. *)
Fixpoint init_loop (b : build) (appid memMngId : Z) (addrs : list (option Z)) (i : Z) (s : FsLibMemMng) : res (option FsLibMemMng) :=
  match addrs with
  | [] => Ok (Some s)
  | None :: _ => Ok None
  | Some addr :: addrs =>
      let! s := init_size b appid memMngId s i addr in
      init_loop b appid memMngId addrs (i + 1) s
  end.

Definition init (b : build) (appid memMngId : Z) (addrs : list (option Z)) (m : memory) : res (option FsLibMemMng) :=
  let! r := init_loop b appid memMngId (take (Z.to_nat kBlockSizeNum) addrs) 0 (mk_mng [] m [] (mk_alloc 0 [] [] [] 0 0) [] []) in
  match r with
  | None => Ok None
  | Some s =>
      let! al := newLinearListsAllocator kBlockSizeNum kBlockSizeArr (bufferMemArrVec s) in
      Ok (Some (mk_mng (shm s) (mem s) (bufferMemArrVec s) al (shmidVec s) (shmFnameVec s)))
  end.

Definition with_alloc (al : FsLibLinearListsAllocator) (s : FsLibMemMng) : FsLibMemMng :=
  mk_mng (shm s) (mem s) (bufferMemArrVec s) al (shmidVec s) (shmFnameVec s).
Definition with_mem (m : memory) (s : FsLibMemMng) : FsLibMemMng :=
  mk_mng (shm s) m (bufferMemArrVec s) (bufferAllocator s) (shmidVec s) (shmFnameVec s).
Definition with_shm (h : headers) (s : FsLibMemMng) : FsLibMemMng :=
  mk_mng h (mem s) (bufferMemArrVec s) (bufferAllocator s) (shmidVec s) (shmFnameVec s).

(** [inl err] with a null result, or the address. *)
Definition mallocInner (sizeBytes : Z) (isZero : bool) (s : FsLibMemMng) : res ((Z + Z) * FsLibMemMng) :=
  let! (r, al) := doAllocate (bufferAllocator s) (shm s) sizeBytes in
  let s := with_alloc al s in
  match r with
  | inl err => Ok (inl err, s)
  | inr (_, addr) => Ok (inr addr, if isZero then with_mem (memset0 addr sizeBytes (mem s)) s else s)
  end.

Definition Malloc (sizeBytes : Z) (s : FsLibMemMng) : res ((Z + Z) * FsLibMemMng) := mallocInner sizeBytes false s.
Definition Zalloc (sizeBytes : Z) (s : FsLibMemMng) : res ((Z + Z) * FsLibMemMng) := mallocInner sizeBytes true s.

(** The loop of [findDataPtrMeta]: the first array that has the address. *)
Fixpoint find_arr (arrs : list SingleSizeMemBlockArr) (i ptr : Z) : option (Z * SingleSizeMemBlockArr) :=
  match arrs with
  | [] => None
  | a :: arrs => if isAddrInBlock a ptr then Some (i, a) else find_arr arrs (i + 1) ptr
  end.

(** The meta data and [sizeIdx], or [None] with [err] set to [FsLibMem_ERR_FREE_NOT_FOUND]. *)
Definition findDataPtrMeta (s : FsLibMemMng) (ptr : Z) : res (option (metaptr * Z)) :=
  match find_arr (take (Z.to_nat kBlockSizeNum) (bufferMemArrVec s)) 0 ptr with
  | None => Ok None
  | Some (i, a) => let! p := dataPtr2MemBlock a ptr in Ok (Some (p, i))
  end.

(** The result is [err], which is left as it was when the block is found. *)
Definition Free (ptr err : Z) (s : FsLibMemMng) : res (Z * FsLibMemMng) :=
  let! r := findDataPtrMeta s ptr in
  match r with
  | Some (p, _) =>
      let! (_, al) := doFree (bufferAllocator s) (shm s) p in
      Ok (err, with_alloc al s)
  | None => Ok (FsLibMem_ERR_FREE_NOT_FOUND, s)
  end.

(** [meta->flags = UTIL_BIT_FLIP(meta->flags, MEM_BLOCK_META_DIRTY_MASK)] *)
Definition flip_dirty (p : metaptr) (h : headers) : res headers :=
  let! x := get_meta h p in
  set_meta h p (mk_meta (to_u8 (UTIL_BIT_FLIP (flags x) MEM_BLOCK_META_DIRTY_MASK)) (dataPtrOffset x) (shmInnerId x) (bSize x) (numPages x)).

(** [shmid] and [ptrOffset], or [None] with [err] set. *)
Definition getBufOwnerInfo (ptr : Z) (isDirty : bool) (s : FsLibMemMng) : res (option (Z * Z) * FsLibMemMng) :=
  let! r := findDataPtrMeta s ptr in
  match r with
  | Some (p, idx) =>
      let! h := if isDirty then flip_dirty p (shm s) else Ok (shm s) in
      let! shmid := load (shmidVec s) idx in
      let! x := get_meta h p in
      Ok (Some (shmid, shmInnerId x), with_shm h s)
  | None => Ok (None, s)
  end.

(** The name, the block, the size and the number of the blocks. *)
Definition getBufOwnerInfoAndSetDirty (ptr : Z) (isDirty : bool) (s : FsLibMemMng) : res (option (string * Z * Z * Z) * FsLibMemMng) :=
  let! r := findDataPtrMeta s ptr in
  match r with
  | Some (p, idx) =>
      let! h := if isDirty then flip_dirty p (shm s) else Ok (shm s) in
      let! x := get_meta h p in
      let! a := load (bufferMemArrVec s) idx in
      Ok (Some (memArrName a, shmInnerId x, blockSize a, numBlocks a), with_shm h s)
  | None => Ok (None, s)
  end.

Definition setShmIDForIdx (idx shmid : Z) (s : FsLibMemMng) : res FsLibMemMng :=
  let! v := store (shmidVec s) idx shmid in
  Ok (mk_mng (shm s) (mem s) (bufferMemArrVec s) (bufferAllocator s) v (shmFnameVec s)).

(** The name, size and number of blocks, and identifier of a memory. *)
Definition getShmConfigForIdx (b : build) (idx : Z) (s : FsLibMemMng) : res (string * Z * Z * Z) :=
  let! blksz := load kBlockSizeArr idx in
  let! total := load (kPerSizeTotalBytes b) idx in
  let! name := load (shmFnameVec s) idx in
  let! shmid := load (shmidVec s) idx in
  Ok (name, blksz, to_u32 (total / blksz), shmid).

(** ** Allocation of single pages *)

Record FsLibLinearCacheAllocator : Type := mk_cache {
  cacheMemBytes : Z;
  cacheAllocatedBytes : Z;
  freeList : list metaptr
}.

Definition newLinearCacheAllocator (a : SingleSizeMemBlockArr) : res FsLibLinearCacheAllocator :=
  let! free := push_blocks a (seqZ 0 (numBlocks a)) in
  Ok (mk_cache (to_u32 (blockSize a * numBlocks a)) 0 free).

Definition flip_in_use (p : metaptr) (h : headers) : res headers :=
  let! x := get_meta h p in
  set_meta h p (mk_meta (to_u8 (UTIL_BIT_FLIP (flags x) MEM_BLOCK_META_IN_USE_MASK)) (dataPtrOffset x) (shmInnerId x) (bSize x) (numPages x)).

Definition in_use (x : MemBlockMeta) : bool := negb (Z.land (flags x) MEM_BLOCK_META_IN_USE_MASK =? 0).

Definition doAllocateOnePage (c : FsLibLinearCacheAllocator) (h : headers) : res (option metaptr * FsLibLinearCacheAllocator * headers) :=
  match last (freeList c) with
  | None => Ok (None, c, h)
  | Some p =>
      let! x := get_meta h p in
      let! _ := check (negb (in_use x)) in
      let! h := flip_in_use p h in
      Ok (Some p, mk_cache (to_u64 (cacheMemBytes c - gFsLibMallocPageSize)) (cacheAllocatedBytes c) (removelast (freeList c)), h)
  end.

Definition doFreePage (c : FsLibLinearCacheAllocator) (h : headers) (p : metaptr) : res (FsLibLinearCacheAllocator * headers) :=
  let! x := get_meta h p in
  let! _ := check (in_use x) in
  let! h := flip_in_use p h in
  Ok (mk_cache (to_u64 (cacheMemBytes c + gFsLibMallocPageSize)) (cacheAllocatedBytes c) (freeList c ++ [p]), h).

(** ** The side of the server *)

#[global] Instance arr_eq_dec : EqDecision SingleSizeMemBlockArr.
Proof. solve_decision. Defined.

Record AppProc : Type := mk_app {
  pid : Z;
  shmIdIncr : Z;
  shmNameMemArrMap : gmap string SingleSizeMemBlockArr;
  shmIdArrMap : gmap Z SingleSizeMemBlockArr
}.

(** [emplace] on the map of identifiers: an entry that exists stays. *)
Definition emplace_id (id : Z) (a : SingleSizeMemBlockArr) (m : gmap Z SingleSizeMemBlockArr) : gmap Z SingleSizeMemBlockArr :=
  match m !! id with Some _ => m | None => <[id := a]> m end.

(** The identifier of an array, or -1. *)
Definition find_shm_id (a : SingleSizeMemBlockArr) (m : gmap Z SingleSizeMemBlockArr) : Z :=
  match list_find (fun kv => kv.2 = a) (map_to_list m) with Some (_, (id, _)) => id | None => -1 end.

(** [sg] and [addr]: the memory of that name and where [shmOpenAttach] maps it. *)
Definition initNewAllocatedShm (shmName : string) (bsz n sg addr : Z) (ap : AppProc) : res (Z * SingleSizeMemBlockArr * AppProc) :=
  match shmNameMemArrMap ap !! shmName with
  | Some a =>
      let shmId := find_shm_id a (shmIdArrMap ap) in
      let! _ := check (0 <? shmId) in
      Ok (to_u8 shmId, a, ap)
  | None =>
      let cur := shmIdIncr ap in
      let total := computeBlockArrShmSizeBytes bsz n in
      let! a := attachMemBlockArr sg bsz n total addr shmName true in
      Ok (cur, a, mk_app (pid ap) (to_u8 (cur + 1))
                    (<[shmName := a]> (shmNameMemArrMap ap)) (emplace_id cur a (shmIdArrMap ap)))
  end.

(** The memories of all processes. *)
Notation GlobalAppShmIds := (gmap Z (gmap Z SingleSizeMemBlockArr)) (only parsing).

Definition AddAppShm (p id : Z) (a : SingleSizeMemBlockArr) (g : GlobalAppShmIds) : GlobalAppShmIds :=
  <[p := <[id := a]> (default ∅ (g !! p))]> g.
Definition QueryAppShm (p id : Z) (g : GlobalAppShmIds) : option SingleSizeMemBlockArr :=
  match g !! p with None => None | Some m => m !! id end.
Definition HandleAppExit (p : Z) (g : GlobalAppShmIds) : GlobalAppShmIds := delete p g.

(** An identifier that is known nowhere is an exception. *)
Definition getDataPtrByShmIdAndDataId (g : GlobalAppShmIds) (h : headers) (shmId dataId : Z) (ap : AppProc) : res (Z * AppProc) :=
  match shmIdArrMap ap !! shmId with
  | Some a => let! p := getDataPtrFromId a h dataId in Ok (p, ap)
  | None =>
      match QueryAppShm (pid ap) shmId g with
      | None => Crash AssertFail
      | Some a =>
          let! p := getDataPtrFromId a h dataId in
          Ok (p, mk_app (pid ap) (shmIdIncr ap) (shmNameMemArrMap ap) (emplace_id shmId a (shmIdArrMap ap)))
      end
  end.

(** The part of [processNewShmAllocated] that registers a memory, in the master. *)
Definition registerShm (shmName : string) (bsz n sg addr : Z) (ap : AppProc) (g : GlobalAppShmIds) : res (Z * AppProc * GlobalAppShmIds) :=
  let! (id, a, ap) := initNewAllocatedShm shmName bsz n sg addr ap in
  Ok (id, ap, AddAppShm (pid ap) id a g).

(** [insert] of a range into the map of identifiers: entries that exist stay. *)
Definition overwriteOpenedShmIds (arrs : gmap Z SingleSizeMemBlockArr) (ap : AppProc) : AppProc :=
  mk_app (pid ap) (shmIdIncr ap) (shmNameMemArrMap ap) (shmIdArrMap ap ∪ arrs).

(** ** One process in the server

    The master and every worker have an [AppProc] for the process; worker 0 is the master. *)
Record shm_server : Type := mk_srv {
  s_master : AppProc;
  s_workers : gmap Z AppProc;
  s_glob : GlobalAppShmIds
}.

Definition worker_app (w : Z) (v : shm_server) : AppProc :=
  if w =? 0 then s_master v
  else default (mk_app (pid (s_master v)) 0 ∅ ∅) (s_workers v !! w).
Definition set_worker_app (w : Z) (ap : AppProc) (v : shm_server) : shm_server :=
  if w =? 0 then mk_srv ap (s_workers v) (s_glob v)
  else mk_srv (s_master v) (<[w := ap]> (s_workers v)) (s_glob v).

(** The client announces a memory to the master. *)
Definition srv_register (name : string) (bsz n sg addr : Z) (v : shm_server) : res (Z * shm_server) :=
  let! (id, ap, g) := registerShm name bsz n sg addr (s_master v) (s_glob v) in
  Ok (id, mk_srv ap (s_workers v) g).

(** A worker receives [ShmMsg], which carries a pointer to the map of the master. *)
Definition recvShmMsg (w : Z) (v : shm_server) : shm_server :=
  set_worker_app w (overwriteOpenedShmIds (shmIdArrMap (s_master v)) (worker_app w v)) v.

(** A worker looks up the buffer of a request. *)
Definition srv_lookup (w : Z) (h : headers) (shmId dataId : Z) (v : shm_server) : res (Z * shm_server) :=
  let! (q, ap) := getDataPtrByShmIdAndDataId (s_glob v) h shmId dataId (worker_app w v) in
  Ok (q, set_worker_app w ap v).

(** What can happen while the process lives; other processes come and go. *)
Inductive srv_op : Type :=
| SRegister (name : string) (bsz n sg addr : Z)
| SRecvShmMsg (w : Z)
| SLookup (w : Z) (h : headers) (shmId dataId : Z)
| SOther (p : Z) (m : option (gmap Z SingleSizeMemBlockArr)).

Definition srv_step (v : shm_server) (o : srv_op) : res shm_server :=
  match o with
  | SRegister name bsz n sg addr => let! (_, v) := srv_register name bsz n sg addr v in Ok v
  | SRecvShmMsg w => Ok (recvShmMsg w v)
  | SLookup w h shmId dataId => let! (_, v) := srv_lookup w h shmId dataId v in Ok v
  | SOther p m =>
      if p =? pid (s_master v) then Ok v
      else Ok (mk_srv (s_master v) (s_workers v)
                 (match m with Some x => <[p := x]> (s_glob v) | None => HandleAppExit p (s_glob v) end))
  end.

Definition srv_run (ops : list srv_op) (v : shm_server) : res shm_server := foldM srv_step ops v.

Definition is_register (o : srv_op) : bool := match o with SRegister _ _ _ _ _ => true | _ => false end.
Definition registers (ops : list srv_op) : Z := Z.of_nat (length (List.filter is_register ops)).

(** The process has just connected. *)
Definition new_srv (p : Z) (g : GlobalAppShmIds) : shm_server := mk_srv (mk_app p 0 ∅ ∅) ∅ (delete p g).

(** ** Blocks *)

(** The block size, the number of blocks, and the class of a size. *)
Definition bsz (i : Z) : Z := nth (Z.to_nat i) kBlockSizeArr 0.
Definition cnt (b : build) (i : Z) : Z := nth (Z.to_nat i) (kPerSizeTotalBytes b) 0 / bsz i.
Definition hdr (b : build) (i : Z) : Z := computeBlockArrShmHeaderBytes (cnt b i).
Definition size_class (n : Z) : option Z :=
  if n <=? 0 then None else if n <=? bsz 0 then Some 0 else if n <=? bsz 1 then Some 1 else if n <=? bsz 2 then Some 2 else None.

Lemma load_store {A} (m : list A) i v m' j : store m i v = Ok m' -> load m' j = if decide (j = i) then Ok v else load m j.
Proof.
  intros H. case_decide as E1; [subst j; by eapply load_store_same |]. by apply (load_store_other m m' i j v H).
Qed.

Lemma load_storable {A} (m : list A) i v v' : load m i = Ok v -> exists m', store m i v' = Ok m'.
Proof. intros [Hi Hl]%load_ok. apply lookup_lt_Some in Hl. eexists. apply store_ok. lia. Qed.

Section Client.
Context (b : build) (appid memMngId : Z) (base : Z -> Z).

(** Where block [j] of class [i] is in the memory of the client. *)
Definition block_start (i j : Z) : Z := base i + hdr b i + bsz i * j.

Definition arr_of (i : Z) : SingleSizeMemBlockArr :=
  mk_arr i (base i + hdr b i) (bsz i) (cnt b i) (hdr b i) (computeBlockArrShmSizeBytes (bsz i) (cnt b i))
    (getSingleSizeMemBlockArrName (bsz i / 1024) appid memMngId) (meta_ptrs i (cnt b i)).

(** What the client relies on in [malloc] and [mmap]: the memories are not null and do not overlap. *)
Definition mapped : Prop :=
  (forall i, 0 <= i < 3 -> 0 < base i /\ base i + hdr b i + bsz i * cnt b i < 2 ^ 64) /\
  (forall i i', 0 <= i < 3 -> 0 <= i' < 3 -> i <> i' ->
     base i + hdr b i + bsz i * cnt b i <= base i' \/ base i' + hdr b i' + bsz i' * cnt b i' <= base i).

Definition free_list (s : FsLibMemMng) (i : Z) : list metaptr :=
  default [] (perSizeFreeListVec (bufferAllocator s) !! Z.to_nat i).

(** The bytes of the blocks of a class that are not free. *)
Definition spent (s : FsLibMemMng) (i : Z) : Z := bsz i * (cnt b i - Z.of_nat (length (free_list s i))).

Record wf (s : FsLibMemMng) : Prop := mk_wf {
  wf_arrs : bufferMemArrVec s = [arr_of 0; arr_of 1; arr_of 2];
  wf_num : blockSizeNum (bufferAllocator s) = 3;
  wf_sizes : helperBlockSizeVec (bufferAllocator s) = [0; bsz 0; bsz 1; bsz 2];
  wf_perSize : perSizeMemArrVec (bufferAllocator s) = [arr_of 0; arr_of 1; arr_of 2];
  wf_lists : length (perSizeFreeListVec (bufferAllocator s)) = 3%nat;
  wf_metas : forall i j, 0 <= i < 3 -> 0 <= j < cnt b i ->
    exists x, get_meta (shm s) (i, j) = Ok x /\ dataPtrOffset x = bsz i * j /\ shmInnerId x = j /\ bSize x = bsz i;
  wf_free : forall i, 0 <= i < 3 -> NoDup (free_list s i) /\
    (forall p, p ∈ free_list s i -> p.1 = i /\ 0 <= p.2 < cnt b i);
  wf_bytes : memBytes (bufferAllocator s) = bsz 0 * cnt b 0 + bsz 1 * cnt b 1 + bsz 2 * cnt b 2;
  wf_total : totalAllocatedBytes (bufferAllocator s) = spent s 0 + spent s 1 + spent s 2;
  wf_shmids : length (shmidVec s) = 3%nat
}.

(** ** Lemmas *)

Lemma classes i : 0 <= i < 3 -> i = 0 \/ i = 1 \/ i = 2.
Proof. lia. Qed.

Lemma class_sizes i : 0 <= i < 3 ->
  0 < bsz i /\ 0 < cnt b i /\ bsz i * cnt b i < 2 ^ 32 /\ 0 <= hdr b i < 2 ^ 32 /\ size_class (bsz i) = Some i /\
  load kBlockSizeArr i = Ok (bsz i) /\
  match load (kPerSizeTotalBytes b) i with Ok t => to_u32 (t / bsz i) = cnt b i | Crash _ => False end.
Proof. intros [-> | [-> | ->]]%classes; destruct b; vm_compute; repeat split; congruence. Qed.

Lemma size_class_range n i : size_class n = Some i -> 0 <= i < 3 /\ 0 < n <= bsz i.
Proof. unfold size_class. repeat case_if; intros [= <-]; lia. Qed.

Lemma class_index s n : wf s -> fromBlockSize2VecIdx (bufferAllocator s) n = Ok (default (-1) (size_class n)).
Proof.
  intros H. unfold fromBlockSize2VecIdx. rewrite (wf_num _ H). change (S (Z.to_nat 3)) with 4%nat. cbn [size_loop]. rewrite (wf_num _ H), (wf_sizes _ H).
  cbv -[Z.leb Z.ltb andb]. repeat case_if; try done; lia.
Qed.

Lemma free_lookup s i : wf s -> 0 <= i < 3 -> load (perSizeFreeListVec (bufferAllocator s)) i = Ok (free_list s i).
Proof.
  intros H Hi. unfold load, free_list. rewrite (proj2 (Z.ltb_ge i 0)) by lia. pose proof (wf_lists _ H).
  destruct (_ !! _) eqn:E1; [done |]. apply lookup_ge_None in E1. lia.
Qed.

Lemma block_list_length i (l : list metaptr) : 0 <= i < 3 -> NoDup l -> (forall p, p ∈ l -> p.1 = i /\ 0 <= p.2 < cnt b i) ->
  Z.of_nat (length l) <= cnt b i.
Proof.
  intros Hi Hn Hr. destruct (class_sizes i Hi) as (_ & Hc & _).
  assert (Hsub : l ⊆ meta_ptrs i (cnt b i)).
  { intros [x j] Hin. destruct (Hr _ Hin) as [Hx Hj]. cbn in *. subst x. unfold meta_ptrs. apply list_elem_of_fmap. exists j.
    split; [done |]. apply elem_of_seqZ. lia. }
  apply (NoDup_submseteq _ _ Hn), submseteq_length in Hsub. unfold meta_ptrs in Hsub. rewrite length_fmap, length_seqZ in Hsub. lia.
Qed.

Lemma free_length s i : wf s -> 0 <= i < 3 -> Z.of_nat (length (free_list s i)) <= cnt b i.
Proof. intros H Hi. destruct (wf_free _ H i Hi). by apply block_list_length. Qed.

(** The state with another free list of class [i]. *)
Definition put_list (s : FsLibMemMng) (i : Z) (l : list metaptr) (total : Z) : FsLibMemMng :=
  let al := bufferAllocator s in
  with_alloc (mk_alloc (blockSizeNum al) (helperBlockSizeVec al) (perSizeMemArrVec al)
    (<[Z.to_nat i := l]> (perSizeFreeListVec al)) (memBytes al) total) s.

Lemma put_free s i l total i' : wf s -> 0 <= i < 3 -> 0 <= i' < 3 ->
  free_list (put_list s i l total) i' = if decide (i' = i) then l else free_list s i'.
Proof.
  intros H Hi Hi'. unfold free_list, put_list. cbn. pose proof (wf_lists _ H). case_decide as E1.
  - subst i'. by rewrite list_lookup_insert_eq by lia.
  - by rewrite list_lookup_insert_ne by lia.
Qed.

Lemma put_wf s i l : wf s -> 0 <= i < 3 -> NoDup l -> (forall p, p ∈ l -> p.1 = i /\ 0 <= p.2 < cnt b i) ->
  forall total, total = totalAllocatedBytes (bufferAllocator s) + bsz i * (Z.of_nat (length (free_list s i)) - Z.of_nat (length l)) ->
  wf (put_list s i l total).
Proof.
  intros Hw Hi Hn Hl total Ht. pose proof (put_free s i l total) as Hf. pose proof Hw as [H1 H2 H3 H4 H5 H6 H7 H8 H9 H10].
  split; try done.
  - cbn. by rewrite length_insert.
  - intros i' Hi'. rewrite (Hf i' Hw Hi Hi'). case_decide as E1; [by subst i' | by apply H7].
  - transitivity total; [done |]. unfold spent. rewrite (Hf 0), (Hf 1), (Hf 2) by (done || lia). rewrite Ht, H9. unfold spent. destruct (classes i Hi) as [-> | [-> | ->]]; repeat case_decide; try lia.
Qed.

Lemma total_range s : wf s -> 0 <= totalAllocatedBytes (bufferAllocator s) <= memBytes (bufferAllocator s) /\ memBytes (bufferAllocator s) < 3 * 2 ^ 32.
Proof.
  intros H. rewrite (wf_total _ H), (wf_bytes _ H). unfold spent.
  pose proof (free_length s 0 H ltac:(lia)). pose proof (free_length s 1 H ltac:(lia)). pose proof (free_length s 2 H ltac:(lia)).
  destruct (class_sizes 0 ltac:(lia)) as (? & ? & ? & _), (class_sizes 1 ltac:(lia)) as (? & ? & ? & _), (class_sizes 2 ltac:(lia)) as (? & ? & ? & _). nia.
Qed.

(** An allocation takes the last free block of the class. *)
Lemma mallocInner_spec s n z : wf s ->
  mallocInner n z s =
    match size_class n with
    | None => Ok (inl FsLibMem_ERR_MALLOC_SIZE_NOT_SUPPORT, s)
    | Some i =>
        match last (free_list s i) with
        | None => Ok (inl FsLibMem_ERR_FREE_NOT_FOUND, s)
        | Some p =>
            let addr := block_start i p.2 in
            let s' := put_list s i (removelast (free_list s i)) (totalAllocatedBytes (bufferAllocator s) + bsz i) in
            Ok (inr addr, if z then with_mem (memset0 addr n (mem s)) s' else s')
        end
    end.
Proof.
  intros H. assert (Hid : with_alloc (bufferAllocator s) s = s) by (by destruct s).
  unfold mallocInner, doAllocate. rewrite (class_index s n H). cbn [res_bind].
  destruct (size_class n) as [i |] eqn:Ec; cbn [default from_option]; [| cbn; by rewrite Hid].
  destruct (size_class_range n i Ec) as [Hi Hn]. unfold id. rewrite (proj2 (Z.ltb_ge i 0)) by lia. rewrite (free_lookup s i H Hi). cbn [res_bind].
  destruct (last (free_list s i)) as [p |] eqn:El; [| cbn; by rewrite Hid].
  pose proof (wf_lists _ H) as Hlen. unfold store. rewrite (proj2 (Z.leb_le 0 i)), (proj2 (Z.ltb_lt i _)) by lia. cbn [andb res_bind].
  assert (Hin : p ∈ free_list s i) by (by apply last_Some_elem_of).
  destruct (proj2 (wf_free _ H i Hi) p Hin) as [Hp1 Hp2]. destruct p as [i' j]. cbn in Hp1, Hp2. subst i'.
  destruct (wf_metas _ H i j Hi Hp2) as (x & Ex & Hoff & _).
  assert (Hsz : load (helperBlockSizeVec (bufferAllocator s)) (i + 1) = Ok (bsz i)).
  { rewrite (wf_sizes _ H). by destruct (classes i Hi) as [-> | [-> | ->]]. }
  assert (Ha : load (perSizeMemArrVec (bufferAllocator s)) i = Ok (arr_of i)).
  { rewrite (wf_perSize _ H). by destruct (classes i Hi) as [-> | [-> | ->]]. }
  rewrite Hsz, Ha. cbn [res_bind]. rewrite Ex. cbn [res_bind]. unfold fromDataPtrOffset2Addr. cbn [dataStartPtr arr_of].
  destruct (total_range s H) as [Hr1 Hr2].
  assert (Ht : to_u64 (totalAllocatedBytes (bufferAllocator s) + bsz i) = totalAllocatedBytes (bufferAllocator s) + bsz i).
  { apply Z.mod_small. destruct (class_sizes i Hi) as (? & ? & ? & _). split; [lia |]. nia. }
  rewrite Ht, Hoff. done.
Qed.

(** ** Addresses *)

Section Addresses.
Context (Hmap : mapped).

Lemma in_arr i p : 0 <= i < 3 ->
  isAddrInBlock (arr_of i) p = (base i + hdr b i <=? p) && (p <? base i + hdr b i + bsz i * cnt b i).
Proof.
  intros Hi. unfold isAddrInBlock. cbn [dataStartPtr numBlocks blockSize arr_of]. destruct (class_sizes i Hi) as (? & ? & ? & _).
  unfold to_u32. rewrite Z.mod_small by nia. rewrite (Z.mul_comm (cnt b i)).
  apply eq_true_iff_eq. rewrite !andb_true_iff, !Z.leb_le, !Z.ltb_lt. lia.
Qed.

Lemma arr_apart i i' p : 0 <= i < 3 -> 0 <= i' < 3 -> i <> i' ->
  base i + hdr b i <= p < base i + hdr b i + bsz i * cnt b i -> isAddrInBlock (arr_of i') p = false.
Proof.
  intros Hi Hi' Hne Hp. rewrite in_arr by done. apply andb_false_iff. rewrite Z.leb_gt, Z.ltb_ge.
  destruct (class_sizes i Hi) as (_ & _ & _ & ? & _), (class_sizes i' Hi') as (_ & _ & _ & ? & _). destruct (proj2 Hmap i i' Hi Hi' Hne); lia.
Qed.

Lemma find_block s i j p : wf s -> 0 <= i < 3 -> 0 <= j < cnt b i -> block_start i j <= p < block_start i j + bsz i ->
  findDataPtrMeta s p = Ok (Some ((i, j), i)).
Proof.
  intros H Hi Hj Hp. unfold block_start in Hp. destruct (class_sizes i Hi) as (Hb & Hc & _ & Hh & _). destruct (proj1 Hmap i Hi) as [Hb0 Hb64].
  assert (Hin : base i + hdr b i <= p < base i + hdr b i + bsz i * cnt b i) by nia.
  assert (Hfind : find_arr [arr_of 0; arr_of 1; arr_of 2] 0 p = Some (i, arr_of i)).
  { cbn [find_arr]. pose proof (in_arr i p Hi) as Ei. rewrite (proj2 (Z.leb_le _ _)), (proj2 (Z.ltb_lt _ _)) in Ei by lia.
    pose proof (fun i' Hi' Hne => arr_apart i i' p Hi Hi' Hne Hin) as Ha. clear Hin.
    destruct (classes i Hi) as [-> | [-> | ->]].
    - by rewrite Ei.
    - rewrite (Ha 0) by lia. by rewrite Ei.
    - rewrite (Ha 0), (Ha 1) by lia. by rewrite Ei. }
  unfold findDataPtrMeta. rewrite (wf_arrs _ H). change (Z.to_nat kBlockSizeNum) with 3%nat. cbn [take firstn]. rewrite Hfind.
  unfold dataPtr2MemBlock. cbn [dataStartPtr blockSize arr_of blockVec]. unfold to_u64. rewrite Z.mod_small by lia.
  assert (Hq : (p - (base i + hdr b i)) / bsz i = j).
  { symmetry. apply (Z.div_unique _ _ _ (p - (base i + hdr b i) - bsz i * j)); lia. }
  rewrite Hq. unfold load. rewrite (proj2 (Z.ltb_ge j 0)) by lia. unfold meta_ptrs. rewrite list_lookup_fmap, lookup_seqZ_lt by lia. cbn.
  by rewrite Z2Nat.id by lia.
Qed.

Lemma Free_spec s i j p err : wf s -> 0 <= i < 3 -> 0 <= j < cnt b i -> block_start i j <= p < block_start i j + bsz i ->
  (i, j) ∉ free_list s i ->
  let s' := put_list s i (free_list s i ++ [(i, j)]) (totalAllocatedBytes (bufferAllocator s) - bsz i) in
  Free p err s = Ok (err, s') /\ wf s'.
Proof.
  intros H Hi Hj Hp Hni. cbv zeta. destruct (wf_free _ H i Hi) as [Hn Hr].
  assert (Hn' : NoDup (free_list s i ++ [(i, j)])) by (apply NoDup_app; split; [done |]; split; [set_solver | apply NoDup_singleton]).
  assert (Hr' : forall q, q ∈ free_list s i ++ [(i, j)] -> q.1 = i /\ 0 <= q.2 < cnt b i) by (intros q [Hq | ->%list_elem_of_singleton]%elem_of_app; [by apply Hr | done]).
  assert (Hw : wf (put_list s i (free_list s i ++ [(i, j)]) (totalAllocatedBytes (bufferAllocator s) - bsz i))).
  { apply put_wf; [done .. |]. rewrite length_app. cbn. lia. }
  split; [| done]. unfold Free. rewrite (find_block s i j p H Hi Hj Hp). cbn [res_bind]. unfold doFree.
  destruct (wf_metas _ H i j Hi Hj) as (x & Ex & _ & _ & Hbs). rewrite Ex. cbn [res_bind]. rewrite Hbs, (class_index s _ H).
  destruct (class_sizes i Hi) as (_ & _ & _ & _ & -> & _). cbn [res_bind default from_option]. unfold id. rewrite (proj2 (Z.ltb_ge i 0)) by lia.
  assert (Hsz : load (helperBlockSizeVec (bufferAllocator s)) (i + 1) = Ok (bsz i)).
  { rewrite (wf_sizes _ H). by destruct (classes i Hi) as [-> | [-> | ->]]. }
  rewrite Hsz, (free_lookup s i H Hi). cbn [res_bind]. pose proof (wf_lists _ H) as Hlen. unfold store.
  rewrite (proj2 (Z.leb_le 0 i)), (proj2 (Z.ltb_lt i _)) by lia. cbn [andb res_bind].
  assert (Ht : 0 <= totalAllocatedBytes (bufferAllocator s) - bsz i) by exact (proj1 (proj1 (total_range _ Hw))). destruct (total_range s H) as [? ?]. destruct (class_sizes i Hi) as (? & ? & ? & _).
  unfold to_u64. rewrite Z.mod_small by lia. done.
Qed.
End Addresses.


(** ** Initialisation *)

Definition metas_of (i : Z) : list MemBlockMeta :=
  (fun j => mk_meta 0 (to_u32 (bsz i * j)) j (bsz i) (bsz i / gFsLibMallocPageSize)) <$> seqZ 0 (cnt b i).

Lemma init_size_spec s i : 0 <= i < 3 ->
  init_size b appid memMngId s i (base i) =
    Ok (mk_mng (shm s ++ [metas_of i]) (memset0 (base i) (totalMemBytes (arr_of i)) (mem s)) (bufferMemArrVec s ++ [arr_of i])
          (bufferAllocator s) (shmidVec s ++ [to_u8 (-1)]) (shmFnameVec s ++ [memArrName (arr_of i)])).
Proof.
  intros Hi. destruct (class_sizes i Hi) as (_ & _ & _ & _ & _ & Hs & Ht). unfold init_size. rewrite Hs. cbn [res_bind].
  destruct (load (kPerSizeTotalBytes b) i) as [t |]; [| done]. cbn [res_bind]. rewrite Ht.
  assert (Hpg : bsz i mod gFsLibMallocPageSize =? 0 = true) by (by destruct (classes i Hi) as [-> | [-> | ->]]). rewrite Hpg. cbn [check res_bind].
  unfold layoutMemBlockArr. rewrite Z.eqb_refl. cbn [check res_bind]. done.
Qed.

Lemma push_blocks_spec a js : (forall j, j ∈ js -> blockVec a !! Z.to_nat j = Some (seg a, j) /\ 0 <= j) ->
  push_blocks a js = Ok ((fun j => (seg a, j)) <$> js).
Proof.
  induction js as [| j js IH]; intros H; cbn [push_blocks fmap list_fmap]; [done |]. destruct (H j ltac:(by left)) as [Hj Hj0].
  unfold load. rewrite (proj2 (Z.ltb_ge j 0)) by lia. rewrite Hj. cbn [res_bind]. rewrite IH; [done |]. intros k Hk. apply H. by right.
Qed.

Lemma push_all i : 0 <= i < 3 -> push_blocks (arr_of i) (seqZ 0 (cnt b i)) = Ok (meta_ptrs i (cnt b i)).
Proof.
  intros Hi. apply (push_blocks_spec (arr_of i)). intros j [? ?]%elem_of_seqZ. split; [| lia]. cbn [blockVec seg arr_of]. unfold meta_ptrs.
  rewrite list_lookup_fmap, lookup_seqZ_lt by lia. cbn. by rewrite Z2Nat.id by lia.
Qed.

Definition start (m : memory) : FsLibMemMng :=
  mk_mng [metas_of 0; metas_of 1; metas_of 2]
    (memset0 (base 2) (totalMemBytes (arr_of 2)) (memset0 (base 1) (totalMemBytes (arr_of 1)) (memset0 (base 0) (totalMemBytes (arr_of 0)) m)))
    [arr_of 0; arr_of 1; arr_of 2]
    (mk_alloc 3 [0; bsz 0; bsz 1; bsz 2] [arr_of 0; arr_of 1; arr_of 2]
       [meta_ptrs 0 (cnt b 0); meta_ptrs 1 (cnt b 1); meta_ptrs 2 (cnt b 2)]
       (bsz 0 * cnt b 0 + bsz 1 * cnt b 1 + bsz 2 * cnt b 2) 0)
    [to_u8 (-1); to_u8 (-1); to_u8 (-1)] [memArrName (arr_of 0); memArrName (arr_of 1); memArrName (arr_of 2)].

Lemma init_start m : init b appid memMngId [Some (base 0); Some (base 1); Some (base 2)] m = Ok (Some (start m)).
Proof.
  unfold init. change (Z.to_nat kBlockSizeNum) with 3%nat. cbn [take firstn init_loop].
  rewrite (init_size_spec _ 0) by lia. cbn [res_bind]. rewrite (init_size_spec _ 1) by lia. cbn [res_bind]. change (1 + 1) with 2.
  rewrite (init_size_spec _ 2) by lia. cbn [res_bind shm mem bufferMemArrVec bufferAllocator shmidVec shmFnameVec app].
  unfold newLinearListsAllocator. change (seqZ 0 kBlockSizeNum) with [0; 1; 2]. cbn [foldM].
  change (load kBlockSizeArr 0) with (Ok (bsz 0)). change (load kBlockSizeArr 1) with (Ok (bsz 1)). change (load kBlockSizeArr 2) with (Ok (bsz 2)).
  change (load [arr_of 0; arr_of 1; arr_of 2] 0) with (Ok (arr_of 0)). change (load [arr_of 0; arr_of 1; arr_of 2] 1) with (Ok (arr_of 1)).
  change (load [arr_of 0; arr_of 1; arr_of 2] 2) with (Ok (arr_of 2)).
  cbn [res_bind numBlocks blockSize arr_of]. rewrite (push_all 0), (push_all 1), (push_all 2) by lia.
  cbn [res_bind app blockSizeNum helperBlockSizeVec perSizeMemArrVec perSizeFreeListVec memBytes totalAllocatedBytes].
  destruct (class_sizes 0 ltac:(lia)) as (? & ? & ? & _), (class_sizes 1 ltac:(lia)) as (? & ? & ? & _), (class_sizes 2 ltac:(lia)) as (? & ? & ? & _).
  rewrite !(Z.mul_comm (cnt b _)). assert (0 < bsz 0 * cnt b 0 /\ 0 < bsz 1 * cnt b 1 /\ 0 < bsz 2 * cnt b 2) as (? & ? & ?) by nia.
  unfold start, to_u32, to_u64. generalize dependent (bsz 0 * cnt b 0). generalize dependent (bsz 1 * cnt b 1). generalize dependent (bsz 2 * cnt b 2).
  intros x2 ? ? x1 ? ? x0 ? ?. rewrite !(Z.mod_small _ (2 ^ 32)) by lia.
  by rewrite (Z.mod_small (0 + x0)), (Z.mod_small (0 + x0 + x1)), (Z.mod_small (0 + x0 + x1 + x2)) by lia.
Qed.

Lemma start_free m i : 0 <= i < 3 -> free_list (start m) i = meta_ptrs i (cnt b i).
Proof. intros Hi. by destruct (classes i Hi) as [-> | [-> | ->]]. Qed.

Lemma start_wf m : wf (start m).
Proof.
  split; try done.
  - intros i j Hi Hj. destruct (class_sizes i Hi) as (? & ? & ? & _). exists (mk_meta 0 (bsz i * j) j (bsz i) (bsz i / gFsLibMallocPageSize)). split; [| done].
    assert (Hl : load (shm (start m)) i = Ok (metas_of i)) by (by destruct (classes i Hi) as [-> | [-> | ->]]).
    assert (Hu : to_u32 (bsz i * j) = bsz i * j) by (apply Z.mod_small; nia).
    unfold get_meta. cbn [fst snd]. rewrite Hl. cbn [res_bind]. unfold load. rewrite (proj2 (Z.ltb_ge j 0)) by lia.
    unfold metas_of. rewrite list_lookup_fmap, lookup_seqZ_lt by lia. cbn [fmap option_fmap option_map]. rewrite Z2Nat.id by lia. change (0 + j) with j. by rewrite Hu.
  - intros i Hi. rewrite (start_free m i Hi). unfold meta_ptrs. split.
    + apply NoDup_fmap_2; [intros x y; congruence | apply NoDup_seqZ].
    + intros p (j & -> & [? ?]%elem_of_seqZ)%list_elem_of_fmap. cbn. lia.
  - unfold spent. rewrite !start_free by lia. unfold meta_ptrs. rewrite !length_fmap, !length_seqZ.
    destruct (class_sizes 0 ltac:(lia)) as (_ & ? & _), (class_sizes 1 ltac:(lia)) as (_ & ? & _), (class_sizes 2 ltac:(lia)) as (_ & ? & _).
    rewrite !Z2Nat.id by lia. rewrite !Z.sub_diag, !Z.mul_0_r. done.
Qed.


(** ** Histories of a client *)

(** The calls of a client that frees the buffers it holds; [held] are the addresses and the sizes it asked for. *)
Inductive step : FsLibMemMng * list (Z * Z) -> FsLibMemMng * list (Z * Z) -> Prop :=
| step_malloc n z s s' p held : mallocInner n z s = Ok (inr p, s') -> step (s, held) (s', (p, n) :: held)
| step_refused n z s s' e held : mallocInner n z s = Ok (inl e, s') -> step (s, held) (s', held)
| step_free s s' e e' p n L1 L2 : Free p e s = Ok (e', s') -> step (s, L1 ++ (p, n) :: L2) (s', L1 ++ L2)
| step_write s m held : step (s, held) (with_mem m s, held).

(** From [init], with the memories at [base]. *)
Definition reachable (m : memory) (c : FsLibMemMng * list (Z * Z)) : Prop :=
  exists s0, init b appid memMngId [Some (base 0); Some (base 1); Some (base 2)] m = Ok (Some s0) /\ rtc step (s0, []) c.

(** Block [j] of class [i] serves a request for [n] bytes at [p]. *)
Definition serves (s : FsLibMemMng) (i j p n : Z) : Prop :=
  size_class n = Some i /\ 0 <= j < cnt b i /\ p = block_start i j /\ (i, j) ∉ free_list s i.

Record inv (c : FsLibMemMng * list (Z * Z)) : Prop := mk_inv {
  inv_wf : wf c.1;
  inv_held : forall p n, (p, n) ∈ c.2 -> exists i j, serves c.1 i j p n;
  inv_nodup : NoDup c.2.*1;
  inv_all : forall i j, 0 <= i < 3 -> 0 <= j < cnt b i -> (i, j) ∈ free_list c.1 i \/ block_start i j ∈ c.2.*1
}.

Section Histories.
Context (Hmap : mapped).

Lemma blocks_apart i j i' j' : 0 <= i < 3 -> 0 <= i' < 3 -> 0 <= j < cnt b i -> 0 <= j' < cnt b i' -> (i, j) <> (i', j') ->
  block_start i j + bsz i <= block_start i' j' \/ block_start i' j' + bsz i' <= block_start i j.
Proof.
  intros Hi Hi' Hj Hj' Hne. unfold block_start. destruct (class_sizes i Hi) as (? & _ & _ & ? & _), (class_sizes i' Hi') as (? & _ & _ & ? & _).
  destruct (decide (i = i')) as [<- | Hii]; [assert (j <> j') by congruence; nia |]. destruct (proj2 Hmap i i' Hi Hi' Hii); nia.
Qed.

Lemma block_start_inj i j i' j' : 0 <= i < 3 -> 0 <= i' < 3 -> 0 <= j < cnt b i -> 0 <= j' < cnt b i' ->
  block_start i j = block_start i' j' -> (i, j) = (i', j').
Proof.
  intros Hi Hi' Hj Hj' He. destruct (decide ((i, j) = (i', j'))) as [| Hne]; [done |]. exfalso.
  destruct (class_sizes i Hi) as (? & _), (class_sizes i' Hi') as (? & _). destruct (blocks_apart i j i' j'); [done .. | lia | lia].
Qed.

Lemma inv_start m : inv (start m, []).
Proof.
  split; cbn [fst snd]; [apply start_wf | set_solver | constructor |]. intros i j Hi Hj. left. rewrite start_free by done.
  unfold meta_ptrs. apply list_elem_of_fmap. exists j. split; [done |]. apply elem_of_seqZ. lia.
Qed.

(** What a successful allocation does. *)
Lemma malloc_inv s n z p s' : wf s -> mallocInner n z s = Ok (inr p, s') ->
  exists i j l m, size_class n = Some i /\ free_list s i = l ++ [(i, j)] /\ 0 <= j < cnt b i /\ p = block_start i j /\
    s' = with_mem m (put_list s i l (totalAllocatedBytes (bufferAllocator s) + bsz i)) /\
    m = if z then memset0 p n (mem s) else mem s.
Proof.
  intros H. rewrite (mallocInner_spec s n z H). destruct (size_class n) as [i |] eqn:Ec; [| done].
  destruct (size_class_range n i Ec) as [Hi _]. destruct (last (free_list s i)) as [[i' j] |] eqn:El; [| done].
  apply last_Some in El as [l El]. cbv zeta. rewrite El, removelast_last. cbn [snd].
  destruct (proj2 (wf_free _ H i Hi) (i', j)) as [Hi' Hj]; [rewrite El; set_solver |]. cbn in Hi', Hj. subst i'.
  intros [= <- <-]. exists i, j, l, (if z then memset0 (block_start i j) n (mem s) else mem s). split; [done |]. split; [done |]. split; [done |]. split; [done |]. split; [| done].
  by destruct z.
Qed.

Lemma with_mem_wf s m : wf s -> wf (with_mem m s).
Proof. intros [H1 H2 H3 H4 H5 H6 H7 H8 H9 H10]. by split. Qed.

Lemma take_wf s i j l : wf s -> 0 <= i < 3 -> free_list s i = l ++ [(i, j)] ->
  wf (put_list s i l (totalAllocatedBytes (bufferAllocator s) + bsz i)).
Proof.
  intros H Hi El. destruct (wf_free _ H i Hi) as [Hn Hr]. rewrite El in Hn, Hr. apply NoDup_app in Hn as (Hn & _).
  apply put_wf; [done | done | done | intros q Hq; apply Hr; set_solver |]. rewrite El, length_app. cbn. lia.
Qed.

Lemma free_mono s s' i j p n : serves s i j p n -> (forall q, q ∈ free_list s' i -> q ∈ free_list s i \/ q <> (i, j)) -> serves s' i j p n.
Proof. intros (Ec & Hj & Hp & Hni) Hs. split; [done |]. split; [done |]. split; [done |]. intros Hin. by destruct (Hs _ Hin). Qed.

Lemma malloc_keeps s s' n z p held : inv (s, held) -> mallocInner n z s = Ok (inr p, s') -> inv (s', (p, n) :: held).
Proof.
  intros [Hw Hh Hn Ha] Hm. cbn [fst snd] in *. destruct (malloc_inv _ _ _ _ _ Hw Hm) as (i & j & l & m & Ec & El & Hj & -> & -> & _).
  destruct (size_class_range n i Ec) as [Hi _]. pose proof (proj1 (wf_free _ Hw i Hi)) as Hnf. rewrite El in Hnf. apply NoDup_app in Hnf as (_ & Hnf & _).
  set (s' := with_mem m _). assert (Hfree : forall i', 0 <= i' < 3 -> free_list s' i' = if decide (i' = i) then l else free_list s i') by (intros; by apply put_free).
  assert (Hin_l : forall q, q ∈ free_list s i <-> q ∈ l \/ q = (i, j)) by (intros q; rewrite El, elem_of_app, list_elem_of_singleton; done).
  split; cbn [fst snd].
  - apply with_mem_wf. by eapply take_wf.
  - intros q k [[= -> ->] | Hin]%elem_of_cons.
    + exists i, j. split; [done |]. split; [done |]. split; [done |]. rewrite Hfree, decide_True by done. intros Hin. by apply (Hnf _ Hin), list_elem_of_singleton.
    + destruct (Hh q k Hin) as (i' & j' & Hs). exists i', j'. eapply free_mono; [exact Hs |]. intros r. destruct (size_class_range k i' (proj1 Hs)) as [Hi' _].
      rewrite Hfree by done. case_decide; [subst i'; rewrite Hin_l |]; tauto.
  - cbn. constructor; [| done]. intros ([q k] & Hq & Hin)%list_elem_of_fmap. cbn in Hq. destruct (Hh q k Hin) as (i' & j' & Ec' & Hj' & -> & Hni).
    destruct (size_class_range k i' Ec') as [Hi' _]. pose proof (block_start_inj i j i' j' Hi Hi' Hj Hj' Hq) as [= <- <-]. apply Hni, Hin_l. by right.
  - intros i' j' Hi' Hj'. rewrite Hfree by done. destruct (Ha i' j' Hi' Hj') as [Hin | Hin]; [| right; by right]. case_decide as E1; [| by left].
    subst i'. apply Hin_l in Hin as [Hin | [= ->]]; [by left | right; by left].
Qed.

Lemma free_keeps s s' e e' p n L1 L2 : inv (s, L1 ++ (p, n) :: L2) -> Free p e s = Ok (e', s') -> inv (s', L1 ++ L2).
Proof.
  intros [Hw Hh Hn Ha] Hf. cbn [fst snd] in *. destruct (Hh p n) as (i & j & Ec & Hj & -> & Hni); [apply elem_of_app; right; by left |].
  destruct (size_class_range n i Ec) as [Hi _]. destruct (class_sizes i Hi) as (? & _).
  destruct (Free_spec Hmap s i j (block_start i j) e Hw Hi Hj ltac:(lia) Hni) as [E1 Hw']. rewrite E1 in Hf. injection Hf as <- <-.
  set (s' := put_list s i _ _) in *. assert (Hfree : forall i' q, 0 <= i' < 3 -> q ∈ free_list s' i' <-> q ∈ free_list s i' \/ q = (i, j) /\ i' = i).
  { intros i' q Hi'. unfold s'. rewrite put_free by done. case_decide as E2; [subst i'; rewrite elem_of_app, list_elem_of_singleton; tauto | tauto]. }
  rewrite fmap_app, fmap_cons in Hn. cbn in Hn. apply NoDup_app in Hn as (Hn1 & Hn2 & [Hn3 Hn4]%NoDup_cons).
  split; cbn [fst snd]; [done | | rewrite fmap_app; apply NoDup_app; split; [done |]; split; [intros q Hq Hq'; apply (Hn2 q Hq); by right | done] |].
  - intros q k Hin. destruct (Hh q k) as (i' & j' & Hs); [apply elem_of_app in Hin as [? | ?]; apply elem_of_app; [by left | right; by right] |].
    exists i', j'. eapply free_mono; [exact Hs |]. intros r. destruct (size_class_range k i' (proj1 Hs)) as [Hi' _]. rewrite Hfree by done.
    intros [Hr | [-> ->]]; [by left |]. right. intros [= <-]. destruct Hs as (_ & _ & -> & _).
    apply (list_elem_of_fmap_2 fst) in Hin. rewrite fmap_app in Hin. cbn in Hin. apply elem_of_app in Hin as [Hin | Hin]; [by apply (Hn2 _ Hin); left | done].
  - intros i' j' Hi' Hj'. rewrite Hfree by done. destruct (Ha i' j' Hi' Hj') as [Hin | Hin]; [left; by left |].
    rewrite fmap_app, fmap_cons in Hin. rewrite fmap_app. apply elem_of_app in Hin as [Hin | [Hin | Hin]%elem_of_cons]; [right; apply elem_of_app; by left | | right; apply elem_of_app; by right].
    pose proof (block_start_inj i' j' i j Hi' Hi Hj' Hj Hin) as [= -> ->]. left. by right.
Qed.

Lemma step_inv c c' : step c c' -> inv c -> inv c'.
Proof.
  intros Hst Hi. destruct Hst as [n z s s' p held Hm | n z s s' e held Hm | s s' e e' p n L1 L2 Hf | s m held].
  - by eapply malloc_keeps.
  - rewrite (mallocInner_spec s n z (inv_wf _ Hi)) in Hm. destruct (size_class n) as [i |]; [destruct (last (free_list s i)) |]; simplify_eq; done.
  - by eapply free_keeps.
  - destruct Hi as [Hw Hh Hn Ha]. split; cbn [fst snd] in *; [by apply with_mem_wf | done | done | done].
Qed.

Lemma client_inv m c : reachable m c -> inv c.
Proof.
  intros (s0 & E0 & Hr). rewrite init_start in E0. injection E0 as <-. pose proof (inv_start m) as H. revert H Hr.
  generalize (start m, @nil (Z * Z)). intros c0 H0 Hr.
  induction Hr as [| x y z Hs _ IH]; [done |]. apply IH. by eapply step_inv.
Qed.
End Histories.

(** ** Blocks by number *)

Lemma get_meta_set h p q x h' : set_meta h p x = Ok h' -> get_meta h' q = if decide (q = p) then Ok x else get_meta h q.
Proof.
  unfold set_meta, get_meta. destruct p as [p1 p2], q as [q1 q2]. cbn [fst snd].
  destruct (load h p1) as [l |] eqn:E1; cbn [res_bind]; [| done]. destruct (store l p2 x) as [l' |] eqn:E2; cbn [res_bind]; [| done]. intros E3.
  rewrite (load_store _ _ _ _ q1 E3). destruct (decide (q1 = p1)) as [-> | Hne]; cbn [res_bind].
  - rewrite (load_store _ _ _ _ q2 E2), E1. cbn [res_bind]. repeat case_decide; congruence.
  - rewrite decide_False by congruence. done.
Qed.

Lemma set_meta_ok h p x y : get_meta h p = Ok y -> exists h', set_meta h p x = Ok h'.
Proof.
  unfold set_meta, get_meta. destruct p as [p1 p2]. cbn [fst snd]. destruct (load h p1) as [l |] eqn:E1; cbn [res_bind]; [| done]. intros E2.
  destruct (load_storable l p2 y x E2) as [l' ->]. cbn [res_bind]. by apply (load_storable h p1 l l').
Qed.

Lemma flip_dirty_wf s i j : wf s -> 0 <= i < 3 -> 0 <= j < cnt b i ->
  exists h, flip_dirty (i, j) (shm s) = Ok h /\ wf (with_shm h s).
Proof.
  intros H Hi Hj. destruct (wf_metas _ H i j Hi Hj) as (x & Ex & H1 & H2 & H3). unfold flip_dirty. rewrite Ex. cbn [res_bind].
  set (x' := mk_meta _ _ _ _ _). destruct (set_meta_ok _ _ x' _ Ex) as [h Eh]. exists h. split; [done |].
  destruct H as [G1 G2 G3 G4 G5 G6 G7 G8 G9 G10]. split; try done.
  intros i' j' Hi' Hj'. cbn [shm with_shm]. rewrite (get_meta_set _ _ (i', j') _ _ Eh). case_decide as E1; [| by apply G6].
  injection E1 as -> ->. exists x'. done.
Qed.

(** The client names a block by its memory and its number. *)
Lemma getBufOwnerInfo_spec (Hmap : mapped) s i j p d : wf s -> 0 <= i < 3 -> 0 <= j < cnt b i -> block_start i j <= p < block_start i j + bsz i ->
  exists id h, load (shmidVec s) i = Ok id /\ getBufOwnerInfo p d s = Ok (Some (id, j), with_shm h s) /\ wf (with_shm h s).
Proof.
  intros H Hi Hj Hp. unfold getBufOwnerInfo. rewrite (find_block Hmap s i j p H Hi Hj Hp). cbn [res_bind].
  destruct (load_in_range (shmidVec s) i) as [id Eid]; [rewrite (wf_shmids _ H); lia |]. exists id.
  assert (exists h, (if d then flip_dirty (i, j) (shm s) else Ok (shm s)) = Ok h /\ wf (with_shm h s)) as (h & -> & Hw).
  { destruct d; [by apply flip_dirty_wf |]. exists (shm s). split; [done |]. by destruct s. }
  exists h. split; [done |]. cbn [res_bind]. rewrite Eid. cbn [res_bind]. destruct (wf_metas _ Hw i j Hi Hj) as (x & Ex & _ & Hid & _). cbn [shm with_shm] in Ex.
  rewrite Ex. cbn [res_bind]. by rewrite Hid.
Qed.

Lemma remote_block s i j a : wf s -> 0 <= i < 3 -> 0 <= j < cnt b i -> seg a = i -> numBlocks a = cnt b i ->
  getDataPtrFromId a (shm s) j = Ok (dataStartPtr a + bsz i * j).
Proof.
  intros H Hi Hj Hs Hn. unfold getDataPtrFromId, getMetaFromId. rewrite Hn, (proj2 (Z.leb_gt _ j)), Hs by lia.
  destruct (wf_metas _ H i j Hi Hj) as (x & -> & Hoff & _). cbn [res_bind]. by rewrite Hoff.
Qed.

Lemma serves_bounds (Hmap : mapped) s i j p n : serves s i j p n ->
  0 <= i < 3 /\ base i + hdr b i <= p /\ 0 < n /\ p + n <= block_start i j + bsz i /\ p + n <= base i + hdr b i + bsz i * cnt b i.
Proof.
  intros (Ec & Hj & -> & _). destruct (size_class_range n i Ec) as [Hi Hn]. destruct (class_sizes i Hi) as (? & ? & _).
  unfold block_start. split; [done |]. split; [nia |]. split; [lia |]. split; nia.
Qed.

Lemma put_back s i j l : wf s -> 0 <= i < 3 -> free_list s i = l ++ [(i, j)] ->
  let t := totalAllocatedBytes (bufferAllocator s) in
  put_list (put_list s i l (t + bsz i)) i (l ++ [(i, j)]) (t + bsz i - bsz i) = s.
Proof.
  intros H Hi El. cbv zeta. rewrite Z.add_simpl_r. pose proof (free_lookup s i H Hi) as Hl. apply load_ok in Hl as [_ Hl]. rewrite El in Hl.
  unfold put_list. destruct s as [sh me ar [bn hb ps fl mb ta] si sf]. cbn in *. by rewrite list_insert_insert_eq, list_insert_id by done.
Qed.
End Client.

(** ** Correctness *)

(** C26. Whatever a client that frees only what it holds does, the buffers it holds do not
    overlap, each lies inside the data of one of the three memories, every block is either
    free or held, and [getFreeSize] is the size of the free blocks. *)
Theorem held_buffers_disjoint (b : build) (appid memMngId : Z) (base : Z -> Z) (m : memory) (s : FsLibMemMng) (held : list (Z * Z)) :
  mapped b base -> reachable b appid memMngId base m (s, held) ->
  (forall u v p n q k, u <> v -> held !! u = Some (p, n) -> held !! v = Some (q, k) -> p + n <= q \/ q + k <= p) /\
  (forall p n, (p, n) ∈ held -> exists i, 0 <= i < 3 /\ base i + hdr b i <= p /\ p + n <= base i + hdr b i + bsz i * cnt b i) /\
  (forall i j, 0 <= i < 3 -> 0 <= j < cnt b i -> (i, j) ∈ free_list s i \/ block_start b base i j ∈ held.*1) /\
  getFreeSize (bufferAllocator s) =
    bsz 0 * Z.of_nat (length (free_list s 0)) + bsz 1 * Z.of_nat (length (free_list s 1)) + bsz 2 * Z.of_nat (length (free_list s 2)).
Proof.
  intros Hmap Hr. destruct (client_inv _ _ _ _ Hmap _ _ Hr) as [Hw Hh Hn Ha]. cbn [fst snd] in *. split; [| split; [| split; [done |]]].
  - intros u v p n q k Huv Hu Hv. destruct (Hh p n) as (i & j & Hs); [by eapply list_elem_of_lookup_2 |].
    destruct (Hh q k) as (i' & j' & Hs'); [by eapply list_elem_of_lookup_2 |].
    destruct (serves_bounds _ _ Hmap _ _ _ _ _ Hs) as (Hi & _ & _ & Hend & _). destruct (serves_bounds _ _ Hmap _ _ _ _ _ Hs') as (Hi' & _ & _ & Hend' & _).
    destruct Hs as (_ & Hj & -> & _), Hs' as (_ & Hj' & -> & _).
    destruct (blocks_apart b base Hmap i j i' j'); [done .. | | lia | lia]. intros [= <- <-]. apply Huv.
    apply (NoDup_lookup held.*1 u v (block_start b base i j) Hn); by rewrite list_lookup_fmap, ?Hu, ?Hv.
  - intros p n Hin. destruct (Hh p n Hin) as (i & j & Hs). exists i. by destruct (serves_bounds _ _ Hmap _ _ _ _ _ Hs) as (? & ? & ? & ? & ?).
  - unfold getFreeSize. destruct (total_range _ _ _ _ _ Hw) as [? ?]. unfold to_u64. rewrite Z.mod_small by lia.
    rewrite (wf_total _ _ _ _ _ Hw), (wf_bytes _ _ _ _ _ Hw). unfold spent. lia.
Qed.

(** No call fails without a reason: a request is refused exactly when no block is as large
    (or none is asked for), or when every block of the smallest fitting size is held; a
    buffer that is held can be freed, and [err] is left as it was. *)
Theorem buffer_calls_succeed (b : build) (appid memMngId : Z) (base : Z -> Z) (m : memory) (s : FsLibMemMng) (held : list (Z * Z)) (n : Z) (z : bool) :
  mapped b base -> reachable b appid memMngId base m (s, held) ->
  (exists p s', mallocInner n z s = Ok (inr p, s') /\ reachable b appid memMngId base m (s', (p, n) :: held)) \/
  (size_class n = None /\ mallocInner n z s = Ok (inl FsLibMem_ERR_MALLOC_SIZE_NOT_SUPPORT, s)) \/
  (exists i, size_class n = Some i /\ mallocInner n z s = Ok (inl FsLibMem_ERR_FREE_NOT_FOUND, s) /\
     forall j, 0 <= j < cnt b i -> block_start b base i j ∈ held.*1).
Proof.
  intros Hmap Hr. destruct (client_inv _ _ _ _ Hmap _ _ Hr) as [Hw Hh Hn Ha]. cbn [fst snd] in *.
  destruct (mallocInner n z s) as [[[e | p] s'] |] eqn:Em; pose proof Em as Em'; rewrite (mallocInner_spec _ _ _ _ _ _ _ Hw) in Em'.
  - right. destruct (size_class n) as [i |] eqn:Ec; [| left; split; [done | by injection Em' as <- <-]]. right. exists i. split; [done |].
    destruct (last (free_list s i)) eqn:El; [done |]. injection Em' as <- <-. split; [done |]. intros j Hj. apply last_None in El.
    destruct (size_class_range n i Ec) as [Hi _]. destruct (Ha i j Hi Hj) as [Hin | Hin]; [| done]. rewrite El in Hin. set_solver.
  - left. exists p, s'. split; [done |]. destruct Hr as (s0 & E0 & Hr). exists s0. split; [done |]. eapply rtc_r; [exact Hr |]. by eapply step_malloc.
  - destruct (size_class n); [destruct (last (free_list s _)) |]; done.
Qed.

(** Freeing a buffer gives back the state before its allocation. *)
Theorem malloc_free_roundtrip (b : build) (appid memMngId : Z) (base : Z -> Z) (m : memory) (s s' : FsLibMemMng) (held : list (Z * Z)) (n p err : Z) :
  mapped b base -> reachable b appid memMngId base m (s, held) -> Malloc n s = Ok (inr p, s') -> Free p err s' = Ok (err, s).
Proof.
  intros Hmap Hr Hm. destruct (client_inv _ _ _ _ Hmap _ _ Hr) as [Hw _ _ _]. cbn [fst] in Hw.
  destruct (malloc_inv b appid memMngId base Hmap s n false p s' Hw Hm) as (i & j & l & m' & Ec & El & Hj & -> & -> & ->).
  destruct (size_class_range n i Ec) as [Hi Hn]. destruct (class_sizes b i Hi) as (? & _).
  set (s1 := with_mem (mem s) _). assert (Es1 : s1 = put_list s i l (totalAllocatedBytes (bufferAllocator s) + bsz i)) by done.
  assert (Hw1 : wf b appid memMngId base s1) by (rewrite Es1; by eapply take_wf).
  assert (Hf1 : free_list s1 i = l) by (rewrite Es1, (put_free b appid memMngId base) by done; by rewrite decide_True).
  destruct (Free_spec b appid memMngId base Hmap s1 i j (block_start b base i j) err Hw1 Hi Hj ltac:(lia)) as [-> _].
  - rewrite Hf1. pose proof (proj1 (wf_free _ _ _ _ _ Hw i Hi)) as Hnf. rewrite El in Hnf. apply NoDup_app in Hnf as (_ & Hnf & _).
    intros Hin. by apply (Hnf _ Hin), list_elem_of_singleton.
  - rewrite Hf1, Es1. f_equal. f_equal. exact (put_back b appid memMngId base s i j l Hw Hi El).
Qed.

(** After at most [n] registrations the master knows the memory of every identifier given
    out, the global map agrees with it, and no worker knows anything else. *)
Record srv_inv (p n : Z) (v : shm_server) : Prop := mk_srv_inv {
  si_pid : forall w, pid (worker_app w v) = p;
  si_incr : shmIdIncr (s_master v) = to_u8 n;
  si_ids : forall id a, shmIdArrMap (s_master v) !! id = Some a -> 0 <= id < n;
  si_glob : forall id, QueryAppShm p id (s_glob v) = shmIdArrMap (s_master v) !! id;
  si_workers : forall w id a, shmIdArrMap (worker_app w v) !! id = Some a ->
    shmIdArrMap (s_master v) !! id = Some a
}.

Lemma worker_set w w' ap v :
  worker_app w (set_worker_app w' ap v) =
    if decide (w = w') then ap
    else if decide (w' = 0)
    then default (mk_app (pid ap) 0 ∅ ∅) (s_workers v !! w)
    else worker_app w v.
Proof.
  unfold worker_app, set_worker_app. destruct (Z.eqb_spec w 0), (Z.eqb_spec w' 0);
    repeat case_decide; simplify_eq; cbn [s_master s_workers]; try done.
  - by rewrite lookup_insert_eq.
  - by rewrite lookup_insert_ne.
Qed.

Lemma master_set w ap v : s_master (set_worker_app w ap v) = if decide (w = 0) then ap else s_master v.
Proof. unfold set_worker_app. destruct (Z.eqb_spec w 0); case_decide; done. Qed.

Lemma glob_set w ap v : s_glob (set_worker_app w ap v) = s_glob v.
Proof. unfold set_worker_app. by destruct (w =? 0). Qed.

(** An [AppProc] learns entries that the master has. *)
Lemma srv_learn p n v w m :
  srv_inv p n v ->
  (forall id a, m !! id = Some a -> shmIdArrMap (s_master v) !! id = Some a) ->
  (w = 0 -> m = shmIdArrMap (s_master v)) ->
  let ap := worker_app w v in
  let v' := set_worker_app w (mk_app (pid ap) (shmIdIncr ap) (shmNameMemArrMap ap) m) v in
  srv_inv p n v' /\ shmIdArrMap (s_master v') = shmIdArrMap (s_master v).
Proof.
  intros [H1 H2 H3 H4 H5] Hm H0 ap v'.
  assert (Em : shmIdArrMap (s_master v') = shmIdArrMap (s_master v)).
  { unfold v'. rewrite master_set. case_decide as E; [by apply H0 | done]. }
  assert (Ew : forall x, worker_app x v' = (if decide (x = w) then mk_app (pid ap) (shmIdIncr ap) (shmNameMemArrMap ap) m else worker_app x v)).
  { intros x. unfold v'. rewrite worker_set. case_decide; [done |]. case_decide as E; [| done].
    subst w. unfold worker_app. by destruct (Z.eqb_spec x 0). }
  split; [| done]. split.
  - intros x. rewrite Ew. case_decide; [apply (H1 w) | apply H1].
  - unfold v'. rewrite master_set. case_decide as E; [| done]. unfold ap. subst w. done.
  - intros id a. rewrite Em. apply H3.
  - intros id. rewrite Em. unfold v'. rewrite glob_set. apply H4.
  - intros x id a. rewrite Ew, Em. case_decide; [apply Hm | apply H5].
Qed.

(** Adding to the global map what the master has for the identifier. *)
Lemma query_add p id a g m : (forall x, QueryAppShm p x g = m !! x) ->
  forall x, QueryAppShm p x (AddAppShm p id a g) = (<[id := a]> m : gmap Z SingleSizeMemBlockArr) !! x.
Proof.
  intros H x. specialize (H x). unfold QueryAppShm, AddAppShm in *. rewrite lookup_insert_eq.
  destruct (decide (x = id)) as [-> | Hne]; [by rewrite !lookup_insert_eq |].
  rewrite !lookup_insert_ne by done. rewrite <- H. by destruct (g !! p); [| apply lookup_empty].
Qed.

Lemma srv_register_inv p n v name bs k sg addr id v' :
  srv_inv p n v -> 0 <= n < 256 -> srv_register name bs k sg addr v = Ok (id, v') ->
  (srv_inv p n v' \/ srv_inv p (n + 1) v') /\
  shmIdArrMap (s_master v) ⊆ shmIdArrMap (s_master v') /\
  (shmNameMemArrMap (s_master v) !! name = None -> exists a,
     attachMemBlockArr sg bs k (computeBlockArrShmSizeBytes bs k) addr name true = Ok a /\
     shmIdArrMap (s_master v') !! id = Some a).
Proof.
  intros [H1 H2 H3 H4 H5] Hn E. unfold srv_register in E. inv_bind E. destruct a as [[id0 ap] g].
  injection E as <- <-. unfold registerShm in E0. inv_bind E0. destruct a as [[id1 a] ap1].
  injection E0 as <- <- <-. unfold initNewAllocatedShm in E. pose proof (H1 0) as Hp. cbn in Hp.
  destruct (shmNameMemArrMap (s_master v) !! name) as [a' |] eqn:Ename.
  - inv_bind E. injection E as <- <- <-. unfold find_shm_id in *. destruct (list_find _ _) as [[k' [id a1]] |] eqn:Ef; [| done].
    apply list_find_Some in Ef as (Hk & Ha & _). cbn in Ha. subst a1.
    apply list_elem_of_lookup_2, elem_of_map_to_list in Hk. pose proof (H3 _ _ Hk).
    assert (Eid : to_u8 id = id) by (unfold to_u8; apply Z.mod_small; lia).
    split; [left | by split]. split; cbn [s_master s_workers s_glob]; try done.
    intros x. rewrite Eid, Hp, (query_add _ _ _ _ _ H4). by rewrite insert_id.
  - inv_bind E. injection E as <- <- <-. cbn [pid].
    assert (En : shmIdIncr (s_master v) = n) by (rewrite H2; unfold to_u8; apply Z.mod_small; lia). rewrite En.
    assert (Hnew : shmIdArrMap (s_master v) !! n = None).
    { destruct (shmIdArrMap (s_master v) !! n) eqn:Ex; [| done]. specialize (H3 _ _ Ex). lia. }
    unfold emplace_id. rewrite Hnew. cbn [s_master shmIdArrMap].
    split; [right | split; [by apply insert_subseteq | intros _; exists a0; split; [done | apply lookup_insert_eq]]].
    split; cbn [s_master s_workers s_glob shmIdIncr shmIdArrMap].
    + intros w. specialize (H1 w). unfold worker_app in *. cbn [s_master s_workers pid]. destruct (w =? 0); [exact Hp | exact H1].
    + done.
    + intros x y. rewrite lookup_insert_Some. intros [[<- _] | [_ Hx]]; [lia | specialize (H3 _ _ Hx); lia].
    + intros x. rewrite Hp. by apply query_add.
    + intros w x y. unfold worker_app at 1. cbn [s_master s_workers pid]. destruct (w =? 0) eqn:Ew; [done |].
      intros Hx. rewrite lookup_insert_Some. right. specialize (H5 w x y). unfold worker_app in H5. rewrite Ew in H5.
      specialize (H5 Hx). split; [| done]. intros ->. congruence.
Qed.

Lemma srv_lookup_inv p n v w h id j q v' :
  srv_inv p n v -> srv_lookup w h id j v = Ok (q, v') ->
  srv_inv p n v' /\ shmIdArrMap (s_master v') = shmIdArrMap (s_master v).
Proof.
  intros Hi E. pose proof Hi as [H1 _ _ H4 H5]. unfold srv_lookup in E. inv_bind E. destruct a as [q0 ap]. injection E as <- <-.
  unfold getDataPtrByShmIdAndDataId in E0. rewrite H1, H4 in E0.
  assert (Esame : forall ap, ap = mk_app (pid ap) (shmIdIncr ap) (shmNameMemArrMap ap) (shmIdArrMap ap)) by (by intros []).
  destruct (shmIdArrMap (worker_app w v) !! id) as [a |] eqn:Ea.
  - inv_bind E0. injection E0 as <- <-. rewrite (Esame (worker_app w v)) at 1 2. apply srv_learn; [done | apply H5 | by intros ->].
  - destruct (shmIdArrMap (s_master v) !! id) as [a |] eqn:Em; [| done]. inv_bind E0. injection E0 as <- <-.
    rewrite <- (H1 w) at 2 3. apply srv_learn; [done | |].
    + unfold emplace_id. rewrite Ea. intros x y. rewrite lookup_insert_Some. intros [[<- <-] | [_ Hx]]; [done | by eapply H5].
    + intros ->. unfold worker_app in Ea. cbn in Ea. congruence.
Qed.

Lemma srv_step_inv p n v o v' :
  srv_inv p n v -> 0 <= n -> n + (if is_register o then 1 else 0) <= 256 -> srv_step v o = Ok v' ->
  (srv_inv p n v' \/ (is_register o = true /\ srv_inv p (n + 1) v')) /\
  shmIdArrMap (s_master v) ⊆ shmIdArrMap (s_master v').
Proof.
  intros Hi Hn0 Hn E. destruct o as [name bs k sg addr | w | w h id j | p' m]; cbn [srv_step is_register] in *.
  - inv_bind E. destruct a as [id v1]. injection E as <-.
    destruct (srv_register_inv _ _ _ _ _ _ _ _ _ _ Hi ltac:(lia) E0) as ([H | H] & Hs & _); auto.
  - injection E as <-. pose proof Hi as [_ _ _ _ H5]. unfold recvShmMsg, overwriteOpenedShmIds.
    destruct (srv_learn p n v w (shmIdArrMap (worker_app w v) ∪ shmIdArrMap (s_master v)) Hi) as [H ->].
    + intros x y. rewrite lookup_union_Some_raw. intros [Hx | [_ Hx]]; [by eapply H5 | done].
    + intros ->. apply map_union_idemp.
    + by split; [left |].
  - inv_bind E. destruct a as [q v1]. injection E as <-. destruct (srv_lookup_inv _ _ _ _ _ _ _ _ _ Hi E0) as [H ->]. by split; [left |].
  - pose proof Hi as [H1 H2 H3 H4 H5]. pose proof (H1 0) as Hp. cbn in Hp. case_if_in E; b2p; injection E as <-; [by split; [left |] |].
    split; [left | done]. split; try done. intros id. rewrite <- H4. unfold QueryAppShm. cbn [s_glob].
    destruct m; unfold HandleAppExit; [rewrite lookup_insert_ne by congruence | rewrite lookup_delete_ne by congruence]; done.
Qed.

Lemma srv_run_inv p n ops v v' :
  srv_inv p n v -> 0 <= n -> n + registers ops <= 256 -> srv_run ops v = Ok v' ->
  (exists n', n <= n' <= n + registers ops /\ srv_inv p n' v') /\
  shmIdArrMap (s_master v) ⊆ shmIdArrMap (s_master v').
Proof.
  unfold srv_run, registers. revert n v. induction ops as [| o ops IH]; intros n v Hi Hn0 Hn E; cbn [foldM List.filter length] in *.
  { injection E as <-. split; [| done]. exists n. split; [lia | done]. }
  inv_bind E. assert (Ho : n + (if is_register o then 1 else 0) <= 256) by (destruct (is_register o); cbn [length] in Hn; lia).
  destruct (srv_step_inv _ _ _ _ _ Hi Hn0 Ho E0) as [Hd Hs].
  assert (exists n1, n <= n1 /\ n1 + Z.of_nat (length (List.filter is_register ops)) <=
    n + Z.of_nat (length (if is_register o then o :: List.filter is_register ops else List.filter is_register ops)) /\ srv_inv p n1 a)
    as (n1 & Hn1 & Hle & Hi1).
  { destruct Hd as [H | [Er H]]; [exists n | exists (n + 1)]; split_and!; try done; try lia; destruct (is_register o); cbn [length]; lia || done. }
  destruct (IH n1 a Hi1 ltac:(lia) ltac:(lia) E) as [(n' & Hn' & Hi') Hs']. split; [exists n'; split; [lia | done] |].
  by etransitivity.
Qed.

Lemma new_srv_inv p g : srv_inv p 0 (new_srv p g).
Proof.
  assert (Hw : forall w, worker_app w (new_srv p g) = mk_app p 0 ∅ ∅).
  { intros w. unfold worker_app, new_srv. cbn. rewrite lookup_empty. by destruct (w =? 0). }
  split.
  - intros w. by rewrite Hw.
  - done.
  - intros id a Hx. cbn in Hx. by rewrite lookup_empty in Hx.
  - intros id. unfold QueryAppShm. cbn. rewrite lookup_delete_eq. symmetry. apply lookup_empty.
  - intros w id a. rewrite Hw. cbn. by rewrite lookup_empty.
Qed.

(** Every worker finds a memory that the master has. *)
Lemma srv_lookup_ok p n v w h id j a q :
  srv_inv p n v -> shmIdArrMap (s_master v) !! id = Some a -> getDataPtrFromId a h j = Ok q ->
  exists v', srv_lookup w h id j v = Ok (q, v').
Proof.
  intros [H1 _ _ H4 H5] Ha Hq. unfold srv_lookup, getDataPtrByShmIdAndDataId. rewrite H1, H4, Ha.
  destruct (shmIdArrMap (worker_app w v) !! id) as [a' |] eqn:Ea.
  - apply H5 in Ea as Ea'. assert (a' = a) as -> by congruence. rewrite Hq. cbn [res_bind]. eauto.
  - rewrite Hq. cbn [res_bind]. eauto.
Qed.

(** C27. The server finds the buffer that the client means.  From the moment a process
    connects until it exits, with at most 256 registrations of memories (the identifiers are
    bytes that wrap around after that): when the memory of class [i] was registered under a new
    name, mapped at address [addr] of the server, and the client was given the identifier, then
    after any later registrations, lookups and messages between workers, from what a request
    carries for an address in a block the master and every worker, whether they know the
    identifier already or not, find that block, at the same distance from the start of the
    memory. *)
Theorem server_finds_buffer (b : build) (appid memMngId : Z) (base : Z -> Z) (s : FsLibMemMng) (i j p addr : Z) (d : bool)
    (pd id w : Z) (g : GlobalAppShmIds) (ops1 ops2 : list srv_op) (v1 v2 v3 : shm_server) :
  mapped b base -> wf b appid memMngId base s -> 0 <= i < 3 -> 0 <= j < cnt b i ->
  block_start b base i j <= p < block_start b base i j + bsz i ->
  srv_run ops1 (new_srv pd g) = Ok v1 ->
  shmNameMemArrMap (s_master v1) !! memArrName (arr_of b appid memMngId base i) = None ->
  srv_register (memArrName (arr_of b appid memMngId base i)) (bsz i) (cnt b i) i addr v1 = Ok (id, v2) ->
  srv_run ops2 v2 = Ok v3 ->
  registers ops1 + 1 + registers ops2 <= 256 ->
  load (shmidVec s) i = Ok id ->
  exists s' v4 q, getBufOwnerInfo p d s = Ok (Some (id, j), s') /\
    srv_lookup w (shm s') id j v3 = Ok (q, v4) /\ q - addr = block_start b base i j - base i.
Proof.
  intros Hmap Hw Hi Hj Hp Hrun1 Hnew Hreg Hrun2 Hn Hid.
  destruct (getBufOwnerInfo_spec b appid memMngId base Hmap s i j p d Hw Hi Hj Hp) as (id' & h & Eid & -> & Hw').
  rewrite Hid in Eid. injection Eid as <-.
  assert (0 <= registers ops1 /\ 0 <= registers ops2) as [? ?] by (unfold registers; lia).
  destruct (srv_run_inv pd 0 ops1 _ _ (new_srv_inv pd g) ltac:(lia) ltac:(lia) Hrun1) as [(n1 & Hn1 & Hi1) _].
  destruct (srv_register_inv pd n1 _ _ _ _ _ _ _ _ Hi1 ltac:(lia) Hreg) as (Hi2 & _ & Ha).
  destruct (Ha Hnew) as (a & Eatt & Hma).
  assert (exists n3, srv_inv pd n3 v3 /\ shmIdArrMap (s_master v3) !! id = Some a) as (n3 & Hi3 & Hma3).
  { destruct Hi2 as [Hi2 | Hi2];
      destruct (srv_run_inv _ _ ops2 _ _ Hi2 ltac:(lia) ltac:(lia) Hrun2) as [(n3 & _ & Hi3) Hsub];
      exists n3; (split; [done | by eapply lookup_weaken]). }
  unfold attachMemBlockArr in Eatt. rewrite Z.eqb_refl in Eatt. cbn [check res_bind] in Eatt. injection Eatt as <-.
  set (a := mk_arr i _ _ _ _ _ _ _) in *.
  pose proof (remote_block b appid memMngId base _ i j a Hw' Hi Hj eq_refl eq_refl) as Hrem.
  destruct (srv_lookup_ok _ _ _ w _ _ _ _ _ Hi3 Hma3 Hrem) as [v4 Hl].
  eexists _, v4, _. split; [done |]. split; [exact Hl |].
  unfold a, block_start, hdr. cbn [dataStartPtr]. lia.
Qed.

(** ** Divergences *)

(** Marking a buffer dirty a second time marks it clean again. *)
Lemma dirty_twice_clean : UTIL_BIT_FLIP (UTIL_BIT_FLIP 0 MEM_BLOCK_META_DIRTY_MASK) MEM_BLOCK_META_DIRTY_MASK = 0.
Proof. done. Qed.

(** A memory registered when the identifiers have wrapped around: the master keeps the old
    memory for the identifier, and the global map has the new one. *)
Lemma wrapped_id_disagrees name n k sg addr ap g a0 :
  shmNameMemArrMap ap !! name = None -> shmIdArrMap ap !! shmIdIncr ap = Some a0 ->
  exists ap' g' a, registerShm name n k sg addr ap g = Ok (shmIdIncr ap, ap', g') /\
    shmIdArrMap ap' !! shmIdIncr ap = Some a0 /\ QueryAppShm (pid ap) (shmIdIncr ap) g' = Some a /\
    dataStartPtr a = addr + computeBlockArrShmHeaderBytes k.
Proof.
  intros Hn Ha. unfold registerShm, initNewAllocatedShm, attachMemBlockArr. rewrite Hn, Z.eqb_refl. cbn [check res_bind].
  eexists _, _, _. split; [done |]. cbn [shmIdArrMap]. unfold emplace_id, QueryAppShm, AddAppShm. rewrite Ha.
  split; [done |]. cbn [pid]. rewrite lookup_insert_eq, lookup_insert_eq. by split.
Qed.

(** The first memory of a process has the identifier 0: when the client registers it again,
    the exception is thrown that is meant for a name without identifier. *)
Lemma reregister_first_throws name n k sg addr addr' p g :
  exists a ap', initNewAllocatedShm name n k sg addr (mk_app p 0 ∅ ∅) = Ok (0, a, ap') /\
    registerShm name n k sg addr' ap' g = Crash AssertFail.
Proof.
  unfold registerShm, initNewAllocatedShm at 1, attachMemBlockArr. cbn [shmNameMemArrMap]. rewrite lookup_empty, Z.eqb_refl. cbn [check res_bind].
  eexists _, _. split; [done |]. unfold initNewAllocatedShm. cbn [shmNameMemArrMap shmIdArrMap]. rewrite lookup_insert_eq.
  unfold find_shm_id, emplace_id. rewrite lookup_empty, insert_empty, map_to_list_singleton. cbn [list_find]. by rewrite decide_True.
Qed.

(** ** Witnesses *)

Definition ex_base (i : Z) : Z := 2 ^ 33 * (i + 1).
Definition ex_start : FsLibMemMng := start EXTENT_DEFAULT 0 0 ex_base (fun _ => 0).

Lemma ex_mapped : mapped EXTENT_DEFAULT ex_base.
Proof.
  split.
  - intros i [-> | [-> | ->]]%classes; by vm_compute.
  - intros i i' [-> | [-> | ->]]%classes [-> | [-> | ->]]%classes Hne; try done; vm_compute; first [left; congruence | right; congruence].
Qed.

(** A buffer of 100 bytes and one of 9000 bytes. *)
Definition two_buffers (s : FsLibMemMng) : FsLibMemMng * list (Z * Z) :=
  match Malloc 100 s with
  | Ok (inr p, s1) => match Malloc 9000 s1 with Ok (inr q, s2) => (s2, [(q, 9000); (p, 100)]) | _ => (s1, [(p, 100)]) end
  | _ => (s, [])
  end.

Lemma two_buffers_reachable b appid memMngId base m s :
  init b appid memMngId [Some (base 0); Some (base 1); Some (base 2)] m = Ok (Some s) ->
  reachable b appid memMngId base m ((two_buffers s).1, (two_buffers s).2).
Proof.
  intros E0. rewrite <- surjective_pairing. exists s. split; [done |]. unfold two_buffers.
  destruct (Malloc 100 s) as [[[e | p] s1] |] eqn:E1; [apply rtc_refl | | apply rtc_refl].
  destruct (Malloc 9000 s1) as [[[e | q] s2] |] eqn:E2; [apply rtc_once; by eapply step_malloc | | apply rtc_once; by eapply step_malloc].
  eapply rtc_l; [by eapply step_malloc | apply rtc_once; by eapply step_malloc].
Qed.

Lemma meta_ptrs_snoc i n : 0 < n -> meta_ptrs i n = meta_ptrs i (n - 1) ++ [(i, n - 1)].
Proof.
  intros Hn. unfold meta_ptrs. replace n with (n - 1 + 1) at 1 by lia. rewrite seqZ_app by lia. rewrite fmap_app. f_equal.
Qed.

Lemma ex_free_0 : free_list ex_start 0 = meta_ptrs 0 32767 ++ [(0, 32767)].
Proof. unfold ex_start. rewrite start_free by lia. assert (C0 : cnt EXTENT_DEFAULT 0 = 32768) by reflexivity. by rewrite C0, meta_ptrs_snoc by lia. Qed.

Lemma ex_free_1 : free_list ex_start 1 = meta_ptrs 1 2729 ++ [(1, 2729)].
Proof. unfold ex_start. rewrite start_free by lia. assert (C1 : cnt EXTENT_DEFAULT 1 = 2730) by reflexivity. by rewrite C1, meta_ptrs_snoc by lia. Qed.

Lemma two_buffers_spec b appid memMngId base s l0 j0 l1 j1 : mapped b base -> wf b appid memMngId base s ->
  free_list s 0 = l0 ++ [(0, j0)] -> free_list s 1 = l1 ++ [(1, j1)] ->
  (two_buffers s).2 = [(block_start b base 1 j1, 9000); (block_start b base 0 j0, 100)].
Proof.
  intros Hmap Hw H0 H1. unfold two_buffers, Malloc. rewrite (mallocInner_spec _ _ _ _ s 100 false Hw). change (size_class 100) with (Some 0).
  cbv beta iota zeta. rewrite H0, last_snoc, removelast_last. set (s1 := put_list _ _ _ _).
  assert (Hw1 : wf b appid memMngId base s1) by (apply (take_wf b appid memMngId base Hmap s 0 j0 l0 Hw); [lia | done]).
  assert (Hf1 : free_list s1 1 = free_list s 1) by (unfold s1; rewrite (put_free b appid memMngId base s 0 _ _ 1 Hw) by lia; done).
  cbv beta iota zeta. rewrite (mallocInner_spec _ _ _ _ s1 9000 false Hw1). change (size_class 9000) with (Some 1). cbv beta iota zeta.
  by rewrite Hf1, H1, last_snoc.
Qed.

Lemma ex_two : (two_buffers ex_start).2 =
  [(block_start EXTENT_DEFAULT ex_base 1 2729, 9000); (block_start EXTENT_DEFAULT ex_base 0 32767, 100)].
Proof. exact (two_buffers_spec _ _ _ _ ex_start _ _ _ _ ex_mapped (start_wf EXTENT_DEFAULT 0 0 ex_base (fun _ => 0)) ex_free_0 ex_free_1). Qed.

Lemma held_buffers_disjoint_witness :
  mapped EXTENT_DEFAULT ex_base /\ reachable EXTENT_DEFAULT 0 0 ex_base (fun _ => 0) ((two_buffers ex_start).1, (two_buffers ex_start).2) /\
  (block_start EXTENT_DEFAULT ex_base 1 2729 + 9000 <= block_start EXTENT_DEFAULT ex_base 0 32767 \/
   block_start EXTENT_DEFAULT ex_base 0 32767 + 100 <= block_start EXTENT_DEFAULT ex_base 1 2729).
Proof.
  pose proof (two_buffers_reachable EXTENT_DEFAULT 0 0 ex_base (fun _ => 0) ex_start (init_start _ _ _ _ _)) as Hr.
  split; [exact ex_mapped |]. split; [exact Hr |].
  destruct (held_buffers_disjoint EXTENT_DEFAULT 0 0 ex_base (fun _ => 0) _ _ ex_mapped Hr) as [Hd _].
  apply (Hd 0%nat 1%nat); [discriminate | rewrite ex_two; reflexivity | rewrite ex_two; reflexivity].
Defined.

Lemma buffer_calls_succeed_witness :
  let s := (two_buffers ex_start).1 in let held := (two_buffers ex_start).2 in
  reachable EXTENT_DEFAULT 0 0 ex_base (fun _ => 0) (s, held) /\
  ((exists p s', mallocInner 100000000 true s = Ok (inr p, s') /\ reachable EXTENT_DEFAULT 0 0 ex_base (fun _ => 0) (s', (p, 100000000) :: held)) \/
   (size_class 100000000 = None /\ mallocInner 100000000 true s = Ok (inl FsLibMem_ERR_MALLOC_SIZE_NOT_SUPPORT, s)) \/
   (exists i, size_class 100000000 = Some i /\ mallocInner 100000000 true s = Ok (inl FsLibMem_ERR_FREE_NOT_FOUND, s) /\
     forall j, 0 <= j < cnt EXTENT_DEFAULT i -> block_start EXTENT_DEFAULT ex_base i j ∈ held.*1)).
Proof.
  pose proof (two_buffers_reachable EXTENT_DEFAULT 0 0 ex_base (fun _ => 0) ex_start (init_start _ _ _ _ _)) as Hr.
  cbv zeta. split; [exact Hr |]. exact (buffer_calls_succeed EXTENT_DEFAULT 0 0 ex_base (fun _ => 0) _ _ 100000000 true ex_mapped Hr).
Defined.

Lemma malloc_first b appid memMngId base s l j n : wf b appid memMngId base s -> size_class n = Some 0 -> free_list s 0 = l ++ [(0, j)] ->
  exists s', Malloc n s = Ok (inr (block_start b base 0 j), s').
Proof. intros Hw Hn H0. unfold Malloc. rewrite (mallocInner_spec _ _ _ _ s n false Hw), Hn. cbv beta iota zeta. rewrite H0, last_snoc. by eexists. Qed.

Lemma ex_start_malloc : exists s', Malloc 100 ex_start = Ok (inr (block_start EXTENT_DEFAULT ex_base 0 32767), s').
Proof. exact (malloc_first _ _ _ _ ex_start _ _ 100 (start_wf EXTENT_DEFAULT 0 0 ex_base (fun _ => 0)) eq_refl ex_free_0). Qed.

Lemma malloc_free_roundtrip_witness :
  exists s', Malloc 100 ex_start = Ok (inr (block_start EXTENT_DEFAULT ex_base 0 32767), s') /\
    Free (block_start EXTENT_DEFAULT ex_base 0 32767) 0 s' = Ok (0, ex_start).
Proof.
  destruct ex_start_malloc as [s' Hs']. exists s'. split; [exact Hs' |].
  refine (malloc_free_roundtrip EXTENT_DEFAULT 0 0 ex_base (fun _ => 0) ex_start s' [] 100 _ 0 ex_mapped _ Hs').
  exists ex_start. split; [exact (init_start _ _ _ _ _) | exact (rtc_refl _ _)].
Defined.

Lemma setShmIDForIdx_wf b appid memMngId base s i id : wf b appid memMngId base s -> 0 <= i < 3 ->
  exists s', setShmIDForIdx i id s = Ok s' /\ wf b appid memMngId base s' /\ load (shmidVec s') i = Ok id.
Proof.
  intros H Hi. unfold setShmIDForIdx. rewrite store_ok by (rewrite (wf_shmids _ _ _ _ _ H); lia). cbn [res_bind]. eexists. split; [done |].
  destruct H as [G1 G2 G3 G4 G5 G6 G7 G8 G9 G10]. split; [split; try done; cbn; by rewrite length_insert |].
  cbn [shmidVec]. apply load_ok. split; [lia |]. apply list_lookup_insert_eq. lia.
Qed.

Lemma register_first p g name n k sg addr : exists v,
  srv_register name n k sg addr (new_srv p g) = Ok (0, v).
Proof.
  unfold srv_register, registerShm, initNewAllocatedShm, attachMemBlockArr, new_srv. cbn [s_master shmNameMemArrMap].
  rewrite lookup_empty, Z.eqb_refl. by eexists _.
Qed.

(** The memory of class 0 is registered first and worker 2 gets the message; worker 3, which
    does not know the identifier, looks up block 5. *)
Lemma server_finds_buffer_witness :
  exists s v2,
    setShmIDForIdx 0 0 ex_start = Ok s /\
    srv_register (memArrName (arr_of EXTENT_DEFAULT 0 0 ex_base 0)) (bsz 0) (cnt EXTENT_DEFAULT 0) 0 4096 (new_srv 7 ∅) = Ok (0, v2) /\
    exists s' v4 q, getBufOwnerInfo (block_start EXTENT_DEFAULT ex_base 0 5 + 17) true s = Ok (Some (0, 5), s') /\
      srv_lookup 3 (shm s') 0 5 (recvShmMsg 2 v2) = Ok (q, v4) /\ q - 4096 = block_start EXTENT_DEFAULT ex_base 0 5 - ex_base 0.
Proof.
  destruct (setShmIDForIdx_wf EXTENT_DEFAULT 0 0 ex_base ex_start 0 0 (start_wf _ _ _ _ _) ltac:(lia)) as (s & Es & Hw & Hid).
  destruct (register_first 7 ∅ (memArrName (arr_of EXTENT_DEFAULT 0 0 ex_base 0)) (bsz 0) (cnt EXTENT_DEFAULT 0) 0 4096) as (v2 & Er).
  exists s, v2. split; [exact Es |]. split; [exact Er |].
  apply (server_finds_buffer EXTENT_DEFAULT 0 0 ex_base s 0 5 (block_start EXTENT_DEFAULT ex_base 0 5 + 17) 4096 true
           7 0 3 ∅ [] [SRecvShmMsg 2] (new_srv 7 ∅) v2 (recvShmMsg 2 v2));
    [exact ex_mapped | exact Hw | lia | change (cnt EXTENT_DEFAULT 0) with 32768; lia | change (bsz 0) with 8192; lia
    | reflexivity | apply lookup_empty | exact Er | reflexivity | discriminate | exact Hid].
Defined.

End FsLibMalloc.
